(* ===== verification/_CoqProject ===== *)
-Q . S2P
Prelude.v
Effects.v
Interfaces.v
Memory.v
Types.v
Pmm.v
Heap.v
Vmm.v
Tlb.v
Arch.v
Kernel.v
Proc.v
Ipc.v
Trap.v
Cpu.v
Context.v
Stub.v
Console.v
Initrd.v
Elf.v
Boot.v
Layout.v
User.v
Start.v
X86.v
