(* ===== verification/Prelude.v ===== *)
(** * Colix: a verification library for the Colix microkernel

    Colix is a small x86-64 kernel in C: a physical page allocator, page tables
    and a heap, a process table with a round-robin scheduler, message passing,
    system calls, a cpio file system loaded at boot, an ELF loader and a console.
    This library contains the kernel's C code as executable Rocq functions and
    its assembly as programs of a machine, one file per component, and the
    theorems that state what each component does and that they fit together:
    [Start.loader_to_idle] goes from the boot loader to the idle process,
    [Trap.kernel_inv_reachable] on from there through any interleaving, and
    [User.gokan_write_end_to_end] from an instruction of a user program through
    the kernel and back.

    ** How C is modelled

    A w-bit integer is a [Z] with its wrap-around written out ([u8] to [u64],
    [s32], below).  A C function over a component's state is a value of the
    monad [M] of file Effects: it returns, panics, runs out of fuel, or leaves
    the CPU for another process ([Switch], the effect of [switch_context], whose
    continuation runs in whatever state the kernel has then reached).  Output,
    port writes and privileged instructions are events of the run.  Memory is a
    map from addresses to bytes (file Memory); static variables are the fields
    of a record per component; pointers into the two static arrays of processes
    and messages are slot numbers, all others are addresses.  A component runs
    inside a larger state through a lens ([Lens], [lift]), whose laws say that
    it touches nothing else.

    Three parts of memory are kept in separate maps: what page tables and the
    code around them access (the [vmm] record), the heap's window ([heap]) and
    everything else ([k_mem]).  In the C code they are one memory, reached
    through addresses the kernel keeps apart; where the kernel does not keep
    them apart, a theorem says so ([Vmm.vmm_init_hides_frames]).

    ** The files

    - Prelude: machine integers, bits, record update.  Effects: the monad, runs,
      [result], [wp] (code that must return), [always] (code that may hand over
      the CPU; rely and guarantee are the same invariant).  Interfaces: the
      class [FrameAllocator].  Memory: bytes, [memset], [memcpy] (kernel/lib/mem.c
      and kernel/proc/proc.c).  Types: constants and [ALIGN_UP]
      (include/types.h, include/arch/x86_64.h), and [Link], the addresses the
      linker fixes.
    - Pmm (kernel/mm/pmm.c): the page bitmap.  The specification is a set of
      pages: [pmm_alloc] takes a free one, or returns NULL exactly when there is
      none; [pmm_free] gives one back; counts agree over any sequence of both.
      The file discharges [FrameAllocator], the only thing its clients use.
    - Heap (kernel/mm/vmm.c, [kmalloc], [kfree]): block headers in memory against
      a list of blocks; first fit; clients and headers keep out of each other's
      bytes; what happens at sizes close to 2^64.
    - Vmm (kernel/mm/vmm.c): four-level page tables against a finite map from
      pages to entries, with the tables owned as a tree.  [vmm_map], [vmm_unmap],
      [vmm_init] and [vmm_free_pagedir] refine the map's operations.
    - Tlb (kernel/mm/vmm.c and the instructions it uses): the translations the
      processor remembers.  The relation [mmu_step] interleaves the stores and
      invalidations of the kernel with the processor's own loads and evictions;
      a translation is what the tables in memory say, but for a page whose
      [invlpg] is due, and nothing is due when a function of Vmm returns.
    - Arch (kernel/arch/x86_64/gdt.c, idt.c, pic_pit.c): the descriptors that are
      written, decoded the way the processor reads them; the port writes, run
      against the two 8259A as a state machine.
    - Kernel (include/kernel.h): the whole kernel state, and the data invariant
      [kernel_inv]: at most one RUNNING process, which is the current one; PIDs
      identify processes; the message queues are disjoint linked lists that
      account for every message in use.
    - Proc (kernel/proc/proc.c): creation, exit, sleeping, the timer tick and the
      scheduler.  Round robin, a bound on waiting, exact wake-up times; every
      operation keeps [kernel_inv].
    - Ipc (kernel/ipc/ipc.c): mailboxes as FIFO queues; send, receive, and
      receiving from an empty mailbox, which gives up the CPU.
    - Trap (kernel/proc/syscall.c and [interrupt_dispatch] of idt.c): the entries
      into the kernel, and [step], the relation of all their interleavings.
      [kernel_inv] holds in every reachable state.
    - Console (kernel/lib/serial.c, kernel/arch/x86_64/vga.c): the serial port, the
      text screen, and [kprintf] against the specification [pieces] of its
      format language.
    - Initrd (kernel/initrd.c): the cpio parser, as the inverse of writing an
      archive, and on arbitrary bytes.
    - Elf (kernel/elf_loader.c, include/elf64.h): the loader, against the memory
      image the program headers describe, and on arbitrary files.
    - Boot (kernel/main.c): the boot loader's memory map, and [kernel_main] as the
      composition of all of the above, from static storage to the idle loop; from
      there the theorem of Trap takes over.

    The assembly and what lies between it and the C code:

    - Cpu: the processor, with the registers, selectors, descriptor tables,
      interrupt delivery and [iretq] that the assembly relies on.
    - Context (kernel/arch/x86_64/context.asm, kernel/proc/proc_entry.asm,
      proc_entry_user.asm, kernel/usr/user_enter.asm and the inline assembly of
      main.c): [switch_context] returns in the process it switches to, with that
      process's registers, and in the caller when somebody switches back, which
      is what the effect [Switch] of file Effects stands for; the first run of a
      process; the way to user mode.
    - Stub (kernel/arch/x86_64/isr_stub.asm): from the instruction an interrupt
      stops to [interrupt_dispatch], which finds the [interrupt_frame_t] that
      file Trap reads, and back to that instruction.
    - Layout (include/types.h, kernel.h and the other headers): the structures
      with the layout of the ABI; the offsets that the assembly and the other
      files use are those of the fields.
    - User (sh.c, unix_gokan.h): user programs, over the instruction they trap
      with; [write] of unix_gokan.h through the stubs, the dispatcher and back.
    - Start (boot/boot.asm): the checks, the first page tables and the entry into
      64-bit mode, composed with Vmm and Boot.
    - X86 (include/arch/x86_64.h): the inline assembly the C code reaches the
      processor with.  The interrupt flag of file Kernel, a boolean, is what
      [save_flags], [cli], [sti] and [restore_flags] do to RFLAGS; critical
      sections nest; MSRs come back as they were written; [tlb_flush_all] brings
      a processor in line with tables changed behind its back.  The selectors,
      vectors and entry flags of the headers are those of the tables.

    ** Fuel

    A loop without a structural bound takes fuel.  The bounds are: the number of
    header-sized pieces of the archive for [initrd_loop]; the 16-bit header count
    for [load_segments]; the size of the heap for [kmalloc_find]; 64 digits for
    [print_uint]; the length of the format for [kprintf]; the number of values
    the serial port's status register will return for its polling loop.  For
    these the theorems show that the fuel is enough.  The loops over the boot
    information take an argument, and the theorems ask for more fuel than there
    are tags and entries; [Boot.parse_mmap_diverges] shows an input on which no
    fuel is enough.  [ipc_recv] on an empty mailbox and the idle loops may go on
    for ever: their theorems hold for every fuel, as do those about sh.c.  The
    loop of boot.asm over its page table has 512 rounds and the fuel for them.

    ** Not modelled

    - The encoding of instructions, and what the compiler makes of the C code:
      assembly is a list of instructions that [fetch] finds, C functions are
      reached at their addresses, and a theorem about both (file Stub, User)
      says what the assembly does up to such an address and on from the return.
    - User programs other than their system calls: [step] of file Trap lets a
      process enter the kernel at any time with any registers.
    - In boot.asm the flags of arithmetic instructions; the multiboot header; and
      that memory above 2 MiB cannot be reached before [vmm_init].
    - What the processor keeps of descriptor tables and segments after they have
      been loaded: [Lgdt] and the others are events.  The TLB is in file Tlb, for
      the last-level entries and without address-space identifiers, which the
      kernel does not use; inside the other files [Invlpg] and [WriteCr3] are
      events.
    - The bytes of a process slot: [memset] of a slot is its zero record, and
      struct fields keep their types.  A call with too few arguments of
      [kprintf] reads 0 where the C code would read what follows.
    - keyboard.h, a header without an implementation, the functions of kernel.h
      that are declared and defined nowhere ([proc_create_user], [proc_waitpid],
      [enter_usermode], [syscall_entry], [elf_load]), and [inw] and [outw], which
      nothing calls. *)

From stdpp Require Export base tactics numbers list gmap strings option relations.
From Stdlib Require Export ZArith Lia.

#[global] Open Scope Z_scope.
#[export] Set Default Goal Selector "!".

(** ** Functional record update

    [r <| f := v |>] is [r] with field [f] replaced; a record type opts in by
    giving its eta expansion as an instance of [Eta]. *)

Class Eta (R : Type) := eta_expand : R → R.
Class Setter {R T : Type} (proj : R → T) := setter : (T → T) → R → R.

Ltac mk_setter :=
  match goal with
  | |- @Setter ?R ?T ?proj =>
      let e := constr:(_ : Eta R) in
      let t := eval hnf in e in
      let t' := eval pattern proj in t in
      lazymatch t' with
      | ?F proj =>
          let s := eval cbv beta in (fun (f : T → T) (r : R) => F (fun r' => f (proj r')) r) in
          exact s
      end
  end.

#[export] Hint Extern 0 (Setter _) => mk_setter : typeclass_instances.

Declare Scope colix_scope.
Delimit Scope colix_scope with colix.
Notation "r <| f := v |>" := (setter (proj := f) (λ _, v) r)
  (at level 8, left associativity, f at level 10, v at level 200) : colix_scope.
#[global] Open Scope colix_scope.
#[global] Arguments setter {R T} proj {_} f r /.

(** ** Machine integers

    A [w]-bit unsigned C integer is a [Z] in [[0, 2^w)]; the conversions below
    are the C conversions to the fixed-width types. *)

Definition u8 (x : Z) : Z := x `mod` 2 ^ 8.
Definition u16 (x : Z) : Z := x `mod` 2 ^ 16.
Definition u32 (x : Z) : Z := x `mod` 2 ^ 32.
Definition u64 (x : Z) : Z := x `mod` 2 ^ 64.
Definition s32 (x : Z) : Z := (x + 2 ^ 31) `mod` 2 ^ 32 - 2 ^ 31.
Definition s64 (x : Z) : Z := (x + 2 ^ 63) `mod` 2 ^ 64 - 2 ^ 63.

(** Bitwise complement of a [uint64_t] and of a [uint32_t]. *)
Definition not64 (x : Z) : Z := u64 (Z.lnot x).
Definition not32 (x : Z) : Z := u32 (Z.lnot x).

Definition is_u8 (x : Z) : Prop := 0 ≤ x < 2 ^ 8.
Definition is_u32 (x : Z) : Prop := 0 ≤ x < 2 ^ 32.
Definition is_u64 (x : Z) : Prop := 0 ≤ x < 2 ^ 64.

Section wrap.
Lemma u8_id x : is_u8 x → u8 x = x.
Proof. apply Z.mod_small. Qed.
Lemma u32_id x : is_u32 x → u32 x = x.
Proof. apply Z.mod_small. Qed.
Lemma u64_id x : is_u64 x → u64 x = x.
Proof. apply Z.mod_small. Qed.
Lemma u8_range x : is_u8 (u8 x).
Proof. by apply Z.mod_pos_bound. Qed.
Lemma u32_range x : is_u32 (u32 x).
Proof. by apply Z.mod_pos_bound. Qed.
Lemma u64_range x : is_u64 (u64 x).
Proof. by apply Z.mod_pos_bound. Qed.
Lemma s32_id x : - 2 ^ 31 ≤ x < 2 ^ 31 → s32 x = x.
Proof. intros H. unfold s32. rewrite Z.mod_small; lia. Qed.
Lemma s32_range x : - 2 ^ 31 ≤ s32 x < 2 ^ 31.
Proof. unfold s32. pose proof (Z.mod_pos_bound (x + 2 ^ 31) (2 ^ 32)). lia. Qed.
End wrap.

Create HintDb word.
#[export] Hint Resolve u8_range u32_range u64_range : word.

(** ** Bits

    [zbits] proves an equality of integers bit by bit. *)

Lemma bits_below x n :
  0 ≤ n → 0 ≤ x → (∀ i, n ≤ i → Z.testbit x i = false) → x < 2 ^ n.
Proof.
  intros Hn Hx Hi.
  assert (x = x `mod` 2 ^ n) as ->; [|apply Z.mod_pos_bound; lia].
  apply Z.bits_inj'. intros i Hi0. destruct (decide (i < n)) as [Hlt|Hge].
  - by rewrite Z.mod_pow2_bits_low.
  - rewrite Z.mod_pow2_bits_high by lia. apply Hi. lia.
Qed.

Lemma testbit_above x n i : 0 ≤ x < 2 ^ n → n ≤ i → Z.testbit x i = false.
Proof.
  intros [Hx Hlt] Hi. destruct (decide (n < 0)) as [Hn|Hn].
  { rewrite Z.pow_neg_r in Hlt by lia. lia. }
  rewrite <-(Z.mod_small x (2 ^ n)) by lia. apply Z.mod_pow2_bits_high. lia.
Qed.

Lemma lor_below a b n : 0 ≤ a < 2 ^ n → 0 ≤ b < 2 ^ n → 0 ≤ Z.lor a b < 2 ^ n.
Proof.
  intros Ha Hb. destruct (decide (n < 0)) as [Hn|Hn].
  { rewrite Z.pow_neg_r in Ha by lia. lia. }
  split; [apply Z.lor_nonneg; lia|].
  apply bits_below; [lia|apply Z.lor_nonneg; lia|]. intros i Hi.
  rewrite Z.lor_spec, !(testbit_above _ n) by done. done.
Qed.

Lemma land_below a b n : 0 ≤ a < 2 ^ n → 0 ≤ Z.land a b < 2 ^ n.
Proof.
  intros Ha. destruct (decide (n < 0)) as [Hn|Hn].
  { rewrite Z.pow_neg_r in Ha by lia. lia. }
  split; [apply Z.land_nonneg; lia|].
  apply bits_below; [lia|apply Z.land_nonneg; lia|]. intros i Hi.
  rewrite Z.land_spec, (testbit_above a n) by done. done.
Qed.

Lemma pow2_testbit k i : 0 ≤ k → Z.testbit (2 ^ k) i = bool_decide (i = k).
Proof.
  intros Hk. case_bool_decide as H; [subst; by apply Z.pow2_bits_true|].
  by apply Z.pow2_bits_false.
Qed.

(** Testing a bit by masking, the way C does it. *)
Lemma land_pow2_eqb w k : 0 ≤ k → (Z.land w (2 ^ k) =? 0) = negb (Z.testbit w k).
Proof.
  intros Hk. destruct (Z.testbit w k) eqn:E; simpl.
  - apply Z.eqb_neq. intros H0.
    assert (Z.testbit (Z.land w (2 ^ k)) k = true) as Ht.
    { by rewrite Z.land_spec, E, Z.pow2_bits_true. }
    by rewrite H0, Z.testbit_0_l in Ht.
  - apply Z.eqb_eq, Z.bits_inj'. intros i Hi.
    rewrite Z.land_spec, pow2_testbit, Z.testbit_0_l by done.
    case_bool_decide; [subst; by rewrite E|by rewrite andb_false_r].
Qed.

Lemma testbit_u64 x i : Z.testbit (u64 x) i = (i <? 64) && Z.testbit x i.
Proof.
  unfold u64. destruct (i <? 64) eqn:E; [apply Z.ltb_lt in E|apply Z.ltb_ge in E].
  - by rewrite Z.mod_pow2_bits_low.
  - by rewrite Z.mod_pow2_bits_high.
Qed.

Lemma testbit_not64 x i :
  0 ≤ i → Z.testbit (not64 x) i = (i <? 64) && negb (Z.testbit x i).
Proof. intros Hi. unfold not64. by rewrite testbit_u64, Z.lnot_spec. Qed.

(** Rounding down to a power of two by masking. *)
Lemma land_not64_ones x k :
  0 ≤ k ≤ 64 → is_u64 x → Z.land x (not64 (2 ^ k - 1)) = 2 ^ k * (x `div` 2 ^ k).
Proof.
  intros Hk Hx. rewrite Z.mul_comm, <-Z.shiftr_div_pow2, <-Z.shiftl_mul_pow2 by lia.
  replace (2 ^ k - 1) with (Z.ones k) by (rewrite Z.ones_equiv; lia).
  apply Z.bits_inj'. intros i Hi.
  rewrite Z.land_spec, testbit_not64, Z.shiftl_spec by done.
  destruct (decide (i < k)) as [Hlt|Hge].
  - rewrite Z.ones_spec_low, (Z.testbit_neg_r _ (i - k)) by lia.
    by rewrite andb_false_r, andb_false_r.
  - rewrite Z.ones_spec_high, Z.shiftr_spec by lia.
    replace (i - k + k) with i by lia.
    destruct (i <? 64) eqn:E; [by rewrite andb_true_r|].
    rewrite (testbit_above x 64) by (done || lia). done.
Qed.

(** ** Lists and options *)

Lemma lookup_total_insert_Z (l : list Z) (i j : nat) (x : Z) :
  (i < length l)%nat → <[i := x]> l !!! j = if decide (i = j) then x else l !!! j.
Proof.
  intros Hi. case_decide as E; [subst; by apply list_lookup_total_insert_eq|].
  by apply list_lookup_total_insert_ne.
Qed.

(** The state of a run whose value is known. *)
Lemma run_state_of {A S} (r : option (A * S)) (a : A) (d : S) :
  fst <$> r = Some a → r = Some (a, match r with Some (_, s) => s | None => d end).
Proof. destruct r as [[a' s]|]; [|done]. cbn. congruence. Qed.
