(* ===== verification/Effects.v ===== *)
(** * Effects: the monad the kernel's C functions are written in

    A C function over a component state [S] returning [A] is a value of
    [M S A].  Running it produces a [run]: the events it emitted (console
    output, port writes, privileged instructions) and one of

    - [Done], a normal return;
    - [Panic], a call of [panic] of kernel/lib/serial.c, which never returns;
    - [OutOfFuel], a loop of the source that was cut off by its fuel;
    - [Switch], a call of [switch_context]: the CPU leaves process slot [old]
      for slot [new] in state [s], and the C code after the call is the
      continuation [k], which runs in whatever state the kernel has reached
      when slot [old] is switched back to.

    [Lens] is the interface by which a function over a component's state runs
    inside a larger state; its laws say that it touches nothing else. *)

From S2P Require Import Prelude.

(** ** Events *)

(** Arguments of [kprintf]: a 64-bit word as [va_arg] reads it, or a C string
    ([None] is the null pointer). *)
Inductive karg :=
  | KInt (n : Z)
  | KStr (s : option string).

(** Privileged instructions of include/arch/x86_64.h. *)
Inductive instr :=
  | Cli | Sti | Hlt
  | WriteCr3 (v : Z)
  | Invlpg (addr : Z)
  | Lgdt (limit base : Z)
  | Lidt (limit base : Z)
  | Ltr (sel : Z)
  | ReloadSegments (cs ds : Z).

Inductive event :=
  | EvPrintf (fmt : string) (args : list karg)
  | EvPutc (c : Z)
  | EvOutb (port val : Z)
  | EvInstr (i : instr).

#[export] Instance karg_eq_dec : EqDecision karg.
Proof. solve_decision. Defined.
#[export] Instance instr_eq_dec : EqDecision instr.
Proof. solve_decision. Defined.
#[export] Instance event_eq_dec : EqDecision event.
Proof. solve_decision. Defined.

(** ** Runs *)

Inductive run (S A : Type) :=
  | Done (l : list event) (a : A) (s : S)
  | Panic (l : list event) (msg : string) (s : S)
  | OutOfFuel (l : list event) (s : S)
  | Switch (l : list event) (old new : nat) (s : S) (k : S → run S A).
Arguments Done {S A}.
Arguments Panic {S A}.
Arguments OutOfFuel {S A}.
Arguments Switch {S A}.

Definition M (S A : Type) : Type := S → run S A.

Definition prepend {S A} (l0 : list event) (r : run S A) : run S A :=
  match r with
  | Done l a s => Done (l0 ++ l) a s
  | Panic l msg s => Panic (l0 ++ l) msg s
  | OutOfFuel l s => OutOfFuel (l0 ++ l) s
  | Switch l i j s k => Switch (l0 ++ l) i j s k
  end.

Fixpoint bind_run {S A B} (f : A → M S B) (r : run S A) : run S B :=
  match r with
  | Done l a s => prepend l (f a s)
  | Panic l msg s => Panic l msg s
  | OutOfFuel l s => OutOfFuel l s
  | Switch l i j s k => Switch l i j s (λ s', bind_run f (k s'))
  end.

#[export] Instance M_ret S : MRet (M S) := λ A a s, Done [] a s.
#[export] Instance M_bind S : MBind (M S) := λ A B f m s, bind_run f (m s).

(** ** Primitive operations *)

Section prims.
Context {S : Type}.

Definition get : M S S := λ s, Done [] s s.
Definition gets {A} (f : S → A) : M S A := λ s, Done [] (f s) s.
Definition modify (f : S → S) : M S unit := λ s, Done [] tt (f s).
Definition emit (e : event) : M S unit := λ s, Done [e] tt s.
Definition no_fuel {A} : M S A := λ s, OutOfFuel [] s.

Definition outb (port val : Z) : M S unit := emit (EvOutb port val).
Definition instruction (i : instr) : M S unit := emit (EvInstr i).

(** [kprintf] as its callers see it: one event.  What it prints is the
    business of file Console. *)
Definition kprintf (fmt : string) (args : list karg) : M S unit :=
  emit (EvPrintf fmt args).

(** An [int]-typed variadic argument, which [va_arg] reads as 64 bits: the
    compiler passes it in a 32-bit register, which clears the upper half. *)
Definition kint (n : Z) : karg := KInt (u32 n).

(** [for (x in l) f(x);] *)
Fixpoint for_each {A} (l : list A) (f : A → M S unit) : M S unit :=
  match l with
  | [] => mret tt
  | x :: l' => f x ;; for_each l' f
  end.
End prims.

(** The newline of C string literals. *)
Definition nl : string := String (Ascii.ascii_of_nat 10) "".

(** The bytes of a string literal. *)
Fixpoint bytes_of (s : string) : list Z :=
  match s with
  | EmptyString => []
  | String a s => Z.of_N (Ascii.N_of_ascii a) :: bytes_of s
  end.

Definition panic {S A} (msg : string) : M S A := λ s,
  Panic [EvInstr Cli;
         EvPrintf (nl +:+ "[PANIC] %s" +:+ nl) [KStr (Some msg)];
         EvPrintf ("System halted." +:+ nl) [];
         EvInstr Hlt] msg s.

(** ** Running a component inside a larger state *)

Class Lens (T S : Type) := {
  view : T → S;
  put : S → T → T;
  view_put : ∀ s t, view (put s t) = s;
  put_view : ∀ t, put (view t) t = t;
  put_put : ∀ s s' t, put s' (put s t) = put s' t;
}.

Fixpoint lift_run {T S A} `{Lens T S} (t : T) (r : run S A) : run T A :=
  match r with
  | Done l a s => Done l a (put s t)
  | Panic l msg s => Panic l msg (put s t)
  | OutOfFuel l s => OutOfFuel l (put s t)
  | Switch l i j s k => Switch l i j (put s t) (λ t', lift_run t' (k (view t')))
  end.

Definition lift {T S A} `{Lens T S} (m : M S A) : M T A :=
  λ t, lift_run t (m (view t)).

(** ** Results and traces *)

(** The value and state of a run that returns without a context switch. *)
Definition result {S A} (m : M S A) (s : S) : option (A * S) :=
  match m s with Done _ a s' => Some (a, s') | _ => None end.

Definition trace_of {S A} (r : run S A) : list event :=
  match r with
  | Done l _ _ | Panic l _ _ | OutOfFuel l _ | Switch l _ _ _ _ => l
  end.

Definition trace {S A} (m : M S A) (s : S) : list event := trace_of (m s).

Definition final {S A} (r : run S A) : S :=
  match r with
  | Done _ _ s | Panic _ _ s | OutOfFuel _ s | Switch _ _ _ s _ => s
  end.

Section result.
Context {S : Type}.
Implicit Types s : S.

Lemma result_ret {A} (a : A) s : result (mret a) s = Some (a, s).
Proof. done. Qed.

Lemma result_bind {A B} (m : M S A) (f : A → M S B) s :
  result (m ≫= f) s =
  match result m s with Some (a, s') => result (f a) s' | None => None end.
Proof.
  unfold result, mbind, M_bind. destruct (m s) as [l a s'|l msg s'|l s'|l i j s' k]; [|done..].
  simpl. by destruct (f a s').
Qed.

Lemma result_get s : result get s = Some (s, s).
Proof. done. Qed.
Lemma result_gets {A} (f : S → A) s : result (gets f) s = Some (f s, s).
Proof. done. Qed.
Lemma result_modify f s : result (modify f) s = Some (tt, f s).
Proof. done. Qed.
Lemma result_emit e s : result (emit e) s = Some (tt, s).
Proof. done. Qed.
Lemma result_outb p v s : result (outb p v) s = Some (tt, s).
Proof. done. Qed.
Lemma result_instruction i s : result (instruction i) s = Some (tt, s).
Proof. done. Qed.
Lemma result_kprintf fmt args s : result (kprintf fmt args) s = Some (tt, s).
Proof. done. Qed.
Lemma result_panic {A} msg s : result (panic (A:=A) msg) s = None.
Proof. done. Qed.

Lemma result_for_each_cons {A} (x : A) l f s :
  result (for_each (x :: l) f) s =
  match result (f x) s with Some (_, s') => result (for_each l f) s' | None => None end.
Proof. simpl. rewrite result_bind. done. Qed.

(** A loop preserves what each of its iterations preserves. *)
Lemma result_for_each_inv {A} (I : S → Prop) (l : list A) (f : A → M S unit) s :
  (∀ x s, x ∈ l → I s → ∃ s', result (f x) s = Some (tt, s') ∧ I s') →
  I s → ∃ s', result (for_each l f) s = Some (tt, s') ∧ I s'.
Proof.
  revert s. induction l as [|x l IH]; intros s Hf Hs; [by exists s|].
  destruct (Hf x s) as (s1 & Hr & H1); [set_solver|done|].
  destruct (IH s1) as (s2 & Hr2 & H2); [intros; apply Hf; set_solver|done|].
  exists s2. by rewrite result_for_each_cons, Hr.
Qed.

(** A loop of pure updates is a fold. *)
Lemma result_for_each_modify {A} (l : list A) (f : A → S → S) s :
  result (for_each l (λ x, modify (f x))) s = Some (tt, foldl (λ s x, f x s) s l).
Proof.
  revert s. induction l as [|x l IH]; intros s; [done|].
  rewrite result_for_each_cons, result_modify. apply IH.
Qed.

Lemma result_lift {T A} `{Lens T S} (m : M S A) (t : T) :
  result (lift m) t =
  match result m (view t) with Some (a, s) => Some (a, put s t) | None => None end.
Proof. unfold result, lift. by destruct (m (view t)). Qed.
End result.

Create Rewrite HintDb run.
#[export] Hint Rewrite @result_ret @result_bind @result_get @result_gets @result_modify
  @result_emit @result_outb @result_instruction @result_kprintf @result_panic @result_for_each_modify
  @result_lift : run.

(** [run_simpl] computes the results of the straight-line parts of a body. *)
Ltac run_simpl := repeat (progress (autorewrite with run; cbn [fst snd])).
Ltac run_simpl_in H := repeat (progress (autorewrite with run in H; cbn [fst snd] in H)).

(** ** Reasoning across context switches

    [always I R Q r]: every time the run hands the CPU over to [new], the
    kernel state satisfies [I] and the resumption condition [R new]; and if it
    is resumed in a state that satisfies [I] and [R old], it goes on in the
    same way and returns with [Q].  Rely and guarantee are the same: all
    processes keep [I] and establish [R] for the process they switch to. *)

Section always.
Context {S : Type} (I : S → Prop) (R : nat → S → Prop).

Fixpoint always {A} (Q : A → S → Prop) (r : run S A) : Prop :=
  match r with
  | Done _ a s => Q a s
  | Panic _ _ s => I s
  | OutOfFuel _ s => I s
  | Switch _ i j s k => I s ∧ R j s ∧ ∀ s', I s' → R i s' → always Q (k s')
  end.

Lemma always_prepend {A} (Q : A → S → Prop) l r :
  always Q (prepend l r) ↔ always Q r.
Proof. by destruct r. Qed.

Lemma always_mono {A} (Q Q' : A → S → Prop) r :
  (∀ a s, Q a s → Q' a s) → always Q r → always Q' r.
Proof.
  intros HQ. induction r as [| | |l i j s k IH]; simpl; [auto..|].
  intros (HI & HR & Hk). split_and!; [done..|]. intros s' Hs' HR'. apply IH, Hk; done.
Qed.

Lemma always_bind {A B} (Q : B → S → Prop) (m : M S A) (f : A → M S B) s :
  always (λ a s', always Q (f a s')) (m s) → always Q ((m ≫= f) s).
Proof.
  unfold mbind, M_bind. generalize (m s) as r.
  induction r as [l a s'|l msg s'|l s'|l i j s' k IH]; simpl; [|done|done|].
  - by rewrite always_prepend.
  - intros (HI & HR & Hk). split_and!; [done..|]. intros s2 Hs2 HR'. by apply IH, Hk.
Qed.

(** Steps through straight-line code. *)
Lemma always_step_modify {B} (Q : B → S → Prop) g (f : unit → M S B) s :
  always Q (f tt (g s)) → always Q ((modify g ≫= f) s).
Proof. intros Hf. by apply always_bind. Qed.
Lemma always_step_gets {A B} (Q : B → S → Prop) (g : S → A) (f : A → M S B) s :
  always Q (f (g s) s) → always Q ((gets g ≫= f) s).
Proof. intros Hf. by apply always_bind. Qed.
Lemma always_step_get {B} (Q : B → S → Prop) (f : S → M S B) s :
  always Q (f s s) → always Q ((get ≫= f) s).
Proof. intros Hf. by apply always_bind. Qed.
Lemma always_step_emit {B} (Q : B → S → Prop) e (f : unit → M S B) s :
  always Q (f tt s) → always Q ((emit e ≫= f) s).
Proof. intros Hf. by apply always_bind. Qed.

Lemma always_result {A} (Q : A → S → Prop) (m : M S A) s a s' :
  result m s = Some (a, s') → Q a s' → always Q (m s).
Proof. unfold result. destruct (m s); simpl; intros; simplify_eq. done. Qed.
End always.

(** [wp m Q E s]: without handing over the CPU, [m] returns from [s] with [Q]
    or panics in a state that satisfies [E]. *)
Section wp.
Context {S : Type}.

Definition wp {A} (m : M S A) (Q : A → S → Prop) (E : S → Prop) (s : S) : Prop :=
  match m s with
  | Done _ a s' => Q a s'
  | Panic _ _ s' => E s'
  | _ => False
  end.

Lemma wp_bind {A B} (m : M S A) (f : A → M S B) Q E s :
  wp m (λ a s', wp (f a) Q E s') E s → wp (m ≫= f) Q E s.
Proof.
  unfold wp, mbind, M_bind. destruct (m s) as [l a s'| | |]; simpl; [|done..].
  by destruct (f a s').
Qed.

Lemma wp_mono {A} (m : M S A) (Q Q' : A → S → Prop) E s :
  (∀ a s', Q a s' → Q' a s') → wp m Q E s → wp m Q' E s.
Proof. unfold wp. destruct (m s); auto. Qed.

Lemma wp_result {A} (m : M S A) (Q : A → S → Prop) E s a s' :
  result m s = Some (a, s') → Q a s' → wp m Q E s.
Proof. unfold wp, result. destruct (m s); intros; by simplify_eq. Qed.

Lemma wp_elim {A} (m : M S A) (Q : A → S → Prop) E s :
  wp m Q E s → (∀ s', ¬ E s') → ∃ a s', result m s = Some (a, s') ∧ Q a s'.
Proof. unfold wp, result. destruct (m s); naive_solver. Qed.
End wp.

Lemma wp_conj {S A} (m : M S A) (Q Q' : A → S → Prop) E E' s :
  wp m Q E s → wp m Q' E' s → wp m (λ a s', Q a s' ∧ Q' a s') E s.
Proof. unfold wp. destruct (m s); naive_solver. Qed.

Lemma wp_weaken {S A} (m : M S A) (Q Q' : A → S → Prop) (E E' : S → Prop) s :
  wp m Q E s → (∀ a s', Q a s' → Q' a s') → (∀ s', E s' → E' s') → wp m Q' E' s.
Proof. unfold wp. destruct (m s); auto. Qed.

Lemma wp_lift {T S A} `{Lens T S} (m : M S A) Q E t :
  wp m (λ a s', Q a (put s' t)) (λ s', E (put s' t)) (view t) → wp (lift m) Q E t.
Proof. unfold wp, lift. by destruct (m (view t)). Qed.

Lemma wp_for_each {S A} (I E : S → Prop) (l : list A) (f : A → M S unit) s :
  (∀ x s, I s → wp (f x) (λ _, I) E s) → I s → wp (for_each l f) (λ _, I) E s.
Proof.
  intros Hf. revert s. induction l as [|x l IH]; intros s Hs; [done|]. cbn [for_each].
  apply wp_bind. eapply wp_mono; [|by apply Hf]. intros ? s'. apply IH.
Qed.

(** A run that returns or panics satisfies what it guarantees anyway. *)
Lemma wp_always {S A} I R (Q Q' : A → S → Prop) E (r : M S A) s :
  wp r Q E s → always I R Q' (r s) → wp r (λ a s', Q a s' ∧ Q' a s') (λ s', E s' ∧ I s') s.
Proof. unfold wp. by destruct (r s). Qed.

Lemma wp_ret {S A} (a : A) (Q : A → S → Prop) E s : Q a s → wp (mret a) Q E s.
Proof. done. Qed.

(** ** Code that does not hand over the CPU *)

Definition no_switch {S A} (r : run S A) : Prop :=
  match r with Switch _ _ _ _ _ => False | _ => True end.

Definition local {S A} (m : M S A) : Prop := ∀ s, no_switch (m s).

Section local.
Context {S : Type}.

Lemma no_switch_bind {A B} (m : M S A) (f : A → M S B) s :
  no_switch (m s) → (∀ a s', m s = Done (trace_of (m s)) a s' → no_switch (f a s')) →
  no_switch ((m ≫= f) s).
Proof.
  unfold mbind, M_bind. destruct (m s) as [l a s'| | |]; simpl; [|done..].
  intros _ Hf. specialize (Hf a s' eq_refl). by destruct (f a s').
Qed.

Lemma local_bind {A B} (m : M S A) (f : A → M S B) : local m → (∀ a, local (f a)) → local (m ≫= f).
Proof. intros Hm Hf s. apply no_switch_bind; [apply Hm|]. intros a s' _. apply Hf. Qed.

Lemma local_ret {A} (a : A) : local (S:=S) (mret a).
Proof. by intros s. Qed.
Lemma local_get : local (S:=S) get.
Proof. by intros s. Qed.
Lemma local_gets {A} (f : S → A) : local (gets f).
Proof. by intros s. Qed.
Lemma local_modify (f : S → S) : local (modify f).
Proof. by intros s. Qed.
Lemma local_emit e : local (S:=S) (emit e).
Proof. by intros s. Qed.
Lemma local_kprintf fmt args : local (S:=S) (kprintf fmt args).
Proof. by intros s. Qed.
Lemma local_outb p v : local (S:=S) (outb p v).
Proof. by intros s. Qed.
Lemma local_instruction i : local (S:=S) (instruction i).
Proof. by intros s. Qed.
Lemma local_no_fuel {A} : local (S:=S) (A:=A) no_fuel.
Proof. by intros s. Qed.
Lemma local_panic {A} msg : local (S:=S) (panic (A:=A) msg).
Proof. by intros s. Qed.

Lemma local_for_each {A} (l : list A) (f : A → M S unit) : (∀ x, local (f x)) → local (for_each l f).
Proof. intros Hf. induction l as [|x l IH]; [apply local_ret|]. apply local_bind; auto. Qed.

Lemma local_lift {T A} `{Lens T S} (m : M S A) : local m → local (lift m).
Proof. intros Hm t. unfold lift. specialize (Hm (view t)). by destruct (m (view t)). Qed.

(** Code that stays local only has to be right where it stops. *)
Lemma always_local {A} I R (Q : A → S → Prop) (m : M S A) s :
  local m → (∀ a s', result m s = Some (a, s') → Q a s') → I (final (m s)) → always I R Q (m s).
Proof.
  intros Hl HQ HI. specialize (Hl s). unfold result in HQ. destruct (m s); simpl in *; [by apply HQ|done..].
Qed.

Lemma always_lift_local {T A} `{Lens T S} I R (Q : A → T → Prop) (m : M S A) t :
  local m → (∀ x, I (put x t)) → (∀ a x, Q a (put x t)) → always I R Q (lift m t).
Proof.
  intros Hl HI HQ. unfold lift. specialize (Hl (view t)). destruct (m (view t)); simpl; [apply HQ|apply HI|apply HI|done].
Qed.
End local.

Create HintDb local.
#[export] Hint Resolve local_bind local_ret local_get local_gets local_modify local_emit
  local_kprintf local_outb local_instruction
  local_no_fuel local_panic local_for_each local_lift : local.

(** [solve_local] walks through the body of a function. *)
Ltac solve_local :=
  repeat match goal with
  | |- ∀ _, _ => intro
  | |- local (match ?x with _ => _ end) => destruct x
  | |- local (let _ := _ in _) => cbv zeta
  | |- local _ => solve [eauto with local nocore] || apply local_bind
  end.

Lemma always_for_each {S A} I R (P : S → Prop) (l : list A) (f : A → M S unit) s :
  (∀ x s, P s → always I R (λ _, P) (f x s)) → P s → always I R (λ _, P) (for_each l f s).
Proof.
  intros Hf. revert s. induction l as [|x l IH]; intros s Hs; [done|].
  cbn [for_each]. apply always_bind. eapply always_mono; [|by apply Hf]. intros ? s'. apply IH.
Qed.

(** [always_step] walks over the statements that always return. *)
Ltac always_step :=
  lazymatch goal with
  | |- always _ _ _ ((modify _ ≫= _) _) => apply always_step_modify
  | |- always _ _ _ ((gets _ ≫= _) _) => apply always_step_gets
  | |- always _ _ _ ((get ≫= _) _) => apply always_step_get
  | |- always _ _ _ ((emit _ ≫= _) _) => apply always_step_emit
  | |- always _ _ _ ((kprintf _ _ ≫= _) _) => apply always_step_emit
  | |- always _ _ _ ((instruction _ ≫= _) _) => apply always_step_emit
  | |- always _ _ _ ((outb _ _ ≫= _) _) => apply always_step_emit
  end.

(** A bind stops where its first part stops. *)
Lemma final_bind_none {S A B} (m : M S A) (f : A → M S B) s :
  local m → result m s = None → final ((m ≫= f) s) = final (m s) ∧ result (m ≫= f) s = None.
Proof.
  intros Hl. specialize (Hl s). unfold result, mbind, M_bind in *. by destruct (m s).
Qed.

Lemma local_cases {S A} (m : M S A) s :
  local m → (∃ a, result m s = Some (a, final (m s))) ∨ result m s = None.
Proof. intros Hl. specialize (Hl s). unfold result in *. destruct (m s); naive_solver. Qed.
