(* ===== verification/Interfaces.v ===== *)
(** * Interfaces: what one component promises to another

    [FrameAllocator] is the contract of the page allocator towards its clients
    (page tables, kernel stacks, the ELF loader): file Pmm has the instance,
    file Vmm uses nothing else about it. *)

From S2P Require Import Prelude Effects.

Class FrameAllocator {S : Type} (alloc : M S Z) (free : Z → M S unit) := {
  (** the allocator's state is sane *)
  fa_inv : S → Prop;
  (** [a] is the address of a frame it manages *)
  fa_frame : S → Z → Prop;
  (** [a] is the address of a frame it has handed out *)
  fa_taken : S → Z → Prop;

  fa_frame_ok s a : fa_inv s → fa_frame s a → 0 < a ∧ a + 4096 ≤ 2 ^ 64 ∧ a `mod` 4096 = 0;
  fa_taken_frame s a : fa_inv s → fa_taken s a → fa_frame s a;

  fa_alloc s : fa_inv s →
    ∃ a s', result alloc s = Some (a, s') ∧ fa_inv s' ∧
      (∀ b, fa_frame s' b ↔ fa_frame s b) ∧
      ((a = 0 ∧ s' = s ∧ ∀ b, fa_frame s b → fa_taken s b) ∨
       (fa_frame s a ∧ ¬ fa_taken s a ∧ ∀ b, fa_taken s' b ↔ b = a ∨ fa_taken s b));

  fa_free s a : fa_inv s →
    ∃ s', result (free a) s = Some (tt, s') ∧ fa_inv s' ∧
      (∀ b, fa_frame s' b ↔ fa_frame s b) ∧
      (∀ b, fa_taken s' b → fa_taken s b) ∧
      (a `mod` 4096 = 0 → ∀ b, fa_taken s' b ↔ b ≠ a ∧ fa_taken s b);
}.
