(* ===== verification/Memory.v ===== *)
(** * Memory: byte-addressed memory and the byte loops of the C library

    Memory maps an address to a byte; loads and stores of 16, 32 and 64 bits
    are little endian, as on x86-64.  [memset] is kernel/lib/mem.c and
    [memcpy] the one of kernel/proc/proc.c. *)

From S2P Require Import Prelude.

Abbreviation mem := (gmap Z Z).

Definition ld8 (m : mem) (a : Z) : Z := default 0 (m !! a).
Definition st8 (m : mem) (a v : Z) : mem := <[a := u8 v]> m.

(** The bytes of a word, low byte first. *)
Fixpoint le_bytes (n : nat) (v : Z) : list Z :=
  match n with O => [] | S n => v `mod` 256 :: le_bytes n (v `div` 256) end.

(** [n] bytes at [a], low byte first. *)
Fixpoint ld_le (m : mem) (a : Z) (n : nat) : Z :=
  match n with
  | O => 0
  | S n => ld8 m a + 2 ^ 8 * ld_le m (a + 1) n
  end.

Fixpoint st_le (m : mem) (a : Z) (n : nat) (v : Z) : mem :=
  match n with
  | O => m
  | S n => st_le (st8 m a v) (a + 1) n (v `div` 2 ^ 8)
  end.

Definition ld16 (m : mem) (a : Z) : Z := ld_le m a 2.
Definition ld32 (m : mem) (a : Z) : Z := ld_le m a 4.
Definition ld64 (m : mem) (a : Z) : Z := ld_le m a 8.
Definition st32 (m : mem) (a v : Z) : mem := st_le m a 4 v.
Definition st64 (m : mem) (a v : Z) : mem := st_le m a 8 v.

#[global] Arguments ld16 : simpl never.
#[global] Arguments ld32 : simpl never.
#[global] Arguments ld64 : simpl never.
#[global] Arguments st32 : simpl never.
#[global] Arguments st64 : simpl never.

(** [n] bytes at [a] as a list, and a list of bytes written at [a]. *)
Fixpoint ld_bytes (m : mem) (a : Z) (n : nat) : list Z :=
  match n with
  | O => []
  | S n => ld8 m a :: ld_bytes m (a + 1) n
  end.

Fixpoint st_bytes (m : mem) (a : Z) (bs : list Z) : mem :=
  match bs with
  | [] => m
  | b :: bs => st_bytes (st8 m a b) (a + 1) bs
  end.

(** [for (i = 0; i < n; i++) p[i] = (uint8_t)c;] *)
Fixpoint memset_loop (m : mem) (p c : Z) (n : nat) : mem :=
  match n with
  | O => m
  | S n => memset_loop (st8 m p c) (p + 1) c n
  end.

Definition memset (m : mem) (s c n : Z) : mem := memset_loop m s c (Z.to_nat n).

(** [while (n--) *d++ = *s++;] *)
Fixpoint memcpy_loop (m : mem) (d s : Z) (n : nat) : mem :=
  match n with
  | O => m
  | S n => memcpy_loop (st8 m d (ld8 m s)) (d + 1) (s + 1) n
  end.

Definition memcpy (m : mem) (dest src n : Z) : mem := memcpy_loop m dest src (Z.to_nat n).

(** Every byte of memory is one. *)
Definition mem_wf (m : mem) : Prop := ∀ a, is_u8 (ld8 m a).

(** ** Bytes *)

Lemma ld8_st8 m a v : ld8 (st8 m a v) a = u8 v.
Proof. unfold ld8, st8. by rewrite lookup_insert_eq. Qed.

Lemma ld8_st8_ne m a b v : a ≠ b → ld8 (st8 m a v) b = ld8 m b.
Proof. intros H. unfold ld8, st8. by rewrite lookup_insert_ne. Qed.

Lemma mem_wf_empty : mem_wf ∅.
Proof. intros a. unfold ld8, is_u8. rewrite lookup_empty. simpl. lia. Qed.

Lemma mem_wf_st8 m a v : mem_wf m → mem_wf (st8 m a v).
Proof.
  intros H b. destruct (decide (a = b)) as [->|]; [rewrite ld8_st8; apply u8_range|].
  by rewrite ld8_st8_ne.
Qed.

Lemma mem_wf_st_le m a n v : mem_wf m → mem_wf (st_le m a n v).
Proof.
  revert m a v. induction n as [|n IH]; intros m a v H; [done|]. by apply IH, mem_wf_st8.
Qed.

(** ** Words *)

Lemma ld8_st_le_out m a n v b :
  b < a ∨ a + Z.of_nat n ≤ b → ld8 (st_le m a n v) b = ld8 m b.
Proof.
  revert m a v. induction n as [|n IH]; intros m a v H; [done|].
  simpl. rewrite IH by lia. apply ld8_st8_ne. lia.
Qed.

Lemma ld_le_ext m1 m2 a n :
  (∀ b, a ≤ b < a + Z.of_nat n → ld8 m1 b = ld8 m2 b) → ld_le m1 a n = ld_le m2 a n.
Proof.
  revert a. induction n as [|n IH]; intros a H; [done|].
  simpl. rewrite H by lia. rewrite (IH (a + 1)); [done|]. intros b Hb. apply H. lia.
Qed.

Lemma ld_st_le_ne m a n v b k :
  b + Z.of_nat k ≤ a ∨ a + Z.of_nat n ≤ b → ld_le (st_le m a n v) b k = ld_le m b k.
Proof. intros H. apply ld_le_ext. intros c Hc. apply ld8_st_le_out. lia. Qed.

Lemma ld_st_le m a n v : ld_le (st_le m a n v) a n = v `mod` 2 ^ (8 * Z.of_nat n).
Proof.
  revert m a v. induction n as [|n IH]; intros m a v.
  { simpl. by rewrite Z.mod_1_r. }
  cbn [ld_le st_le]. rewrite IH, ld8_st_le_out by lia. rewrite ld8_st8. unfold u8.
  replace (8 * Z.of_nat (S n)) with (8 + 8 * Z.of_nat n) by lia.
  rewrite Z.pow_add_r, Z.rem_mul_r by lia. done.
Qed.

Lemma ld_le_range m a n : mem_wf m → 0 ≤ ld_le m a n < 2 ^ (8 * Z.of_nat n).
Proof.
  intros Hm. revert a. induction n as [|n IH]; intros a; [simpl; lia|].
  cbn [ld_le]. specialize (IH (a + 1)). pose proof (Hm a) as Hb. unfold is_u8 in Hb.
  replace (8 * Z.of_nat (S n)) with (8 + 8 * Z.of_nat n) by lia.
  rewrite Z.pow_add_r by lia. nia.
Qed.

Lemma ld64_st64 m a v : is_u64 v → ld64 (st64 m a v) a = v.
Proof. intros Hv. unfold ld64, st64. rewrite ld_st_le. by apply Z.mod_small. Qed.

Lemma ld64_st64_ne m a b v : b + 8 ≤ a ∨ a + 8 ≤ b → ld64 (st64 m a v) b = ld64 m b.
Proof. intros H. apply ld_st_le_ne. lia. Qed.

Lemma ld64_range m a : mem_wf m → is_u64 (ld64 m a).
Proof. intros Hm. apply (ld_le_range m a 8 Hm). Qed.

Lemma mem_wf_st64 m a v : mem_wf m → mem_wf (st64 m a v).
Proof. apply mem_wf_st_le. Qed.

Lemma mem_wf_st32 m a v : mem_wf m → mem_wf (st32 m a v).
Proof. apply mem_wf_st_le. Qed.

Create HintDb mem.
#[export] Hint Resolve mem_wf_st8 mem_wf_st32 mem_wf_st64 ld64_range : mem.

(** ** Byte ranges *)

Lemma length_ld_bytes m a n : length (ld_bytes m a n) = n.
Proof. revert a. induction n; intros; simpl; auto. Qed.

Lemma lookup_ld_bytes m a n i :
  (i < n)%nat → ld_bytes m a n !! i = Some (ld8 m (a + Z.of_nat i)).
Proof.
  revert a i. induction n as [|n IH]; intros a i Hi; [lia|].
  destruct i as [|i]; simpl; [by rewrite Z.add_0_r|].
  rewrite IH by lia. do 2 f_equal. lia.
Qed.

Lemma ld_bytes_ext m1 m2 a n :
  (∀ b, a ≤ b < a + Z.of_nat n → ld8 m1 b = ld8 m2 b) → ld_bytes m1 a n = ld_bytes m2 a n.
Proof.
  revert a. induction n as [|n IH]; intros a H; [done|].
  simpl. rewrite H by lia. f_equal. apply IH. intros b Hb. apply H. lia.
Qed.

Lemma ld8_st_bytes_out m a bs b :
  b < a ∨ a + Z.of_nat (length bs) ≤ b → ld8 (st_bytes m a bs) b = ld8 m b.
Proof.
  revert m a. induction bs as [|x bs IH]; intros m a H; [done|].
  simpl in *. rewrite IH by lia. apply ld8_st8_ne. lia.
Qed.

Lemma ld_st_bytes m a bs : Forall is_u8 bs → ld_bytes (st_bytes m a bs) a (length bs) = bs.
Proof.
  revert m a. induction bs as [|x bs IH]; intros m a H; [done|].
  apply Forall_cons in H as [Hx H]. simpl. f_equal; [|by apply IH].
  rewrite ld8_st_bytes_out by lia. by rewrite ld8_st8, u8_id.
Qed.

Lemma ld_bytes_u8 m a n : mem_wf m → Forall is_u8 (ld_bytes m a n).
Proof. intros H. revert a. induction n; intros a; simpl; [done|]. by constructor. Qed.

Lemma mem_wf_st_bytes m a bs : mem_wf m → mem_wf (st_bytes m a bs).
Proof. revert m a. induction bs; intros m a' H; simpl; [done|]. by apply IHbs, mem_wf_st8. Qed.

(** [memset] fills exactly the range it is given. *)
Lemma ld8_memset m s c n a :
  ld8 (memset m s c n) a = if decide (s ≤ a < s + n) then u8 c else ld8 m a.
Proof.
  unfold memset. destruct (decide (0 ≤ n)) as [Hn|Hn].
  2:{ replace (Z.to_nat n) with O by lia. simpl. rewrite decide_False; [done|lia]. }
  destruct (Z_of_nat_complete n Hn) as [k ->]. rewrite Nat2Z.id. clear Hn.
  revert m s. induction k as [|k IH]; intros m s; simpl.
  { rewrite decide_False; [done|lia]. }
  rewrite IH. destruct (decide (a = s)) as [->|Ha].
  - rewrite decide_False, decide_True by lia. apply ld8_st8.
  - rewrite ld8_st8_ne by done.
    destruct (decide (s + 1 ≤ a < s + 1 + Z.of_nat k)).
    + rewrite decide_True; [done|lia].
    + rewrite decide_False; [done|lia].
Qed.

(** [memcpy] on ranges that do not overlap copies the source range. *)
Lemma ld8_memcpy m d s n a :
  d + n ≤ s ∨ s + n ≤ d → mem_wf m →
  ld8 (memcpy m d s n) a = if decide (d ≤ a < d + n) then ld8 m (s + (a - d)) else ld8 m a.
Proof.
  intros Hd Hm. unfold memcpy. destruct (decide (0 ≤ n)) as [Hn|Hn].
  2:{ replace (Z.to_nat n) with O by lia. simpl. rewrite decide_False; [done|lia]. }
  destruct (Z_of_nat_complete n Hn) as [k ->]. rewrite Nat2Z.id. clear Hn.
  revert m d s Hm Hd. induction k as [|k IH]; intros m d s Hm Hd; simpl.
  { rewrite decide_False; [done|lia]. }
  rewrite IH by (try apply mem_wf_st8; done || lia).
  destruct (decide (a = d)) as [->|Ha].
  - rewrite decide_False, decide_True by lia. rewrite ld8_st8, u8_id by apply Hm.
    f_equal. lia.
  - destruct (decide (d + 1 ≤ a < d + 1 + Z.of_nat k)).
    + rewrite decide_True by lia. rewrite ld8_st8_ne by lia. f_equal. lia.
    + rewrite decide_False by lia. by rewrite ld8_st8_ne.
Qed.

(** ** 32-bit words next to other words *)

Lemma ld32_st32 m a v : ld32 (st32 m a v) a = u32 v.
Proof. unfold ld32, st32. by rewrite ld_st_le. Qed.

Lemma ld64_st32_ne m a b v : b + 8 ≤ a ∨ a + 4 ≤ b → ld64 (st32 m a v) b = ld64 m b.
Proof. intros H. apply ld_st_le_ne. lia. Qed.

Lemma ld32_st32_ne m a b v : b + 4 ≤ a ∨ a + 4 ≤ b → ld32 (st32 m a v) b = ld32 m b.
Proof. intros H. apply ld_st_le_ne. lia. Qed.

Lemma ld32_st64_ne m a b v : b + 4 ≤ a ∨ a + 8 ≤ b → ld32 (st64 m a v) b = ld32 m b.
Proof. intros H. apply ld_st_le_ne. lia. Qed.

Lemma ld8_st64_out m a v b : b < a ∨ a + 8 ≤ b → ld8 (st64 m a v) b = ld8 m b.
Proof. intros H. apply ld8_st_le_out. lia. Qed.

Lemma ld8_st32_out m a v b : b < a ∨ a + 4 ≤ b → ld8 (st32 m a v) b = ld8 m b.
Proof. intros H. apply ld8_st_le_out. lia. Qed.

(** Two memories that agree on a range load the same words from it. *)
Definition agree (lo hi : Z) (m1 m2 : mem) : Prop := ∀ a, lo ≤ a < hi → ld8 m1 a = ld8 m2 a.

Lemma agree_ld64 lo hi m1 m2 a : agree lo hi m1 m2 → lo ≤ a → a + 8 ≤ hi → ld64 m1 a = ld64 m2 a.
Proof. intros H ??. apply ld_le_ext. intros b Hb. apply H. lia. Qed.

Lemma agree_ld32 lo hi m1 m2 a : agree lo hi m1 m2 → lo ≤ a → a + 4 ≤ hi → ld32 m1 a = ld32 m2 a.
Proof. intros H ??. apply ld_le_ext. intros b Hb. apply H. lia. Qed.

(** A word written back changes nothing. *)
Lemma st_le_ld_le m a n b : mem_wf m → ld8 (st_le m a n (ld_le m a n)) b = ld8 m b.
Proof.
  intros Hm. assert (∀ m0 x, mem_wf m0 → (∀ i, x ≤ i < x + Z.of_nat n → ld8 m0 i = ld8 m i) →
    ∀ b, ld8 (st_le m0 x n (ld_le m x n)) b = ld8 m0 b) as Hx; [|by apply Hx].
  clear b. induction n as [|n IH]; intros m0 x Hm0 Heq b; [done|]. cbn [st_le ld_le].
  assert ((ld8 m x + 2 ^ 8 * ld_le m (x + 1) n) `div` 2 ^ 8 = ld_le m (x + 1) n) as ->.
  { pose proof (Hm x) as Hb. unfold is_u8 in Hb. rewrite Z.add_comm, Z.mul_comm, Z.div_add_l by lia.
    rewrite Z.div_small by lia. lia. }
  assert (u8 (ld8 m x + 2 ^ 8 * ld_le m (x + 1) n) = ld8 m x) as Hu.
  { unfold u8. rewrite Z.add_comm, Z.mul_comm, Z.add_comm, Z.mod_add by lia. apply Z.mod_small, Hm. }
  rewrite IH.
  - destruct (decide (b = x)) as [->|]; [|by rewrite ld8_st8_ne]. rewrite ld8_st8, Hu. symmetry. apply Heq. lia.
  - by apply mem_wf_st8.
  - intros i Hi. rewrite ld8_st8_ne by lia. apply Heq. lia.
Qed.

Lemma ld8_st64_ld64 m a b : mem_wf m → ld8 (st64 m a (ld64 m a)) b = ld8 m b.
Proof. apply st_le_ld_le. Qed.
