(* ===== verification/Types.v ===== *)
(** * Types: the macros and constants of include/types.h and
    include/arch/x86_64.h that the modelled code uses. *)

From S2P Require Import Prelude.

(** ** include/types.h *)

Definition NULL : Z := 0.

(** [ALIGN_UP(x, a)] with [x] of type [uint64_t]: [((x) + (a) - 1) & ~((a) - 1)]. *)
Definition ALIGN_UP (x a : Z) : Z := Z.land (u64 (x + a - 1)) (not64 (a - 1)).
(** The same macro applied to a [uint32_t]: the arithmetic is then 32 bits wide. *)
Definition ALIGN_UP32 (x a : Z) : Z := Z.land (u32 (x + a - 1)) (not32 (a - 1)).

(** [ALIGN_DOWN(x, a)] with [a] of type [uint64_t]. *)
Definition ALIGN_DOWN (x a : Z) : Z := Z.land x (not64 (u64 (a - 1))).

Definition PAGE_SIZE : Z := 4096.
Definition PAGE_MASK : Z := not64 (u64 (PAGE_SIZE - 1)).
Definition PAGE_ALIGN (x : Z) : Z := ALIGN_UP x PAGE_SIZE.

Definition BIT (n : Z) : Z := u64 (Z.shiftl 1 n).

(** [SET_BIT] and [CLR_BIT] assign to their argument; these are the values
    assigned to a [uint64_t]. *)
Definition SET_BIT (x n : Z) : Z := Z.lor x (BIT n).
Definition CLR_BIT (x n : Z) : Z := Z.land x (not64 (BIT n)).
Definition TEST_BIT (x n : Z) : bool := negb (Z.land x (BIT n) =? 0).

Definition ESRCH : Z := 3.
Definition ENOMEM : Z := 12.
Definition EINVAL : Z := 22.
Definition ENOSYS : Z := 38.

(** ** include/arch/x86_64.h *)

Definition PTE_PRESENT : Z := BIT 0.
Definition PTE_WRITABLE : Z := BIT 1.
Definition PTE_USER : Z := BIT 2.
Definition PTE_ADDR_MASK : Z := 0x000FFFFFFFFFF000.

Definition IDT_PAGE_FAULT : Z := 14.
Definition IDT_IRQ_BASE : Z := 0x20.

Definition PIC_MASTER_CMD : Z := 0x20.
Definition PIC_MASTER_DATA : Z := 0x21.
Definition PIC_SLAVE_CMD : Z := 0xA0.
Definition PIC_SLAVE_DATA : Z := 0xA1.

(** ** The window of the kernel heap (kernel/mm/vmm.c) *)

Definition KHEAP_START : Z := 0x400000.
Definition KHEAP_SIZE : Z := 4 * 1024 * 1024.

(** ** Alignment *)

(** [ALIGN_UP] rounds up to the next multiple of a power of two unless the
    addition leaves the 64-bit range. *)
Lemma ALIGN_UP_spec x k :
  0 ≤ k ≤ 64 → is_u64 x → x + 2 ^ k - 1 < 2 ^ 64 →
  ALIGN_UP x (2 ^ k) = 2 ^ k * ((x + 2 ^ k - 1) `div` 2 ^ k).
Proof.
  intros Hk Hx Hlt. unfold ALIGN_UP, is_u64 in *. pose proof (Z.pow_pos_nonneg 2 k).
  rewrite u64_id by (unfold is_u64; lia).
  rewrite land_not64_ones; [done|lia|unfold is_u64; lia].
Qed.

Lemma ALIGN_UP_aligned x k :
  0 ≤ k ≤ 64 → ALIGN_UP x (2 ^ k) `mod` 2 ^ k = 0.
Proof.
  intros Hk. unfold ALIGN_UP. rewrite land_not64_ones by (done || apply u64_range).
  rewrite Z.mul_comm. apply Z.mod_mul. pose proof (Z.pow_pos_nonneg 2 k). lia.
Qed.

Lemma ALIGN_UP_bounds x k :
  0 ≤ k ≤ 64 → is_u64 x → x + 2 ^ k - 1 < 2 ^ 64 →
  x ≤ ALIGN_UP x (2 ^ k) < x + 2 ^ k.
Proof.
  intros Hk Hx Hlt. rewrite ALIGN_UP_spec by done.
  pose proof (Z.pow_pos_nonneg 2 k).
  pose proof (Z.div_mod (x + 2 ^ k - 1) (2 ^ k)). 
  pose proof (Z.mod_pos_bound (x + 2 ^ k - 1) (2 ^ k)). lia.
Qed.

Lemma PAGE_ALIGN_spec x :
  is_u64 x → x + 4095 < 2 ^ 64 →
  x ≤ PAGE_ALIGN x < x + 4096 ∧ PAGE_ALIGN x `mod` 4096 = 0.
Proof.
  intros Hx Hlt. split.
  - apply (ALIGN_UP_bounds x 12); [lia|done|change (2 ^ 12) with 4096; lia].
  - apply (ALIGN_UP_aligned x 12). lia.
Qed.

Lemma ALIGN_DOWN_spec x k : 0 ≤ k < 64 → is_u64 x → ALIGN_DOWN x (2 ^ k) = 2 ^ k * (x `div` 2 ^ k).
Proof.
  intros Hk Hx. unfold ALIGN_DOWN. pose proof (Z.pow_lt_mono_r 2 k 64). pose proof (Z.pow_pos_nonneg 2 k).
  rewrite (u64_id (2 ^ k - 1)) by (unfold is_u64; lia). apply land_not64_ones; [lia|done].
Qed.

(** On a page boundary both macros are the identity; off it they are a page apart. *)
Lemma ALIGN_DOWN_UP x :
  is_u64 x → x + 4095 < 2 ^ 64 →
  ALIGN_DOWN x PAGE_SIZE ≤ x < ALIGN_DOWN x PAGE_SIZE + PAGE_SIZE ∧ Z.land x PAGE_MASK = ALIGN_DOWN x PAGE_SIZE ∧
  PAGE_ALIGN x = ALIGN_DOWN x PAGE_SIZE + (if x `mod` PAGE_SIZE =? 0 then 0 else PAGE_SIZE).
Proof.
  intros Hx Hlt. pose proof (ALIGN_DOWN_spec x 12 ltac:(lia) Hx) as Hd.
  unfold PAGE_ALIGN. pose proof (ALIGN_UP_spec x 12 ltac:(lia) Hx ltac:(change (2 ^ 12) with 4096; lia)) as Hu.
  change (2 ^ 12) with PAGE_SIZE in *. rewrite Hd, Hu. split_and!; [| |done|].
  - unfold PAGE_SIZE. pose proof (Z.div_mod x 4096). pose proof (Z.mod_pos_bound x 4096). lia.
  - unfold PAGE_SIZE. pose proof (Z.div_mod x 4096). pose proof (Z.mod_pos_bound x 4096). lia.
  - unfold PAGE_SIZE. pose proof (Z.div_mod x 4096). pose proof (Z.mod_pos_bound x 4096).
    destruct (Z.eqb_spec (x `mod` 4096) 0) as [E|E].
    + replace ((x + 4096 - 1) `div` 4096) with (x `div` 4096); [lia|].
      apply (Z.div_unique _ _ _ 4095); lia.
    + replace ((x + 4096 - 1) `div` 4096) with (x `div` 4096 + 1); [lia|].
      apply (Z.div_unique _ _ _ (x `mod` 4096 - 1)); lia.
Qed.

(** ** Bits *)

Lemma BIT_bits n i : 0 ≤ n < 64 → Z.testbit (BIT n) i = bool_decide (i = n).
Proof.
  intros Hn. unfold BIT. rewrite Z.shiftl_1_l, u64_id; [apply pow2_testbit; lia|].
  unfold is_u64. pose proof (Z.pow_lt_mono_r 2 n 64). pose proof (Z.pow_pos_nonneg 2 n). lia.
Qed.
Lemma TEST_BIT_testbit x n : 0 ≤ n < 64 → TEST_BIT x n = Z.testbit x n.
Proof.
  intros Hn. unfold TEST_BIT, BIT. rewrite Z.shiftl_1_l, u64_id; [rewrite land_pow2_eqb by lia; apply negb_involutive|].
  unfold is_u64. pose proof (Z.pow_lt_mono_r 2 n 64). pose proof (Z.pow_pos_nonneg 2 n). lia.
Qed.
Lemma TEST_SET_BIT x n i :
  0 ≤ n < 64 → 0 ≤ i < 64 → TEST_BIT (SET_BIT x n) i = bool_decide (i = n) || TEST_BIT x i.
Proof. intros Hn Hi. rewrite !TEST_BIT_testbit by done. unfold SET_BIT. by rewrite Z.lor_spec, BIT_bits, orb_comm. Qed.
Lemma TEST_CLR_BIT x n i :
  0 ≤ n < 64 → 0 ≤ i < 64 → TEST_BIT (CLR_BIT x n) i = negb (bool_decide (i = n)) && TEST_BIT x i.
Proof.
  intros Hn Hi. rewrite !TEST_BIT_testbit by done. unfold CLR_BIT.
  rewrite Z.land_spec, testbit_not64, BIT_bits by lia. replace (i <? 64) with true by lia. by rewrite andb_comm.
Qed.

(** ** Addresses fixed by the linker

    The static objects and assembly entry points whose addresses the C code
    takes; linker.ld and the link decide them, so they are a parameter. *)

Class Link := {
  pt_pool : Z;              (** the page-table pool of kernel/mm/vmm.c *)
  sym_gdt : Z;              (** [gdt] of kernel/arch/x86_64/gdt.c *)
  sym_tss : Z;              (** [tss] of kernel/arch/x86_64/gdt.c *)
  sym_idt : Z;              (** [idt] of kernel/arch/x86_64/idt.c *)
  isr_stub_table : list Z;  (** kernel/arch/x86_64/isr_stub.asm *)
  proc_entrypoint : Z;      (** kernel/proc/proc_entry.asm *)
  proc_entry_user : Z;      (** kernel/proc/proc_entry_user.asm *)
}.

(** A layout for the examples: the kernel is linked at 1 MiB. *)
Definition demo_link : Link := {|
  pt_pool := 0x140000; sym_gdt := 0x120000; sym_tss := 0x120100; sym_idt := 0x121000;
  isr_stub_table := ((λ i, 0x101000 + 16 * i) <$> seqZ 0 48) ++ replicate 80 0 ++ [0x101300];
  proc_entrypoint := 0x102000; proc_entry_user := 0x102100;
|}.
