(* ===== verification/Pmm.v ===== *)
(** * Pmm: the bitmap physical page allocator (kernel/mm/pmm.c)

    One record for the static variables of the file, one definition per
    function.  The specification is the set of pages in use: [used_set] maps
    the bitmap to it, and each operation is shown to be the corresponding
    operation on the set.  [FrameAllocator] is the interface the clients of
    the allocator are proved against; [pmm_frame_allocator] discharges it. *)

From S2P Require Import Prelude Effects Types Interfaces.

Definition PMM_MAX_PAGES : Z := (512 * 1024 * 1024) `div` PAGE_SIZE.
Definition BITMAP_SIZE : Z := PMM_MAX_PAGES `div` 64.

Record pmm := Pmm {
  bitmap : list Z;
  pmm_base : Z;
  pmm_total_pages : Z;
  pmm_free_pages : Z;
  pmm_last_alloc : Z;
}.
#[export] Instance eta_pmm : Eta pmm := λ s,
  Pmm (bitmap s) (pmm_base s) (pmm_total_pages s) (pmm_free_pages s) (pmm_last_alloc s).

(** The static storage before [pmm_init]: all zero. *)
Definition pmm_zero : pmm := Pmm (replicate (Z.to_nat BITMAP_SIZE) 0) 0 0 0 0.

(** ** Operations *)

Definition bitmap_word (s : pmm) (i : Z) : Z := bitmap s !!! Z.to_nat i.
Definition set_bitmap_word (i w : Z) (s : pmm) : pmm :=
  s <| bitmap := <[Z.to_nat i := w]> (bitmap s) |>.

Definition pmm_set_used (page : Z) (s : pmm) : pmm :=
  set_bitmap_word (page `div` 64)
    (Z.lor (bitmap_word s (page `div` 64)) (u64 (Z.shiftl 1 (page `mod` 64)))) s.

Definition pmm_set_free (page : Z) (s : pmm) : pmm :=
  set_bitmap_word (page `div` 64)
    (Z.land (bitmap_word s (page `div` 64)) (not64 (u64 (Z.shiftl 1 (page `mod` 64))))) s.

Definition pmm_is_used (s : pmm) (page : Z) : bool :=
  negb (Z.land (bitmap_word s (page `div` 64)) (u64 (Z.shiftl 1 (page `mod` 64))) =? 0).

Definition pmm_init (mem_base mem_size : Z) : M pmm unit :=
  modify (λ s, s <| pmm_base := PAGE_ALIGN mem_base |>) ;;
  modify (λ s, s <| pmm_total_pages := mem_size `div` PAGE_SIZE |>) ;;
  modify (λ s, if PMM_MAX_PAGES <? pmm_total_pages s
               then s <| pmm_total_pages := PMM_MAX_PAGES |> else s) ;;
  for_each (seqZ 0 BITMAP_SIZE) (λ i, modify (set_bitmap_word i (not64 0))) ;;
  total ← gets pmm_total_pages ;
  for_each (seqZ 0 total) (λ i, modify (pmm_set_free i)) ;;
  modify (λ s, s <| pmm_free_pages := pmm_total_pages s |>) ;;
  modify (λ s, s <| pmm_last_alloc := 0 |>) ;;
  s ← get ;
  kprintf ("[PMM] base=%p pages=%lu (%luMB)" +:+ nl)
    [KInt (pmm_base s); KInt (pmm_total_pages s);
     KInt (u64 (pmm_total_pages s * PAGE_SIZE) `div` (1024 * 1024))].

(** The loop of [pmm_alloc] with [n] iterations left, the next one being [i]. *)
Fixpoint pmm_alloc_scan (n : nat) (i : Z) : M pmm Z :=
  match n with
  | O => mret NULL
  | S n =>
      s ← get ;
      let page := u64 (pmm_last_alloc s + i) `mod` pmm_total_pages s in
      if negb (pmm_is_used s page) then
        modify (pmm_set_used page) ;;
        modify (λ s, s <| pmm_free_pages := u64 (pmm_free_pages s - 1) |>) ;;
        modify (λ s, s <| pmm_last_alloc := u64 (page + 1) `mod` pmm_total_pages s |>) ;;
        gets (λ s, u64 (pmm_base s + u64 (page * PAGE_SIZE)))
      else pmm_alloc_scan n (i + 1)
  end.

Definition pmm_alloc : M pmm Z :=
  s ← get ;
  kprintf ("[PMM] alloc: base=%p total=%lu free=%lu" +:+ nl)
    [KInt (pmm_base s); KInt (pmm_total_pages s); KInt (pmm_free_pages s)] ;;
  pmm_alloc_scan (Z.to_nat (pmm_total_pages s)) 0.

Definition pmm_free (ptr : Z) : M pmm unit :=
  if ptr =? NULL then mret tt else
  s ← get ;
  let addr := ptr in
  if addr <? pmm_base s then mret tt else
  let page := (addr - pmm_base s) `div` PAGE_SIZE in
  if pmm_total_pages s <=? page then mret tt else
  if negb (pmm_is_used s page) then mret tt else
  modify (pmm_set_free page) ;;
  modify (λ s, s <| pmm_free_pages := u64 (pmm_free_pages s + 1) |>).

Definition pmm_free_count : M pmm Z := gets pmm_free_pages.
Definition pmm_alloc_page : M pmm Z := pmm_alloc.
Definition pmm_free_page (page : Z) : M pmm unit := pmm_free page.

(** ** The bitmap as a predicate on pages *)

Definition bitmap_ok (s : pmm) : Prop :=
  length (bitmap s) = Z.to_nat BITMAP_SIZE ∧ ∀ i : nat, is_u64 (bitmap s !!! i).

Definition max_page (page : Z) : Prop := 0 ≤ page < PMM_MAX_PAGES.

Lemma page_index page : max_page page → (Z.to_nat (page `div` 64) < Z.to_nat BITMAP_SIZE)%nat.
Proof.
  unfold max_page. change PMM_MAX_PAGES with (64 * BITMAP_SIZE). intros [H0 H].
  apply Z2Nat.inj_lt; [by apply Z.div_pos|done|]. apply Z.div_lt_upper_bound; lia.
Qed.

Lemma page_bit page : u64 (Z.shiftl 1 (page `mod` 64)) = 2 ^ (page `mod` 64).
Proof.
  pose proof (Z.mod_pos_bound page 64 ltac:(lia)) as Hm.
  rewrite Z.shiftl_mul_pow2, Z.mul_1_l by lia. apply u64_id. split; [apply Z.pow_nonneg; lia|].
  apply Z.pow_lt_mono_r; lia.
Qed.

Lemma pmm_is_used_testbit s page :
  pmm_is_used s page = Z.testbit (bitmap_word s (page `div` 64)) (page `mod` 64).
Proof.
  unfold pmm_is_used. rewrite page_bit, land_pow2_eqb, negb_involutive; [done|].
  by apply Z.mod_pos_bound.
Qed.

(** Two pages share a word and a bit only if they are equal. *)
Lemma page_split p q :
  max_page p → max_page q →
  Z.to_nat (p `div` 64) = Z.to_nat (q `div` 64) → p `mod` 64 = q `mod` 64 → p = q.
Proof.
  unfold max_page. intros Hp Hq Hd Hm.
  apply Z2Nat.inj in Hd; [|apply Z.div_pos; lia..].
  rewrite (Z.div_mod p 64), (Z.div_mod q 64) by lia. lia.
Qed.

Section bitmap_lemmas.
Implicit Types s : pmm.

Lemma bitmap_ok_set_used p s : bitmap_ok s → max_page p → bitmap_ok (pmm_set_used p s).
Proof.
  intros [Hl Hw] Hp. split; simpl; [by rewrite length_insert|]. intros i.
  rewrite lookup_total_insert_Z by (rewrite Hl; by apply page_index).
  case_decide; [|apply Hw]. apply (lor_below _ _ 64); [apply Hw|apply u64_range].
Qed.

Lemma bitmap_ok_set_free p s : bitmap_ok s → max_page p → bitmap_ok (pmm_set_free p s).
Proof.
  intros [Hl Hw] Hp. split; simpl; [by rewrite length_insert|]. intros i.
  rewrite lookup_total_insert_Z by (rewrite Hl; by apply page_index).
  case_decide; [|apply Hw]. apply (land_below _ _ 64), Hw.
Qed.

Lemma is_used_set_used p q s :
  bitmap_ok s → max_page p → max_page q →
  pmm_is_used (pmm_set_used p s) q = bool_decide (q = p) || pmm_is_used s q.
Proof.
  intros [Hl Hw] Hp Hq. rewrite !pmm_is_used_testbit. unfold bitmap_word at 1. simpl.
  rewrite lookup_total_insert_Z by (rewrite Hl; by apply page_index).
  pose proof (Z.mod_pos_bound p 64 ltac:(lia)). rewrite page_bit.
  case_decide as Hd.
  - rewrite Z.lor_spec, pow2_testbit by lia. unfold bitmap_word. rewrite Hd, orb_comm.
    f_equal. apply bool_decide_ext. split; [|by intros ->].
    intros Hm. symmetry in Hm. symmetry. by apply page_split.
  - rewrite (bool_decide_eq_false_2 (q = p)); [done|]. intros ->. by apply Hd.
Qed.

Lemma is_used_set_free p q s :
  bitmap_ok s → max_page p → max_page q →
  pmm_is_used (pmm_set_free p s) q = negb (bool_decide (q = p)) && pmm_is_used s q.
Proof.
  intros [Hl Hw] Hp Hq. rewrite !pmm_is_used_testbit. unfold bitmap_word at 1. simpl.
  rewrite lookup_total_insert_Z by (rewrite Hl; by apply page_index).
  pose proof (Z.mod_pos_bound p 64 ltac:(lia)).
  pose proof (Z.mod_pos_bound q 64 ltac:(lia)). rewrite page_bit.
  case_decide as Hd.
  - rewrite Z.land_spec, testbit_not64, pow2_testbit by lia.
    unfold bitmap_word. rewrite Hd, andb_comm.
    replace (q `mod` 64 <? 64) with true by (symmetry; apply Z.ltb_lt; lia).
    simpl. do 2 f_equal. apply bool_decide_ext. split; [|by intros ->].
    intros Hm. symmetry in Hm. symmetry. by apply page_split.
  - rewrite (bool_decide_eq_false_2 (q = p)); [done|]. intros ->. by apply Hd.
Qed.
End bitmap_lemmas.

(** ** The abstract state: a set of used pages *)

Definition pages (s : pmm) : gset Z := list_to_set (seqZ 0 (pmm_total_pages s)).
Definition used_set (s : pmm) : gset Z :=
  filter (λ p, pmm_is_used s p = true) (pages s).
Definition free_set (s : pmm) : gset Z := pages s ∖ used_set s.

Definition page_addr (s : pmm) (p : Z) : Z := pmm_base s + p * PAGE_SIZE.

Record pmm_wf (s : pmm) : Prop := {
  wf_bitmap : bitmap_ok s;
  wf_base : is_u64 (pmm_base s);
  wf_base_aligned : pmm_base s `mod` PAGE_SIZE = 0;
  wf_total : 0 ≤ pmm_total_pages s ≤ PMM_MAX_PAGES;
  wf_range : pmm_base s + pmm_total_pages s * PAGE_SIZE ≤ 2 ^ 64;
  wf_free : pmm_free_pages s = Z.of_nat (size (free_set s));
  wf_last : 0 ≤ pmm_last_alloc s < Z.max 1 (pmm_total_pages s);
}.

Lemma elem_of_pages s p : p ∈ pages s ↔ 0 ≤ p < pmm_total_pages s.
Proof. unfold pages. rewrite elem_of_list_to_set, elem_of_seqZ. lia. Qed.

Lemma elem_of_used_set s p :
  p ∈ used_set s ↔ 0 ≤ p < pmm_total_pages s ∧ pmm_is_used s p = true.
Proof. unfold used_set. rewrite elem_of_filter, elem_of_pages. tauto. Qed.

Lemma elem_of_free_set s p :
  p ∈ free_set s ↔ 0 ≤ p < pmm_total_pages s ∧ pmm_is_used s p = false.
Proof.
  unfold free_set. rewrite elem_of_difference, elem_of_used_set, elem_of_pages.
  destruct (pmm_is_used s p); naive_solver.
Qed.

Lemma free_set_size_bound s : pmm_wf s → 0 ≤ Z.of_nat (size (free_set s)) ≤ PMM_MAX_PAGES.
Proof.
  intros Hwf. split; [lia|].
  assert (size (free_set s) ≤ size (pages s))%nat by (apply subseteq_size; set_solver).
  assert (size (pages s) = Z.to_nat (pmm_total_pages s)).
  { unfold pages. rewrite size_list_to_set by apply NoDup_seqZ. apply length_seqZ. }
  pose proof (wf_total s Hwf). lia.
Qed.

Lemma wf_max_page s p : pmm_wf s → 0 ≤ p < pmm_total_pages s → max_page p.
Proof. intros Hwf Hp. pose proof (wf_total s Hwf). unfold max_page. lia. Qed.

Create HintDb pmm.
#[export] Hint Resolve wf_max_page wf_bitmap bitmap_ok_set_used bitmap_ok_set_free : pmm.

(** Handing out and taking back one page, on the concrete state. *)
Definition take_page (p : Z) (s : pmm) : pmm :=
  (pmm_set_used p s) <| pmm_free_pages := pmm_free_pages s - 1 |>
                     <| pmm_last_alloc := (p + 1) `mod` pmm_total_pages s |>.
Definition give_page (p : Z) (s : pmm) : pmm :=
  (pmm_set_free p s) <| pmm_free_pages := pmm_free_pages s + 1 |>.

Lemma take_page_free_set p s :
  pmm_wf s → p ∈ free_set s → free_set (take_page p s) = free_set s ∖ {[p]}.
Proof.
  intros Hwf Hp. apply set_eq. intros q.
  rewrite elem_of_difference, elem_of_singleton, !elem_of_free_set.
  apply elem_of_free_set in Hp as [Hp Hu]. cbn [pmm_total_pages take_page].
  split.
  - intros [Hq Hf]. change (pmm_is_used (pmm_set_used p s) q = false) in Hf.
    rewrite is_used_set_used in Hf by eauto with pmm.
    apply orb_false_elim in Hf as [H1 H2]. by apply bool_decide_eq_false in H1.
  - intros [[Hq Hf] Hne]. split; [done|].
    change (pmm_is_used (pmm_set_used p s) q = false).
    rewrite is_used_set_used by eauto with pmm. by rewrite bool_decide_eq_false_2.
Qed.

Lemma take_page_used_set p s :
  pmm_wf s → p ∈ free_set s → used_set (take_page p s) = {[p]} ∪ used_set s.
Proof.
  intros Hwf Hp. apply set_eq. intros q.
  rewrite elem_of_union, elem_of_singleton, !elem_of_used_set.
  apply elem_of_free_set in Hp as [Hp Hu]. cbn [pmm_total_pages take_page].
  change (pmm_is_used (take_page p s) q) with (pmm_is_used (pmm_set_used p s) q).
  split.
  - intros [Hq Hf]. rewrite is_used_set_used in Hf by eauto with pmm.
    apply orb_true_iff in Hf as [H1%bool_decide_eq_true|H1]; auto.
  - intros [->|[Hq Hf]]; (split; [done|]); rewrite is_used_set_used by eauto with pmm.
    + by rewrite bool_decide_eq_true_2.
    + by rewrite Hf, orb_true_r.
Qed.

Lemma give_page_used_set p s :
  pmm_wf s → p ∈ used_set s → used_set (give_page p s) = used_set s ∖ {[p]}.
Proof.
  intros Hwf Hp. apply set_eq. intros q.
  rewrite elem_of_difference, elem_of_singleton, !elem_of_used_set.
  apply elem_of_used_set in Hp as [Hp Hu]. cbn [pmm_total_pages give_page].
  change (pmm_is_used (give_page p s) q) with (pmm_is_used (pmm_set_free p s) q).
  split.
  - intros [Hq Hf]. rewrite is_used_set_free in Hf by eauto with pmm.
    apply andb_true_iff in Hf as [H1%negb_true_iff%bool_decide_eq_false H2]; auto.
  - intros [[Hq Hf] Hne]. split; [done|]. rewrite is_used_set_free by eauto with pmm.
    by rewrite bool_decide_eq_false_2.
Qed.

Lemma give_page_free_set p s :
  pmm_wf s → p ∈ used_set s → free_set (give_page p s) = {[p]} ∪ free_set s.
Proof.
  intros Hwf Hp. unfold free_set at 1. rewrite give_page_used_set by done.
  change (pages (give_page p s)) with (pages s). unfold free_set.
  assert (p ∈ pages s) by (apply elem_of_used_set in Hp as [? _]; by apply elem_of_pages).
  apply set_eq. intros q. destruct (decide (q = p)) as [->|]; set_solver.
Qed.

Lemma take_page_wf p s : pmm_wf s → p ∈ free_set s → pmm_wf (take_page p s).
Proof.
  intros Hwf Hp. pose proof (take_page_free_set p s Hwf Hp) as Hf.
  pose proof Hp as Hp'. apply elem_of_free_set in Hp' as [Hr _].
  destruct Hwf as [Hb Hbase Hal Htot Hran Hfree Hlast] eqn:E.
  assert (bitmap_ok (pmm_set_used p s)) by (apply bitmap_ok_set_used; eauto with pmm).
  split; [done|done|done|done|done| |].
  - rewrite Hf. cbn [pmm_free_pages take_page]. simpl.
    rewrite size_difference by set_solver. rewrite size_singleton, Hfree.
    assert (size (free_set s) ≠ 0%nat); [|lia]. apply size_non_empty_iff. set_solver.
  - simpl. pose proof (Z.mod_pos_bound (p + 1) (pmm_total_pages s)). lia.
Qed.

Lemma give_page_wf p s : pmm_wf s → p ∈ used_set s → pmm_wf (give_page p s).
Proof.
  intros Hwf Hp. pose proof (give_page_free_set p s Hwf Hp) as Hf.
  pose proof Hp as Hp'. apply elem_of_used_set in Hp' as [Hr _].
  destruct Hwf as [Hb Hbase Hal Htot Hran Hfree Hlast] eqn:E.
  assert (bitmap_ok (pmm_set_free p s)) by (apply bitmap_ok_set_free; eauto with pmm).
  split; [done|done|done|done|done| |done].
  rewrite Hf. simpl. rewrite size_union; [rewrite size_singleton; lia|].
  apply disjoint_singleton_l. rewrite elem_of_free_set.
  apply elem_of_used_set in Hp as [_ Hp]. intros [_ Hq]. congruence.
Qed.

(** ** Allocation *)

(** The page probed by iteration [i] of the scan. *)
Definition probe (s : pmm) (i : Z) : Z := (pmm_last_alloc s + i) `mod` pmm_total_pages s.

Lemma probe_range s i : 0 < pmm_total_pages s → 0 ≤ probe s i < pmm_total_pages s.
Proof. intros H. by apply Z.mod_pos_bound. Qed.

(** Every page is probed. *)
Lemma probe_surj s q :
  0 ≤ q < pmm_total_pages s → ∃ i, 0 ≤ i < pmm_total_pages s ∧ probe s i = q.
Proof.
  intros Hq. exists ((q - pmm_last_alloc s) `mod` pmm_total_pages s).
  split; [apply Z.mod_pos_bound; lia|]. unfold probe.
  rewrite Z.add_mod_idemp_r by lia.
  replace (pmm_last_alloc s + (q - pmm_last_alloc s)) with q by lia. apply Z.mod_small. lia.
Qed.

Lemma PMM_MAX_PAGES_value : PMM_MAX_PAGES = 131072.
Proof. done. Qed.

Lemma page_addr_range s p :
  pmm_wf s → 0 ≤ p < pmm_total_pages s → pmm_base s ≤ page_addr s p < 2 ^ 64.
Proof.
  intros Hwf Hp. pose proof (wf_range s Hwf). pose proof (wf_base s Hwf).
  unfold page_addr, PAGE_SIZE, is_u64 in *. lia.
Qed.

Lemma page_addr_wrap s p :
  pmm_wf s → 0 ≤ p < pmm_total_pages s →
  u64 (pmm_base s + u64 (p * PAGE_SIZE)) = page_addr s p.
Proof.
  intros Hwf Hp. pose proof (page_addr_range s p Hwf Hp) as Hr.
  pose proof (wf_base s Hwf). unfold page_addr, is_u64, PAGE_SIZE in *.
  rewrite (u64_id (p * 4096)) by (unfold is_u64; lia). apply u64_id. unfold is_u64. lia.
Qed.

Lemma pmm_alloc_scan_hit s n i :
  pmm_wf s → 0 ≤ i < pmm_total_pages s → pmm_is_used s (probe s i) = false →
  result (pmm_alloc_scan (S n) i) s = Some (page_addr s (probe s i), take_page (probe s i) s).
Proof.
  intros Hwf Hi Hu. pose proof (wf_total s Hwf) as Ht. pose proof (wf_last s Hwf) as Hl.
  rewrite PMM_MAX_PAGES_value in Ht.
  pose proof (probe_range s i ltac:(lia)) as Hp.
  assert (probe s i ∈ free_set s) as Hf by (by apply elem_of_free_set).
  cbn [pmm_alloc_scan]. run_simpl.
  rewrite (u64_id (pmm_last_alloc s + i)) by (unfold is_u64; lia).
  fold (probe s i). rewrite Hu. cbn [negb]. run_simpl. simpl.
  rewrite (u64_id (probe s i + 1)) by (unfold is_u64; lia).
  rewrite page_addr_wrap by done. unfold take_page. do 2 f_equal. simpl. f_equal.
  apply u64_id. rewrite wf_free by done.
  pose proof (free_set_size_bound s Hwf) as Hb. rewrite PMM_MAX_PAGES_value in Hb.
  assert (size (free_set s) ≠ 0%nat) by (apply size_non_empty_iff; set_solver).
  unfold is_u64. lia.
Qed.

Lemma pmm_alloc_scan_miss s n i :
  pmm_wf s → 0 ≤ i < pmm_total_pages s → pmm_is_used s (probe s i) = true →
  result (pmm_alloc_scan (S n) i) s = result (pmm_alloc_scan n (i + 1)) s.
Proof.
  intros Hwf Hi Hu. pose proof (wf_total s Hwf) as Ht. pose proof (wf_last s Hwf) as Hl.
  rewrite PMM_MAX_PAGES_value in Ht.
  cbn [pmm_alloc_scan]. run_simpl.
  rewrite (u64_id (pmm_last_alloc s + i)) by (unfold is_u64; lia).
  fold (probe s i). rewrite Hu. done.
Qed.

(** The scan takes the first free page it probes, or fails when all of the
    remaining probes hit used pages. *)
Lemma pmm_alloc_scan_spec s n i :
  pmm_wf s → 0 ≤ i → i + Z.of_nat n = pmm_total_pages s →
  (∃ j, i ≤ j < pmm_total_pages s ∧ pmm_is_used s (probe s j) = false ∧
        (∀ k, i ≤ k < j → pmm_is_used s (probe s k) = true) ∧
        result (pmm_alloc_scan n i) s = Some (page_addr s (probe s j), take_page (probe s j) s)) ∨
  ((∀ k, i ≤ k < pmm_total_pages s → pmm_is_used s (probe s k) = true) ∧
   result (pmm_alloc_scan n i) s = Some (NULL, s)).
Proof.
  intros Hwf. revert i. induction n as [|n IH]; intros i Hi Hn.
  { right. split; [lia|done]. }
  destruct (pmm_is_used s (probe s i)) eqn:Hu.
  - rewrite pmm_alloc_scan_miss by (done || lia).
    destruct (IH (i + 1)) as [(j & Hj & Hf & Hk & ->)|[Hk ->]]; [lia|lia| |].
    + left. exists j. split_and!; [lia|lia|done| |done]. intros k Hik.
      destruct (decide (k = i)) as [->|]; [done|]. apply Hk. lia.
    + right. split; [|done]. intros k Hik.
      destruct (decide (k = i)) as [->|]; [done|]. apply Hk. lia.
  - left. exists i. rewrite pmm_alloc_scan_hit by (done || lia). split_and!; [lia|lia|done|lia|done].
Qed.

Lemma pmm_alloc_result s :
  result pmm_alloc s = result (pmm_alloc_scan (Z.to_nat (pmm_total_pages s)) 0) s.
Proof. unfold pmm_alloc. run_simpl. done. Qed.

(** All the cases of an allocation. *)
Lemma pmm_alloc_cases s :
  pmm_wf s →
  (∃ j, 0 ≤ j < pmm_total_pages s ∧ probe s j ∈ free_set s ∧
        (∀ k, 0 ≤ k < j → probe s k ∈ used_set s) ∧
        result pmm_alloc s = Some (page_addr s (probe s j), take_page (probe s j) s)) ∨
  (free_set s = ∅ ∧ result pmm_alloc s = Some (NULL, s)).
Proof.
  intros Hwf. rewrite pmm_alloc_result. pose proof (wf_total s Hwf).
  destruct (pmm_alloc_scan_spec s (Z.to_nat (pmm_total_pages s)) 0 Hwf) as
    [(j & Hj & Hf & Hk & ->)|[Hk ->]]; [lia|lia| |].
  - left. exists j. pose proof (probe_range s j ltac:(lia)).
    rewrite elem_of_free_set. split_and!; [lia..|done| |done].
    intros k Hk'. apply elem_of_used_set. split; [apply probe_range; lia|]. apply Hk. lia.
  - right. split; [|done]. apply set_eq. intros q. rewrite elem_of_free_set.
    split; [|set_solver]. intros [Hq Hf].
    destruct (probe_surj s q Hq) as (i & Hi & <-). by rewrite Hk in Hf.
Qed.

(** ** Release *)

(** The page a pointer given to [pmm_free] falls into. *)
Definition addr_page (s : pmm) (a : Z) : Z := (a - pmm_base s) `div` PAGE_SIZE.

Lemma addr_page_addr s p : addr_page s (page_addr s p) = p.
Proof.
  unfold addr_page, page_addr, PAGE_SIZE.
  replace (pmm_base s + p * 4096 - pmm_base s) with (p * 4096) by lia.
  by apply Z.div_mul.
Qed.

(** [pmm_free] ignores what it did not hand out; the other pointers give their
    page back. *)
Lemma pmm_free_cases s a :
  pmm_wf s → 0 ≤ a →
  result (pmm_free a) s =
    Some (tt, if bool_decide (a ≠ NULL ∧ pmm_base s ≤ a ∧ addr_page s a ∈ used_set s)
              then give_page (addr_page s a) s else s).
Proof.
  intros Hwf Ha. unfold pmm_free. destruct (a =? NULL) eqn:E1.
  { apply Z.eqb_eq in E1. rewrite bool_decide_eq_false_2; [done|tauto]. }
  apply Z.eqb_neq in E1. run_simpl. destruct (a <? pmm_base s) eqn:E2.
  { apply Z.ltb_lt in E2. rewrite bool_decide_eq_false_2; [done|lia]. }
  apply Z.ltb_ge in E2. fold (addr_page s a). destruct (pmm_total_pages s <=? addr_page s a) eqn:E3.
  { apply Z.leb_le in E3. rewrite bool_decide_eq_false_2; [done|].
    rewrite elem_of_used_set. lia. }
  apply Z.leb_gt in E3.
  assert (0 ≤ addr_page s a) by (apply Z.div_pos; unfold PAGE_SIZE; lia).
  destruct (pmm_is_used s (addr_page s a)) eqn:E4; cbn [negb].
  2:{ rewrite bool_decide_eq_false_2; [done|]. rewrite elem_of_used_set. intros (_ & _ & _ & Hu). congruence. }
  assert (addr_page s a ∈ used_set s) as Hu by (by apply elem_of_used_set).
  rewrite bool_decide_eq_true_2 by done. run_simpl. unfold give_page. do 2 f_equal. simpl. f_equal.
  apply u64_id. rewrite wf_free by done.
  pose proof (free_set_size_bound s Hwf). rewrite PMM_MAX_PAGES_value in *. unfold is_u64. lia.
Qed.

(** ** Initialisation *)

Lemma bitmap_ok_zero : bitmap_ok pmm_zero.
Proof.
  split; [apply length_replicate|]. intros i. unfold is_u64.
  unfold pmm_zero, bitmap. rewrite list_lookup_total_alt.
  destruct (decide (i < Z.to_nat BITMAP_SIZE)%nat).
  - rewrite lookup_replicate_2 by done. simpl. lia.
  - rewrite lookup_ge_None_2; [simpl; lia|]. rewrite length_replicate. lia.
Qed.

Lemma fill_loop_spec s n :
  bitmap_ok s → (n ≤ Z.to_nat BITMAP_SIZE)%nat →
  let s' := foldl (λ s i, set_bitmap_word i (not64 0) s) s (seqZ 0 (Z.of_nat n)) in
  bitmap_ok s' ∧ (∀ i, (i < n)%nat → bitmap s' !!! i = not64 0) ∧
  s' <| bitmap := bitmap s |> = s.
Proof.
  intros Hs. induction n as [|n IH]; intros Hn; cbn zeta.
  { simpl. split_and!; [done|lia|by destruct s]. }
  rewrite seqZ_S, foldl_app. destruct IH as ([Hl Hw] & Hset & Hrest); [lia|].
  revert Hl Hw Hset Hrest. generalize (foldl (λ s i, set_bitmap_word i (not64 0) s) s (seqZ 0 (Z.of_nat n))).
  intros s1 Hl Hw Hset Hrest. cbn [foldl]. unfold set_bitmap_word.
  rewrite Z.add_0_l, Nat2Z.id. split_and!.
  - split; simpl; [by rewrite length_insert|]. intros i.
    rewrite lookup_total_insert_Z by (rewrite Hl; lia). case_decide; [|done].
    unfold is_u64, not64. apply u64_range.
  - intros i Hi. simpl. rewrite lookup_total_insert_Z by (rewrite Hl; lia).
    case_decide; [done|]. apply Hset. lia.
  - exact Hrest.
Qed.

Lemma clear_loop_spec s n :
  bitmap_ok s → Z.of_nat n ≤ PMM_MAX_PAGES →
  let s' := foldl (λ s i, pmm_set_free i s) s (seqZ 0 (Z.of_nat n)) in
  bitmap_ok s' ∧
  (∀ p, max_page p → pmm_is_used s' p = negb (bool_decide (p < Z.of_nat n)) && pmm_is_used s p) ∧
  s' <| bitmap := bitmap s |> = s.
Proof.
  intros Hs. induction n as [|n IH]; intros Hn; cbn zeta.
  { simpl. split_and!; [done| |by destruct s].
    intros p Hp. rewrite bool_decide_eq_false_2; [done|]. unfold max_page in Hp. lia. }
  rewrite seqZ_S, foldl_app. destruct IH as (Hok & Hset & Hrest); [lia|].
  revert Hok Hset Hrest. generalize (foldl (λ s i, pmm_set_free i s) s (seqZ 0 (Z.of_nat n))).
  intros s1 Hok Hset Hrest. cbn [foldl]. rewrite Z.add_0_l.
  assert (max_page (Z.of_nat n)) by (unfold max_page; lia). split_and!; [by apply bitmap_ok_set_free| |].
  - intros p Hp. rewrite is_used_set_free, Hset by done. rewrite andb_assoc. f_equal.
    rewrite <-negb_orb. f_equal.
    destruct (decide (p = Z.of_nat n)) as [->|Hne].
    + rewrite (bool_decide_eq_true_2 (_ = _)) by done.
      by rewrite (bool_decide_eq_true_2 (_ < Z.of_nat (S n))) by lia.
    + rewrite (bool_decide_eq_false_2 (p = _)) by done. apply bool_decide_ext. lia.
  - exact Hrest.
Qed.

(** The number of pages [pmm_init] manages. *)
Definition init_pages (mem_size : Z) : Z := Z.min (mem_size `div` PAGE_SIZE) PMM_MAX_PAGES.

Lemma pmm_init_result s mem_base mem_size :
  bitmap_ok s → 0 ≤ mem_size →
  ∃ s', result (pmm_init mem_base mem_size) s = Some (tt, s') ∧
        bitmap_ok s' ∧ (∀ p, 0 ≤ p < init_pages mem_size → pmm_is_used s' p = false) ∧
        pmm_base s' = PAGE_ALIGN mem_base ∧ pmm_total_pages s' = init_pages mem_size ∧
        pmm_free_pages s' = init_pages mem_size ∧ pmm_last_alloc s' = 0.
Proof.
  intros Hs Hsz. unfold pmm_init. run_simpl.
  assert (0 ≤ init_pages mem_size ≤ PMM_MAX_PAGES) as Hn.
  { unfold init_pages. rewrite PMM_MAX_PAGES_value.
    assert (0 ≤ mem_size `div` PAGE_SIZE) by (apply Z.div_pos; unfold PAGE_SIZE; lia). lia. }
  set (s1 := if _ <? _ then _ else _).
  assert (s1 = Pmm (bitmap s) (PAGE_ALIGN mem_base) (init_pages mem_size)
                   (pmm_free_pages s) (pmm_last_alloc s)) as ->.
  { subst s1. unfold init_pages. simpl. destruct (PMM_MAX_PAGES <? _) eqn:E.
    - apply Z.ltb_lt in E. rewrite Z.min_r by lia. done.
    - apply Z.ltb_ge in E. rewrite Z.min_l by lia. done. }
  set (s1 := Pmm (bitmap s) _ _ _ _).
  destruct (fill_loop_spec s1 (Z.to_nat BITMAP_SIZE) Hs) as (Hok2 & Hones & Hrest2); [done|].
  rewrite Z2Nat.id in Hok2, Hones, Hrest2 by done.
  set (s2 := foldl (λ s i, set_bitmap_word i (not64 0) s) s1 _) in *. clearbody s2.
  assert (pmm_total_pages s2 = init_pages mem_size) as -> by exact (f_equal pmm_total_pages Hrest2).
  destruct (clear_loop_spec s2 (Z.to_nat (init_pages mem_size)) Hok2) as (Hok3 & Hclr & Hrest3); [lia|].
  rewrite Z2Nat.id in Hok3, Hclr, Hrest3 by lia.
  set (s3 := foldl (λ s i, pmm_set_free i s) s2 _) in *. clearbody s3.
  assert (s3 <| bitmap := bitmap s1 |> = s1) as Hrest.
  { rewrite <-Hrest2, <-Hrest3. done. }
  destruct s3 as [b3 ba3 t3 f3 l3]. simpl in Hrest. injection Hrest as -> -> -> ->.
  eexists. split; [reflexivity|]. split; [exact Hok3|]. split_and!; [|reflexivity..].
  intros p Hp. etrans; [apply (Hclr p); unfold max_page; lia|].
  rewrite bool_decide_eq_true_2 by lia. reflexivity.
Qed.

(** ** Theorems *)

Lemma take_page_geometry p s :
  pages (take_page p s) = pages s ∧ ∀ q, page_addr (take_page p s) q = page_addr s q.
Proof. done. Qed.

Lemma give_page_geometry p s :
  pages (give_page p s) = pages s ∧ ∀ q, page_addr (give_page p s) q = page_addr s q.
Proof. done. Qed.

Lemma page_addr_inj s p q : page_addr s p = page_addr s q → p = q.
Proof. unfold page_addr, PAGE_SIZE. lia. Qed.

Lemma page_addr_nonzero s p : 0 < pmm_base s → 0 ≤ p → page_addr s p ≠ NULL.
Proof. unfold page_addr, PAGE_SIZE, NULL. lia. Qed.

Lemma free_pages_zero s : pmm_wf s → pmm_free_pages s = 0 ↔ free_set s = ∅.
Proof.
  intros Hwf. rewrite wf_free by done.
  rewrite <-(leibniz_equiv_iff (free_set s) ∅), <-size_empty_iff. lia.
Qed.

(** [pmm_init] from any bitmap. *)
Lemma pmm_init_fresh s mem_base mem_size :
  bitmap_ok s → is_u64 mem_base → 0 ≤ mem_size → mem_base + 4095 + mem_size < 2 ^ 64 →
  ∃ s', result (pmm_init mem_base mem_size) s = Some (tt, s') ∧ pmm_wf s' ∧
    used_set s' = ∅ ∧ pmm_base s' = PAGE_ALIGN mem_base ∧
    pmm_total_pages s' = Z.min (mem_size `div` 4096) 131072 ∧
    pmm_free_pages s' = pmm_total_pages s'.
Proof.
  intros Hs Hb Hsz Hlt.
  destruct (pmm_init_result s mem_base mem_size Hs Hsz)
    as (s' & Hr & Hok & Hfree & Eb & Et & Ef & El).
  exists s'. split; [exact Hr|].
  destruct (PAGE_ALIGN_spec mem_base Hb) as [Hal Hmod]; [lia|].
  assert (0 ≤ mem_size `div` 4096 ∧ mem_size `div` 4096 * 4096 ≤ mem_size) as Hn.
  { split; [by apply Z.div_pos|]. pose proof (Z.mul_div_le mem_size 4096). lia. }
  assert (init_pages mem_size = Z.min (mem_size `div` 4096) 131072) as Hip
    by (unfold init_pages, PAGE_SIZE; rewrite PMM_MAX_PAGES_value; reflexivity).
  assert (used_set s' = ∅) as Hu.
  { apply elem_of_equiv_empty_L. intros p [Hp Ht]%elem_of_used_set.
    rewrite Hfree in Ht; [done|lia]. }
  split; [|split_and!; congruence].
  split; rewrite ?Eb, ?Et, ?Ef, ?El; [done| |done| | | |].
  - unfold is_u64 in *. lia.
  - rewrite PMM_MAX_PAGES_value. lia.
  - unfold PAGE_SIZE. lia.
  - unfold free_set. rewrite Hu, difference_empty_L. unfold pages.
    rewrite size_list_to_set by apply NoDup_seqZ. rewrite length_seqZ, Et. lia.
  - lia.
Qed.

(** [pmm_init] makes every page of the region free: the counters are the
    number of 4 KiB pages in the region, capped at 512 MiB, the base is the
    region's start rounded up to a page, and the allocator invariant holds. *)
Theorem pmm_init_spec s mem_base mem_size :
  bitmap_ok s → is_u64 mem_base → 0 ≤ mem_size → mem_base + 4095 + mem_size < 2 ^ 64 →
  ∃ s', result (pmm_init mem_base mem_size) s = Some (tt, s') ∧ pmm_wf s' ∧
    used_set s' = ∅ ∧ pmm_base s' = PAGE_ALIGN mem_base ∧
    pmm_total_pages s' = Z.min (mem_size `div` 4096) 131072 ∧
    pmm_free_pages s' = pmm_total_pages s'.
Proof. apply pmm_init_fresh. Qed.

(** C4: [pmm_alloc] refines "take a free page": it returns NULL, changing
    nothing, exactly when no page is free; otherwise it returns the address of
    a page that was free, which is then in use, and no other page changes. *)
Theorem pmm_alloc_refines s :
  pmm_wf s → 0 < pmm_base s →
  ∃ a s', result pmm_alloc s = Some (a, s') ∧ pmm_wf s' ∧
    pages s' = pages s ∧ pmm_base s' = pmm_base s ∧
    ((a = NULL ∧ s' = s ∧ free_set s = ∅) ∨
     (∃ p, p ∈ free_set s ∧ a = page_addr s p ∧ a ≠ NULL ∧
           used_set s' = {[p]} ∪ used_set s ∧ pmm_free_pages s' = pmm_free_pages s - 1)).
Proof.
  intros Hwf Hb. destruct (pmm_alloc_cases s Hwf) as [(j & Hj & Hf & _ & Hr)|[Hf Hr]].
  - exists (page_addr s (probe s j)), (take_page (probe s j) s). split_and!; [done|by apply take_page_wf|done..|].
    right. exists (probe s j). split_and!; [done|done| |by apply take_page_used_set|done].
    apply page_addr_nonzero; [done|]. apply elem_of_free_set in Hf. lia.
  - exists NULL, s. split_and!; [done..|]. by left.
Qed.

(** The page handed out is the first free one at or after the cursor
    [pmm_last_alloc], going round at the end, and the cursor moves past it. *)
Theorem pmm_alloc_next_fit s j :
  pmm_wf s → 0 ≤ j < pmm_total_pages s → probe s j ∈ free_set s →
  (∀ k, 0 ≤ k < j → probe s k ∉ free_set s) →
  ∃ s', result pmm_alloc s = Some (page_addr s (probe s j), s') ∧
        pmm_last_alloc s' = (probe s j + 1) `mod` pmm_total_pages s.
Proof.
  intros Hwf Hj Hf Hk. destruct (pmm_alloc_cases s Hwf) as [(i & Hi & Hif & Hik & Hr)|[He _]].
  2:{ rewrite He in Hf. set_solver. }
  assert (i = j) as ->; [|by eexists].
  destruct (Z.lt_trichotomy i j) as [Hlt|[->|Hlt]]; [|done|].
  - destruct (Hk i); [lia|done].
  - specialize (Hik j). rewrite elem_of_used_set in Hik. rewrite elem_of_free_set in Hf.
    destruct Hik; [lia|]. destruct Hf. congruence.
Qed.

(** C29: [pmm_free] refines "give the page back": a pointer into a page in use
    frees exactly that page; NULL, foreign pointers and double frees change
    nothing. *)
Theorem pmm_free_refines s a :
  pmm_wf s → 0 ≤ a →
  ∃ s', result (pmm_free a) s = Some (tt, s') ∧ pmm_wf s' ∧
    (a ≠ NULL ∧ pmm_base s ≤ a ∧ addr_page s a ∈ used_set s →
       used_set s' = used_set s ∖ {[addr_page s a]} ∧ pmm_free_pages s' = pmm_free_pages s + 1) ∧
    (a = NULL ∨ a < pmm_base s ∨ addr_page s a ∉ used_set s → s' = s).
Proof.
  intros Hwf Ha. eexists. split; [by apply pmm_free_cases|].
  case_bool_decide as E.
  - destruct E as (E1 & E2 & E3). split_and!; [by apply give_page_wf| |].
    + intros _. split; [by apply give_page_used_set|done].
    + intros [|[|]]; [done|lia|done].
  - split_and!; [done| |done]. intros E'. by destruct E.
Qed.

(** Giving back the page just allocated restores the set of used pages and
    the number of free ones. *)
Theorem pmm_alloc_free_roundtrip s a s1 :
  pmm_wf s → 0 < pmm_base s → result pmm_alloc s = Some (a, s1) → a ≠ NULL →
  ∃ s2, result (pmm_free a) s1 = Some (tt, s2) ∧ used_set s2 = used_set s ∧
        pmm_free_pages s2 = pmm_free_pages s ∧ pmm_wf s2.
Proof.
  intros Hwf Hb Hr Ha. destruct (pmm_alloc_cases s Hwf) as [(j & Hj & Hf & _ & Hr')|[_ Hr']];
    rewrite Hr in Hr'; [|simplify_eq].
  injection Hr' as -> ->. set (p := probe s j) in *. 
  pose proof (take_page_used_set p s Hwf Hf) as Hu.
  pose proof (take_page_wf p s Hwf Hf) as Hwf1.
  assert (addr_page (take_page p s) (page_addr s p) = p) as Hp by exact (addr_page_addr (take_page p s) p).
  assert (p ∉ used_set s) as Hnp by (unfold free_set in Hf; set_solver).
  apply elem_of_free_set in Hf as [Hpr _].
  rewrite pmm_free_cases by (done || unfold page_addr, PAGE_SIZE; lia).
  rewrite Hp, bool_decide_eq_true_2.
  2:{ split_and!; [done|simpl; unfold page_addr, PAGE_SIZE; lia|rewrite Hu; set_solver]. }
  eexists. split_and!; [done| |simpl; lia|apply give_page_wf; [done|rewrite Hu; set_solver]].
  rewrite give_page_used_set by (done || rewrite Hu; set_solver). rewrite Hu. set_solver.
Qed.

(** A client's request to the allocator. *)
Inductive pmm_op := OpAlloc | OpFree (a : Z).
Definition pmm_exec (o : pmm_op) : M pmm unit :=
  match o with OpAlloc => pmm_alloc_page ;; mret tt | OpFree a => pmm_free_page a end.

(** After any sequence of allocations and releases, of whatever pointers,
    the invariant holds and no page is lost: the free counter and the pages in
    use add up to the pages managed. *)
Theorem pmm_conservation s ops :
  pmm_wf s → 0 < pmm_base s → Forall (λ o, match o with OpFree a => 0 ≤ a | _ => True end) ops →
  ∃ s', result (for_each ops pmm_exec) s = Some (tt, s') ∧ pmm_wf s' ∧
        pmm_free_pages s' + Z.of_nat (size (used_set s')) = pmm_total_pages s.
Proof.
  intros Hwf Hb Hops.
  set (I s' := pmm_wf s' ∧ pmm_base s' = pmm_base s ∧ pmm_total_pages s' = pmm_total_pages s).
  assert (I s) as HI by done.
  destruct (result_for_each_inv I ops pmm_exec s) as (s' & Hr & Hwf' & _ & Ht); [|done|].
  - intros [|a] s1 Ho (Hwf1 & Hb1 & Ht1); cbn [pmm_exec]; unfold pmm_alloc_page, pmm_free_page.
    + run_simpl. destruct (pmm_alloc_cases s1 Hwf1) as [(j & _ & Hf & _ & ->)|[_ ->]];
        (eexists; split; [done|]); [|done].
      split_and!; [by apply take_page_wf|done..].
    + rewrite Forall_forall in Hops. specialize (Hops _ Ho). cbn in Hops.
      rewrite pmm_free_cases by done. eexists. split; [done|].
      case_bool_decide; [|done]. split_and!; [apply give_page_wf; tauto|done..].
  - exists s'. split_and!; [done|done|]. rewrite wf_free by done. unfold free_set.
    assert (used_set s' ⊆ pages s') as Hsub.
    { intros p. rewrite elem_of_used_set, elem_of_pages. tauto. }
    pose proof (subseteq_size _ _ Hsub). rewrite size_difference by done.
    assert (size (pages s') = Z.to_nat (pmm_total_pages s')) as Hsz.
    { unfold pages. rewrite size_list_to_set by apply NoDup_seqZ. apply length_seqZ. }
    pose proof (wf_total s' Hwf'). lia.
Qed.

Fixpoint alloc_many (k : nat) : M pmm (list Z) :=
  match k with
  | O => mret []
  | S k => a ← pmm_alloc ; l ← alloc_many k ; mret (a :: l)
  end.

(** As long as pages are left, successive allocations succeed and return
    the addresses of pairwise distinct pages, all of them free at the start. *)
Theorem alloc_many_distinct k s :
  pmm_wf s → 0 < pmm_base s → Z.of_nat k ≤ pmm_free_pages s →
  ∃ l s', result (alloc_many k) s = Some (l, s') ∧ pmm_wf s' ∧ length l = k ∧ NoDup l ∧
    pmm_free_pages s' = pmm_free_pages s - Z.of_nat k ∧
    ∀ a, a ∈ l → ∃ p, p ∈ free_set s ∧ a = page_addr s p.
Proof.
  revert s. induction k as [|k IH]; intros s Hwf Hb Hk.
  { exists [], s. split_and!; [done..|apply NoDup_nil_2|lia|set_solver]. }
  destruct (pmm_alloc_cases s Hwf) as [(j & Hj & Hf & _ & Hr)|[He _]].
  2:{ apply free_pages_zero in He; [lia|done]. }
  set (p := probe s j) in *. pose proof (take_page_free_set p s Hwf Hf) as Hfs.
  destruct (IH (take_page p s)) as (l & s' & Hl & Hwf' & Hlen & Hnd & Hcnt & Hin);
    [by apply take_page_wf|done|simpl; lia|].
  exists (page_addr s p :: l), s'. cbn [alloc_many]. run_simpl. rewrite Hr. run_simpl. rewrite Hl.
  split_and!; [done|done|simpl; lia| |rewrite Hcnt; simpl; lia|].
  - apply NoDup_cons. split; [|done]. intros Ha. destruct (Hin _ Ha) as (q & Hq & Heq).
    apply (page_addr_inj s) in Heq. subst q. rewrite Hfs in Hq. set_solver.
  - intros a [->|Ha]%elem_of_cons; [by exists p|]. destruct (Hin _ Ha) as (q & Hq & ->).
    exists q. split; [|done]. rewrite Hfs in Hq. set_solver.
Qed.

(** [pmm_init] rounds the base up to a page but keeps the size, so the
    pages it manages stay inside the region it was given exactly when the
    region starts on a page boundary: otherwise the last page sticks out. *)
Theorem pmm_init_region s mem_base n s' :
  bitmap_ok s → is_u64 mem_base → 0 < n ≤ PMM_MAX_PAGES →
  mem_base + 4095 + n * PAGE_SIZE < 2 ^ 64 →
  result (pmm_init mem_base (n * PAGE_SIZE)) s = Some (tt, s') →
  (∀ p, p ∈ pages s' → page_addr s' p + PAGE_SIZE ≤ mem_base + n * PAGE_SIZE) ↔
  mem_base `mod` PAGE_SIZE = 0.
Proof.
  intros Hs Hb Hn Hlt Hr. unfold PAGE_SIZE in *.
  destruct (pmm_init_result s mem_base (n * 4096) Hs) as (s1 & Hr1 & _ & _ & Eb & Et & _); [lia|].
  rewrite Hr in Hr1. injection Hr1 as <-.
  assert (init_pages (n * 4096) = n) as Hin.
  { unfold init_pages, PAGE_SIZE. rewrite Z.div_mul by done. lia. }
  destruct (PAGE_ALIGN_spec mem_base Hb) as [Hal Hmod]; [lia|].
  unfold page_addr, PAGE_SIZE. rewrite Eb. split.
  - intros Hp. specialize (Hp (n - 1)). rewrite elem_of_pages, Et, Hin in Hp.
    assert (PAGE_ALIGN mem_base = mem_base) as <-; [lia|done].
  - intros Hm p. rewrite elem_of_pages, Et, Hin. intros Hp.
    assert (PAGE_ALIGN mem_base = mem_base); [|lia].
    pose proof (Z.div_mod (PAGE_ALIGN mem_base) 4096). pose proof (Z.div_mod mem_base 4096). lia.
Qed.

(** ** The interface *)

#[export] Program Instance pmm_frame_allocator : FrameAllocator pmm_alloc pmm_free := {|
  fa_inv s := pmm_wf s ∧ 0 < pmm_base s;
  fa_frame s a := ∃ p, p ∈ pages s ∧ a = page_addr s p;
  fa_taken s a := ∃ p, p ∈ used_set s ∧ a = page_addr s p;
|}.
Next Obligation.
  intros s a [Hwf Hb] (p & Hp%elem_of_pages & ->).
  pose proof (wf_range s Hwf) as Hr. pose proof (wf_base_aligned s Hwf) as Hal.
  unfold page_addr, PAGE_SIZE in *. split_and!; [lia..|]. by rewrite Z.mod_add.
Qed.
Next Obligation.
  intros s a _ (p & Hp & ->). exists p. split; [|done].
  apply elem_of_used_set in Hp as [Hp _]. by apply elem_of_pages.
Qed.
Next Obligation.
  intros s [Hwf Hb]. destruct (pmm_alloc_cases s Hwf) as [(j & Hj & Hf & _ & Hr)|[He Hr]].
  - eexists _, _. split; [exact Hr|]. split; [split; [by apply take_page_wf|done]|].
    split; [done|]. right. pose proof (take_page_used_set _ s Hwf Hf) as Hu.
    apply elem_of_difference in Hf as [Hp Hnu]. split_and!; [by eexists| |].
    + intros (q & Hq & Heq). apply page_addr_inj in Heq. congruence.
    + intros b. rewrite Hu. set_solver.
  - exists 0, s. split; [exact Hr|]. split; [done|]. split; [done|]. left. split_and!; [done..|].
    intros b (p & Hp & ->). exists p. split; [|done].
    destruct (decide (p ∈ used_set s)); [done|]. exfalso. 
    assert (p ∈ free_set s) by (by apply elem_of_difference). set_solver.
Qed.
Next Obligation.
  intros s a [Hwf Hb]. destruct (decide (0 ≤ a)) as [Ha|Ha].
  - eexists. split; [by apply pmm_free_cases|]. case_bool_decide as E.
    + pose proof (give_page_used_set _ s Hwf (proj2 (proj2 E))) as Hu.
      split; [split; [apply give_page_wf; tauto|done]|]. split; [done|]. split.
      * intros b (p & Hp & ->). rewrite Hu in Hp. exists p. set_solver.
      * intros Hal b. rewrite Hu.
        assert (∃ p, p ∈ used_set s ∧ a = page_addr s p) as (p & Hp & ->).
        { exists (addr_page s a). split; [tauto|].
          pose proof (wf_base_aligned s Hwf) as Hba. unfold page_addr, addr_page, PAGE_SIZE in *.
          pose proof (Z.div_mod a 4096). pose proof (Z.div_mod (pmm_base s) 4096).
          pose proof (Z.div_mod (a - pmm_base s) 4096).
          pose proof (Z.mod_pos_bound (a - pmm_base s) 4096). lia. }
        rewrite addr_page_addr. split.
        -- intros (q & Hq & ->). split; [|exists q; set_solver].
           intros Heq. apply (page_addr_inj s) in Heq. set_solver.
        -- intros [Hne (q & Hq & ->)]. exists q. set_solver.
    + split; [done|]. split; [done|]. split; [done|]. intros _ b. split; [|tauto]. intros Hb'.
      split; [|done]. intros ->. destruct Hb' as (p & Hp & ->). apply E.
      rewrite addr_page_addr. apply elem_of_used_set in Hp as Hp'.
      split_and!; [apply page_addr_nonzero; [done|lia]|unfold page_addr, PAGE_SIZE; lia|done].
  - exists s. assert (result (pmm_free a) s = Some (tt, s)) as ->.
    { unfold pmm_free. destruct (a =? NULL) eqn:E; [done|]. run_simpl.
      pose proof (wf_base s Hwf) as Hb'. unfold is_u64 in Hb'.
      by replace (a <? pmm_base s) with true by (symmetry; apply Z.ltb_lt; lia). }
    split; [done|]. split; [done|]. split; [done|]. split; [done|].
    intros _ b. split; [|tauto]. intros Hb'. split; [|done].
    intros ->. destruct Hb' as (p & Hp & ->). apply elem_of_used_set in Hp. unfold page_addr, PAGE_SIZE in Ha. lia.
Qed.

(** ** A concrete allocator: four pages at 2 MiB *)

Definition pmm_demo : pmm :=
  match result (pmm_init 0x200000 0x4000) pmm_zero with Some (_, s) => s | None => pmm_zero end.

Lemma bitmap_ok_forallb s :
  length (bitmap s) = Z.to_nat BITMAP_SIZE →
  forallb (λ w, (0 <=? w) && (w <? 2 ^ 64)) (bitmap s) = true → bitmap_ok s.
Proof.
  intros Hl Hf. split; [done|]. intros i. rewrite forallb_forall in Hf. unfold is_u64.
  rewrite list_lookup_total_alt. destruct (bitmap s !! i) eqn:E; simpl; [|lia].
  apply list_elem_of_lookup_2, list_elem_of_In, Hf in E.
  apply andb_prop in E as [?%Z.leb_le ?%Z.ltb_lt]. lia.
Qed.

Lemma pmm_demo_wf : pmm_wf pmm_demo.
Proof.
  split; [apply bitmap_ok_forallb; by vm_compute|vm_compute; intuition discriminate|by vm_compute| | | |];
    vm_compute; intuition discriminate.
Qed.

Lemma pmm_init_spec_witness :
  ∃ s', result (pmm_init 0x200000 0x4000) pmm_zero = Some (tt, s') ∧ pmm_wf s' ∧
    used_set s' = ∅ ∧ pmm_base s' = PAGE_ALIGN 0x200000 ∧
    pmm_total_pages s' = Z.min (0x4000 `div` 4096) 131072 ∧
    pmm_free_pages s' = pmm_total_pages s'.
Proof. apply pmm_init_spec; [exact bitmap_ok_zero|by vm_compute|done|done]. Defined.

Lemma pmm_alloc_refines_witness :
  ∃ a s', result pmm_alloc pmm_demo = Some (a, s') ∧ pmm_wf s' ∧
    pages s' = pages pmm_demo ∧ pmm_base s' = pmm_base pmm_demo ∧
    ((a = NULL ∧ s' = pmm_demo ∧ free_set pmm_demo = ∅) ∨
     (∃ p, p ∈ free_set pmm_demo ∧ a = page_addr pmm_demo p ∧ a ≠ NULL ∧
           used_set s' = {[p]} ∪ used_set pmm_demo ∧
           pmm_free_pages s' = pmm_free_pages pmm_demo - 1)).
Proof. apply pmm_alloc_refines; [exact pmm_demo_wf|by vm_compute]. Defined.

Lemma pmm_alloc_next_fit_witness :
  ∃ s', result pmm_alloc pmm_demo = Some (page_addr pmm_demo (probe pmm_demo 0), s') ∧
        pmm_last_alloc s' = (probe pmm_demo 0 + 1) `mod` pmm_total_pages pmm_demo.
Proof.
  apply pmm_alloc_next_fit; [exact pmm_demo_wf|by vm_compute| |lia].
  apply elem_of_free_set. by vm_compute.
Defined.

Lemma pmm_free_refines_witness :
  ∃ s', result (pmm_free 0x201000) (take_page 1 pmm_demo) = Some (tt, s') ∧ pmm_wf s' ∧
    (0x201000 ≠ NULL ∧ pmm_base (take_page 1 pmm_demo) ≤ 0x201000 ∧
     addr_page (take_page 1 pmm_demo) 0x201000 ∈ used_set (take_page 1 pmm_demo) →
       used_set s' = used_set (take_page 1 pmm_demo) ∖ {[addr_page (take_page 1 pmm_demo) 0x201000]} ∧
       pmm_free_pages s' = pmm_free_pages (take_page 1 pmm_demo) + 1) ∧
    (0x201000 = NULL ∨ 0x201000 < pmm_base (take_page 1 pmm_demo) ∨
     addr_page (take_page 1 pmm_demo) 0x201000 ∉ used_set (take_page 1 pmm_demo) →
       s' = take_page 1 pmm_demo).
Proof.
  apply pmm_free_refines; [|done].
  apply take_page_wf; [exact pmm_demo_wf|]. apply elem_of_free_set. by vm_compute.
Defined.

Lemma pmm_alloc_free_roundtrip_witness :
  ∃ s2, result (pmm_free 0x200000) (take_page 0 pmm_demo) = Some (tt, s2) ∧
        used_set s2 = used_set pmm_demo ∧ pmm_free_pages s2 = pmm_free_pages pmm_demo ∧ pmm_wf s2.
Proof.
  apply (pmm_alloc_free_roundtrip pmm_demo 0x200000);
    [exact pmm_demo_wf|by vm_compute|by vm_compute|done].
Defined.

Lemma pmm_conservation_witness :
  let ops := [OpAlloc; OpAlloc; OpFree 0x200000; OpFree 0x200000; OpFree 0] in
  ∃ s', result (for_each ops pmm_exec) pmm_demo = Some (tt, s') ∧ pmm_wf s' ∧
        pmm_free_pages s' + Z.of_nat (size (used_set s')) = pmm_total_pages pmm_demo.
Proof.
  apply pmm_conservation; [exact pmm_demo_wf|by vm_compute|repeat constructor; lia].
Defined.

Lemma alloc_many_distinct_witness :
  ∃ l s', result (alloc_many 4) pmm_demo = Some (l, s') ∧ pmm_wf s' ∧ length l = 4%nat ∧ NoDup l ∧
    pmm_free_pages s' = pmm_free_pages pmm_demo - 4 ∧
    ∀ a, a ∈ l → ∃ p, p ∈ free_set pmm_demo ∧ a = page_addr pmm_demo p.
Proof. apply alloc_many_distinct; [exact pmm_demo_wf|by vm_compute|by vm_compute]. Defined.

Lemma pmm_init_region_witness :
  let s' := match result (pmm_init 0x200800 0x4000) pmm_zero with Some (_, s) => s | None => pmm_zero end in
  (∀ p, p ∈ pages s' → page_addr s' p + PAGE_SIZE ≤ 0x200800 + 0x4000) ↔ 0x200800 `mod` PAGE_SIZE = 0.
Proof.
  apply (pmm_init_region pmm_zero 0x200800 4);
    [exact bitmap_ok_zero|by vm_compute|by vm_compute|by vm_compute|by vm_compute].
Defined.
