(* ===== verification/Heap.v ===== *)
(** * Heap: the kernel heap (kmalloc and kfree of kernel/mm/vmm.c)

    A bump allocator with a singly linked list of block headers in memory,
    searched first-fit.  The specification is a list of blocks; [heap_rel]
    relates it to the headers in memory, and [kmalloc] and [kfree] are shown to
    implement [spec_malloc] and [spec_free] on it. *)

From S2P Require Import Prelude Effects Memory Types.

(** The static variables of the allocator and the memory the headers live in. *)
Record heap := Heap {
  h_mem : mem;
  heap_ptr : Z;
  heap_head : Z;
}.
#[export] Instance eta_heap : Eta heap := λ s, Heap (h_mem s) (heap_ptr s) (heap_head s).

Definition heap_zero : heap := Heap ∅ KHEAP_START NULL.

(** [heap_block_t]: [size_t size] at 0, [bool free] (an [int]) at 8,
    [heap_block_t *next] at 16; 24 bytes. *)
Definition sizeof_heap_block : Z := 24.
Definition blk_size (s : heap) (blk : Z) : Z := ld64 (h_mem s) blk.
Definition blk_free (s : heap) (blk : Z) : Z := ld32 (h_mem s) (blk + 8).
Definition blk_next (s : heap) (blk : Z) : Z := ld64 (h_mem s) (blk + 16).
Definition set_blk_size (blk v : Z) (s : heap) : heap := s <| h_mem := st64 (h_mem s) blk v |>.
Definition set_blk_free (blk v : Z) (s : heap) : heap := s <| h_mem := st32 (h_mem s) (blk + 8) v |>.
Definition set_blk_next (blk v : Z) (s : heap) : heap := s <| h_mem := st64 (h_mem s) (blk + 16) v |>.

(** ** Operations *)

(** The loop [while (blk) ...] of [kmalloc]; [Some p] is its early return. *)
Fixpoint kmalloc_find (fuel : nat) (blk size : Z) : M heap (option Z) :=
  match fuel with
  | O => no_fuel
  | S fuel =>
      if blk =? NULL then mret None else
      s ← get ;
      if negb (blk_free s blk =? 0) && (size <=? blk_size s blk) then
        modify (set_blk_free blk 0) ;;
        mret (Some (u64 (blk + sizeof_heap_block)))
      else kmalloc_find fuel (blk_next s blk) size
  end.

(** Enough iterations for every list of blocks that fits in the heap. *)
Definition heap_fuel : nat := Z.to_nat (KHEAP_SIZE `div` sizeof_heap_block + 2).

Definition kmalloc (size : Z) : M heap Z :=
  if size =? 0 then mret NULL else
  let size := ALIGN_UP size 16 in
  blk ← gets heap_head ;
  found ← kmalloc_find heap_fuel blk size ;
  match found with
  | Some p => mret p
  | None =>
      let total := u64 (sizeof_heap_block + size) in
      ptr ← gets heap_ptr ;
      if KHEAP_START + KHEAP_SIZE <? u64 (ptr + total) then mret NULL else
      let blk := ptr in
      modify (λ s, s <| heap_ptr := u64 (heap_ptr s + total) |>) ;;
      modify (set_blk_size blk size) ;;
      modify (set_blk_free blk 0) ;;
      head ← gets heap_head ;
      modify (set_blk_next blk head) ;;
      modify (λ s, s <| heap_head := blk |>) ;;
      mret (u64 (blk + sizeof_heap_block))
  end.

Definition kfree (ptr : Z) : M heap unit :=
  if ptr =? NULL then mret tt else
  let blk := u64 (ptr - sizeof_heap_block) in
  modify (set_blk_free blk 1).

(** ** Specification: a list of blocks, the most recently created first *)

Record block := Block { b_addr : Z; b_size : Z; b_free : bool }.

Definition payload (b : block) : Z := b_addr b + sizeof_heap_block.
Definition set_free (p : Z) (f : bool) (l : list block) : list block :=
  (λ b, if b_addr b =? p then Block (b_addr b) (b_size b) f else b) <$> l.

(** The first free block that is large enough. *)
Definition fits (n : Z) (b : block) : bool := b_free b && (n <=? b_size b).
Definition first_fit (n : Z) (l : list block) : option block := snd <$> list_find (fits n) l.

Definition spec_malloc (n hp : Z) (l : list block) : option (Z * Z * list block) :=
  match first_fit n l with
  | Some b => Some (payload b, hp, set_free (b_addr b) false l)
  | None =>
      if hp + sizeof_heap_block + n <=? KHEAP_START + KHEAP_SIZE
      then Some (hp + sizeof_heap_block, hp + sizeof_heap_block + n, Block hp n false :: l)
      else None
  end.

Definition spec_free (p : Z) (l : list block) : list block := set_free (p - sizeof_heap_block) true l.

(** ** The relation between the two *)

(** The headers in memory, followed from [a], are the blocks [l]. *)
Fixpoint chain (m : mem) (a : Z) (l : list block) : Prop :=
  match l with
  | [] => a = NULL
  | b :: l =>
      a = b_addr b ∧ ld64 m a = b_size b ∧ negb (ld32 m (a + 8) =? 0) = b_free b ∧
      chain m (ld64 m (a + 16)) l
  end.

(** The blocks tile the part of the heap below [hi], in address order. *)
Fixpoint tiled (hi : Z) (l : list block) : Prop :=
  match l with
  | [] => hi = KHEAP_START
  | b :: l =>
      b_addr b + sizeof_heap_block + b_size b = hi ∧ 0 ≤ b_size b ∧ b_size b `mod` 16 = 0 ∧
      tiled (b_addr b) l
  end.

Record heap_rel (s : heap) (l : list block) : Prop := {
  hr_mem : mem_wf (h_mem s);
  hr_chain : chain (h_mem s) (heap_head s) l;
  hr_tiled : tiled (heap_ptr s) l;
  hr_ptr : heap_ptr s ≤ KHEAP_START + KHEAP_SIZE;
}.

Lemma tiled_lo hi l : tiled hi l → KHEAP_START + sizeof_heap_block * Z.of_nat (length l) ≤ hi.
Proof.
  revert hi. induction l as [|b l IH]; intros hi; simpl; [lia|].
  intros (<- & Hs & _ & Ht). apply IH in Ht. unfold sizeof_heap_block in *. lia.
Qed.

Lemma tiled_bounds hi l b :
  tiled hi l → b ∈ l → KHEAP_START ≤ b_addr b ∧ 0 ≤ b_size b ∧ b_addr b + sizeof_heap_block + b_size b ≤ hi.
Proof.
  revert hi. induction l as [|c l IH]; intros hi Ht Hb; [set_solver|].
  destruct Ht as (<- & Hs & _ & Ht). pose proof (tiled_lo _ _ Ht) as Hlo.
  apply elem_of_cons in Hb as [->|Hb]; [unfold sizeof_heap_block in *; lia|].
  specialize (IH _ Ht Hb). unfold sizeof_heap_block in *. lia.
Qed.

(** A change of memory below the first header keeps the headers. *)
Lemma chain_agree m m' a l hi :
  tiled hi l → chain m a l → agree KHEAP_START hi m' m → chain m' a l.
Proof.
  revert a hi. induction l as [|b l IH]; intros a hi Ht Hc Hag; [done|].
  destruct Hc as (-> & Hsz & Hfr & Hc). destruct Ht as (Hhi & Hs & Hm & Ht).
  pose proof (tiled_lo _ _ Ht). unfold sizeof_heap_block in *. simpl.
  rewrite !(agree_ld64 _ _ _ _ _ Hag), (agree_ld32 _ _ _ _ _ Hag) by lia.
  split_and!; [done..|]. apply (IH _ (b_addr b)); [done|done|].
  intros c Hc'. apply Hag. lia.
Qed.

Lemma set_free_above p f hi l : tiled hi l → hi ≤ p → set_free p f l = l.
Proof.
  revert hi. induction l as [|b l IH]; intros hi Ht Hp; [done|].
  destruct Ht as (Hhi & Hs & _ & Ht). unfold sizeof_heap_block in Hhi. simpl.
  replace (b_addr b =? p) with false by (symmetry; apply Z.eqb_neq; lia).
  f_equal. apply (IH (b_addr b)); [done|lia].
Qed.

Lemma tiled_set_free p f hi l : tiled hi l → tiled hi (set_free p f l).
Proof.
  revert hi. induction l as [|b l IH]; intros hi; [done|]. simpl.
  destruct (b_addr b =? p); simpl; naive_solver.
Qed.

(** Writing the [free] field of a block changes that block's flag. *)
Lemma chain_set_free m a hi l p v :
  tiled hi l → chain m a l → (∃ b, b ∈ l ∧ b_addr b = p) → is_u32 v →
  chain (st32 m (p + 8) v) a (set_free p (negb (v =? 0)) l).
Proof.
  intros Ht Hc Hp Hv. revert a hi Ht Hc. induction l as [|c l IH]; intros a hi Ht Hc.
  { destruct Hp; set_solver. }
  destruct Hc as (-> & Hsz & Hfr & Hc). destruct Ht as (Hhi & Hs & Hm & Ht).
  unfold sizeof_heap_block in *. simpl. destruct (b_addr c =? p) eqn:E.
  - apply Z.eqb_eq in E. simpl.
    rewrite E, !ld64_st32_ne, ld32_st32, u32_id by (done || lia). rewrite E in *.
    split_and!; [done..|]. fold (set_free p (negb (v =? 0)) l).
    rewrite (set_free_above _ _ p) by (done || lia). apply (chain_agree m _ _ _ p); [done..|].
    intros d Hd. apply ld8_st32_out. lia.
  - apply Z.eqb_neq in E. destruct Hp as (b & Hb & Hbp).
    apply elem_of_cons in Hb as [->|Hb]; [done|].
    pose proof (tiled_bounds _ _ _ Ht Hb). unfold sizeof_heap_block in *.
    rewrite !ld64_st32_ne, ld32_st32_ne by lia. split_and!; [done..|].
    apply (IH ltac:(by exists b) _ (b_addr c)); done.
Qed.

(** ** The search *)

Lemma heap_bounds s l b :
  heap_rel s l → b ∈ l →
  KHEAP_START ≤ b_addr b ∧ b_addr b + sizeof_heap_block + b_size b ≤ KHEAP_START + KHEAP_SIZE.
Proof.
  intros Hr Hb. pose proof (tiled_bounds _ _ _ (hr_tiled _ _ Hr) Hb). pose proof (hr_ptr _ _ Hr). lia.
Qed.

Lemma first_fit_cons n b l :
  first_fit n (b :: l) = if fits n b then Some b else first_fit n l.
Proof.
  unfold first_fit. simpl. destruct (fits n b); simpl; [done|].
  by destruct (list_find (fits n) l) as [[]|].
Qed.

Lemma first_fit_Some n l b : first_fit n l = Some b → b ∈ l ∧ b_free b = true ∧ n ≤ b_size b.
Proof.
  induction l as [|c l IH]; [done|]. rewrite first_fit_cons. destruct (fits n c) eqn:E.
  - intros [= ->]. unfold fits in E. apply andb_prop in E as [? ?%Z.leb_le]. set_solver.
  - intros H%IH. set_solver.
Qed.

Lemma chain_nonnull m a l : chain m a l → (∀ b, b ∈ l → 0 < b_addr b) → (a =? NULL) = match l with [] => true | _ => false end.
Proof.
  destruct l as [|b l]; simpl; [by intros ->|]. intros (-> & _) H.
  apply Z.eqb_neq. unfold NULL. specialize (H b ltac:(set_solver)). lia.
Qed.

Lemma first_fit_None_lt n l : (∀ b, b ∈ l → b_size b < n) → first_fit n l = None.
Proof.
  induction l as [|b l IH]; intros H; [done|]. rewrite first_fit_cons. unfold fits.
  pose proof (H b ltac:(set_solver)) as Hb. replace (n <=? b_size b) with false by (symmetry; apply Z.leb_gt; lia).
  rewrite andb_false_r. apply IH. intros c Hc. apply H. set_solver.
Qed.

Lemma kmalloc_find_null fuel n s :
  result (kmalloc_find (S fuel) NULL n) s = Some (None, s).
Proof. done. Qed.

Lemma kmalloc_find_cons fuel n s b l a :
  chain (h_mem s) a (b :: l) → b_addr b ≠ NULL →
  result (kmalloc_find (S fuel) a n) s =
  if fits n b then Some (Some (u64 (payload b)), set_blk_free (b_addr b) 0 s)
  else result (kmalloc_find fuel (ld64 (h_mem s) (b_addr b + 16)) n) s.
Proof.
  intros (-> & Hs & Hf & _) Hne. cbn [kmalloc_find].
  replace (b_addr b =? NULL) with false by (symmetry; by apply Z.eqb_neq). run_simpl.
  unfold blk_free, blk_size, blk_next. rewrite Hs, Hf. fold (fits n b). by destruct (fits n b).
Qed.

(** The search implements [first_fit]. *)
Lemma kmalloc_find_spec fuel n s l a hi :
  tiled hi l → chain (h_mem s) a l → (length l < fuel)%nat →
  result (kmalloc_find fuel a n) s =
  match first_fit n l with
  | Some b => Some (Some (u64 (payload b)), set_blk_free (b_addr b) 0 s)
  | None => Some (None, s)
  end.
Proof.
  revert fuel a hi. induction l as [|b l IH]; intros fuel a hi Ht Hc Hfuel; simpl in Hfuel.
  { destruct fuel as [|fuel]; [lia|]. simpl in Hc. subst. apply kmalloc_find_null. }
  destruct fuel as [|fuel]; [lia|].
  pose proof (tiled_bounds _ _ b Ht ltac:(set_solver)) as Hb.
  rewrite (kmalloc_find_cons _ _ _ b l) by (done || unfold KHEAP_START, NULL in *; lia).
  rewrite first_fit_cons. destruct (fits n b); [done|].
  destruct Hc as (-> & _ & _ & Hc). destruct Ht as (_ & _ & _ & Ht).
  apply (IH fuel _ (b_addr b)); [done|done|lia].
Qed.

Lemma heap_fuel_enough s l : heap_rel s l → (length l < heap_fuel)%nat.
Proof.
  intros Hr. pose proof (tiled_lo _ _ (hr_tiled _ _ Hr)) as Hlo. pose proof (hr_ptr _ _ Hr).
  assert (Z.of_nat (length l) * 24 ≤ KHEAP_SIZE) as Hl by (unfold sizeof_heap_block in *; lia).
  assert (Z.of_nat (length l) ≤ KHEAP_SIZE `div` 24) as Hd
    by (apply Z.div_le_lower_bound; [done|lia]).
  unfold heap_fuel, sizeof_heap_block. lia.
Qed.

(** Marking a block free or in use, related to the list. *)
Lemma heap_rel_set_free s l b v :
  heap_rel s l → b ∈ l → is_u32 v →
  heap_rel (set_blk_free (b_addr b) v s) (set_free (b_addr b) (negb (v =? 0)) l).
Proof.
  intros [Hm Hc Ht Hp] Hb Hv. split; simpl; [by auto with mem| | |done].
  - apply (chain_set_free _ _ (heap_ptr s)); [done|done|by exists b|done].
  - by apply tiled_set_free.
Qed.

(** The state after a new block of [n] bytes is put at [heap_ptr]. *)
Definition new_block (n : Z) (s : heap) : heap :=
  let blk := heap_ptr s in
  Heap (st64 (st32 (st64 (h_mem s) blk n) (blk + 8) 0) (blk + 16) (heap_head s))
       (blk + sizeof_heap_block + n) blk.

Lemma heap_head_range s l : heap_rel s l → 0 ≤ heap_head s < KHEAP_START + KHEAP_SIZE.
Proof.
  intros Hr. pose proof (hr_chain _ _ Hr) as Hc. destruct l as [|b l]; simpl in Hc.
  - rewrite Hc. done.
  - destruct Hc as (-> & _). pose proof (heap_bounds s (b :: l) b Hr ltac:(set_solver)) as Hb.
    pose proof (tiled_bounds _ _ b (hr_tiled _ _ Hr) ltac:(set_solver)) as Hs.
    unfold sizeof_heap_block, KHEAP_START in *. lia.
Qed.

Lemma heap_rel_new_block s l n :
  heap_rel s l → 0 ≤ n → n `mod` 16 = 0 →
  heap_ptr s + sizeof_heap_block + n ≤ KHEAP_START + KHEAP_SIZE →
  heap_rel (new_block n s) (Block (heap_ptr s) n false :: l).
Proof.
  intros Hr Hn Hn16 Hle. pose proof (heap_head_range s l Hr) as Hh.
  destruct Hr as [Hm Hc Ht Hp]. pose proof (tiled_lo _ _ Ht) as Hlo.
  assert (is_u64 n) as Hn64.
  { unfold is_u64, sizeof_heap_block, KHEAP_START, KHEAP_SIZE in *. lia. }
  assert (is_u64 (heap_head s)) as Hh64.
  { unfold is_u64, KHEAP_START, KHEAP_SIZE in *. lia. }
  split; cbn [new_block h_mem heap_ptr heap_head chain tiled b_addr b_size b_free].
  { auto with mem. }
  2:{ split_and!; [reflexivity|lia|done|exact Ht]. }
  2:{ lia. }
  rewrite !(ld64_st64_ne _ _ (heap_ptr s)), ld64_st32_ne, ld64_st64 by (done || lia).
  rewrite ld32_st64_ne, ld32_st32, ld64_st64 by (done || lia).
  split_and!; [done..|]. apply (chain_agree (h_mem s) _ _ _ (heap_ptr s)); [done|done|].
  intros a Ha. rewrite ld8_st64_out, ld8_st32_out, ld8_st64_out by lia. done.
Qed.

(** ** Theorems *)

(** Sizes a caller can mean: rounding up to 16 does not leave 64 bits, and the
    sum with the heap pointer does not either. *)
Definition sane_size (size : Z) : Prop := 0 < size ≤ 2 ^ 63.

Lemma sane_align size :
  sane_size size →
  ALIGN_UP size 16 `mod` 16 = 0 ∧ size ≤ ALIGN_UP size 16 < size + 16.
Proof.
  intros [H0 H]. split; [by apply (ALIGN_UP_aligned size 4)|].
  apply (ALIGN_UP_bounds size 4); [lia|unfold is_u64; lia|change (2 ^ 4) with 16; lia].
Qed.

Lemma kmalloc_result s l size :
  heap_rel s l → sane_size size →
  let n := ALIGN_UP size 16 in
  result (kmalloc size) s =
  match first_fit n l with
  | Some b => Some (payload b, set_blk_free (b_addr b) 0 s)
  | None =>
      if heap_ptr s + sizeof_heap_block + n <=? KHEAP_START + KHEAP_SIZE
      then Some (heap_ptr s + sizeof_heap_block, new_block n s)
      else Some (NULL, s)
  end.
Proof.
  intros Hr Hsize n. destruct (sane_align size Hsize) as [Hn16 Hn]. fold n in Hn16, Hn.
  destruct Hsize as [Hs0 Hs]. unfold kmalloc.
  replace (size =? 0) with false by (symmetry; apply Z.eqb_neq; lia). fold n. run_simpl.
  rewrite (kmalloc_find_spec _ _ _ l _ (heap_ptr s) (hr_tiled _ _ Hr) (hr_chain _ _ Hr)
             (heap_fuel_enough s l Hr)).
  destruct (first_fit n l) as [b|] eqn:E.
  - apply first_fit_Some in E as (Hb & _). run_simpl.
    pose proof (heap_bounds s l b Hr Hb) as Hbb. pose proof (tiled_bounds _ _ b (hr_tiled _ _ Hr) Hb).
    rewrite u64_id; [done|]. unfold is_u64, payload, sizeof_heap_block, KHEAP_START, KHEAP_SIZE in *. lia.
  - run_simpl. pose proof (hr_ptr _ _ Hr) as Hp. pose proof (tiled_lo _ _ (hr_tiled _ _ Hr)) as Hlo.
    assert (0 ≤ heap_ptr s ≤ 0x800000) as Hptr by (unfold KHEAP_START, KHEAP_SIZE, sizeof_heap_block in *; lia).
    rewrite (u64_id (sizeof_heap_block + n)) by (unfold is_u64, sizeof_heap_block; lia).
    rewrite (u64_id (heap_ptr s + (sizeof_heap_block + n))) by (unfold is_u64, sizeof_heap_block; lia).
    rewrite Z.add_assoc, Z.leb_antisym.
    destruct (_ <? heap_ptr s + sizeof_heap_block + n) eqn:El; cbn [negb]; [done|].
    run_simpl. apply Z.ltb_ge in El. unfold new_block. simpl.
    rewrite Z.add_assoc, (u64_id (heap_ptr s + sizeof_heap_block))
      by (unfold is_u64, sizeof_heap_block; lia).
    by rewrite u64_id by (unfold is_u64, sizeof_heap_block; lia).
Qed.


Lemma kfree_result s l b :
  heap_rel s l → b ∈ l →
  result (kfree (payload b)) s = Some (tt, set_blk_free (b_addr b) 1 s) ∧
  heap_rel (set_blk_free (b_addr b) 1 s) (spec_free (payload b) l).
Proof.
  intros Hr Hb. pose proof (heap_bounds s l b Hr Hb) as Hbb.
  pose proof (tiled_bounds _ _ b (hr_tiled _ _ Hr) Hb) as Ht.
  unfold kfree, spec_free, payload. unfold sizeof_heap_block, KHEAP_START, KHEAP_SIZE, NULL in *.
  replace (b_addr b + 24 =? 0) with false by (symmetry; apply Z.eqb_neq; lia).
  replace (b_addr b + 24 - 24) with (b_addr b) by lia.
  rewrite u64_id by (unfold is_u64; lia). split; [done|]. by apply (heap_rel_set_free s l b 1).
Qed.

(** [kfree] of a pointer that [kmalloc] returned implements [spec_free]:
    that block, and no other, becomes free. *)
Theorem kfree_refines s l b :
  heap_rel s l → b ∈ l →
  ∃ s', result (kfree (payload b)) s = Some (tt, s') ∧ heap_rel s' (spec_free (payload b) l) ∧
        heap_ptr s' = heap_ptr s.
Proof.
  intros Hr Hb. destruct (kfree_result s l b Hr Hb) as [Hres Hrel].
  eexists. split; [exact Hres|]. by split.
Qed.

Lemma tiled_disjoint hi l (i j : nat) b c :
  tiled hi l → l !! i = Some b → l !! j = Some c → (i < j)%nat →
  b_addr c + sizeof_heap_block + b_size c ≤ b_addr b.
Proof.
  revert hi i j. induction l as [|d l IH]; intros hi i j Ht Hb Hc Hij; [done|].
  destruct Ht as (Hhi & Hs & _ & Ht). destruct i as [|i], j as [|j]; try lia; simpl in *.
  - simplify_eq. apply list_elem_of_lookup_2 in Hc.
    pose proof (tiled_bounds _ _ _ Ht Hc). lia.
  - apply (IH (b_addr d) i j); [done..|lia].
Qed.

Lemma tiled_aligned hi l b : tiled hi l → b ∈ l → b_addr b `mod` 8 = 0.
Proof.
  assert (∀ hi l, tiled hi l → hi `mod` 8 = 0) as Hhi.
  { clear. intros hi l. revert hi. induction l as [|b l IH]; intros hi Ht; simpl in Ht.
    - by rewrite Ht.
    - destruct Ht as (<- & _ & Hm & Ht). apply IH in Ht. unfold sizeof_heap_block.
      apply Z.mod_divide in Hm as [k Hk]; [|done]. rewrite Hk.
      replace (b_addr b + 24 + k * 16) with (b_addr b + (3 + 2 * k) * 8) by lia.
      by rewrite Z.mod_add. }
  revert hi. induction l as [|c l IH]; intros hi Ht Hb; [set_solver|].
  destruct Ht as (_ & _ & _ & Ht). apply elem_of_cons in Hb as [->|Hb]; [by eapply Hhi|].
  by apply (IH (b_addr c)).
Qed.

(** The blocks of the heap lie inside the 4 MiB region, do not overlap one
    another, headers included, and hand out 8-byte aligned pointers. *)
Theorem heap_blocks_separated s l i j b c :
  heap_rel s l → l !! i = Some b → l !! j = Some c → i ≠ j →
  (payload b + b_size b ≤ b_addr c ∨ payload c + b_size c ≤ b_addr b) ∧
  KHEAP_START < payload b ∧ payload b + b_size b ≤ KHEAP_START + KHEAP_SIZE ∧
  payload b `mod` 8 = 0.
Proof.
  intros Hr Hb Hc Hij. pose proof (hr_tiled _ _ Hr) as Ht.
  pose proof (heap_bounds s l b Hr (list_elem_of_lookup_2 _ _ _ Hb)).
  unfold payload. split.
  - destruct (decide (i < j)%nat).
    + right. by apply (tiled_disjoint _ _ i j _ _ Ht).
    + left. apply (tiled_disjoint _ _ j i _ _ Ht); [done..|lia].
  - pose proof (tiled_aligned _ _ _ Ht (list_elem_of_lookup_2 _ _ _ Hb)) as Ha.
    unfold sizeof_heap_block in *. split_and!; [lia|lia|].
    replace (b_addr b + 24) with (b_addr b + 3 * 8) by lia. by rewrite Z.mod_add.
Qed.

(** Writes inside a payload do not touch a header. *)
Lemma chain_payload_agree m m' a hi l b :
  tiled hi l → chain m a l → b ∈ l →
  (∀ x, ¬ (payload b ≤ x < payload b + b_size b) → ld8 m' x = ld8 m x) → chain m' a l.
Proof.
  revert a hi. induction l as [|c l IH]; intros a hi Ht Hc Hb Hag; [done|].
  destruct Hc as (-> & Hsz & Hfr & Hc). pose proof Ht as (Hhi & Hs & _ & Ht').
  unfold payload, sizeof_heap_block in *.
  apply elem_of_cons in Hb as [->|Hb].
  - assert (agree (b_addr c) (b_addr c + 24) m' m) as Hh.
    { intros x Hx. apply Hag. lia. }
    simpl. rewrite !(agree_ld64 _ _ _ _ _ Hh), (agree_ld32 _ _ _ _ _ Hh) by lia.
    split_and!; [done..|]. apply (chain_agree m _ _ _ (b_addr c)); [done|done|].
    intros x Hx. apply Hag. lia.
  - pose proof (tiled_bounds _ _ _ Ht' Hb) as Hbb. unfold sizeof_heap_block in *.
    assert (agree (b_addr c) (b_addr c + 24) m' m) as Hh.
    { intros x Hx. apply Hag. lia. }
    simpl. rewrite !(agree_ld64 _ _ _ _ _ Hh), (agree_ld32 _ _ _ _ _ Hh) by lia.
    split_and!; [done..|]. by apply (IH _ (b_addr c)).
Qed.

(** C30: the heap and its clients keep out of each other's bytes: [kmalloc] and
    [kfree] never change a byte of any payload, and whatever a client writes
    inside the payload of its block leaves the allocator's list as it is. *)
Theorem heap_payload_isolated s l b :
  heap_rel s l → b ∈ l →
  (∀ size p s' x, sane_size size → result (kmalloc size) s = Some (p, s') →
     payload b ≤ x < payload b + b_size b → ld8 (h_mem s') x = ld8 (h_mem s) x) ∧
  (∀ c s' x, c ∈ l → result (kfree (payload c)) s = Some (tt, s') →
     payload b ≤ x < payload b + b_size b → ld8 (h_mem s') x = ld8 (h_mem s) x) ∧
  (∀ bs off, 0 ≤ off → off + Z.of_nat (length bs) ≤ b_size b →
     heap_rel (s <| h_mem := st_bytes (h_mem s) (payload b + off) bs |>) l).
Proof.
  intros Hr Hb. pose proof (hr_tiled _ _ Hr) as Ht. pose proof (tiled_bounds _ _ _ Ht Hb) as Hbb.
  assert (∀ c x, c ∈ l → payload b ≤ x < payload b + b_size b → x < b_addr c + 8 ∨ b_addr c + 12 ≤ x) as Hsep.
  { intros c x Hc Hx. apply list_elem_of_lookup in Hb as [i Hi], Hc as [j Hj].
    unfold payload, sizeof_heap_block in *. destruct (decide (i = j)) as [->|Hij]; [simplify_eq; lia|].
    destruct (decide (i < j)%nat).
    - pose proof (tiled_disjoint _ _ i j _ _ Ht Hi Hj). unfold sizeof_heap_block in *.
      pose proof (tiled_bounds _ _ _ Ht (list_elem_of_lookup_2 _ _ _ Hj)). lia.
    - pose proof (tiled_disjoint _ _ j i _ _ Ht Hj Hi). unfold sizeof_heap_block in *. lia. }
  split_and!.
  - intros size p s' x Hsize Hres Hx. rewrite (kmalloc_result s l size Hr Hsize) in Hres.
    destruct (first_fit _ l) as [c|] eqn:E.
    + injection Hres as <- <-. apply first_fit_Some in E as [Hc _]. simpl.
      apply ld8_st32_out. destruct (Hsep c x Hc Hx); lia.
    + destruct (_ <=? _); injection Hres as <- <-; [|done]. unfold new_block. cbn [h_mem].
      unfold payload, sizeof_heap_block in *.
      rewrite ld8_st64_out, ld8_st32_out, ld8_st64_out by lia. done.
  - intros c s' x Hc Hres Hx. destruct (kfree_result s l c Hr Hc) as [Hres' _].
    rewrite Hres in Hres'. injection Hres' as ->. simpl. apply ld8_st32_out.
    destruct (Hsep c x Hc Hx); lia.
  - intros bs off H0 Hlen. destruct Hr as [Hm Hc _ Hp]. split; simpl; [by apply mem_wf_st_bytes| |done|done].
    apply (chain_payload_agree (h_mem s) _ _ (heap_ptr s) _ b); [done..|].
    intros x Hx. apply ld8_st_bytes_out. lia.
Qed.

Lemma first_fit_set_free n l b :
  first_fit n l = Some b → NoDup (b_addr <$> l) →
  first_fit n (spec_free (payload b) (set_free (b_addr b) false l)) = Some b.
Proof.
  intros Hf Hnd. unfold spec_free, payload, sizeof_heap_block.
  replace (b_addr b + 24 - 24) with (b_addr b) by lia.
  revert Hf Hnd. induction l as [|c l IH]; [done|]. rewrite first_fit_cons.
  rewrite fmap_cons, NoDup_cons. intros Hf [Hnin Hnd]. unfold set_free. rewrite !fmap_cons, first_fit_cons.
  destruct (fits n c) eqn:Ec.
  - injection Hf as ->. rewrite Z.eqb_refl. cbn [b_addr]. rewrite Z.eqb_refl.
    unfold fits in *. cbn [b_free b_size b_addr] in *. apply andb_prop in Ec as [Ef ->].
    simpl. f_equal. destruct b; simpl in *. by rewrite Ef.
  - assert (b_addr c ≠ b_addr b) as Hne.
    { intros Heq. apply Hnin. rewrite Heq. apply first_fit_Some in Hf as [Hf _].
      by apply list_elem_of_fmap_2. }
    apply Z.eqb_neq in Hne. rewrite Hne. rewrite Hne, Ec. by apply IH.
Qed.

Lemma tiled_NoDup hi l : tiled hi l → NoDup (b_addr <$> l).
Proof.
  revert hi. induction l as [|b l IH]; intros hi Ht; [apply NoDup_nil_2|].
  destruct Ht as (_ & Hs & _ & Ht). rewrite fmap_cons, NoDup_cons. split; [|by eapply IH].
  intros (c & Heq & Hc)%list_elem_of_fmap. pose proof (tiled_bounds _ _ _ Ht Hc).
  unfold sizeof_heap_block in *. lia.
Qed.

(** Freeing a block and asking for the same size again returns the same
    pointer. *)
Theorem kmalloc_kfree_reuse s l size p s1 s2 :
  heap_rel s l → sane_size size → result (kmalloc size) s = Some (p, s1) → p ≠ NULL →
  result (kfree p) s1 = Some (tt, s2) →
  ∃ s3, result (kmalloc size) s2 = Some (p, s3).
Proof.
  intros Hr Hsize H1 Hp H2. destruct (sane_align size Hsize) as [Hn16 Hn].
  set (n := ALIGN_UP size 16) in *.
  pose proof (kmalloc_result s l size Hr Hsize) as Hres. cbn zeta in Hres. fold n in Hres.
  rewrite H1 in Hres.
  assert (∃ b l1, heap_rel s1 l1 ∧ b ∈ l1 ∧ payload b = p ∧
            first_fit n (spec_free (payload b) l1) = Some (Block (b_addr b) (b_size b) true))
    as (b & l1 & Hr1 & Hb1 & <- & Hff).
  { destruct (first_fit n l) as [b|] eqn:E.
    - injection Hres as -> ->. pose proof E as E'. apply first_fit_Some in E' as (Hb & Hf & _).
      exists (Block (b_addr b) (b_size b) false), (set_free (b_addr b) false l).
      split_and!; [by apply (heap_rel_set_free s l b 0)| |done|].
      + unfold set_free. apply list_elem_of_fmap. exists b. by rewrite Z.eqb_refl.
      + cbn [b_addr b_size]. rewrite <-Hf. replace (Block (b_addr b) (b_size b) (b_free b)) with b by (by destruct b).
        change (payload (Block (b_addr b) (b_size b) false)) with (payload b).
        apply first_fit_set_free; [done|]. by eapply tiled_NoDup, Hr.
    - destruct (_ <=? _) eqn:El; injection Hres as -> ->; [|done]. apply Z.leb_le in El.
      exists (Block (heap_ptr s) n false), (Block (heap_ptr s) n false :: l).
      split_and!; [|set_solver|done|].
      + apply heap_rel_new_block; [done| |done|done]. unfold sane_size in Hsize. lia.
      + unfold spec_free, payload, sizeof_heap_block, set_free. cbn [b_addr b_size].
        replace (heap_ptr s + 24 - 24) with (heap_ptr s) by lia.
        rewrite fmap_cons, first_fit_cons. cbn [b_addr b_size]. rewrite Z.eqb_refl.
        unfold fits. cbn [b_free b_size]. by rewrite Z.leb_refl. }
  destruct (kfree_result s1 l1 b Hr1 Hb1) as [H2' Hr2].
  rewrite H2 in H2'. injection H2' as ->.
  rewrite (kmalloc_result _ _ size Hr2 Hsize). fold n. rewrite Hff. by eexists.
Qed.

(** Sizes so large that [heap_ptr + total] leaves 64 bits: the bound check then
    compares a wrapped sum. *)
Lemma kmalloc_result_wrap s l size :
  heap_rel s l → 2 ^ 63 < size < 2 ^ 64 → (∀ b, b ∈ l → b_free b = false) →
  let n := ALIGN_UP size 16 in
  let hp' := u64 (heap_ptr s + sizeof_heap_block + n) in
  hp' ≤ KHEAP_START + KHEAP_SIZE →
  ∃ s', result (kmalloc size) s = Some (heap_ptr s + sizeof_heap_block, s') ∧ heap_ptr s' = hp' ∧
        blk_size s' (heap_ptr s) = n.
Proof.
  intros Hr Hs Hfree n hp' Hle. pose proof (heap_head_range s l Hr) as Hhd. pose proof (hr_ptr _ _ Hr) as Hp. 
  pose proof (tiled_lo _ _ (hr_tiled _ _ Hr)) as Hlo.
  assert (0 ≤ heap_ptr s ≤ 0x800000) as Hptr by (unfold KHEAP_START, KHEAP_SIZE, sizeof_heap_block in *; lia).
  assert (first_fit n l = None) as Hff.
  { clear -Hfree. induction l as [|b l IH]; [done|]. rewrite first_fit_cons. unfold fits.
    rewrite (Hfree b) by set_solver. apply IH. intros c Hc. apply Hfree. set_solver. }
  assert (is_u64 n) as Hn by (apply (land_below _ _ 64), u64_range).
  assert (∀ x, u64 (heap_ptr s + u64 (sizeof_heap_block + x)) = u64 (heap_ptr s + sizeof_heap_block + x)) as Hw.
  { intros x. unfold u64. rewrite Z.add_mod_idemp_r by done. f_equal. lia. }
  unfold kmalloc. replace (size =? 0) with false by (symmetry; apply Z.eqb_neq; lia). fold n. run_simpl.
  rewrite (kmalloc_find_spec _ _ _ l _ (heap_ptr s) (hr_tiled _ _ Hr) (hr_chain _ _ Hr)
             (heap_fuel_enough s l Hr)).
  rewrite Hff. run_simpl. rewrite Hw. fold hp'.
  replace (KHEAP_START + KHEAP_SIZE <? hp') with false by (symmetry; by apply Z.ltb_ge).
  run_simpl. cbn [set_blk_next set_blk_free set_blk_size heap_ptr setter]. rewrite Hw.
  rewrite (u64_id (heap_ptr s + sizeof_heap_block)) by (unfold is_u64, sizeof_heap_block; lia).
  eexists. split; [reflexivity|]. split; [reflexivity|].
  unfold blk_size, set_blk_next, set_blk_free, set_blk_size. cbn [h_mem heap_ptr heap_head setter]. rewrite ld64_st64_ne, ld64_st32_ne, ld64_st64 by (done || lia). done.
Qed.

(** Requests close to 2^64 are not refused. A size whose rounding wraps
    gets a block with an empty payload; a size that makes the sum with the heap
    pointer wrap gets a block that the next one overwrites, because the heap
    pointer ends up before the returned address. *)
Theorem kmalloc_overflow s l size :
  heap_rel s l → (∀ b, b ∈ l → b_free b = false) →
  heap_ptr s + sizeof_heap_block ≤ KHEAP_START + KHEAP_SIZE →
  (2 ^ 64 - 16 < size < 2 ^ 64 →
     ∃ s', result (kmalloc size) s = Some (heap_ptr s + sizeof_heap_block, s') ∧
           blk_size s' (heap_ptr s) = 0 ∧ heap_ptr s' = heap_ptr s + sizeof_heap_block) ∧
  (2 ^ 64 - heap_ptr s - sizeof_heap_block ≤ size ≤ 2 ^ 64 - 16 →
     ∃ s', result (kmalloc size) s = Some (heap_ptr s + sizeof_heap_block, s') ∧
           size ≤ blk_size s' (heap_ptr s) ∧ heap_ptr s' < heap_ptr s + sizeof_heap_block).
Proof.
  intros Hr Hfree Hroom. pose proof (hr_ptr _ _ Hr) as Hp.
  pose proof (tiled_lo _ _ (hr_tiled _ _ Hr)) as Hlo.
  assert (0 ≤ heap_ptr s ≤ 0x800000) as Hptr by (unfold KHEAP_START, KHEAP_SIZE, sizeof_heap_block in *; lia).
  split; intros Hs.
  - assert (ALIGN_UP size 16 = 0) as Hn.
    { unfold ALIGN_UP. replace (u64 (size + 16 - 1)) with (size + 15 - 2 ^ 64).
      - change 16 with (2 ^ 4) at 1. rewrite land_not64_ones by (unfold is_u64; lia).
        rewrite Z.div_small by lia. lia.
      - unfold u64. replace (size + 16 - 1) with (size + 15 - 2 ^ 64 + 1 * 2 ^ 64) by lia.
        rewrite Z.mod_add by lia. symmetry. apply Z.mod_small. lia. }
    destruct (kmalloc_result_wrap s l size Hr) as (s' & Hres & Hhp & Hbs); [lia|done| |].
    + rewrite Hn, Z.add_0_r. rewrite u64_id; [done|]. unfold is_u64, sizeof_heap_block. lia.
    + exists s'. rewrite Hn in Hhp, Hbs. rewrite Z.add_0_r, u64_id in Hhp by (unfold is_u64, sizeof_heap_block; lia).
      by split_and!.
  - unfold sizeof_heap_block in *.
    assert (size ≤ ALIGN_UP size 16 ≤ 2 ^ 64 - 16) as Hn.
    { split; [apply (ALIGN_UP_bounds size 4); [lia|unfold is_u64; lia|lia]|].
      pose proof (ALIGN_UP_aligned size 4 ltac:(lia)) as Hm. change (2 ^ 4) with 16 in Hm.
      assert (is_u64 (ALIGN_UP size 16)) as Hu by (apply (land_below _ _ 64), u64_range).
      unfold is_u64 in Hu. apply Z.mod_divide in Hm as [k Hk]; [|done]. lia. }
    assert (u64 (heap_ptr s + 24 + ALIGN_UP size 16) = heap_ptr s + 24 + ALIGN_UP size 16 - 2 ^ 64) as Hw.
    { unfold u64. set (x := heap_ptr s + 24 + ALIGN_UP size 16) in *.
      replace x with (x - 2 ^ 64 + 1 * 2 ^ 64) by lia. rewrite Z.mod_add by lia.
      rewrite Z.mod_small; lia. }
    destruct (kmalloc_result_wrap s l size Hr) as (s' & Hres & Hhp & Hbs); [lia|done| |];
      unfold sizeof_heap_block in *; rewrite Hw in *.
    + unfold KHEAP_START, KHEAP_SIZE in *. lia.
    + exists s'. split_and!; [done|lia|lia].
Qed.

(** ** A concrete heap: empty, then one block *)

Lemma heap_zero_rel : heap_rel heap_zero [].
Proof. split; [exact mem_wf_empty|done|done|done]. Qed.

Definition heap_demo : heap := new_block 32 heap_zero.
Definition heap_demo_block : block := Block KHEAP_START 32 false.

Lemma heap_demo_rel : heap_rel heap_demo [heap_demo_block].
Proof. apply (heap_rel_new_block heap_zero []); [exact heap_zero_rel|done|done|by vm_compute]. Qed.


Lemma kfree_refines_witness :
  ∃ s', result (kfree (payload heap_demo_block)) heap_demo = Some (tt, s') ∧
        heap_rel s' (spec_free (payload heap_demo_block) [heap_demo_block]) ∧
        heap_ptr s' = heap_ptr heap_demo.
Proof. apply (kfree_refines _ _ _ heap_demo_rel). set_solver. Defined.

Definition heap_demo2 : heap := new_block 16 heap_demo.
Definition heap_demo2_block : block := Block (heap_ptr heap_demo) 16 false.

Lemma heap_demo2_rel : heap_rel heap_demo2 [heap_demo2_block; heap_demo_block].
Proof. apply (heap_rel_new_block heap_demo); [exact heap_demo_rel|done|done|by vm_compute]. Qed.

Lemma heap_blocks_separated_witness :
  (payload heap_demo2_block + 16 ≤ b_addr heap_demo_block ∨
   payload heap_demo_block + 32 ≤ b_addr heap_demo2_block) ∧
  KHEAP_START < payload heap_demo2_block ∧
  payload heap_demo2_block + 16 ≤ KHEAP_START + KHEAP_SIZE ∧
  payload heap_demo2_block `mod` 8 = 0.
Proof. by apply (heap_blocks_separated _ _ 0 1 heap_demo2_block heap_demo_block heap_demo2_rel). Defined.

Lemma heap_payload_isolated_witness :
  payload heap_demo_block = 0x400018 ∧
  heap_rel (heap_demo <| h_mem := st_bytes (h_mem heap_demo) (payload heap_demo_block + 29) [1; 2; 3] |>)
           [heap_demo_block].
Proof.
  split; [reflexivity|].
  apply (heap_payload_isolated heap_demo [heap_demo_block] heap_demo_block heap_demo_rel);
    [by left|discriminate|discriminate].
Defined.

Lemma kmalloc_kfree_reuse_witness :
  let s1 := match result (kmalloc 48) heap_demo with Some (_, s) => s | None => heap_demo end in
  let s2 := match result (kfree 0x400050) s1 with Some (_, s) => s | None => s1 end in
  ∃ s3, result (kmalloc 48) s2 = Some (0x400050, s3).
Proof.
  intros s1 s2. apply (kmalloc_kfree_reuse heap_demo [heap_demo_block] 48 0x400050 s1 s2);
    [exact heap_demo_rel|done|by vm_compute|done|by vm_compute].
Defined.

Lemma kmalloc_overflow_witness :
  (∃ s', result (kmalloc (2 ^ 64 - 1)) heap_demo = Some (0x400050, s') ∧
         blk_size s' 0x400038 = 0 ∧ heap_ptr s' = 0x400050) ∧
  (∃ s', result (kmalloc (2 ^ 64 - 32)) heap_demo = Some (0x400050, s') ∧
         2 ^ 64 - 32 ≤ blk_size s' 0x400038 ∧ heap_ptr s' < 0x400050).
Proof.
  split; apply (kmalloc_overflow heap_demo [heap_demo_block]);
    first [exact heap_demo_rel|intros b ->%list_elem_of_singleton; done|by vm_compute].
Defined.
