(* ===== verification/Vmm.v ===== *)
(** * Vmm: four-level page tables (kernel/mm/vmm.c)

    Page tables live in memory at their physical addresses, as the code
    accesses them (it relies on the identity mapping of low memory).  The
    specification of an address space is the partial map [leaf] from the four
    table indices of a virtual address to the entry that maps it:
    [vmm_map] is an insertion, [vmm_unmap] a deletion and [vmm_resolve] a
    lookup.  [pt_wf] is the invariant that makes this true: every table page
    has one place in the tree. *)

From S2P Require Import Prelude Effects Interfaces Memory Types Pmm.

Definition PML4_IDX (va : Z) : Z := Z.land (Z.shiftr va 39) 0x1FF.
Definition PDP_IDX (va : Z) : Z := Z.land (Z.shiftr va 30) 0x1FF.
Definition PD_IDX (va : Z) : Z := Z.land (Z.shiftr va 21) 0x1FF.
Definition PT_IDX (va : Z) : Z := Z.land (Z.shiftr va 12) 0x1FF.
Definition PTE_PHYS (e : Z) : Z := Z.land e PTE_ADDR_MASK.
Definition PAGE_PRESENT : Z := Z.shiftl 1 0.
Definition PAGE_WRITE : Z := Z.shiftl 1 1.

(** The static variables of the file, the physical allocator it calls and the
    memory the tables live in. *)
Record vmm := Vmm {
  v_mem : mem;
  v_pmm : pmm;
  pt_pool_used : Z;
  kernel_pml4 : Z;
}.
#[export] Instance eta_vmm : Eta vmm := λ s,
  Vmm (v_mem s) (v_pmm s) (pt_pool_used s) (kernel_pml4 s).

#[export] Program Instance lens_vmm_pmm : Lens vmm pmm := {|
  view := v_pmm;
  put p s := s <| v_pmm := p |>;
|}.
Solve Obligations with (by intros []).

(** [sizeof(pt_pool)] *)
Definition POOL_SIZE : Z := PAGE_SIZE * 64.

(** [t[i]] for a table at address [t]. *)
Definition tbl_get (s : vmm) (t i : Z) : Z := ld64 (v_mem s) (t + 8 * i).
Definition tbl_set (t i v : Z) (s : vmm) : vmm := s <| v_mem := st64 (v_mem s) (t + 8 * i) v |>.

(** [e & PTE_PRESENT] as a condition. *)
Definition present (e : Z) : bool := negb (Z.land e PTE_PRESENT =? 0).

(** ** Operations *)

Section ops.
Context `{Link}.

Definition alloc_table : M vmm Z :=
  s ← get ;
  if u64 (pt_pool_used s + PAGE_SIZE) <=? POOL_SIZE then
    let t := pt_pool + pt_pool_used s in
    modify (λ s, s <| pt_pool_used := u64 (pt_pool_used s + PAGE_SIZE) |>) ;;
    for_each (seqZ 0 (PAGE_SIZE `div` 8)) (λ j, modify (tbl_set t j 0)) ;;
    mret t
  else
    t ← lift pmm_alloc ;
    if t =? NULL then panic "vmm: out of memory for page table" else mret t.

(** One level of the descent in [vmm_map]: the next table, allocated and
    entered if the entry is not present. *)
Definition next_table (tbl idx flags : Z) : M vmm Z :=
  e ← gets (λ s, tbl_get s tbl idx) ;
  (if negb (present e) then
     t ← alloc_table ;
     modify (tbl_set tbl idx
       (Z.lor (Z.lor (Z.lor t PTE_PRESENT) PTE_WRITABLE) (Z.land flags PTE_USER)))
   else mret tt) ;;
  gets (λ s, PTE_PHYS (tbl_get s tbl idx)).

Definition vmm_map (pml4 virt phys flags : Z) : M vmm Z :=
  let p4i := PML4_IDX virt in
  let p3i := PDP_IDX virt in
  let p2i := PD_IDX virt in
  let p1i := PT_IDX virt in
  pdp ← next_table pml4 p4i flags ;
  pd ← next_table pdp p3i flags ;
  pt ← next_table pd p2i flags ;
  modify (tbl_set pt p1i (Z.lor (Z.land phys PTE_ADDR_MASK) (Z.lor flags PTE_PRESENT))) ;;
  instruction (Invlpg virt) ;;
  mret 0.

Definition vmm_unmap (pml4 virt : Z) : M vmm unit :=
  let p4i := PML4_IDX virt in
  let p3i := PDP_IDX virt in
  let p2i := PD_IDX virt in
  let p1i := PT_IDX virt in
  s ← get ;
  if negb (present (tbl_get s pml4 p4i)) then mret tt else
  let pdp := PTE_PHYS (tbl_get s pml4 p4i) in
  if negb (present (tbl_get s pdp p3i)) then mret tt else
  let pd := PTE_PHYS (tbl_get s pdp p3i) in
  if negb (present (tbl_get s pd p2i)) then mret tt else
  let pt := PTE_PHYS (tbl_get s pd p2i) in
  modify (tbl_set pt p1i 0) ;;
  instruction (Invlpg virt).

Definition vmm_resolve (s : vmm) (pml4 virt : Z) : Z :=
  let p4i := PML4_IDX virt in
  let p3i := PDP_IDX virt in
  let p2i := PD_IDX virt in
  let p1i := PT_IDX virt in
  if negb (present (tbl_get s pml4 p4i)) then 0 else
  let pdp := PTE_PHYS (tbl_get s pml4 p4i) in
  if negb (present (tbl_get s pdp p3i)) then 0 else
  let pd := PTE_PHYS (tbl_get s pdp p3i) in
  if negb (present (tbl_get s pd p2i)) then 0 else
  let pt := PTE_PHYS (tbl_get s pd p2i) in
  if negb (present (tbl_get s pt p1i)) then 0 else
  Z.lor (PTE_PHYS (tbl_get s pt p1i)) (Z.land virt 0xFFF).

Definition vmm_switch (pml4 : Z) : M vmm unit := instruction (WriteCr3 pml4).

Definition vmm_map_page (pml4 va pa flags : Z) : M vmm unit :=
  vmm_map pml4 va pa flags ;; mret tt.

Definition vmm_new_pagedir : M vmm Z :=
  pml4 ← alloc_table ;
  kpml4 ← gets kernel_pml4 ;
  (if negb (kpml4 =? NULL) then
     for_each (seqZ 256 256) (λ i, modify (λ s, tbl_set pml4 i (tbl_get s kpml4 i) s))
   else mret tt) ;;
  mret pml4.

(** The three nested loops of [vmm_free_pagedir], innermost first. *)
Definition free_pd (pd : Z) : M vmm unit :=
  for_each (seqZ 0 512) (λ p2,
    s ← get ;
    if negb (present (tbl_get s pd p2)) then mret tt else
    lift (pmm_free (PTE_PHYS (tbl_get s pd p2)))).

Definition free_pdp (pdp : Z) : M vmm unit :=
  for_each (seqZ 0 512) (λ p3,
    s ← get ;
    if negb (present (tbl_get s pdp p3)) then mret tt else
    let pd := PTE_PHYS (tbl_get s pdp p3) in
    free_pd pd ;;
    lift (pmm_free pd)).

Definition vmm_free_pagedir (pml4 : Z) : M vmm unit :=
  for_each (seqZ 0 256) (λ p4,
    s ← get ;
    if negb (present (tbl_get s pml4 p4)) then mret tt else
    let pdp := PTE_PHYS (tbl_get s pml4 p4) in
    free_pdp pdp ;;
    lift (pmm_free pdp)) ;;
  lift (pmm_free pml4).

(** The addresses of [for (va = lo; va < hi; va += PAGE_SIZE)]. *)
Definition page_range (lo hi : Z) : list Z :=
  (λ i, lo + i * PAGE_SIZE) <$> seqZ 0 ((hi - lo + PAGE_SIZE - 1) `div` PAGE_SIZE).

Definition vmm_map_user_stack (cr3 base size : Z) : M vmm unit :=
  for_each (page_range 0 size) (λ off,
    phys ← lift pmm_alloc_page ;
    (if phys =? NULL then panic "no memory for user stack" else mret tt) ;;
    vmm_map_page cr3 (u64 (base + off)) phys PAGE_WRITE).

(** [cr3] is what [read_cr3] returns: the tables set up by boot/boot.asm. *)
Definition vmm_init (cr3 : Z) : M vmm unit :=
  modify (λ s, s <| kernel_pml4 := cr3 |>) ;;
  kernel_pml4 ← gets kernel_pml4 ;
  kprintf ("[VMM] kernel PML4=%p" +:+ nl) [KInt kernel_pml4] ;;
  kprintf ("[VMM] heap %p - %p" +:+ nl) [KInt KHEAP_START; KInt (KHEAP_START + KHEAP_SIZE)] ;;
  s ← get ;
  let base := pmm_base (v_pmm s) in
  let pmm_end := u64 (base + u64 (pmm_total_pages (v_pmm s) * PAGE_SIZE)) in
  for_each (page_range base pmm_end) (λ va,
    vmm_map_page kernel_pml4 va va (Z.lor PAGE_PRESENT PAGE_WRITE)) ;;
  for_each (page_range KHEAP_START (KHEAP_START + KHEAP_SIZE)) (λ va,
    pa ← lift pmm_alloc_page ;
    (if pa =? NULL then panic "vmm_init: pmm_alloc_page failed" else mret tt) ;;
    vmm_map_page kernel_pml4 va pa (Z.lor PAGE_PRESENT PAGE_WRITE)) ;;
  instruction (WriteCr3 kernel_pml4).
End ops.

(** ** Table entries *)

(** A table address: a page below the 52-bit physical limit. *)
Definition table_addr (t : Z) : Prop := t `mod` 4096 = 0 ∧ 0 ≤ t ∧ t + 4096 ≤ 2 ^ 52.
(** An index into a table. *)
Definition index (i : Z) : Prop := 0 ≤ i < 512.

Lemma testbit_PTE_ADDR_MASK i : 0 ≤ i → Z.testbit PTE_ADDR_MASK i = (12 <=? i) && (i <? 52).
Proof.
  intros Hi. change PTE_ADDR_MASK with (Z.shiftl (Z.ones 40) 12). rewrite Z.shiftl_spec by done.
  destruct (12 <=? i) eqn:E1; [apply Z.leb_le in E1|apply Z.leb_gt in E1]; simpl.
  - destruct (i <? 52) eqn:E2; [apply Z.ltb_lt in E2|apply Z.ltb_ge in E2].
    + apply Z.ones_spec_low. lia.
    + apply Z.ones_spec_high. lia.
  - by rewrite Z.testbit_neg_r by lia.
Qed.

Lemma testbit_aligned t i : t `mod` 4096 = 0 → 0 ≤ i < 12 → Z.testbit t i = false.
Proof.
  intros Ht Hi. change 4096 with (2 ^ 12) in Ht.
  rewrite <-(Z.mod_pow2_bits_low t 12 i) by lia. by rewrite Ht, Z.testbit_0_l.
Qed.

Lemma PTE_PHYS_table t : table_addr t → PTE_PHYS t = t.
Proof.
  intros (Ht & H0 & Hlt). apply Z.bits_inj'. intros i Hi.
  unfold PTE_PHYS. rewrite Z.land_spec, testbit_PTE_ADDR_MASK by done.
  destruct (12 <=? i) eqn:E1; [apply Z.leb_le in E1|apply Z.leb_gt in E1]; simpl.
  - destruct (i <? 52) eqn:E2; [by rewrite andb_true_r|]. apply Z.ltb_ge in E2.
    by rewrite (testbit_above t 52) by lia.
  - by rewrite (testbit_aligned t) by (done || lia).
Qed.

Lemma PTE_PHYS_lor a b : PTE_PHYS (Z.lor a b) = Z.lor (PTE_PHYS a) (PTE_PHYS b).
Proof. apply Z.land_lor_distr_l. Qed.

Lemma PTE_PHYS_idemp a : PTE_PHYS (PTE_PHYS a) = PTE_PHYS a.
Proof. unfold PTE_PHYS. by rewrite <-Z.land_assoc, Z.land_diag. Qed.

(** The flag bits below 12 do not disturb the address. *)
Lemma PTE_PHYS_low f : 0 ≤ f < 4096 → PTE_PHYS f = 0.
Proof.
  intros Hf. apply Z.bits_inj'. intros i Hi.
  unfold PTE_PHYS. rewrite Z.land_spec, testbit_PTE_ADDR_MASK, Z.testbit_0_l by done.
  destruct (12 <=? i) eqn:E1; [apply Z.leb_le in E1|by rewrite andb_false_r].
  by rewrite (testbit_above f 12) by (done || lia).
Qed.

(** The entry [next_table] writes for a new table. *)
Definition table_entry (t flags : Z) : Z :=
  Z.lor (Z.lor (Z.lor t PTE_PRESENT) PTE_WRITABLE) (Z.land flags PTE_USER).

Lemma table_entry_phys t flags : table_addr t → PTE_PHYS (table_entry t flags) = t.
Proof.
  intros Ht. unfold table_entry. rewrite !PTE_PHYS_lor, (PTE_PHYS_table t) by done.
  rewrite (PTE_PHYS_low PTE_PRESENT), (PTE_PHYS_low PTE_WRITABLE) by done.
  rewrite PTE_PHYS_low, !Z.lor_0_r; [done|]. rewrite Z.land_comm.
  pose proof (land_below PTE_USER flags 3 ltac:(done)). lia.
Qed.

Lemma present_testbit e : present e = Z.testbit e 0.
Proof. unfold present. change PTE_PRESENT with (2 ^ 0). by rewrite land_pow2_eqb, negb_involutive. Qed.

Lemma present_lor_l a b : present a = true → present (Z.lor a b) = true.
Proof. rewrite !present_testbit, Z.lor_spec. by intros ->. Qed.

Lemma present_lor_r a b : present b = true → present (Z.lor a b) = true.
Proof. rewrite !present_testbit, Z.lor_spec. intros ->. apply orb_true_r. Qed.

Lemma table_entry_present t flags : present (table_entry t flags) = true.
Proof. unfold table_entry. apply present_lor_l, present_lor_l, present_lor_r. done. Qed.

Lemma table_entry_u64 t flags : table_addr t → is_u64 (table_entry t flags).
Proof.
  intros (_ & H0 & Hlt). unfold table_entry, is_u64.
  repeat apply lor_below; [lia|done|done|]. rewrite Z.land_comm. by apply land_below.
Qed.

(** The entry [vmm_map] writes for a page. *)
Definition page_entry (phys flags : Z) : Z :=
  Z.lor (Z.land phys PTE_ADDR_MASK) (Z.lor flags PTE_PRESENT).

Lemma page_entry_present phys flags : present (page_entry phys flags) = true.
Proof. by apply present_lor_r, present_lor_r. Qed.

Lemma page_entry_u64 phys flags : is_u64 flags → is_u64 (page_entry phys flags).
Proof.
  intros Hf. unfold page_entry. apply (lor_below _ _ 64).
  - rewrite Z.land_comm. by apply (land_below _ _ 64).
  - by apply (lor_below _ _ 64).
Qed.

Lemma page_entry_phys phys flags :
  Z.land flags PTE_ADDR_MASK = 0 → PTE_PHYS (page_entry phys flags) = PTE_PHYS phys.
Proof.
  intros Hf. unfold page_entry. rewrite !PTE_PHYS_lor, (PTE_PHYS_low PTE_PRESENT) by done.
  assert (PTE_PHYS flags = 0) as -> by exact Hf. rewrite !Z.lor_0_r. apply PTE_PHYS_idemp.
Qed.

(** Entries of aligned tables do not overlap. *)
Lemma tbl_get_set s t i v t' i' :
  t `mod` 4096 = 0 → t' `mod` 4096 = 0 → index i → index i' → is_u64 v →
  tbl_get (tbl_set t i v s) t' i' = if decide (t' = t ∧ i' = i) then v else tbl_get s t' i'.
Proof.
  intros Ht Ht' Hi Hi' Hv. unfold tbl_get, tbl_set. simpl. case_decide as E.
  - destruct E as [-> ->]. by apply ld64_st64.
  - apply ld64_st64_ne. unfold index in *.
    destruct (decide (t' = t)) as [->|Hne]; [assert (i' ≠ i) by tauto; lia|].
    apply Z.mod_divide in Ht as [k ->], Ht' as [k' ->]; [|done..]. assert (k ≠ k') by congruence. lia.
Qed.

(** The zeroing loop of [alloc_table]. *)
Lemma zero_loop_spec s t n :
  t `mod` 4096 = 0 → (n ≤ 512)%nat →
  let s' := foldl (λ s j, tbl_set t j 0 s) s (seqZ 0 (Z.of_nat n)) in
  (∀ t' i, t' `mod` 4096 = 0 → index i →
     tbl_get s' t' i = if decide (t' = t ∧ i < Z.of_nat n) then 0 else tbl_get s t' i) ∧
  (∀ a, ¬ (t ≤ a < t + 4096) → ld8 (v_mem s') a = ld8 (v_mem s) a) ∧
  s' <| v_mem := v_mem s |> = s.
Proof.
  intros Ht. induction n as [|n IH]; intros Hn; cbn zeta.
  { simpl. split_and!; [|done|by destruct s]. intros t' i _ Hi.
    rewrite decide_False; [done|]. unfold index in Hi. lia. }
  rewrite seqZ_S, foldl_app. destruct IH as (Hget & Hout & Hrest); [lia|].
  revert Hget Hout Hrest. generalize (foldl (λ s j, tbl_set t j 0 s) s (seqZ 0 (Z.of_nat n))).
  intros s1 Hget Hout Hrest. cbn [foldl]. rewrite Z.add_0_l. split_and!.
  - intros t' i Ht' Hi. rewrite tbl_get_set by (done || unfold index; lia). rewrite Hget by done.
    destruct (decide (t' = t ∧ i = Z.of_nat n)) as [[-> ->]|Hne].
    + rewrite decide_True; [done|]. lia.
    + destruct (decide (t' = t ∧ i < Z.of_nat n)).
      * rewrite decide_True; [done|]. lia.
      * rewrite decide_False; [done|]. lia.
  - intros a Ha. unfold tbl_set. simpl. rewrite ld8_st64_out by lia. by apply Hout.
  - exact Hrest.
Qed.

(** ** The tree of tables *)

Section tree.
Context `{Link}.

(** The entry found by following a path of indices, if every entry on the way
    is present. *)
Fixpoint leaf (s : vmm) (t : Z) (path : list Z) : option Z :=
  match path with
  | [] => None
  | i :: path' =>
      let e := tbl_get s t i in
      if present e then
        match path' with [] => Some e | _ => leaf s (PTE_PHYS e) path' end
      else None
  end.

(** The table reached by following a path. *)
Fixpoint walk (s : vmm) (t : Z) (path : list Z) : option Z :=
  match path with
  | [] => Some t
  | i :: path' =>
      let e := tbl_get s t i in
      if present e then walk s (PTE_PHYS e) path' else None
  end.

(** Pages that [alloc_table] may hand out next. *)
Definition fresh_table (s : vmm) (t : Z) : Prop :=
  (pt_pool + pt_pool_used s ≤ t < pt_pool + POOL_SIZE) ∨
  (fa_frame (v_pmm s) t ∧ ¬ fa_taken (v_pmm s) t).

(** [own] labels every table of the tree with the indices leading to it; no
    table is still free, and free frames hold no present entry. *)
Record pt_wf (s : vmm) (root : Z) (own : gmap Z (list Z)) : Prop := {
  wf_root : own !! root = Some [];
  wf_addr t path : own !! t = Some path → table_addr t;
  wf_entry t path i :
    own !! t = Some path → (length path < 3)%nat → index i → present (tbl_get s t i) = true →
    own !! PTE_PHYS (tbl_get s t i) = Some (path ++ [i]);
  wf_reach t path : own !! t = Some path →
    walk s root path = Some t ∧ Forall index path ∧ (length path ≤ 3)%nat;
  wf_not_fresh t path : own !! t = Some path → ¬ fresh_table s t;
  wf_pool : table_addr pt_pool ∧ table_addr (pt_pool + POOL_SIZE) ∧
    0 ≤ pt_pool_used s ≤ POOL_SIZE ∧ pt_pool_used s `mod` 4096 = 0;
  wf_frames : fa_inv (v_pmm s);
  wf_frame a : fa_frame (v_pmm s) a →
    table_addr a ∧ (a + 4096 ≤ pt_pool ∨ pt_pool + POOL_SIZE ≤ a);
  (** [alloc_table] does not clear what it gets from the page allocator *)
  wf_clear a i : fa_frame (v_pmm s) a → ¬ fa_taken (v_pmm s) a → index i →
    present (tbl_get s a i) = false;
}.

Lemma leaf_walk s t path t' q :
  walk s t path = Some t' → q ≠ [] → leaf s t (path ++ q) = leaf s t' q.
Proof.
  revert t. induction path as [|i path IH]; intros t Hw Hq; simpl in *; [by simplify_eq|].
  destruct (present (tbl_get s t i)); [|done].
  destruct (path ++ q) eqn:E; [by apply app_eq_nil in E as [_ ?]|]. by apply IH.
Qed.

Lemma walk_own s root own t π path t' :
  pt_wf s root own → own !! t = Some π → walk s t path = Some t' → Forall index path →
  (length π + length path ≤ 3)%nat → own !! t' = Some (π ++ path).
Proof.
  intros Hwf. revert t π. induction path as [|i path IH]; intros t π Ho Hw Hi Hl; simpl in *.
  { simplify_eq. by rewrite app_nil_r. }
  apply Forall_cons in Hi as [Hi Hp]. destruct (present (tbl_get s t i)) eqn:E; [|done].
  rewrite cons_middle, app_assoc. eapply IH; [|done|done|rewrite length_app; simpl; lia].
  eapply wf_entry; [done..|lia|done|done].
Qed.

Lemma walk_snoc s t path t' i :
  walk s t path = Some t' → present (tbl_get s t' i) = true →
  walk s t (path ++ [i]) = Some (PTE_PHYS (tbl_get s t' i)).
Proof.
  revert t. induction path as [|j path IH]; intros t Hw Hp; simpl in *; [simplify_eq; by rewrite Hp|].
  destruct (present (tbl_get s t j)); [|done]. by apply IH.
Qed.

(** States whose owned tables agree except at one entry: paths that do not go
    through that entry see no difference. *)
Definition agree_but (s s' : vmm) (own : gmap Z (list Z)) (tbl i : Z) : Prop :=
  ∀ t π j, own !! t = Some π → index j → ¬ (t = tbl ∧ j = i) → tbl_get s' t j = tbl_get s t j.

Lemma leaf_agree_but s s' root own tbl πt i t π q :
  pt_wf s root own → own !! tbl = Some πt → agree_but s s' own tbl i →
  own !! t = Some π → Forall index q → (length π + length q ≤ 4)%nat →
  ¬ ((πt ++ [i]) `prefix_of` (π ++ q)) → leaf s' t q = leaf s t q.
Proof.
  intros Hwf Ht Hag. revert t π. induction q as [|j q IH]; intros t π Ho Hq Hl Hpre; [done|].
  apply Forall_cons in Hq as [Hj Hq]. simpl in *.
  assert (¬ (t = tbl ∧ j = i)) as Hne.
  { intros [-> ->]. apply Hpre. simplify_eq. exists q. by rewrite <-app_assoc. }
  rewrite (Hag t π j) by done. destruct (present (tbl_get s t j)) eqn:E; [|done].
  destruct q as [|k q]; [done|]. apply (IH _ (π ++ [j])); [|done|rewrite length_app; simpl in *; lia|].
  - eapply wf_entry; [done..|simpl in Hl; lia|done|done].
  - by rewrite <-app_assoc.
Qed.

Lemma walk_agree_but s s' root own tbl πt i t π q t' :
  pt_wf s root own → own !! tbl = Some πt → agree_but s s' own tbl i →
  own !! t = Some π → Forall index q → (length π + length q ≤ 3)%nat →
  ¬ ((πt ++ [i]) `prefix_of` (π ++ q)) → walk s t q = Some t' → walk s' t q = Some t'.
Proof.
  intros Hwf Ht Hag. revert t π. induction q as [|j q IH]; intros t π Ho Hq Hl Hpre Hw; [done|].
  apply Forall_cons in Hq as [Hj Hq]. simpl in *.
  assert (¬ (t = tbl ∧ j = i)) as Hne.
  { intros [-> ->]. apply Hpre. simplify_eq. exists q. by rewrite <-app_assoc. }
  rewrite (Hag t π j) by done. destruct (present (tbl_get s t j)) eqn:E; [|done].
  apply (IH _ (π ++ [j])); [|done|rewrite length_app; simpl; lia| |done].
  - eapply wf_entry; [done..|lia|done|done].
  - by rewrite <-app_assoc.
Qed.

Lemma own_inj s root own t t' π :
  pt_wf s root own → own !! t = Some π → own !! t' = Some π → t = t'.
Proof.
  intros Hwf H1 H2. apply (wf_reach _ _ _ Hwf) in H1 as [H1 _], H2 as [H2 _]. congruence.
Qed.

(** A leaf is an entry of the table its first three indices lead to. *)
Lemma leaf_own s root own t π i :
  pt_wf s root own → own !! t = Some π → leaf s root (π ++ [i]) =
    if present (tbl_get s t i) then Some (tbl_get s t i) else None.
Proof.
  intros Hwf Ho. apply (wf_reach _ _ _ Hwf) in Ho as [Hw _].
  by rewrite (leaf_walk _ _ _ _ _ Hw).
Qed.

(** ** [alloc_table] *)

Lemma fresh_table_addr s root own t : pt_wf s root own → fresh_table s t →
  t `mod` 4096 = 0 → table_addr t.
Proof.
  intros Hwf [Hp|[Hf _]] Ht; [|by apply (wf_frame _ _ _ Hwf)].
  destruct (wf_pool _ _ _ Hwf) as ((Ha & Hb & Hc) & (Hd & He & Hf) & Hg & Hi).
  unfold table_addr. unfold POOL_SIZE, PAGE_SIZE in *.
  pose proof (Z.div_mod t 4096). pose proof (Z.div_mod pt_pool 4096). lia.
Qed.

(** Writing outside the tables of the tree, while handing out pages, keeps the
    tree. *)
Lemma pt_wf_transfer s s' root own :
  pt_wf s root own →
  (∀ t π i, own !! t = Some π → index i → tbl_get s' t i = tbl_get s t i) →
  (∀ t, fresh_table s' t → fresh_table s t) →
  0 ≤ pt_pool_used s' ≤ POOL_SIZE → pt_pool_used s' `mod` 4096 = 0 →
  fa_inv (v_pmm s') →
  (∀ a, fa_frame (v_pmm s') a → fa_frame (v_pmm s) a) →
  (∀ a i, fa_frame (v_pmm s') a → ¬ fa_taken (v_pmm s') a → index i →
     present (tbl_get s' a i) = false) →
  pt_wf s' root own ∧ ∀ path, Forall index path → (length path ≤ 4)%nat →
    leaf s' root path = leaf s root path.
Proof.
  intros Hwf Hg Hfr Hu Hm Hinv Hframe Hclear.
  assert (∀ t path, own !! t = Some path → ∀ q, Forall index q → (length path + length q ≤ 3)%nat →
    walk s' t q = walk s t q) as Hwalk.
  { intros t path Ho q. revert t path Ho. induction q as [|i q IH]; intros t path Ho Hq Hl; [done|].
    apply Forall_cons in Hq as [Hi Hq]. simpl in *. rewrite (Hg t path i) by done.
    destruct (present (tbl_get s t i)) eqn:E; [|done]. apply (IH _ (path ++ [i])); [|done|].
    - eapply wf_entry; [done..|lia|done|done].
    - rewrite length_app. simpl. lia. }
  assert (∀ t path, own !! t = Some path → ∀ q, Forall index q → (length path + length q ≤ 4)%nat →
    leaf s' t q = leaf s t q) as Hleaf.
  { intros t path Ho q. revert t path Ho. induction q as [|i q IH]; intros t path Ho Hq Hl; [done|].
    apply Forall_cons in Hq as [Hi Hq]. simpl in *. rewrite (Hg t path i) by done.
    destruct (present (tbl_get s t i)) eqn:E; [|done]. destruct q as [|j q]; [done|].
    apply (IH _ (path ++ [i])); [|done|].
    - eapply wf_entry; [done..|simpl in Hl; lia|done|done].
    - rewrite length_app. simpl in *. lia. }
  split; [|intros path Hp Hl; by apply (Hleaf _ _ (wf_root _ _ _ Hwf))].
  split.
  - apply Hwf.
  - apply Hwf.
  - intros t path i Ho Hl Hi. rewrite (Hg t path i) by done. by eapply wf_entry.
  - intros t path Ho. destruct (wf_reach _ _ _ Hwf t path Ho) as (Hw & Hi & Hl). split; [|done].
    by rewrite (Hwalk _ _ (wf_root _ _ _ Hwf)).
  - intros t path Ho Hf. eapply wf_not_fresh; [done..|]. by apply Hfr.
  - destruct (wf_pool _ _ _ Hwf) as (?&?&_). done.
  - done.
  - intros a Ha. apply (wf_frame _ _ _ Hwf). by apply Hframe.
  - done.
Qed.

(** What the descent may rely on after a table was allocated. *)
Record table_given (s s' : vmm) (t : Z) : Prop := {
  tg_addr : table_addr t;
  tg_fresh : fresh_table s t;
  tg_gone : ¬ fresh_table s' t;
  tg_clear i : index i → present (tbl_get s' t i) = false;
}.

(** No table can be had. *)
Definition exhausted (s : vmm) : Prop :=
  POOL_SIZE < pt_pool_used s + PAGE_SIZE ∧ ∀ a, fa_frame (v_pmm s) a → fa_taken (v_pmm s) a.

Definition table_result (s s' : vmm) (root : Z) (own : gmap Z (list Z)) (t : Z) : Prop :=
  table_given s s' t ∧ pt_wf s' root own ∧
  ∀ path, Forall index path → (length path ≤ 4)%nat → leaf s' root path = leaf s root path.

(** A page of the pool, cleared. *)
Lemma pool_table_result s s' root own t :
  pt_wf s root own → t = pt_pool + pt_pool_used s → pt_pool_used s + PAGE_SIZE ≤ POOL_SIZE →
  v_pmm s' = v_pmm s → pt_pool_used s' = pt_pool_used s + PAGE_SIZE →
  (∀ t' i, t' `mod` 4096 = 0 → index i → tbl_get s' t' i = if decide (t' = t) then 0 else tbl_get s t' i) →
  table_result s s' root own t.
Proof.
  intros Hwf -> E Hv Hus Hget. pose proof (wf_pool _ _ _ Hwf) as (Hp & Hpe & Hu & Hm).
  destruct Hp as (Hp1 & Hp2 & Hp3), Hpe as (_ & _ & Hpe3). unfold POOL_SIZE, PAGE_SIZE in *.
  set (t := pt_pool + pt_pool_used s) in *.
  assert (t `mod` 4096 = 0) as Ht0 by (unfold t; by rewrite Z.add_mod, Hp1, Hm).
  assert (fresh_table s t) as Hft by (left; unfold t, POOL_SIZE, PAGE_SIZE; lia).
  assert (∀ t', fresh_table s' t' → fresh_table s t') as Hfr.
  { intros t'. unfold fresh_table. rewrite Hv, Hus. intros [?|?]; [left; lia|by right]. }
  assert (∀ t' i, t' `mod` 4096 = 0 → t' ≠ t → index i → tbl_get s' t' i = tbl_get s t' i) as Hne.
  { intros t' i Ht' Hn Hi. rewrite Hget by done. by rewrite decide_False. }
  split; [split|apply pt_wf_transfer; [done|..]].
  - by eapply fresh_table_addr.
  - done.
  - unfold fresh_table. rewrite Hv, Hus. intros [?|[Hf _]]; [unfold t in *; lia|].
    apply (wf_frame _ _ _ Hwf) in Hf as [_ Hf]. unfold t, POOL_SIZE, PAGE_SIZE in Hf. lia.
  - intros i Hi. rewrite Hget by done. by rewrite decide_True.
  - intros t' π i Ho Hi. apply Hne; [by eapply wf_addr| |done].
    intros ->. by apply (wf_not_fresh _ _ _ Hwf _ _ Ho).
  - done.
  - unfold POOL_SIZE, PAGE_SIZE. lia.
  - rewrite Hus, Z.add_mod, Hm; done.
  - rewrite Hv. apply Hwf.
  - by rewrite Hv.
  - rewrite Hv. intros a i Ha Hna Hi.
    destruct (wf_frame _ _ _ Hwf _ Ha) as [[Ha1 _] Ha2]. unfold POOL_SIZE, PAGE_SIZE in Ha2.
    rewrite Hne by (done || unfold t; lia). by eapply wf_clear.
Qed.

(** A page of the allocator. *)
Lemma frame_table_result s root own a p' :
  pt_wf s root own → POOL_SIZE < pt_pool_used s + PAGE_SIZE → fa_inv p' →
  (∀ b, fa_frame p' b ↔ fa_frame (v_pmm s) b) → fa_frame (v_pmm s) a → ¬ fa_taken (v_pmm s) a →
  (∀ b, fa_taken p' b ↔ b = a ∨ fa_taken (v_pmm s) b) →
  table_result s (s <| v_pmm := p' |>) root own a.
Proof.
  intros Hwf E Hinv' Hfrm Hfa Hnt Htk. destruct (wf_frame _ _ _ Hwf a Hfa) as [Haddr Hsep].
  pose proof (wf_pool _ _ _ Hwf) as (_ & _ & Hu & Hm). set (s' := s <| v_pmm := p' |>).
  split; [split|apply pt_wf_transfer; [done|..]].
  - done.
  - by right.
  - intros [Hx|[_ Hx]]; [change (pt_pool_used s') with (pt_pool_used s) in Hx; unfold POOL_SIZE, PAGE_SIZE in *; lia|].
    apply Hx. apply Htk. by left.
  - intros i Hi. by apply (wf_clear _ _ _ Hwf).
  - done.
  - intros t' [Hx|[Hx Hy]]; [by left|right].
    split; [by apply Hfrm|]. intros Hz. apply Hy, Htk. by right.
  - done.
  - done.
  - done.
  - intros b. apply Hfrm.
  - intros b i Hb Hnb Hi. apply (wf_clear _ _ _ Hwf); [by apply Hfrm| |done].
    intros Hz. apply Hnb, Htk. by right.
Qed.

Lemma alloc_table_spec s root own :
  pt_wf s root own →
  wp alloc_table (λ t s', table_given s s' t ∧ pt_wf s' root own ∧
      (∀ path, Forall index path → (length path ≤ 4)%nat → leaf s' root path = leaf s root path))
    exhausted s.
Proof.
  intros Hwf. pose proof (wf_pool _ _ _ Hwf) as (Hp & Hpe & Hu & Hm).
  destruct Hp as (Hp1 & Hp2 & Hp3), Hpe as (_ & _ & Hpe3).
  unfold alloc_table. apply wp_bind, (wp_result _ _ _ _ s s); [done|].
  unfold POOL_SIZE, PAGE_SIZE in *.
  rewrite u64_id by (unfold is_u64; lia). destruct (_ <=? _) eqn:E.
  - apply Z.leb_le in E.
    destruct (zero_loop_spec (s <| pt_pool_used := pt_pool_used s + 4096 |>) (pt_pool + pt_pool_used s) 512)
      as (Hget & _ & Hrest); [by rewrite Z.add_mod, Hp1, Hm|done|].
    eapply wp_result.
    { run_simpl. rewrite u64_id by (unfold is_u64; lia).
      change (seqZ 0 (4096 `div` 8)) with (seqZ 0 (Z.of_nat 512)). reflexivity. }
    cbn beta. set (s' := foldl _ _ _) in *. clearbody s'.
    apply pool_table_result; [done|done|done|exact (f_equal v_pmm Hrest)|exact (f_equal pt_pool_used Hrest)|].
    intros t' i Ht' Hi. rewrite Hget by done. apply decide_ext. unfold index in Hi. split; [by intros []|].
    intros ->. split; [done|lia].
  - apply Z.leb_gt in E. apply wp_bind.
    destruct (fa_alloc (v_pmm s)) as (a & p' & Hr & Hinv' & Hfrm & Hcase); [apply Hwf|].
    eapply wp_result. { rewrite result_lift. cbn [view lens_vmm_pmm]. by rewrite Hr. }
    cbn [put lens_vmm_pmm]. destruct Hcase as [(-> & -> & Hall)|(Hfa & Hnt & Htk)].
    + assert ((s <| v_pmm := v_pmm s |>) = s) as -> by by destruct s.
      unfold wp, exhausted, POOL_SIZE, PAGE_SIZE. simpl. split; [exact E|done].
    + destruct (fa_frame_ok (v_pmm s) a (wf_frames _ _ _ Hwf) Hfa) as [Hpos _].
      assert ((a =? NULL) = false) as -> by (apply Z.eqb_neq; unfold NULL; lia).
      eapply wp_result; [run_simpl; reflexivity|]. by apply frame_table_result.
Qed.

(** ** Writing an entry *)

Lemma own_get_set s root own tbl π i v t π' j :
  pt_wf s root own → own !! tbl = Some π → own !! t = Some π' → index i → index j → is_u64 v →
  tbl_get (tbl_set tbl i v s) t j = if decide (t = tbl ∧ j = i) then v else tbl_get s t j.
Proof.
  intros Hwf H1 H2 Hi Hj Hv.
  apply tbl_get_set; [by eapply wf_addr|by eapply wf_addr|done..].
Qed.

Lemma tbl_set_agree s root own tbl π i v :
  pt_wf s root own → own !! tbl = Some π → index i → is_u64 v →
  agree_but s (tbl_set tbl i v s) own tbl i.
Proof.
  intros Hwf Ho Hi Hv t π' j Ht Hj Hne.
  rewrite (own_get_set s root own tbl π i v t π' j) by done. by rewrite decide_False.
Qed.

Lemma tbl_set_clear s root own tbl π i v a j :
  pt_wf s root own → own !! tbl = Some π → index i → index j → is_u64 v →
  fa_frame (v_pmm s) a → ¬ fa_taken (v_pmm s) a →
  present (tbl_get (tbl_set tbl i v s) a j) = false.
Proof.
  intros Hwf Ho Hi Hj Hv Ha Hna. destruct (wf_frame _ _ _ Hwf a Ha) as [[Ha0 _] _].
  rewrite tbl_get_set by (done || by eapply wf_addr). rewrite decide_False.
  - by eapply wf_clear.
  - intros [-> _]. apply (wf_not_fresh _ _ _ Hwf _ _ Ho). by right.
Qed.

(** Entering an empty table into the tree adds no leaf. *)
Lemma enter_table s root own tbl π i t e :
  pt_wf s root own → own !! tbl = Some π → (length π < 3)%nat → index i →
  present (tbl_get s tbl i) = false →
  table_addr t → own !! t = None → ¬ fresh_table s t →
  (∀ j, index j → present (tbl_get s t j) = false) →
  PTE_PHYS e = t → present e = true → is_u64 e →
  let s' := tbl_set tbl i e s in
  pt_wf s' root (<[t := π ++ [i]]> own) ∧
  ∀ q, Forall index q → length q = 4%nat → leaf s' root q = leaf s root q.
Proof.
  intros Hwf Ho Hl Hi Hnp Hta Hto Hnf Hclear Hphys Hp He s'.
  assert (Hag : agree_but s s' own tbl i) by (by eapply tbl_set_agree).
  destruct (wf_reach _ _ _ Hwf _ _ Ho) as (Hw & Hpi & _).
  assert (Hnew : tbl_get s' tbl i = e).
  { unfold s'. rewrite tbl_get_set by (done || by eapply wf_addr). by rewrite decide_True. }
  assert (Ht' : ∀ j, index j → present (tbl_get s' t j) = false).
  { intros j Hj. unfold s'. rewrite tbl_get_set; [|by eapply wf_addr|apply Hta|done..].
    rewrite decide_False; [by apply Hclear|]. intros [-> _]. congruence. }
  assert (Hblock : ∀ q r, q = (π ++ [i]) ++ r → walk s root q = None).
  { intros q r ->. rewrite <-app_assoc. clear -Hw Hnp. revert root Hw.
    induction π as [|j π IH]; intros root Hw; simpl in *; [simplify_eq; by rewrite Hnp|].
    destruct (present (tbl_get s root j)); [|done]. by apply IH. }
  assert (Hwalk : ∀ t' path, own !! t' = Some path → walk s' root path = Some t').
  { intros t' path Ht. destruct (wf_reach _ _ _ Hwf _ _ Ht) as (Hw' & Hi' & Hl').
    eapply (walk_agree_but s s'); [exact Hwf|exact Ho|exact Hag|by apply Hwf|done|done| |done].
    intros [r Hr]. by rewrite (Hblock path r) in Hw'. }
  assert (Hwt : walk s' root (π ++ [i]) = Some t).
  { rewrite (walk_snoc _ _ _ _ _ (Hwalk _ _ Ho)); [by rewrite Hnew, Hphys|by rewrite Hnew]. }
  split.
  - split.
    + rewrite lookup_insert_ne; [apply Hwf|]. intros ->. by rewrite (wf_root _ _ _ Hwf) in Hto.
    + intros t' path [[<- <-]|[Hne Ht1]]%lookup_insert_Some; [done|by eapply wf_addr].
    + intros t' path j [[<- <-]|[Hne Ht1]]%lookup_insert_Some Hl' Hj Hp'.
      { by rewrite Ht' in Hp' by done. }
      destruct (decide (t' = tbl ∧ j = i)) as [[-> ->]|Hd].
      * rewrite Hnew, Hphys. assert (path = π) as -> by congruence. apply lookup_insert_eq.
      * rewrite (Hag t' path j) in Hp' |- * by done.
        assert (own !! PTE_PHYS (tbl_get s t' j) = Some (path ++ [j])) as Hx by (by eapply wf_entry).
        rewrite lookup_insert_ne; [done|]. congruence.
    + intros t' path [[<- <-]|[Hne Ht1]]%lookup_insert_Some.
      * split_and!; [done|by apply Forall_app; split; [|constructor]|rewrite length_app; simpl; lia].
      * destruct (wf_reach _ _ _ Hwf _ _ Ht1) as (_ & ? & ?). split_and!; [by apply Hwalk|done..].
    + intros t' path [[<- <-]|[Hne Ht1]]%lookup_insert_Some; [done|]. by eapply (wf_not_fresh s).
    + apply Hwf.
    + apply Hwf.
    + apply Hwf.
    + intros a j Ha Hna Hj. by eapply (tbl_set_clear s).
  - intros q Hq Hlq. destruct (decide ((π ++ [i]) `prefix_of` q)) as [[r ->]|Hnpre].
    2:{ eapply (leaf_agree_but s s'); [exact Hwf|exact Ho|exact Hag|by apply Hwf|done|simpl; lia|done]. }
    rewrite length_app in Hlq. rewrite length_app in Hlq. simpl in Hlq.
    destruct r as [|j r]; [simpl in Hlq; lia|].
    rewrite (leaf_walk _ _ _ _ _ Hwt) by done. rewrite <-app_assoc, (leaf_walk _ _ _ _ _ Hw) by done.
    simpl. rewrite Hnp, Ht'; [done|]. rewrite Forall_app in Hq. destruct Hq as [_ Hq].
    by apply Forall_cons in Hq as [? _].
Qed.

(** Writing an entry of a last-level table changes one leaf. *)
Lemma enter_page s root own tbl π i e :
  pt_wf s root own → own !! tbl = Some π → length π = 3%nat → index i → is_u64 e →
  let s' := tbl_set tbl i e s in
  pt_wf s' root own ∧
  ∀ q, Forall index q → length q = 4%nat →
    leaf s' root q = if decide (q = π ++ [i]) then if present e then Some e else None
                     else leaf s root q.
Proof.
  intros Hwf Ho Hl Hi He s'.
  assert (Hag : agree_but s s' own tbl i) by (by eapply tbl_set_agree).
  assert (Hnp : ∀ q, (length q ≤ 3)%nat → ¬ (π ++ [i]) `prefix_of` q).
  { intros q Hq [r ->]. rewrite !length_app in Hq. simpl in Hq. lia. }
  assert (Hwf' : pt_wf s' root own).
  { split; try apply Hwf.
    - intros t path j Ht Hl' Hj. rewrite (Hag t path j); [by eapply wf_entry|done..|].
      intros [-> _]. rewrite Ho in Ht. injection Ht as <-. lia.
    - intros t path Ht. destruct (wf_reach _ _ _ Hwf _ _ Ht) as (Hw & Hp & Hl').
      split; [|done]. eapply (walk_agree_but s s'); [exact Hwf|exact Ho|exact Hag|by apply Hwf|done|done| |done].
      simpl. by apply Hnp.
    - intros a j Ha Hna Hj. by eapply (tbl_set_clear s). }
  split; [done|]. intros q Hq Hlq. case_decide as E.
  - subst q. rewrite (leaf_own _ _ _ _ _ _ Hwf' Ho). unfold s'.
    rewrite tbl_get_set by (done || by eapply wf_addr). by rewrite decide_True.
  - eapply (leaf_agree_but s s'); [exact Hwf|exact Ho|exact Hag|by apply Hwf|done|simpl; lia|].
    simpl. intros [r Hr]. apply E. rewrite Hr in Hlq |- *.
    rewrite !length_app in Hlq. simpl in Hlq. destruct r; [by rewrite app_nil_r|simpl in Hlq; lia].
Qed.

(** ** The descent *)

Definition path_of (virt : Z) : list Z :=
  [PML4_IDX virt; PDP_IDX virt; PD_IDX virt; PT_IDX virt].

Definition same_leaves (root : Z) (s s' : vmm) : Prop :=
  ∀ q, Forall index q → length q = 4%nat → leaf s' root q = leaf s root q.

Lemma idx_range x : index (Z.land x 0x1FF).
Proof. rewrite Z.land_comm. apply (land_below 0x1FF x 9). done. Qed.

Lemma path_of_index virt : Forall index (path_of virt).
Proof. repeat constructor; apply idx_range. Qed.

Lemma next_table_spec s root own tbl π i flags :
  pt_wf s root own → own !! tbl = Some π → (length π < 3)%nat → index i →
  wp (next_table tbl i flags) (λ t s', ∃ own', own ⊆ own' ∧ pt_wf s' root own' ∧
      own' !! t = Some (π ++ [i]) ∧ same_leaves root s s') exhausted s.
Proof.
  intros Hwf Ho Hl Hi. unfold next_table.
  apply wp_bind, (wp_result _ _ _ _ (tbl_get s tbl i) s); [done|]. apply wp_bind.
  destruct (present (tbl_get s tbl i)) eqn:Hp; cbn [negb].
  { eapply wp_result; [run_simpl; reflexivity|]. cbn beta.
    eapply wp_result; [run_simpl; reflexivity|]. cbn beta.
    exists own. split_and!; [done|done| |by intros q]. by eapply wf_entry. }
  apply wp_bind. eapply wp_mono; [|by apply alloc_table_spec].
  intros t s1 ([Hta Htf Htn Htc] & Hwf1 & Hleaf1).
  assert (own !! t = None) as Hnone.
  { destruct (own !! t) eqn:E; [|done]. by destruct (wf_not_fresh _ _ _ Hwf _ _ E). }
  assert (Hp1 : present (tbl_get s1 tbl i) = false).
  { destruct (wf_reach _ _ _ Hwf _ _ Ho) as (_ & Hpi & _).
    pose proof (leaf_own _ _ _ _ _ i Hwf Ho) as H0. pose proof (leaf_own _ _ _ _ _ i Hwf1 Ho) as H1.
    rewrite Hleaf1, H0, Hp in H1; [by destruct (present (tbl_get s1 tbl i))| |].
    - by apply Forall_app; split; [|constructor].
    - rewrite length_app. simpl. lia. }
  set (e := table_entry t flags).
  assert (He : is_u64 e) by (by apply table_entry_u64).
  destruct (enter_table s1 root own tbl π i t e) as [Hwf2 Hleaf2];
    [done..|by apply table_entry_phys|apply table_entry_present|done|].
  eapply wp_result; [run_simpl; reflexivity|]. cbn beta.
  eapply wp_result; [run_simpl; reflexivity|]. cbn beta. fold (table_entry t flags). fold e.
  exists (<[t := π ++ [i]]> own). split_and!.
  - by apply insert_subseteq.
  - done.
  - rewrite (own_get_set s1 root own tbl π i e tbl π i) by done. rewrite decide_True by done.
    unfold e. rewrite table_entry_phys by done. apply lookup_insert_eq.
  - intros q Hq Hlq. rewrite Hleaf2, Hleaf1 by (done || lia). done.
Qed.

(** [vmm_map] as a whole: it returns 0 and the translation changes at one page,
    or no page-table page is left and it panics. *)
Lemma vmm_map_wp s root own virt phys flags :
  pt_wf s root own → is_u64 flags →
  wp (vmm_map root virt phys flags) (λ r s', r = 0 ∧ ∃ own', own ⊆ own' ∧ pt_wf s' root own' ∧
      ∀ q, Forall index q → length q = 4%nat →
        leaf s' root q = if decide (q = path_of virt) then Some (page_entry phys flags)
                         else leaf s root q) exhausted s.
Proof.
  intros Hwf Hf. unfold vmm_map. apply wp_bind.
  eapply wp_mono; [|apply (next_table_spec s root own root []); [done|apply Hwf|simpl; lia|apply idx_range]].
  cbn beta. intros pdp s1 (own1 & Hsub1 & Hwf1 & Ho1 & Hl1). apply wp_bind.
  eapply wp_mono; [|eapply next_table_spec; [exact Hwf1|exact Ho1|simpl; lia|apply idx_range]].
  cbn beta. intros pd s2 (own2 & Hsub2 & Hwf2 & Ho2 & Hl2). apply wp_bind.
  eapply wp_mono; [|eapply next_table_spec; [exact Hwf2|exact Ho2|simpl; lia|apply idx_range]].
  cbn beta. intros pt s3 (own3 & Hsub3 & Hwf3 & Ho3 & Hl3).
  destruct (enter_page s3 root own3 pt _ (PT_IDX virt) (page_entry phys flags) Hwf3 Ho3)
    as [Hwf4 Hl4]; [done|apply idx_range|by apply page_entry_u64|].
  eapply wp_result; [run_simpl; reflexivity|]. cbn beta. split; [done|].
  exists own3. split_and!; [by etrans; [|etrans]|exact Hwf4|].
  intros q Hq Hlq. rewrite Hl4, page_entry_present by done. simpl. unfold path_of.
  case_decide; [done|]. by rewrite Hl3, Hl2, Hl1.
Qed.

(** The tables [vmm_unmap] and [vmm_resolve] come by are those on the path. *)
Lemma walk3 s root virt :
  walk s root [PML4_IDX virt; PDP_IDX virt; PD_IDX virt] =
  if present (tbl_get s root (PML4_IDX virt)) then
    let pdp := PTE_PHYS (tbl_get s root (PML4_IDX virt)) in
    if present (tbl_get s pdp (PDP_IDX virt)) then
      let pd := PTE_PHYS (tbl_get s pdp (PDP_IDX virt)) in
      if present (tbl_get s pd (PD_IDX virt)) then Some (PTE_PHYS (tbl_get s pd (PD_IDX virt)))
      else None
    else None
  else None.
Proof. done. Qed.

Lemma vmm_unmap_walk s root virt :
  result (vmm_unmap root virt) s =
  Some (tt, match walk s root [PML4_IDX virt; PDP_IDX virt; PD_IDX virt] with
            | Some pt => tbl_set pt (PT_IDX virt) 0 s
            | None => s
            end).
Proof.
  rewrite walk3. unfold vmm_unmap. run_simpl. cbn zeta.
  destruct (present (tbl_get s root _)); cbn [negb]; [|by run_simpl].
  destruct (present (tbl_get s _ (PDP_IDX virt))); cbn [negb]; [|by run_simpl].
  destruct (present (tbl_get s _ (PD_IDX virt))); cbn [negb]; by run_simpl.
Qed.

Lemma vmm_resolve_leaf s root virt :
  vmm_resolve s root virt =
  match leaf s root (path_of virt) with
  | Some e => Z.lor (PTE_PHYS e) (Z.land virt 0xFFF)
  | None => 0
  end.
Proof.
  unfold vmm_resolve, path_of. cbn [leaf]. cbn zeta.
  destruct (present (tbl_get s root _)); cbn [negb]; [|done].
  destruct (present (tbl_get s _ (PDP_IDX virt))); cbn [negb]; [|done].
  destruct (present (tbl_get s _ (PD_IDX virt))); cbn [negb]; [|done].
  by destruct (present (tbl_get s _ (PT_IDX virt))).
Qed.

Lemma walk_own_root s root own path t :
  pt_wf s root own → walk s root path = Some t → Forall index path → (length path ≤ 3)%nat →
  own !! t = Some path.
Proof.
  intros Hwf Hw Hp Hl. by eapply (walk_own s root own root []); [|apply Hwf|..].
Qed.

Lemma walk_none_leaf s t path i : walk s t path = None → leaf s t (path ++ [i]) = None.
Proof.
  revert t. induction path as [|j path IH]; intros t Hw; simpl in *; [done|].
  destruct (present (tbl_get s t j)); [|done]. destruct (path ++ [i]) eqn:E; [|by apply IH].
  by apply app_eq_nil in E as [_ ?].
Qed.

(** ** Room in the pool *)

(** [n] more tables fit in the pool. *)
Definition room (n : Z) (s : vmm) : Prop :=
  0 ≤ pt_pool_used s ∧ pt_pool_used s + n * PAGE_SIZE ≤ POOL_SIZE.

Lemma foldl_tbl_set_used t l s :
  pt_pool_used (foldl (λ s j, tbl_set t j 0 s) s l) = pt_pool_used s.
Proof. revert s. induction l as [|j l IH]; intros s; [done|]. simpl. by rewrite IH. Qed.

Lemma alloc_table_room s n :
  room (n + 1) s → 0 ≤ n →
  ∃ t s', result alloc_table s = Some (t, s') ∧ room n s'.
Proof.
  unfold room, PAGE_SIZE, POOL_SIZE, PAGE_SIZE. intros [H0 H1] Hn.
  unfold alloc_table. run_simpl. unfold POOL_SIZE, PAGE_SIZE.
  rewrite u64_id by (unfold is_u64; lia). destruct (_ <=? _) eqn:E; [|apply Z.leb_gt in E; lia].
  run_simpl. do 2 eexists. split; [done|]. rewrite foldl_tbl_set_used.
  cbn [pt_pool_used setter]. rewrite u64_id by (unfold is_u64; lia). simpl. lia.
Qed.

Lemma next_table_room s n tbl i flags :
  room (n + 1) s → 0 ≤ n →
  ∃ t s', result (next_table tbl i flags) s = Some (t, s') ∧ room n s'.
Proof.
  intros Hr Hn. unfold next_table. run_simpl. destruct (present _); cbn [negb].
  - run_simpl. do 2 eexists. split; [done|]. unfold room, PAGE_SIZE in *. lia.
  - run_simpl. destruct (alloc_table_room s n Hr Hn) as (t & s' & -> & Hr').
    run_simpl. by do 2 eexists.
Qed.

Lemma vmm_map_room s root virt phys flags :
  room 3 s → ∃ s', result (vmm_map root virt phys flags) s = Some (0, s').
Proof.
  intros Hr. unfold vmm_map. run_simpl.
  destruct (next_table_room s 2 root (PML4_IDX virt) flags) as (pdp & s1 & -> & Hr1); [done|lia|].
  run_simpl. destruct (next_table_room s1 1 pdp (PDP_IDX virt) flags) as (pd & s2 & -> & Hr2); [done|lia|].
  run_simpl. destruct (next_table_room s2 0 pd (PD_IDX virt) flags) as (pt & s3 & -> & Hr3); [done|lia|].
  run_simpl. by eexists.
Qed.
End tree.

(** Two addresses use the same last-level entry when bits 12 to 47 agree. *)
Definition same_page (v v' : Z) : Prop :=
  Z.land (Z.shiftr v 12) (Z.ones 36) = Z.land (Z.shiftr v' 12) (Z.ones 36).

#[export] Instance same_page_dec v v' : Decision (same_page v v').
Proof. unfold same_page. apply _. Defined.

Lemma path_of_same_page v v' : path_of v = path_of v' ↔ same_page v v'.
Proof.
  assert (∀ x k j, 0 ≤ k → 0 ≤ j → Z.testbit (Z.land (Z.shiftr x k) 0x1FF) j =
    Z.testbit x (j + k) && (j <? 9)) as Hidx.
  { intros x k j Hk Hj. change 0x1FF with (Z.ones 9).
    rewrite Z.land_spec, Z.shiftr_spec, Z.testbit_ones_nonneg by (done || lia). done. }
  assert (∀ x j, 0 ≤ j → Z.testbit (Z.land (Z.shiftr x 12) (Z.ones 36)) j =
    Z.testbit x (j + 12) && (j <? 36)) as Hpg.
  { intros x j Hj. rewrite Z.land_spec, Z.shiftr_spec, Z.testbit_ones_nonneg by (done || lia). done. }
  unfold path_of, same_page, PML4_IDX, PDP_IDX, PD_IDX, PT_IDX. split.
  - intros [= H1 H2 H3 H4]. apply Z.bits_inj'. intros j Hj. rewrite !Hpg by done.
    assert (∀ k x, 0 ≤ k → k ≤ j < k + 9 →
      Z.testbit x (j + 12) = Z.testbit (Z.land (Z.shiftr x (12 + k)) 0x1FF) (j - k)) as Hx.
    { intros k x Hk Hkj. rewrite Hidx by lia. rewrite (proj2 (Z.ltb_lt _ _)), andb_true_r by lia.
      f_equal. lia. }
    destruct (j <? 36) eqn:E; [apply Z.ltb_lt in E|by rewrite !andb_false_r]. f_equal.
    destruct (decide (j < 9)); [rewrite !(Hx 0) by lia; exact (f_equal (λ z, Z.testbit z _) H4)|].
    destruct (decide (j < 18)); [rewrite !(Hx 9) by lia; exact (f_equal (λ z, Z.testbit z _) H3)|].
    destruct (decide (j < 27)); [rewrite !(Hx 18) by lia; exact (f_equal (λ z, Z.testbit z _) H2)|].
    rewrite !(Hx 27) by lia. exact (f_equal (λ z, Z.testbit z _) H1).
  - intros Heq.
    assert (∀ k, 12 ≤ k ≤ 39 → Z.land (Z.shiftr v k) 0x1FF = Z.land (Z.shiftr v' k) 0x1FF) as Hk.
    { intros k Hk. apply Z.bits_inj'. intros j Hj. rewrite !Hidx by lia.
      destruct (j <? 9) eqn:E; [apply Z.ltb_lt in E|by rewrite !andb_false_r]. f_equal.
      apply (f_equal (λ z, Z.testbit z (j + k - 12))) in Heq. rewrite !Hpg in Heq by lia.
      replace (j + k - 12 + 12) with (j + k) in Heq by lia.
      by rewrite (proj2 (Z.ltb_lt _ _)), !andb_true_r in Heq by lia. }
    by rewrite !Hk by lia.
Qed.

(** ** Releasing an address space *)

Section release.
(** Only the page allocator changed, and it took back exactly the frames of [F]. *)
Definition freed (s s' : vmm) (F : Z → Prop) : Prop :=
  v_mem s' = v_mem s ∧ fa_inv (v_pmm s') ∧
  ∀ b, fa_taken (v_pmm s') b ↔ fa_taken (v_pmm s) b ∧ ¬ F b.

(** [m] frees exactly [F], started in any state with the memory of [s]. *)
Definition frees (s : vmm) (m : M vmm unit) (F : Z → Prop) : Prop :=
  ∀ s1, v_mem s1 = v_mem s → fa_inv (v_pmm s1) →
    ∃ s2, result m s1 = Some (tt, s2) ∧ freed s1 s2 F.

Lemma frees_ext s m F G : frees s m F → (∀ b, F b ↔ G b) → frees s m G.
Proof.
  intros Hm HFG s1 H1 H2. destruct (Hm s1 H1 H2) as (s2 & Hr & ? & ? & Hb).
  exists s2. split_and!; [done..|]. split_and!; [done..|]. intros b. by rewrite Hb, HFG.
Qed.

Lemma frees_seq s m1 m2 F G :
  frees s m1 F → frees s m2 G → frees s (m1 ;; m2) (λ b, F b ∨ G b).
Proof.
  intros H1 H2 s1 Hs Hi. destruct (H1 s1 Hs Hi) as (s2 & Hr & Hs2 & Hi2 & Hb2).
  destruct (H2 s2) as (s3 & Hr3 & Hs3 & Hi3 & Hb3); [by rewrite Hs2|done|].
  exists s3. rewrite result_bind, Hr. split; [done|]. split_and!; [by rewrite Hs3, Hs2|done|].
  intros b. rewrite Hb3, Hb2. tauto.
Qed.

Lemma frees_nothing s : frees s (mret tt) (λ _, False).
Proof. intros s1 Hs Hi. exists s1. split; [done|]. split_and!; [done..|]. tauto. Qed.

Lemma frees_for_each {A} s (l : list A) f F :
  (∀ x, x ∈ l → frees s (f x) (F x)) → frees s (for_each l f) (λ b, ∃ x, x ∈ l ∧ F x b).
Proof.
  induction l as [|x l IH]; intros Hf.
  - eapply frees_ext; [apply frees_nothing|]. intros b. split; [done|]. intros (x & Hx & _).
    by apply elem_of_nil in Hx.
  - cbn [for_each]. eapply frees_ext; [apply frees_seq; [apply Hf; by left|]|].
    + apply IH. intros y Hy. apply Hf. by right.
    + intros b. setoid_rewrite elem_of_cons. cbn beta. naive_solver.
Qed.

Lemma frees_pmm_free s a : a `mod` 4096 = 0 → frees s (lift (pmm_free a)) (λ b, b = a).
Proof.
  intros Ha s1 Hs Hi. destruct (fa_free (v_pmm s1) a Hi) as (p & Hr & Hi' & _ & _ & Hb).
  eexists. rewrite result_lift. cbn [view lens_vmm_pmm]. rewrite Hr. split; [done|].
  split_and!; [done|exact Hi'|]. intros b. cbn [put lens_vmm_pmm].
  change (fa_taken p b ↔ fa_taken (v_pmm s1) b ∧ b ≠ a). rewrite (Hb Ha b). tauto.
Qed.

Lemma tbl_get_mem s1 s t i : v_mem s1 = v_mem s → tbl_get s1 t i = tbl_get s t i.
Proof. unfold tbl_get. by intros ->. Qed.

(** An iteration of one of the three loops. *)
Lemma frees_entry s t i (m : Z → M vmm unit) F :
  (present (tbl_get s t i) = true → frees s (m (PTE_PHYS (tbl_get s t i))) F) →
  frees s (s' ← get ; if negb (present (tbl_get s' t i)) then mret tt else m (PTE_PHYS (tbl_get s' t i)))
    (λ b, present (tbl_get s t i) = true ∧ F b).
Proof.
  intros Hm s1 Hs Hi. rewrite result_bind, result_get. cbn [fst snd].
  rewrite (tbl_get_mem s1 s) by done. destruct (present _); cbn [negb].
  - destruct (Hm eq_refl s1 Hs Hi) as (s2 & Hr & Hf). exists s2. split; [done|].
    destruct Hf as (?&?&Hb). split_and!; [done..|]. intros b. rewrite Hb. tauto.
  - destruct (frees_nothing s s1 Hs Hi) as (s2 & Hr & ?&?&Hb). exists s2. split; [done|].
    split_and!; [done..|]. intros b. rewrite Hb. naive_solver.
Qed.

Lemma PTE_PHYS_aligned e : PTE_PHYS e `mod` 4096 = 0.
Proof.
  change 4096 with (2 ^ 12). rewrite <-Z.land_ones by done. unfold PTE_PHYS.
  rewrite <-Z.land_assoc. change (Z.land PTE_ADDR_MASK (Z.ones 12)) with 0. apply Z.land_0_r.
Qed.

(** The tables under table [t] at depth at most [n], [t] excluded. *)
Definition below (s : vmm) (t : Z) (n : nat) (ok : list Z → Prop) (b : Z) : Prop :=
  ∃ path, Forall index path ∧ (1 ≤ length path ≤ n)%nat ∧ ok path ∧ walk s t path = Some b.

Lemma below_step s t n ok b :
  below s t (S n) ok b ↔ ∃ i, index i ∧ present (tbl_get s t i) = true ∧
    ((ok [i] ∧ b = PTE_PHYS (tbl_get s t i)) ∨
     below s (PTE_PHYS (tbl_get s t i)) n (λ p, ok (i :: p)) b).
Proof.
  split.
  - intros ([|i path] & Hp & Hl & Hok & Hw); [simpl in Hl; lia|].
    apply Forall_cons in Hp as [Hi Hp]. exists i. simpl in Hw, Hl.
    destruct (present (tbl_get s t i)) eqn:E; [|done]. split_and!; [done..|].
    destruct path as [|j path]; [left; simpl in Hw; split; [done|congruence]|right].
    exists (j :: path). split_and!; [done|simpl; lia|simpl in *; lia|done|done].
  - intros (i & Hi & Hp & [[Hok ->]|(path & Hpi & Hl & Hok & Hw)]).
    + exists [i]. split_and!; [by constructor|simpl; lia|simpl; lia|done|simpl; by rewrite Hp].
    + exists (i :: path). split_and!; [by constructor|simpl; lia|simpl; lia|done|simpl; by rewrite Hp].
Qed.

Lemma below_0 s t ok b : ¬ below s t 0 ok b.
Proof. intros (path & _ & Hl & _). lia. Qed.

Lemma elem_of_indices n i : 0 ≤ n ≤ 512 → i ∈ seqZ 0 n ↔ index i ∧ i < n.
Proof. intros Hn. rewrite elem_of_seqZ. unfold index. lia. Qed.

Lemma free_pd_frees s pd : frees s (free_pd pd) (below s pd 1 (λ _, True)).
Proof.
  eapply frees_ext.
  - apply frees_for_each. intros i _.
    apply (frees_entry s pd i (λ t, lift (pmm_free t)) (λ b, b = PTE_PHYS (tbl_get s pd i))).
    intros _. apply frees_pmm_free, PTE_PHYS_aligned.
  - intros b. cbn beta. rewrite below_step. split; intros (i & H1 & H2).
    + apply elem_of_indices in H1; [|lia]. exists i. split_and!; [tauto..|]. left. tauto.
    + exists i. destruct H2 as (Hp & [[_ ->]|H2]); [|by apply below_0 in H2].
      split; [apply elem_of_indices; [lia|]; unfold index in *; lia|done].
Qed.

Lemma free_pdp_frees s pdp : frees s (free_pdp pdp) (below s pdp 2 (λ _, True)).
Proof.
  eapply frees_ext.
  - apply frees_for_each. intros i _.
    apply (frees_entry s pdp i (λ t, free_pd t ;; lift (pmm_free t))
             (λ b, below s (PTE_PHYS (tbl_get s pdp i)) 1 (λ _, True) b ∨ b = PTE_PHYS (tbl_get s pdp i))).
    intros _. apply frees_seq; [apply free_pd_frees|apply frees_pmm_free, PTE_PHYS_aligned].
  - intros b. cbn beta. rewrite below_step. split; intros (i & H1 & H2).
    + apply elem_of_indices in H1; [|lia]. exists i. split_and!; [tauto..|]. tauto.
    + exists i. split; [apply elem_of_indices; [lia|]; unfold index in *; lia|tauto].
Qed.

(** The tables of the user half of an address space, its root included. *)
Definition user_table (s : vmm) (root b : Z) : Prop :=
  b = root ∨ below s root 3 (λ path, ∀ i, head path = Some i → i < 256) b.

Lemma vmm_free_pagedir_frees s pml4 :
  pml4 `mod` 4096 = 0 → frees s (vmm_free_pagedir pml4) (user_table s pml4).
Proof.
  intros Hal. eapply frees_ext.
  - apply frees_seq; [|by apply frees_pmm_free]. apply frees_for_each. intros i _.
    apply (frees_entry s pml4 i (λ t, free_pdp t ;; lift (pmm_free t))
             (λ b, below s (PTE_PHYS (tbl_get s pml4 i)) 2 (λ _, True) b ∨ b = PTE_PHYS (tbl_get s pml4 i))).
    intros _. apply frees_seq; [apply free_pdp_frees|apply frees_pmm_free, PTE_PHYS_aligned].
  - intros b. cbn beta. unfold user_table. rewrite below_step.
    assert (∀ t i, i < 256 → below s t 2 (λ p, ∀ j, head (i :: p) = Some j → j < 256) b ↔
                   below s t 2 (λ _, True) b) as Hb.
    { intros t i Hi. split; intros (p & ? & ? & _ & ?); exists p; split_and!; try done; try lia.
      simpl. intros j. congruence. }
    split.
    + intros [(i & H1 & H2)| ->]; [right|by left]. apply elem_of_indices in H1; [|lia].
      exists i. split_and!; [tauto..|]. rewrite Hb by tauto.
      destruct H2 as [_ [H2|H2]]; [by right|left]. split; [|done]. simpl. intros j [= <-]. tauto.
    + intros [->|(i & Hi & Hp & H2)]; [by right|left]. exists i.
      assert (i < 256) as Hlt.
      { destruct H2 as [[H2 _]|(p & _ & _ & H2 & _)]; by apply H2. }
      rewrite Hb in H2 by done. split; [apply elem_of_indices; [lia|]; unfold index in *; lia|tauto].
Qed.
End release.

(** ** The state of the page allocator only grows *)

Section grow.
Context `{Link}.

Definition grows (s s' : vmm) : Prop :=
  fa_inv (v_pmm s') ∧ (∀ a, fa_frame (v_pmm s') a ↔ fa_frame (v_pmm s) a) ∧
  ∀ a, fa_taken (v_pmm s) a → fa_taken (v_pmm s') a.

Definition out_of_frames (s : vmm) : Prop :=
  ∀ a, fa_frame (v_pmm s) a → fa_taken (v_pmm s) a.

Lemma grows_same s s' : fa_inv (v_pmm s) → v_pmm s' = v_pmm s → grows s s'.
Proof. intros Hi He. unfold grows. by rewrite He. Qed.

Lemma grows_trans s1 s2 s3 : grows s1 s2 → grows s2 s3 → grows s1 s3.
Proof.
  intros (_&H1&H2) (Hi&H3&H4). split_and!; [done| |auto]. intros a. by rewrite H3.
Qed.

Lemma exhausted_out_of_frames s : exhausted s → out_of_frames s.
Proof. by intros [_ ?]. Qed.

(** Taking a frame from the allocator. *)
Lemma lift_pmm_alloc s :
  fa_inv (v_pmm s) →
  ∃ a p, result (lift pmm_alloc) s = Some (a, s <| v_pmm := p |>) ∧ grows s (s <| v_pmm := p |>) ∧
    ((a = 0 ∧ out_of_frames (s <| v_pmm := p |>)) ∨
     (a ≠ 0 ∧ fa_frame (v_pmm s) a ∧ ¬ fa_taken (v_pmm s) a ∧ fa_taken p a)).
Proof.
  intros Hi. destruct (fa_alloc (v_pmm s) Hi) as (a & p & Hr & Hi' & Hf & Hc).
  exists a, p. rewrite result_lift. cbn [view lens_vmm_pmm]. rewrite Hr. split; [done|].
  destruct Hc as [(-> & -> & Hall)|(Hfa & Hnt & Htk)].
  - split; [by split_and!|]. left. split; [done|exact Hall].
  - split.
    + split_and!; [done|exact Hf|]. intros b Hb. apply Htk. by right.
    + right. pose proof (fa_frame_ok _ _ Hi Hfa). split_and!; [lia|done|done|apply Htk; by left].
Qed.

Lemma foldl_tbl_set_pmm t l s :
  v_pmm (foldl (λ s j, tbl_set t j 0 s) s l) = v_pmm s.
Proof. revert s. induction l as [|j l IH]; intros s; [done|]. simpl. by rewrite IH. Qed.

Lemma alloc_table_grows s : fa_inv (v_pmm s) → wp alloc_table (λ _ s', grows s s') out_of_frames s.
Proof.
  intros Hi. unfold alloc_table. apply wp_bind, (wp_result _ _ _ _ s s); [done|].
  destruct (_ <=? _).
  - eapply wp_result; [run_simpl; reflexivity|]. apply grows_same; [done|]. by rewrite foldl_tbl_set_pmm.
  - apply wp_bind. destruct (lift_pmm_alloc s Hi) as (a & p & Hr & Hg & Hc).
    eapply wp_result; [exact Hr|]. destruct Hc as [[-> Ho]|[Ha _]]; [exact Ho|].
    assert ((a =? NULL) = false) as -> by (by apply Z.eqb_neq). by apply wp_ret.
Qed.

Lemma next_table_grows s tbl i flags :
  fa_inv (v_pmm s) → wp (next_table tbl i flags) (λ _ s', grows s s') out_of_frames s.
Proof.
  intros Hi. unfold next_table. apply wp_bind. eapply wp_result; [done|]. cbn beta. apply wp_bind.
  destruct (negb _).
  - apply wp_bind. eapply wp_mono; [|by apply alloc_table_grows]. intros t s1 Hg.
    eapply wp_result; [run_simpl; reflexivity|]. cbn beta.
    eapply wp_result; [run_simpl; reflexivity|]. exact Hg.
  - eapply wp_result; [run_simpl; reflexivity|]. cbn beta.
    eapply wp_result; [run_simpl; reflexivity|]. by apply grows_same.
Qed.

Lemma wp_grows_bind {A B} (m : M vmm A) (f : A → M vmm B) E s :
  wp m (λ _ s', grows s s') E s →
  (∀ a s1, fa_inv (v_pmm s1) → wp (f a) (λ _ s', grows s1 s') E s1) →
  wp (m ≫= f) (λ _ s', grows s s') E s.
Proof.
  intros Hm Hf. apply wp_bind. eapply wp_mono; [|exact Hm]. intros a s1 Hg.
  eapply wp_mono; [|apply Hf, Hg]. intros b s2. by apply grows_trans.
Qed.

Lemma vmm_map_grows s root virt phys flags :
  fa_inv (v_pmm s) → wp (vmm_map root virt phys flags) (λ _ s', grows s s') out_of_frames s.
Proof.
  intros Hi. unfold vmm_map.
  do 3 (apply wp_grows_bind; [by apply next_table_grows|]; clear s Hi; intros ? s Hi).
  eapply wp_result; [run_simpl; reflexivity|]. by apply grows_same.
Qed.

(** Taking a frame keeps the tree. *)
Lemma take_frame_wf s root own p :
  pt_wf s root own → grows s (s <| v_pmm := p |>) →
  pt_wf (s <| v_pmm := p |>) root own ∧ same_leaves root s (s <| v_pmm := p |>).
Proof.
  intros Hwf (Hi & Hf & Ht). destruct (wf_pool _ _ _ Hwf) as (_ & _ & Hu & Hm).
  destruct (pt_wf_transfer s (s <| v_pmm := p |>) root own Hwf) as [Hwf' Hl]; try done.
  - intros t [?|[H1 H2]]; [by left|right]. split; [by apply Hf|]. intros H3. by apply H2, Ht.
  - intros a. apply Hf.
  - intros a i H1 H2 H3. apply (wf_clear _ _ _ Hwf); [by apply Hf| |done]. intros H4. by apply H2, Ht.
  - split; [done|]. intros q Hq Hlq. apply Hl; [done|lia].
Qed.

(** One page mapped, in the vocabulary of the loops below. *)
Lemma vmm_map_page_wp s root own va pa flags :
  pt_wf s root own → is_u64 flags →
  wp (vmm_map_page root va pa flags) (λ _ s', grows s s' ∧ ∃ own', pt_wf s' root own' ∧
      ∀ q, Forall index q → length q = 4%nat →
        leaf s' root q = if decide (q = path_of va) then Some (page_entry pa flags)
                         else leaf s root q) out_of_frames s.
Proof.
  intros Hwf Hf. unfold vmm_map_page. apply wp_bind.
  eapply wp_mono; [|eapply wp_conj; [by apply vmm_map_grows, Hwf|by apply vmm_map_wp]].
  intros r s' [Hg (_ & own' & _ & Hwf' & Hl)]. apply wp_ret. split; [done|]. by exists own'.
Qed.

(** The leaves [f] sets, every other leaf as before. *)
Definition maps (root : Z) (s s' : vmm) (vas : list Z) (es : list Z) : Prop :=
  Forall2 (λ va e, leaf s' root (path_of va) = Some e) vas es ∧
  ∀ q, Forall index q → length q = 4%nat → q ∉ path_of <$> vas → leaf s' root q = leaf s root q.

Lemma maps_cons root s s1 s2 va e vas es :
  (∀ q, Forall index q → length q = 4%nat →
     leaf s1 root q = if decide (q = path_of va) then Some e else leaf s root q) →
  maps root s1 s2 vas es → path_of va ∉ path_of <$> vas → maps root s s2 (va :: vas) (e :: es).
Proof.
  intros H1 [H2 H3] Hni. split.
  - constructor; [|done]. rewrite H3, H1 by (apply path_of_index || done). by rewrite decide_True.
  - intros q Hq Hl. rewrite fmap_cons, not_elem_of_cons. intros [Hne Hnq].
    rewrite H3, H1 by done. by rewrite decide_False.
Qed.

Lemma maps_nil root s s' : same_leaves root s s' → maps root s s' [] [].
Proof. intros H0. split; [constructor|]. intros q Hq Hl _. by apply H0. Qed.

Lemma identity_loop root flags l s own :
  pt_wf s root own → is_u64 flags → NoDup (path_of <$> l) →
  wp (for_each l (λ va, vmm_map_page root va va flags)) (λ _ s', grows s s' ∧
      (∃ own', pt_wf s' root own') ∧ maps root s s' l ((λ va, page_entry va flags) <$> l)) out_of_frames s.
Proof.
  intros Hwf Hf. revert s own Hwf. induction l as [|va l IH]; intros s own Hwf Hnd.
  { apply wp_ret. split; [apply grows_same; [apply Hwf|done]|]. split; [by exists own|].
    apply maps_nil. by intros q. }
  rewrite fmap_cons in Hnd. apply NoDup_cons in Hnd as [Hni Hnd]. cbn [for_each].
  apply wp_bind. eapply wp_mono; [|by apply (vmm_map_page_wp s root own va va)].
  intros [] s1 (Hg & own1 & Hwf1 & Hl1). eapply wp_mono; [|by apply (IH s1 own1)].
  intros [] s2 (Hg2 & Hex & Hm). split; [by eapply grows_trans|]. split; [done|].
  by eapply maps_cons.
Qed.

(** The frames behind the heap window are distinct and were free before. *)
Definition frames_taken (s s' : vmm) (pas : list Z) : Prop :=
  NoDup pas ∧ ∀ pa, pa ∈ pas →
    fa_frame (v_pmm s) pa ∧ ¬ fa_taken (v_pmm s) pa ∧ fa_taken (v_pmm s') pa.

Lemma backed_loop root flags msg l s own :
  pt_wf s root own → is_u64 flags → NoDup (path_of <$> l) →
  wp (for_each l (λ va,
        pa ← lift pmm_alloc_page ;
        (if pa =? NULL then panic msg else mret tt) ;;
        vmm_map_page root va pa flags)) (λ _ s', grows s s' ∧
      (∃ own', pt_wf s' root own') ∧ ∃ pas, frames_taken s s' pas ∧
      maps root s s' l ((λ pa, page_entry pa flags) <$> pas)) out_of_frames s.
Proof.
  intros Hwf Hf. revert s own Hwf. induction l as [|va l IH]; intros s own Hwf Hnd.
  { apply wp_ret. split; [apply grows_same; [apply Hwf|done]|]. split; [by exists own|].
    exists []. split; [split; [constructor|]|apply maps_nil; by intros q].
    intros pa Hpa. by apply elem_of_nil in Hpa. }
  rewrite fmap_cons in Hnd. apply NoDup_cons in Hnd as [Hni Hnd]. cbn [for_each].
  apply wp_bind, wp_bind. unfold pmm_alloc_page at 1.
  destruct (lift_pmm_alloc s) as (pa & p & Hr & Hg0 & Hc); [apply Hwf|].
  eapply wp_result; [exact Hr|]. cbn beta. apply wp_bind.
  destruct Hc as [[-> Ho]|(Hnz & Hpf & Hpn & Hpt)]; [exact Ho|].
  assert ((pa =? NULL) = false) as -> by (by apply Z.eqb_neq). apply wp_ret.
  destruct (take_frame_wf s root own p Hwf Hg0) as [Hwf0 Hl0].
  eapply wp_mono; [|by apply (vmm_map_page_wp _ root own va pa)].
  intros [] s1 (Hg & own1 & Hwf1 & Hl1). eapply wp_mono; [|by apply (IH s1 own1)].
  intros [] s2 (Hg2 & Hex & pas & [Hndp Hpas] & Hm).
  pose proof (grows_trans _ _ _ Hg0 Hg) as Hg1.
  split; [by eapply grows_trans|]. split; [done|]. exists (pa :: pas). split.
  - split.
    + constructor; [|done]. intros Hin%Hpas. destruct Hin as (_ & Hn & _). by apply Hn, Hg.
    + intros pa' [->|Hin]%elem_of_cons; [split_and!; [done..|]; by apply Hg2, Hg|].
      apply Hpas in Hin as (H1 & H2 & H3). split_and!; [by apply Hg1| |done].
      intros H4. by apply H2, Hg1.
  - rewrite fmap_cons. eapply (maps_cons _ _ s1); [|done..].
    intros q Hq Hlq. rewrite Hl1 by done. case_decide; [done|]. by apply Hl0.
Qed.
End grow.

(** ** Addresses and their pages *)

Definition page_of (v : Z) : Z := v - v `mod` 4096.

Lemma page_field v : 0 ≤ v < 2 ^ 48 → Z.land (Z.shiftr v 12) (Z.ones 36) = v `div` 4096.
Proof.
  intros Hv. rewrite Z.land_ones, Z.shiftr_div_pow2 by lia. apply Z.mod_small.
  change (2 ^ 12) with 4096. split; [apply Z.div_pos; lia|]. apply Z.div_lt_upper_bound; lia.
Qed.

Lemma path_of_eq v v' :
  0 ≤ v < 2 ^ 48 → 0 ≤ v' < 2 ^ 48 → path_of v = path_of v' ↔ v `div` 4096 = v' `div` 4096.
Proof. intros H1 H2. rewrite path_of_same_page. unfold same_page. by rewrite !page_field. Qed.

Lemma low_bits v : Z.land v 0xFFF = v `mod` 4096.
Proof. change 0xFFF with (Z.ones 12). by rewrite Z.land_ones. Qed.

(** An address is the page it is in plus the offset. *)
Lemma lor_offset a v : a `mod` 4096 = 0 → Z.lor a (Z.land v 0xFFF) = a + v `mod` 4096.
Proof.
  intros Ha. rewrite <-low_bits, <-Z.add_lor_land.
  assert (Z.land a (Z.land v 0xFFF) = 0) as ->; [|lia].
  rewrite (Z.land_comm v), Z.land_assoc, low_bits, Ha. apply Z.land_0_l.
Qed.

Lemma elem_of_page_range lo hi va :
  va ∈ page_range lo hi ↔ ∃ i, va = lo + i * 4096 ∧ 0 ≤ i < (hi - lo + 4095) `div` 4096.
Proof.
  unfold page_range, PAGE_SIZE. replace (hi - lo + 4096 - 1) with (hi - lo + 4095) by lia.
  rewrite list_elem_of_fmap. split; intros (i & H1 & H2).
  - apply elem_of_seqZ in H2. exists i. split; [done|lia].
  - exists i. split; [done|]. apply elem_of_seqZ. lia.
Qed.

Lemma page_range_bounds lo hi va :
  lo `mod` 4096 = 0 → va ∈ page_range lo hi → va `mod` 4096 = 0 ∧ lo ≤ va < hi.
Proof.
  intros Hlo (i & -> & Hi)%elem_of_page_range. split; [by rewrite Z.mod_add|].
  pose proof (Z.div_mod (hi - lo + 4095) 4096). pose proof (Z.mod_pos_bound (hi - lo + 4095) 4096). lia.
Qed.

Lemma page_of_range lo hi v :
  lo `mod` 4096 = 0 → lo ≤ v < hi → page_of v ∈ page_range lo hi.
Proof.
  intros Hlo Hv. apply elem_of_page_range. unfold page_of.
  exists ((v - lo) `div` 4096).
  pose proof (Z.div_mod v 4096). pose proof (Z.div_mod lo 4096). pose proof (Z.div_mod (v - lo) 4096).
  pose proof (Z.div_mod (hi - lo + 4095) 4096). pose proof (Z.mod_pos_bound (hi - lo + 4095) 4096).
  pose proof (Z.mod_pos_bound v 4096). pose proof (Z.mod_pos_bound (v - lo) 4096). lia.
Qed.

Lemma page_range_nodup lo hi :
  0 ≤ lo → lo `mod` 4096 = 0 → hi ≤ 2 ^ 48 → NoDup (path_of <$> page_range lo hi).
Proof.
  intros H0 Hlo Hhi. apply NoDup_fmap_2_strong.
  - intros a b Ha Hb Heq. apply page_range_bounds in Ha as [Ha1 Ha2], Hb as [Hb1 Hb2]; [|done..].
    apply path_of_eq in Heq; [|lia..]. 
    pose proof (Z.div_mod a 4096). pose proof (Z.div_mod b 4096). lia.
  - apply NoDup_fmap_2; [intros a b; unfold PAGE_SIZE; lia|]. apply NoDup_seqZ.
Qed.

Lemma page_of_spec v : 0 ≤ v < 2 ^ 48 → path_of v = path_of (page_of v) ∧
  page_of v `mod` 4096 = 0 ∧ page_of v + v `mod` 4096 = v ∧ 0 ≤ page_of v ≤ v.
Proof.
  intros Hv. unfold page_of. pose proof (Z.div_mod v 4096). pose proof (Z.mod_pos_bound v 4096).
  replace (v - v `mod` 4096) with ((v `div` 4096) * 4096) by lia. 
  rewrite path_of_eq by lia. rewrite Z.div_mul, Z.mod_mul by done. lia.
Qed.

(** ** Properties *)

Section properties.
Context `{Link}.

(** C9: with room for three tables in the pool, [vmm_map] returns 0 and changes
    the translation of exactly the addresses in the page of [virt]: they now
    translate to the frame [phys]; every other address translates as before,
    and the tables still form a tree without sharing. *)
Theorem vmm_map_refines s root own virt phys flags :
  pt_wf s root own → room 3 s → is_u64 flags → Z.land flags PTE_ADDR_MASK = 0 →
  ∃ s' own', result (vmm_map root virt phys flags) s = Some (0, s') ∧
    own ⊆ own' ∧ pt_wf s' root own' ∧
    ∀ v, vmm_resolve s' root v =
      if decide (same_page v virt) then Z.lor (PTE_PHYS phys) (Z.land v 0xFFF)
      else vmm_resolve s root v.
Proof.
  intros Hwf Hr Hf Hm. destruct (vmm_map_room s root virt phys flags Hr) as [s' Hres].
  pose proof (vmm_map_wp s root own virt phys flags Hwf Hf) as Hwp.
  unfold wp, result in *. destruct (vmm_map _ _ _ _ s); simplify_eq.
  destruct Hwp as (_ & own' & Hsub & Hwf' & Hl). exists s', own'. split_and!; [done..|].
  intros v. rewrite !vmm_resolve_leaf, Hl by (apply path_of_index || done).
  destruct (decide (same_page v virt)) as [E|E]; apply path_of_same_page in E || rewrite <-path_of_same_page in E.
  - rewrite decide_True by done. by rewrite page_entry_phys.
  - by rewrite decide_False.
Qed.

(** Whatever the state of the pool and of the page allocator, [vmm_map]
    either maps the page with exactly the requested bits and changes no other
    entry, or panics because the pool and the page allocator are both
    exhausted. *)
Theorem vmm_map_or_panic s root own virt phys flags :
  pt_wf s root own → is_u64 flags →
  wp (vmm_map root virt phys flags) (λ r s', r = 0 ∧ ∃ own', own ⊆ own' ∧ pt_wf s' root own' ∧
      leaf s' root (path_of virt) = Some (page_entry phys flags) ∧
      ∀ v, ¬ same_page v virt → leaf s' root (path_of v) = leaf s root (path_of v)) exhausted s.
Proof.
  intros Hwf Hf. eapply wp_mono; [|by apply vmm_map_wp].
  intros r s' (-> & own' & Hsub & Hwf' & Hl). split; [done|]. exists own'. split_and!; [done..| |].
  - rewrite Hl by (apply path_of_index || done). by rewrite decide_True.
  - intros v Hv. rewrite <-path_of_same_page in Hv.
    rewrite Hl by (apply path_of_index || done). by rewrite decide_False.
Qed.

(** [vmm_unmap] always returns; afterwards the page of [virt] does not
    translate (0), and every other address translates as before. *)
Theorem vmm_unmap_refines s root own virt :
  pt_wf s root own →
  ∃ s', result (vmm_unmap root virt) s = Some (tt, s') ∧ pt_wf s' root own ∧
    ∀ v, vmm_resolve s' root v = if decide (same_page v virt) then 0 else vmm_resolve s root v.
Proof.
  intros Hwf. rewrite vmm_unmap_walk. eexists. split; [done|].
  set (path := [PML4_IDX virt; PDP_IDX virt; PD_IDX virt]).
  assert (path ++ [PT_IDX virt] = path_of virt) as Hpath by done.
  assert (Forall index path) as Hpi by (repeat constructor; apply idx_range).
  destruct (walk s root path) as [pt|] eqn:Hw.
  - apply (walk_own_root _ _ own) in Hw; [|done..|simpl; lia].
    destruct (enter_page s root own pt path (PT_IDX virt) 0 Hwf Hw) as [Hwf' Hl];
      [done|apply idx_range|done|].
    split; [done|]. intros v. rewrite !vmm_resolve_leaf, Hl by (apply path_of_index || done).
    rewrite Hpath. destruct (decide (same_page v virt)) as [E|E];
      apply path_of_same_page in E || rewrite <-path_of_same_page in E.
    + by rewrite decide_True.
    + by rewrite decide_False.
  - split; [done|]. intros v. destruct (decide (same_page v virt)) as [E|]; [|done].
    apply path_of_same_page in E. rewrite vmm_resolve_leaf, E, <-Hpath.
    by rewrite (walk_none_leaf _ _ _ _ Hw).
Qed.

(** C34: [vmm_free_pagedir] always returns and gives back to the page allocator
    exactly the tables of the user half of the address space, with its root;
    the frames that were mapped stay taken. *)
Theorem vmm_free_pagedir_exact s pml4 :
  fa_inv (v_pmm s) → pml4 `mod` 4096 = 0 →
  ∃ s', result (vmm_free_pagedir pml4) s = Some (tt, s') ∧ v_mem s' = v_mem s ∧ fa_inv (v_pmm s') ∧
    ∀ b, fa_taken (v_pmm s') b ↔ fa_taken (v_pmm s) b ∧ ¬ user_table s pml4 b.
Proof.
  intros Hi Hal. destruct (vmm_free_pagedir_frees s pml4 Hal s) as (s' & Hr & Hf); [done..|].
  by exists s'.
Qed.

Lemma foldl_tbl_set_wf t l s :
  mem_wf (v_mem s) →
  let s' := foldl (λ s j, tbl_set t j 0 s) s l in mem_wf (v_mem s') ∧ kernel_pml4 s' = kernel_pml4 s.
Proof.
  revert s. induction l as [|j l IH]; intros s Hs; [done|]. simpl.
  destruct (IH (tbl_set t j 0 s)) as [H1 H2]; [by apply mem_wf_st64|]. by rewrite H2.
Qed.

Lemma alloc_table_mem_wf s t s' :
  mem_wf (v_mem s) → result alloc_table s = Some (t, s') → mem_wf (v_mem s') ∧ kernel_pml4 s' = kernel_pml4 s.
Proof.
  intros Hs. unfold alloc_table. run_simpl. destruct (_ <=? _).
  - run_simpl. intros Heq. apply (inj Some), pair_equal_spec in Heq as [_ <-].
    generalize (seqZ 0 (PAGE_SIZE `div` 8)). intros l.
    set (s0 := s <| pt_pool_used := u64 (pt_pool_used s + PAGE_SIZE) |>).
    exact (foldl_tbl_set_wf (pt_pool + pt_pool_used s) l s0 Hs).
  - run_simpl. destruct (result pmm_alloc _) as [[a p]|]; [|done].
    cbn [fst snd]. destruct (a =? NULL); [done|]. by intros [= <- <-].
Qed.

(** The copy of the kernel half. *)
Lemma copy_loop_spec s t k n :
  mem_wf (v_mem s) → t `mod` 4096 = 0 → k `mod` 4096 = 0 → t ≠ k → (n ≤ 256)%nat →
  let s' := foldl (λ s i, tbl_set t i (tbl_get s k i) s) s (seqZ 256 (Z.of_nat n)) in
  mem_wf (v_mem s') ∧ s' <| v_mem := v_mem s |> = s ∧
  ∀ t' i, t' `mod` 4096 = 0 → index i →
    tbl_get s' t' i = if decide (t' = t ∧ 256 ≤ i < 256 + Z.of_nat n) then tbl_get s k i else tbl_get s t' i.
Proof.
  intros Hs Ht Hk Hne. induction n as [|n IH]; intros Hn; cbn zeta.
  { simpl. split_and!; [done|by destruct s|]. intros t' i _ _. rewrite decide_False by lia. done. }
  rewrite seqZ_S, foldl_app. destruct IH as (Hw & Hrest & Hget); [lia|].
  revert Hw Hrest Hget.
  generalize (foldl (λ s i, tbl_set t i (tbl_get s k i) s) s (seqZ 256 (Z.of_nat n))).
  intros s1 Hw Hrest Hget. cbn [foldl].
  split_and!; [by apply mem_wf_st64|exact Hrest|]. intros t' i Ht' Hi.
  rewrite tbl_get_set; [|done|done|unfold index; lia|done|by apply ld64_range].
  destruct (decide (t' = t ∧ i = 256 + Z.of_nat n)) as [[-> ->]|Hd].
  - rewrite decide_True by lia. rewrite Hget by (done || unfold index; lia). rewrite decide_False by (intros [? _]; congruence). done.
  - rewrite Hget by done. apply decide_ext. lia.
Qed.

(** With room for a table, [vmm_new_pagedir] returns a new table, of a page
    that belonged to no address space: it shares the translations of the
    kernel half of [kernel_pml4] and translates nothing in the user half, and
    the kernel's own translations are unchanged. *)
Theorem vmm_new_pagedir_spec s own :
  pt_wf s (kernel_pml4 s) own → mem_wf (v_mem s) → room 1 s → kernel_pml4 s ≠ NULL →
  ∃ t s', result vmm_new_pagedir s = Some (t, s') ∧ fresh_table s t ∧ pt_wf s' (kernel_pml4 s) own ∧
    (∀ v, vmm_resolve s' t v = if PML4_IDX v <? 256 then 0 else vmm_resolve s (kernel_pml4 s) v) ∧
    (∀ v, vmm_resolve s' (kernel_pml4 s) v = vmm_resolve s (kernel_pml4 s) v).
Proof.
  intros Hwf Hm Hr Hk. set (k := kernel_pml4 s) in *.
  destruct (alloc_table_room s 0 Hr) as (t & s1 & Hres & _); [done|].
  pose proof (alloc_table_spec s k own Hwf) as Hwp.
  destruct (alloc_table_mem_wf _ _ _ Hm Hres) as [Hm1 Hk1].
  assert (table_given s s1 t ∧ pt_wf s1 k own ∧
    (∀ path, Forall index path → (length path ≤ 4)%nat → leaf s1 k path = leaf s k path)) as
    ([Hta Htf Htn Htc] & Hwf1 & Hl1).
  { unfold wp, result in *. destruct (alloc_table s); by simplify_eq. }
  assert (own !! t = None) as Hnone.
  { destruct (own !! t) eqn:E; [|done]. by destruct (wf_not_fresh _ _ _ Hwf _ _ E). }
  assert (t ≠ k) as Hne. { intros ->. by rewrite (wf_root _ _ _ Hwf) in Hnone. }
  destruct (copy_loop_spec s1 t k 256 Hm1) as (Hm2 & Hrest & Hget);
    [apply Hta|by eapply (wf_addr _ _ _ Hwf), (wf_root _ _ _ Hwf)|done|done|].
  unfold vmm_new_pagedir. run_simpl. rewrite Hres. cbn [fst snd]. run_simpl. rewrite Hk1. fold k.
  assert ((k =? NULL) = false) as -> by (by apply Z.eqb_neq). cbn [negb]. run_simpl.
  change (seqZ 256 256) with (seqZ 256 (Z.of_nat 256)). 
  set (s2 := foldl _ _ _) in *. clearbody s2.
  pose proof (f_equal v_pmm Hrest) as Hp2. pose proof (f_equal pt_pool_used Hrest) as Hu2.
  cbn in Hp2, Hu2.
  destruct (pt_wf_transfer s1 s2 k own Hwf1) as [Hwf2 Hl2].
  { intros t' π i Ho Hi. rewrite Hget; [|by eapply (wf_addr _ _ _ Hwf)|done].
    rewrite decide_False; [done|]. intros [-> _]. congruence. }
  { intros t'. unfold fresh_table. by rewrite Hp2, Hu2. }
  { rewrite Hu2. apply Hwf1. } { rewrite Hu2. apply Hwf1. } { rewrite Hp2. apply Hwf1. } { by rewrite Hp2. }
  { rewrite Hp2. intros a i Ha Hna Hi. 
    rewrite Hget; [|by apply (wf_frame _ _ _ Hwf1)|done]. rewrite decide_False; [by eapply wf_clear|].
    intros [-> _]. apply Htn. by right. }
  assert (Hkv : ∀ v, vmm_resolve s2 k v = vmm_resolve s k v).
  { intros v. rewrite !vmm_resolve_leaf, Hl2, Hl1; (done || apply path_of_index). }
  exists t, s2. split_and!; [done..| |done]. intros v. rewrite <-Hkv, !vmm_resolve_leaf.
  unfold path_of. cbn [leaf]. pose proof (idx_range (Z.shiftr v 39)) as Hi.
  change (index (PML4_IDX v)) in Hi.
  rewrite (Hget t) by (done || apply Hta). rewrite (Hget k); [|by eapply (wf_addr _ _ _ Hwf), (wf_root _ _ _ Hwf)|done].
  rewrite (decide_False (P := k = t ∧ _)) by (intros [? _]; congruence).
  destruct (PML4_IDX v <? 256) eqn:E; [apply Z.ltb_lt in E|apply Z.ltb_ge in E].
  - rewrite decide_False by lia. by rewrite Htc.
  - unfold index in Hi. rewrite decide_True by lia. done.
Qed.

Lemma maps_resolve root s s' vas es v i va e :
  maps root s s' vas es → vas !! i = Some va → es !! i = Some e → path_of v = path_of va →
  vmm_resolve s' root v = Z.lor (PTE_PHYS e) (Z.land v 0xFFF).
Proof.
  intros [Hm _] Hva He Hp. rewrite vmm_resolve_leaf, Hp.
  by rewrite (Forall2_lookup_lr _ _ _ _ _ _ Hm Hva He).
Qed.

Lemma maps_resolve_other root s s' vas es v :
  maps root s s' vas es → path_of v ∉ path_of <$> vas → vmm_resolve s' root v = vmm_resolve s root v.
Proof.
  intros [_ Hm] Hv. rewrite !vmm_resolve_leaf, Hm by (apply path_of_index || done). done.
Qed.

(** A page outside a range has another path. *)
Lemma path_not_in_range lo hi v :
  0 ≤ v < 2 ^ 48 → 0 ≤ lo → lo `mod` 4096 = 0 → hi ≤ 2 ^ 48 → hi `mod` 4096 = 0 →
  ¬ (lo ≤ v < hi) → path_of v ∉ path_of <$> page_range lo hi.
Proof.
  intros Hv H0 Hlo Hhi Hh Hn. rewrite list_elem_of_fmap. intros (va & Heq & Hva).
  apply page_range_bounds in Hva as [Hm Hb]; [|done]. apply path_of_eq in Heq; [|lia..].
  pose proof (Z.div_mod v 4096). pose proof (Z.div_mod va 4096). pose proof (Z.div_mod hi 4096).
  pose proof (Z.div_mod lo 4096). pose proof (Z.mod_pos_bound v 4096). lia.
Qed.

Definition in_heap (v : Z) : Prop := KHEAP_START ≤ v < KHEAP_START + KHEAP_SIZE.

#[export] Instance in_heap_dec v : Decision (in_heap v).
Proof. unfold in_heap. apply _. Defined.

(** The end of the memory [vmm_init] maps. *)
Definition managed_top (p : pmm) : Z := pmm_base p + pmm_total_pages p * PAGE_SIZE.

Lemma managed_bounds p : fa_inv p →
  0 < pmm_base p ∧ pmm_base p `mod` 4096 = 0 ∧ pmm_base p ≤ managed_top p ∧ managed_top p `mod` 4096 = 0.
Proof.
  intros [Hwf Hb]. pose proof (wf_base_aligned p Hwf) as Hal. pose proof (wf_total p Hwf).
  unfold managed_top, PAGE_SIZE in *. rewrite Z.mod_add by done. split_and!; [done|done|lia|done].
Qed.

Lemma identity_resolve root s s' lo hi flags v :
  maps root s s' (page_range lo hi) ((λ va, page_entry va flags) <$> page_range lo hi) →
  Z.land flags PTE_ADDR_MASK = 0 → 0 ≤ lo → lo `mod` 4096 = 0 → hi ≤ 2 ^ 48 → lo ≤ v < hi →
  vmm_resolve s' root v = v.
Proof.
  intros Hm Hf H0 Hlo Hhi Hv. destruct (page_of_spec v) as (Hpath & Hpm & Hpv & Hp0); [lia|].
  assert (page_of v ∈ page_range lo hi) as [i Hi]%list_elem_of_lookup by (apply page_of_range; lia).
  rewrite (maps_resolve _ _ _ _ _ v i _ (page_entry (page_of v) flags) Hm Hi);
    [|by rewrite list_lookup_fmap, Hi|done].
  rewrite page_entry_phys, PTE_PHYS_table, lor_offset; [lia|done| |done].
  split_and!; [done|lia|]. lia.
Qed.

Lemma heap_window_lookup v : in_heap v →
  page_range KHEAP_START (KHEAP_START + KHEAP_SIZE) !! Z.to_nat ((v - KHEAP_START) `div` 4096)
    = Some (page_of v) ∧ (Z.to_nat ((v - KHEAP_START) `div` 4096) < 1024)%nat.
Proof.
  unfold in_heap. intros Hv. set (k := (v - KHEAP_START) `div` 4096).
  assert (Hk : 0 ≤ k < 1024 ∧ page_of v = KHEAP_START + k * 4096).
  { unfold k, page_of. unfold KHEAP_START, KHEAP_SIZE in *.
    pose proof (Z.div_mod v 4096). pose proof (Z.div_mod (v - 0x400000) 4096).
    pose proof (Z.mod_pos_bound v 4096). pose proof (Z.mod_pos_bound (v - 0x400000) 4096). lia. }
  split; [|lia]. unfold page_range. rewrite list_lookup_fmap.
  assert (seqZ 0 ((KHEAP_START + KHEAP_SIZE - KHEAP_START + PAGE_SIZE - 1) `div` PAGE_SIZE) !! Z.to_nat k = Some k) as ->.
  { apply lookup_seqZ. split; [lia|].
    change ((KHEAP_START + KHEAP_SIZE - KHEAP_START + PAGE_SIZE - 1) `div` PAGE_SIZE) with 1024. lia. }
  simpl. f_equal. unfold PAGE_SIZE. lia.
Qed.

Lemma backed_resolve root s s' own flags pas v :
  pt_wf s root own → frames_taken s s' pas → Z.land flags PTE_ADDR_MASK = 0 →
  maps root s s' (page_range KHEAP_START (KHEAP_START + KHEAP_SIZE)) ((λ pa, page_entry pa flags) <$> pas) →
  length pas = 1024%nat ∧ (in_heap v →
  ∃ pa, pas !! Z.to_nat ((v - KHEAP_START) `div` 4096) = Some pa ∧
        vmm_resolve s' root v = pa + v `mod` 4096).
Proof.
  intros Hwf [_ Hft] Hf Hm.
  assert (Hlen : length pas = 1024%nat).
  { destruct Hm as [Hm _]. apply Forall2_length in Hm. rewrite length_fmap in Hm. rewrite <-Hm.
    unfold page_range. by rewrite length_fmap. }
  split; [done|]. intros Hv. destruct (heap_window_lookup v Hv) as [Hva Hi].
  destruct (lookup_lt_is_Some_2 pas (Z.to_nat ((v - KHEAP_START) `div` 4096))) as [pa Hpa]; [lia|].
  exists pa. split; [done|].
  destruct (page_of_spec v) as (Hpath & _); [unfold in_heap, KHEAP_START, KHEAP_SIZE in Hv; lia|].
  rewrite (maps_resolve _ _ _ _ _ v _ _ (page_entry pa flags) Hm Hva);
    [|by rewrite list_lookup_fmap, Hpa|done].
  assert (table_addr pa) as Hta.
  { apply (wf_frame _ _ _ Hwf). apply Hft. by eapply list_elem_of_lookup_2. }
  rewrite page_entry_phys, PTE_PHYS_table, lor_offset; [done|apply Hta|done|done].
Qed.

(** The two loops of [vmm_init]. *)
Lemma vmm_init_wp s cr3 own :
  pt_wf s cr3 own → managed_top (v_pmm s) ≤ 2 ^ 48 →
  let managed := page_range (pmm_base (v_pmm s)) (managed_top (v_pmm s)) in
  let heap := page_range KHEAP_START (KHEAP_START + KHEAP_SIZE) in
  let fl := Z.lor PAGE_PRESENT PAGE_WRITE in
  wp (vmm_init cr3) (λ _ s', ∃ s1 own1 own' pas, pt_wf s1 cr3 own1 ∧ pt_wf s' cr3 own' ∧ grows s s1 ∧
    maps cr3 s s1 managed ((λ va, page_entry va fl) <$> managed) ∧
    frames_taken s1 s' pas ∧ maps cr3 s1 s' heap ((λ pa, page_entry pa fl) <$> pas)) out_of_frames s.
Proof.
  intros Hwf Htop managed heap fl.
  destruct (managed_bounds (v_pmm s)) as (Hb0 & Hb & Hbt & Ht); [apply Hwf|].
  set (s0 := s <| kernel_pml4 := cr3 |>).
  assert (pt_wf s0 cr3 own ∧ ∀ q, Forall index q → (length q ≤ 4)%nat → leaf s0 cr3 q = leaf s cr3 q) as [Hwf0 Hl0].
  { apply pt_wf_transfer; try done; apply Hwf. }
  unfold vmm_init. apply wp_bind. eapply wp_result; [apply result_modify|]. fold s0.
  do 3 (apply wp_bind; eapply wp_result; [done|]; cbn beta).
  apply wp_bind. eapply wp_result; [done|]. cbn beta zeta. change (v_pmm s0) with (v_pmm s).
  assert (u64 (pmm_base (v_pmm s) + u64 (pmm_total_pages (v_pmm s) * PAGE_SIZE)) = managed_top (v_pmm s)) as ->.
  { unfold managed_top in *. unfold PAGE_SIZE in *. rewrite (u64_id (_ * _)) by (unfold is_u64; lia).
    apply u64_id. unfold is_u64. lia. }
  change (kernel_pml4 s0) with cr3. fold managed fl heap.
  apply wp_bind. eapply wp_mono; [|apply (identity_loop cr3 fl _ s0 own Hwf0); [done|apply page_range_nodup; lia]].
  intros [] s1 (Hg1 & [own1 Hwf1] & [Hm1 Hm1']).
  apply wp_bind. eapply wp_mono; [|apply (backed_loop cr3 fl _ _ s1 own1 Hwf1); [done|by apply page_range_nodup]].
  intros [] s2 (Hg2 & [own2 Hwf2] & pas & Hft & Hm2).
  eapply wp_result; [done|]. exists s1, own1, own2, pas. split_and!; [done..| |done|done].
  split; [done|]. intros q Hq Hl Hn. rewrite Hm1' by done. apply Hl0; [done|lia].
Qed.

Lemma vmm_init_run s cr3 own :
  pt_wf s cr3 own → managed_top (v_pmm s) ≤ 2 ^ 48 →
  let managed v := pmm_base (v_pmm s) ≤ v < managed_top (v_pmm s) in
  wp (vmm_init cr3) (λ _ s', (∃ own', pt_wf s' cr3 own') ∧
    (∀ v, managed v → ¬ in_heap v → vmm_resolve s' cr3 v = v) ∧
    (∀ v, 0 ≤ v < 2 ^ 48 → ¬ managed v → ¬ in_heap v → vmm_resolve s' cr3 v = vmm_resolve s cr3 v) ∧
    ∃ pas, frames_taken s s' pas ∧ length pas = 1024%nat ∧
      ∀ v, in_heap v → ∃ pa, pas !! Z.to_nat ((v - KHEAP_START) `div` 4096) = Some pa ∧
        vmm_resolve s' cr3 v = pa + v `mod` 4096) out_of_frames s.
Proof.
  intros Hwf Htop managed. eapply wp_mono; [|by apply (vmm_init_wp s cr3 own)].
  intros _ s2 (s1 & own1 & own2 & pas & Hwf1 & Hwf2 & Hg1 & Hm1 & Hft & Hm2).
  destruct (managed_bounds (v_pmm s)) as (Hb0 & Hb & Hbt & Ht); [apply Hwf|].
  assert (Hout : ∀ v, 0 ≤ v < 2 ^ 48 → ¬ in_heap v → vmm_resolve s2 cr3 v = vmm_resolve s1 cr3 v).
  { intros v Hv Hh. apply (maps_resolve_other _ _ _ _ _ v Hm2). by apply path_not_in_range. }
  split_and!; [by exists own2| | |exists pas; split_and!].
  - unfold managed. intros v Hv Hh. rewrite Hout by (done || lia).
    eapply identity_resolve; [exact Hm1|done|lia|done..].
  - intros v Hv Hn Hh. rewrite Hout by done. apply (maps_resolve_other _ _ _ _ _ v Hm1).
    apply path_not_in_range; done || lia.
  - destruct Hft as [Hnd Hft]. split; [done|]. intros pa Hpa. apply Hft in Hpa as (Ha & Hb' & Hc).
    split_and!; [by apply Hg1| |done]. intros H'. by apply Hb', Hg1.
  - exact (proj1 (backed_resolve cr3 s1 s2 own1 (Z.lor PAGE_PRESENT PAGE_WRITE) pas 0 Hwf1 Hft eq_refl Hm2)).
  - intros v. exact (proj2 (backed_resolve cr3 s1 s2 own1 (Z.lor PAGE_PRESENT PAGE_WRITE) pas v Hwf1 Hft eq_refl Hm2)).
Qed.

(** [vmm_init] on the boot tables [cr3] either runs out of frames and
    panics, or ends with a well-formed tree in which every managed physical
    address outside the heap window is mapped to itself, the heap window is
    backed by 1024 distinct frames that were free before and are taken now, and
    everything else translates as it did. *)
Theorem vmm_init_spec s cr3 own :
  pt_wf s cr3 own → managed_top (v_pmm s) ≤ 2 ^ 48 →
  let managed v := pmm_base (v_pmm s) ≤ v < managed_top (v_pmm s) in
  wp (vmm_init cr3) (λ _ s', (∃ own', pt_wf s' cr3 own') ∧
    (∀ v, managed v → ¬ in_heap v → vmm_resolve s' cr3 v = v) ∧
    (∀ v, 0 ≤ v < 2 ^ 48 → ¬ managed v → ¬ in_heap v → vmm_resolve s' cr3 v = vmm_resolve s cr3 v) ∧
    ∃ pas, frames_taken s s' pas ∧ length pas = 1024%nat ∧
      ∀ v, in_heap v → ∃ pa, pas !! Z.to_nat ((v - KHEAP_START) `div` 4096) = Some pa ∧
        vmm_resolve s' cr3 v = pa + v `mod` 4096) out_of_frames s.
Proof. apply vmm_init_run. Qed.
End properties.

(** ** A concrete machine: the demo link, four free pages, an empty root *)

Definition demo_root : Z := 0x139000.
Definition vmm_demo : vmm := Vmm ∅ pmm_demo 0 demo_root.

Lemma pmm_demo_frame a : fa_frame pmm_demo a → 0x200000 ≤ a ≤ 0x203000 ∧ a `mod` 4096 = 0.
Proof.
  intros (p & Hp & ->). apply elem_of_pages in Hp.
  assert (pmm_total_pages pmm_demo = 4) as E by (by vm_compute). rewrite E in Hp.
  unfold page_addr. assert (pmm_base pmm_demo = 0x200000) as -> by (by vm_compute).
  unfold PAGE_SIZE. split; [lia|]. by rewrite Z.mod_add.
Qed.

Lemma pmm_demo_inv : fa_inv pmm_demo.
Proof. split; [exact pmm_demo_wf|by vm_compute]. Qed.

Lemma vmm_demo_wf : pt_wf (H:=demo_link) vmm_demo demo_root {[demo_root := []]}.
Proof.
  assert (Hget : ∀ t i, present (tbl_get vmm_demo t i) = false) by done.
  assert (Hf : ∀ a, fa_frame (v_pmm vmm_demo) a → 0x200000 ≤ a ≤ 0x203000 ∧ a `mod` 4096 = 0).
  { exact pmm_demo_frame. }
  assert (Hi : fa_inv (v_pmm vmm_demo)) by exact pmm_demo_inv.
  revert Hget Hf Hi. unfold vmm_demo. generalize pmm_demo. intros p Hget Hframe Hi.
  split; cbn [v_mem v_pmm pt_pool_used].
  - apply lookup_singleton_eq.
  - intros t path [<- _]%lookup_singleton_Some. by split_and!.
  - intros t path i _ _ _. by rewrite Hget.
  - intros t path [<- <-]%lookup_singleton_Some. split_and!; [done|done|simpl; lia].
  - intros t path [<- _]%lookup_singleton_Some [Hf|[Hf _]].
    + revert Hf. unfold demo_root, vmm_demo, pt_pool, demo_link, pt_pool_used. lia.
    + apply Hframe in Hf. unfold demo_root in Hf. lia.
  - by split_and!.
  - done.
  - intros a Ha%Hframe. unfold table_addr, pt_pool, demo_link, POOL_SIZE, PAGE_SIZE.
    split; [split_and!; [tauto|lia..]|right; lia].
  - intros. by rewrite Hget.
Qed.

Lemma vmm_map_refines_witness :
  ∃ s' own', result (vmm_map (H:=demo_link) demo_root 0x7fff000 0x200000 7) vmm_demo = Some (0, s') ∧
    {[demo_root := []]} ⊆ own' ∧ pt_wf (H:=demo_link) s' demo_root own' ∧
    ∀ v, vmm_resolve s' demo_root v =
      if decide (same_page v 0x7fff000) then Z.lor (PTE_PHYS 0x200000) (Z.land v 0xFFF)
      else vmm_resolve vmm_demo demo_root v.
Proof. apply vmm_map_refines; [exact vmm_demo_wf|done|done|done]. Defined.

Lemma vmm_map_or_panic_witness :
  wp (vmm_map (H:=demo_link) demo_root 0x7fff000 0x200000 7) (λ r s', r = 0 ∧ ∃ own',
      {[demo_root := []]} ⊆ own' ∧ pt_wf (H:=demo_link) s' demo_root own' ∧
      leaf s' demo_root (path_of 0x7fff000) = Some (page_entry 0x200000 7) ∧
      ∀ v, ¬ same_page v 0x7fff000 → leaf s' demo_root (path_of v) = leaf vmm_demo demo_root (path_of v))
    exhausted vmm_demo.
Proof. apply vmm_map_or_panic; [exact vmm_demo_wf|done]. Defined.

Lemma vmm_unmap_refines_witness :
  ∃ s', result (vmm_unmap demo_root 0x7fff000) vmm_demo = Some (tt, s') ∧
    pt_wf (H:=demo_link) s' demo_root {[demo_root := []]} ∧
    ∀ v, vmm_resolve s' demo_root v =
      if decide (same_page v 0x7fff000) then 0 else vmm_resolve vmm_demo demo_root v.
Proof. apply vmm_unmap_refines, vmm_demo_wf. Defined.

Lemma vmm_free_pagedir_exact_witness :
  ∃ s', result (vmm_free_pagedir demo_root) vmm_demo = Some (tt, s') ∧ v_mem s' = v_mem vmm_demo ∧
    fa_inv (v_pmm s') ∧
    ∀ b, fa_taken (v_pmm s') b ↔ fa_taken (v_pmm vmm_demo) b ∧ ¬ user_table vmm_demo demo_root b.
Proof. apply vmm_free_pagedir_exact; [exact pmm_demo_inv|done]. Defined.

Lemma vmm_new_pagedir_spec_witness :
  ∃ t s', result (vmm_new_pagedir (H:=demo_link)) vmm_demo = Some (t, s') ∧
    fresh_table (H:=demo_link) vmm_demo t ∧ pt_wf (H:=demo_link) s' demo_root {[demo_root := []]} ∧
    (∀ v, vmm_resolve s' t v = if PML4_IDX v <? 256 then 0 else vmm_resolve vmm_demo demo_root v) ∧
    (∀ v, vmm_resolve s' demo_root v = vmm_resolve vmm_demo demo_root v).
Proof.
  apply (vmm_new_pagedir_spec (H:=demo_link) vmm_demo {[demo_root := []]});
    [exact vmm_demo_wf|exact mem_wf_empty|done|done].
Defined.

Lemma vmm_init_spec_witness :
  managed_top (v_pmm vmm_demo) ≤ 2 ^ 48 ∧
  wp (vmm_init (H:=demo_link) demo_root) (λ _ s', (∃ own', pt_wf (H:=demo_link) s' demo_root own') ∧
    (∀ v, pmm_base (v_pmm vmm_demo) ≤ v < managed_top (v_pmm vmm_demo) → ¬ in_heap v →
       vmm_resolve s' demo_root v = v) ∧
    (∀ v, 0 ≤ v < 2 ^ 48 → ¬ (pmm_base (v_pmm vmm_demo) ≤ v < managed_top (v_pmm vmm_demo)) →
       ¬ in_heap v → vmm_resolve s' demo_root v = vmm_resolve vmm_demo demo_root v) ∧
    ∃ pas, frames_taken vmm_demo s' pas ∧ length pas = 1024%nat ∧
      ∀ v, in_heap v → ∃ pa, pas !! Z.to_nat ((v - KHEAP_START) `div` 4096) = Some pa ∧
        vmm_resolve s' demo_root v = pa + v `mod` 4096) out_of_frames vmm_demo.
Proof.
  split; [by vm_compute|].
  apply (vmm_init_spec (H:=demo_link) vmm_demo demo_root _ vmm_demo_wf). by vm_compute.
Defined.

(** A machine with 16 MiB of memory at 2 MiB. *)
Definition pmm_16m : pmm :=
  match result (pmm_init 0x200000 0x1000000) pmm_zero with Some (_, s) => s | None => pmm_zero end.

(** After [vmm_init] on a machine with 16 MiB the heap window hides the
    frames whose addresses lie in it: the address 0x600000 of a frame the page
    allocator still has to give out translates to another frame, 0x400000. *)
Theorem vmm_init_hides_frames :
  ∃ s', result (vmm_init (H:=demo_link) demo_root) (Vmm ∅ pmm_16m 0 demo_root) = Some (tt, s') ∧
    pmm_is_used (v_pmm s') (addr_page (v_pmm s') 0x600000) = false ∧
    vmm_resolve s' demo_root 0x600000 = 0x400000.
Proof.
  set (r := result _ _). 
  assert (match r with
          | Some (_, s') => negb (pmm_is_used (v_pmm s') (addr_page (v_pmm s') 0x600000)) &&
              (vmm_resolve s' demo_root 0x600000 =? 0x400000)
          | None => false end = true) as Hc by (by vm_compute).
  destruct r as [[[] s']|]; [|done]. exists s'. split; [done|].
  apply andb_prop in Hc as [H1%negb_true_iff H2%Z.eqb_eq]. done.
Qed.

(** The pool is used up, the tables down to the page directory are there, and
    the one free frame holds what its last owner left in it. *)
Definition stale_state : vmm :=
  let m0 : mem := ∅ in
  let m1 := st64 m0 demo_root (table_entry 0x13a000 0) in
  let m2 := st64 m1 0x13a000 (table_entry 0x13b000 0) in
  let m3 := st64 m2 (0x200000 + 8 * 5) 0x1234567 in
  Vmm m3 pmm_demo POOL_SIZE demo_root.

(** [alloc_table] does not clear a table it gets from the page allocator:
    mapping page 0 then also maps page 5, to whatever the frame held. *)
Theorem alloc_table_stale :
  vmm_resolve stale_state demo_root 0x5000 = 0 ∧
  ∃ s', result (vmm_map (H:=demo_link) demo_root 0 0x203000 0) stale_state = Some (0, s') ∧
    vmm_resolve s' demo_root 0x5000 = 0x1234000.
Proof.
  split; [by vm_compute|]. set (r := result _ _).
  assert (match r with
          | Some (x, s') => (x =? 0) && (vmm_resolve s' demo_root 0x5000 =? 0x1234000)
          | None => false end = true) as Hc by (by vm_compute).
  destruct r as [[x s']|]; [|done]. apply andb_prop in Hc as [->%Z.eqb_eq H2%Z.eqb_eq]. by exists s'.
Qed.
