(* ===== verification/Tlb.v ===== *)
(** * Tlb: page tables and the translations the processor remembers
    (kernel/mm/vmm.c, [tlb_flush] and [write_cr3] of include/arch/x86_64.h)

    The processor walks the page tables on its own, at any time, and remembers
    what it finds until it is told to forget it; file Vmm only records that
    [vmm_map] and [vmm_unmap] execute [invlpg].  Here the two run side by side:
    the stores of the kernel, its invalidations, and the loads and evictions of
    the processor in any order.  No page is global, since boot.asm leaves
    CR4.PGE clear, so writing CR3 forgets everything. *)

From S2P Require Import Prelude Effects Memory Types Interfaces Pmm Vmm.

(** ** Code that executes no instruction of interest *)

Definition printed (e : event) : Prop := match e with EvInstr _ => False | _ => True end.

(** A run that returns has printed at most. *)
Definition quiet {S A} (m : M S A) : Prop := ∀ s,
  match m s with Done l _ _ => Forall printed l | Switch _ _ _ _ _ => False | _ => True end.

Section quiet.
Context {S : Type}.

Lemma quiet_bind {A B} (m : M S A) (f : A → M S B) : quiet m → (∀ a, quiet (f a)) → quiet (m ≫= f).
Proof.
  intros Hm Hf s. specialize (Hm s). unfold mbind, M_bind. destruct (m s) as [l a s1| | |]; try done. cbn.
  specialize (Hf a s1). destruct (f a s1); cbn; try done. by apply Forall_app.
Qed.
Lemma quiet_ret {A} (a : A) : quiet (S:=S) (mret a).
Proof. intros s. by constructor. Qed.
Lemma quiet_get : quiet (S:=S) get.
Proof. intros s. by constructor. Qed.
Lemma quiet_gets {A} (f : S → A) : quiet (gets f).
Proof. intros s. by constructor. Qed.
Lemma quiet_modify (f : S → S) : quiet (modify f).
Proof. intros s. by constructor. Qed.
Lemma quiet_kprintf fmt args : quiet (S:=S) (kprintf fmt args).
Proof. intros s. by apply Forall_singleton. Qed.
Lemma quiet_panic {A} msg : quiet (S:=S) (panic (A:=A) msg).
Proof. by intros s. Qed.
Lemma quiet_for_each {A} (xs : list A) (f : A → M S unit) : (∀ x, quiet (f x)) → quiet (for_each xs f).
Proof. intros Hf. induction xs as [|x xs IH]; cbn; [apply quiet_ret|by apply quiet_bind]. Qed.
Lemma quiet_lift {T A} `{Lens T S} (m : M S A) : quiet m → quiet (lift (T:=T) m).
Proof. intros Hm t. specialize (Hm (view t)). unfold lift. by destruct (m (view t)). Qed.
End quiet.

Create HintDb quiet.
#[local] Hint Resolve quiet_ret quiet_get quiet_gets quiet_modify quiet_kprintf quiet_panic quiet_for_each
  quiet_lift : quiet.
#[local] Ltac quiet := repeat first
  [ progress auto with quiet
  | apply quiet_bind; [|intros ?]
  | match goal with |- quiet (if ?b then _ else _) => destruct b end ].

Lemma quiet_pmm_alloc : quiet pmm_alloc.
Proof.
  unfold pmm_alloc. quiet. generalize (Z.to_nat (pmm_total_pages a)), 0. intros n.
  induction n as [|n IH]; intros i; cbn [pmm_alloc_scan]; quiet.
Qed.
#[local] Hint Resolve quiet_pmm_alloc : quiet.

(** ** The two phases of an update

    The functions of file Vmm up to their [invlpg]. *)

Section phases.
Context `{Link}.

Definition map_tables (pml4 virt phys flags : Z) : M vmm unit :=
  pdp ← next_table pml4 (PML4_IDX virt) flags ;
  pd ← next_table pdp (PDP_IDX virt) flags ;
  pt ← next_table pd (PD_IDX virt) flags ;
  modify (tbl_set pt (PT_IDX virt) (Z.lor (Z.land phys PTE_ADDR_MASK) (Z.lor flags PTE_PRESENT))).

(** The result says whether there was a table to clear the entry in. *)
Definition unmap_tables (pml4 virt : Z) : M vmm bool :=
  s ← get ;
  match walk s pml4 [PML4_IDX virt; PDP_IDX virt; PD_IDX virt] with
  | Some pt => modify (tbl_set pt (PT_IDX virt) 0) ;; mret true
  | None => mret false
  end.

Lemma quiet_next_table tbl idx flags : quiet (next_table tbl idx flags).
Proof. unfold next_table, alloc_table. quiet. Qed.
#[local] Hint Resolve quiet_next_table : quiet.

Lemma quiet_map_tables pml4 virt phys flags : quiet (map_tables pml4 virt phys flags).
Proof. unfold map_tables. quiet. Qed.

(** The code is its two phases, the invalidation last. *)
Lemma vmm_map_phases pml4 virt phys flags s l r s' :
  vmm_map pml4 virt phys flags s = Done l r s' →
  r = 0 ∧ ∃ l0, map_tables pml4 virt phys flags s = Done l0 tt s' ∧ Forall printed l0 ∧
    l = l0 ++ [EvInstr (Invlpg virt)].
Proof.
  pose proof (quiet_map_tables pml4 virt phys flags s) as Hs. revert Hs.
  unfold vmm_map, map_tables, mbind, M_bind. 
  destruct (next_table pml4 _ flags s) as [l1 t1 s1| | |]; try done. cbn.
  destruct (next_table t1 _ flags s1) as [l2 t2 s2| | |]; try done. cbn.
  destruct (next_table t2 _ flags s2) as [l3 t3 s3| | |]; try done. cbn.
  intros Hs [= <- <- <-]. split; [done|]. eexists. split; [done|]. split; [exact Hs|]. by rewrite !app_nil_r, !app_assoc.
Qed.

Lemma vmm_unmap_phases pml4 virt s :
  match result (unmap_tables pml4 virt) s with
  | Some (b, s') => vmm_unmap pml4 virt s = Done (if b : bool then [EvInstr (Invlpg virt)] else []) tt s'
  | None => False
  end.
Proof.
  unfold vmm_unmap, unmap_tables. rewrite result_bind. cbn [result get]. rewrite walk3.
  unfold mbind, M_bind, get. cbn [bind_run]. cbv zeta.
  destruct (present (tbl_get s pml4 _)); [|done]. destruct (present (tbl_get s _ (PDP_IDX virt))); [|done].
  by destruct (present (tbl_get s _ (PD_IDX virt))).
Qed.

Lemma map_tables_map pml4 virt phys flags s s' :
  result (map_tables pml4 virt phys flags) s = Some (tt, s') → result (vmm_map pml4 virt phys flags) s = Some (0, s').
Proof.
  unfold vmm_map, map_tables, result, mbind, M_bind.
  destruct (next_table pml4 _ flags s) as [l1 t1 s1| | |]; try done. cbn.
  destruct (next_table t1 _ flags s1) as [l2 t2 s2| | |]; try done. cbn.
  destruct (next_table t2 _ flags s2) as [l3 t3 s3| | |]; try done. cbn. by intros [= <-].
Qed.

(** What the stores do to the translations. *)
Lemma map_tables_spec s own pml4 virt phys flags s' :
  pt_wf s pml4 own → is_u64 flags → result (map_tables pml4 virt phys flags) s = Some (tt, s') →
  ∃ own', pt_wf s' pml4 own' ∧ ∀ q, Forall index q → length q = 4%nat →
    leaf s' pml4 q = if decide (q = path_of virt) then Some (page_entry phys flags) else leaf s pml4 q.
Proof.
  intros Hwf Hf Hr%map_tables_map. pose proof (vmm_map_wp s pml4 own virt phys flags Hwf Hf) as Hw.
  unfold wp, result in *. destruct (vmm_map _ _ _ _ s); simplify_eq.
  destruct Hw as (_ & own' & _ & Hwf' & Hl). by exists own'.
Qed.

Lemma unmap_tables_spec s own pml4 virt b s' :
  pt_wf s pml4 own → result (unmap_tables pml4 virt) s = Some (b, s') →
  pt_wf s' pml4 own ∧ ∀ q, Forall index q → length q = 4%nat →
    leaf s' pml4 q = if decide (q = path_of virt) then None else leaf s pml4 q.
Proof.
  intros Hwf. set (path := [PML4_IDX virt; PDP_IDX virt; PD_IDX virt]).
  assert (Forall index path) as Hpi by (repeat constructor; apply idx_range).
  unfold unmap_tables. rewrite result_bind. cbn [result get]. fold path.
  destruct (walk s pml4 path) as [pt|] eqn:Hw; intros [= <- <-].
  - apply (walk_own_root _ _ own) in Hw; [|done..|simpl; lia].
    destruct (enter_page s pml4 own pt path (PT_IDX virt) 0 Hwf Hw) as [Hwf' Hl]; [done|apply idx_range|done|].
    by split.
  - split; [done|]. intros q _ _. case_decide as Hq; [|done]. subst q.
    exact (walk_none_leaf s pml4 path (PT_IDX virt) Hw).
Qed.

Lemma unmap_tables_false pml4 virt s s' : result (unmap_tables pml4 virt) s = Some (false, s') → s' = s.
Proof.
  unfold unmap_tables. rewrite result_bind. cbn [result get].
  destruct (walk s pml4 _); [by intros [=]|by intros [= <-]].
Qed.
End phases.

(** ** The memory management unit *)

(** The page tables in memory, CR3, the remembered translations (the last-level
    entries by the indices that lead there), and the address whose [invlpg] is
    due. *)
Record mmu := Mmu {
  tables : vmm;
  root : Z;
  tlb : gmap (list Z) Z;
  due : option Z;
}.

(** An instruction's effect on CR3 and on what is remembered. *)
Definition cpu_event (e : event) (t : Z * gmap (list Z) Z) : Z * gmap (list Z) Z :=
  match e with
  | EvInstr (Invlpg a) => (t.1, delete (path_of a) t.2)
  | EvInstr (WriteCr3 v) => (v, ∅)
  | _ => t
  end.
Definition cpu_events (l : list event) (t : Z * gmap (list Z) Z) : Z * gmap (list Z) Z :=
  foldl (λ t e, cpu_event e t) t l.

Lemma cpu_events_printed l t : Forall printed l → cpu_events l t = t.
Proof.
  intros Hl. revert t. induction Hl as [|e l He _ IH]; intros t; [done|]. cbn [cpu_events foldl].
  destruct e as [| | |i]; try done; apply IH.
Qed.

Lemma cpu_events_app l1 l2 t : cpu_events (l1 ++ l2) t = cpu_events l2 (cpu_events l1 t).
Proof. apply foldl_app. Qed.

(** The entry the processor uses for an address, and the address it means. *)
Definition entry_used (m : mmu) (v : Z) : option Z :=
  match tlb m !! path_of v with Some e => Some e | None => leaf (tables m) (root m) (path_of v) end.
Definition translate (m : mmu) (v : Z) : Z :=
  match entry_used m v with Some e => Z.lor (PTE_PHYS e) (Z.land v 0xFFF) | None => 0 end.

Section mmu.
Context `{Link}.

(** What can happen next: the processor looks an address up and remembers the
    entry, or forgets one; the kernel updates the tables in CR3, invalidates the
    page it has updated, or switches to other tables. *)
Inductive mmu_step : mmu → mmu → Prop :=
  | step_load s r t d v e :
      leaf s r (path_of v) = Some e → mmu_step (Mmu s r t d) (Mmu s r (<[path_of v := e]> t) d)
  | step_evict s r t d q :
      mmu_step (Mmu s r t d) (Mmu s r (delete q t) d)
  | step_map s r t virt phys flags s' :
      is_u64 flags → result (map_tables r virt phys flags) s = Some (tt, s') →
      mmu_step (Mmu s r t None) (Mmu s' r t (Some virt))
  | step_unmap s r t virt s' :
      result (unmap_tables r virt) s = Some (true, s') →
      mmu_step (Mmu s r t None) (Mmu s' r t (Some virt))
  | step_invlpg s r t v :
      mmu_step (Mmu s r t (Some v)) (Mmu s r (delete (path_of v) t) None)
  | step_switch s r t r' own :
      pt_wf s r' own → mmu_step (Mmu s r t None) (Mmu s r' ∅ None).

(** The tables are well formed, and everything that is remembered is in them,
    but for the page whose invalidation is due. *)
Record mmu_ok (m : mmu) : Prop := {
  mo_wf : ∃ own, pt_wf (tables m) (root m) own;
  mo_tlb q e : tlb m !! q = Some e → (Forall index q ∧ length q = 4%nat) ∧
    (leaf (tables m) (root m) q = Some e ∨ ∃ v, due m = Some v ∧ q = path_of v);
}.

Lemma mmu_step_ok m m' : mmu_step m m' → mmu_ok m → mmu_ok m'.
Proof.
  intros Hs [[own Hwf] Ht].
  destruct Hs as [s r t d v e Hl|s r t d q|s r t virt phys flags s' Hf Hr|s r t virt s' Hr|s r t v|s r t r' own' Hwf'];
    cbn [tables root tlb due] in *.
  - split; [by exists own|]. cbn [tables root tlb due]. intros q e' [[<- <-]|[_ Hq]]%lookup_insert_Some; [|by apply Ht].
    split; [split; [apply path_of_index|done]|by left].
  - split; [by exists own|]. cbn [tables root tlb due]. intros q' e [_ Hq]%lookup_delete_Some. by apply Ht.
  - destruct (map_tables_spec s own r virt phys flags s' Hwf Hf Hr) as (own' & Hwf' & Hl).
    split; [by exists own'|]. cbn [tables root tlb due]. intros q e Hq. destruct (Ht q e Hq) as [[Hi Hn] [He|(v & ? & _)]]; [|done].
    split; [done|]. rewrite Hl by done. case_decide; [right; by exists virt|by left].
  - destruct (unmap_tables_spec s own r virt true s' Hwf Hr) as [Hwf' Hl].
    split; [by exists own|]. cbn [tables root tlb due]. intros q e Hq. destruct (Ht q e Hq) as [[Hi Hn] [He|(v & ? & _)]]; [|done].
    split; [done|]. rewrite Hl by done. case_decide; [right; by exists virt|by left].
  - split; [by exists own|]. cbn [tables root tlb due]. intros q e [Hne Hq]%lookup_delete_Some. destruct (Ht q e Hq) as [Hi [He|(w & [= <-] & ->)]]; [|done].
    split; [done|by left].
  - split; [by exists own'|]. cbn [tables root tlb due]. intros q e Hq. done.
Qed.

Lemma mmu_reachable_ok m m' : rtc mmu_step m m' → mmu_ok m → mmu_ok m'.
Proof. induction 1 as [|m1 m2 m3 Hs _ IH]; [done|]. intros Hm. apply IH. by eapply mmu_step_ok. Qed.

Lemma entry_used_ok m v :
  mmu_ok m → (∀ w, due m = Some w → ¬ same_page v w) → entry_used m v = leaf (tables m) (root m) (path_of v).
Proof.
  intros [_ Ht] Hd. unfold entry_used. destruct (tlb m !! path_of v) as [e|] eqn:E; [|done].
  destruct (Ht _ _ E) as [_ [He|(w & Hw & Hp)]]; [done|]. destruct (Hd w Hw). by apply path_of_same_page.
Qed.


(** C11: the functions of vmm.c are made of these steps, with nothing due at the
    end: when [vmm_map] has returned the page is translated to the new frame,
    whatever the processor remembered before, and every other address as before;
    when [vmm_unmap] has returned the page is not translated at all; and
    [vmm_switch] forgets every translation of the old tables. *)
Theorem updates_take_effect s r t :
  mmu_ok (Mmu s r t None) →
  (∀ virt phys flags l ret s', is_u64 flags → vmm_map r virt phys flags s = Done l ret s' →
     let m' := Mmu s' (cpu_events l (r, t)).1 (cpu_events l (r, t)).2 None in
     rtc mmu_step (Mmu s r t None) m' ∧ root m' = r ∧ ∀ v,
       entry_used m' v = if decide (same_page v virt) then Some (page_entry phys flags)
                         else entry_used (Mmu s r t None) v) ∧
  (∀ virt l s', vmm_unmap r virt s = Done l tt s' →
     let m' := Mmu s' (cpu_events l (r, t)).1 (cpu_events l (r, t)).2 None in
     rtc mmu_step (Mmu s r t None) m' ∧ root m' = r ∧ ∀ v,
       entry_used m' v = if decide (same_page v virt) then None else entry_used (Mmu s r t None) v) ∧
  (∀ r' own l s', pt_wf s r' own → vmm_switch r' s = Done l tt s' →
     let m' := Mmu s' (cpu_events l (r, t)).1 (cpu_events l (r, t)).2 None in
     rtc mmu_step (Mmu s r t None) m' ∧ root m' = r' ∧ ∀ v, entry_used m' v = leaf s r' (path_of v)).
Proof.
  intros Hm. destruct (mo_wf _ Hm) as [own Hwf]. cbn [tables root] in Hwf.
  assert (Hok : ∀ m' v, rtc mmu_step (Mmu s r t None) m' → due m' = None →
    entry_used m' v = leaf (tables m') (root m') (path_of v)).
  { intros m' v Hs Hd. apply entry_used_ok; [by eapply mmu_reachable_ok|]. by rewrite Hd. }
  assert (Hold : ∀ v, entry_used (Mmu s r t None) v = leaf s r (path_of v)) by (intros v; by apply (Hok _ v (rtc_refl _ _))).
  split; [|split].
  - intros virt phys flags l ret s' Hf Hr m'.
    destruct (vmm_map_phases r virt phys flags s l ret s' Hr) as (_ & l0 & Hr0 & Hl0 & ->).
    assert (Hres : result (map_tables r virt phys flags) s = Some (tt, s')) by (unfold result; by rewrite Hr0).
    assert (m' = Mmu s' r (delete (path_of virt) t) None) as Hm'.
    { unfold m'. by rewrite cpu_events_app, (cpu_events_printed l0). }
    clearbody m'. subst m'.
    assert (Hs : rtc mmu_step (Mmu s r t None) (Mmu s' r (delete (path_of virt) t) None)).
    { eapply rtc_l; [by eapply step_map|]. apply rtc_once, step_invlpg. }
    split; [done|]. split; [done|]. intros v. rewrite (Hok _ v Hs eq_refl), Hold. cbn [tables root].
    destruct (map_tables_spec s own r virt phys flags s' Hwf Hf Hres) as (own' & _ & Hl).
    rewrite Hl by (apply path_of_index || done). by apply decide_ext, path_of_same_page.
  - intros virt l s' Hr m'. pose proof (vmm_unmap_phases r virt s) as Hp.
    destruct (result (unmap_tables r virt) s) as [[b s1]|] eqn:Hres; [|done]. rewrite Hr in Hp. injection Hp as -> ->.
    destruct (unmap_tables_spec s own r virt b s1 Hwf Hres) as [_ Hl].
    assert (m' = Mmu s1 r (if b then delete (path_of virt) t else t) None) as Hm' by (by destruct b).
    clearbody m'. subst m'.
    assert (Hs : rtc mmu_step (Mmu s r t None) (Mmu s1 r (if b then delete (path_of virt) t else t) None)).
    { destruct b; [|by rewrite (unmap_tables_false _ _ _ _ Hres)].
      eapply rtc_l; [by eapply step_unmap|]. apply rtc_once, step_invlpg. }
    split; [done|]. split; [done|]. intros v. rewrite (Hok _ v Hs eq_refl), Hold. cbn [tables root].
    rewrite Hl by (apply path_of_index || done). by apply decide_ext, path_of_same_page.
  - intros r' own' l s' Hwf' [= <- <-] m'.
    assert (Hs : rtc mmu_step (Mmu s r t None) m') by (by eapply rtc_once, step_switch).
    split; [done|]. split; [done|]. intros v. by rewrite (Hok m' v Hs eq_refl).
Qed.
End mmu.

(** ** Witnesses *)

Lemma mmu_demo_ok : mmu_ok (H:=demo_link) (Mmu vmm_demo demo_root ∅ None).
Proof. split; [exists {[demo_root := []]}; exact vmm_demo_wf|done]. Qed.

(** The processor has remembered an entry when the kernel takes it back. *)
Definition vmm_mapped : vmm :=
  match result (map_tables (H:=demo_link) demo_root 0x7fff000 0x200000 7) vmm_demo with
  | Some (_, s) => s
  | None => vmm_demo
  end.
Definition vmm_unmapped : vmm :=
  match result (unmap_tables demo_root 0x7fff000) vmm_mapped with Some (_, s) => s | None => vmm_mapped end.
Definition stale : gmap (list Z) Z := {[path_of 0x7fff000 := 0x200007]}.

Lemma vmm_mapped_run :
  result (map_tables (H:=demo_link) demo_root 0x7fff000 0x200000 7) vmm_demo = Some (tt, vmm_mapped).
Proof.
  assert (match result (map_tables (H:=demo_link) demo_root 0x7fff000 0x200000 7) vmm_demo with Some _ => true | None => false end
    = true) as Hs by (by vm_compute).
  revert Hs. unfold vmm_mapped. generalize (result (map_tables (H:=demo_link) demo_root 0x7fff000 0x200000 7) vmm_demo).
  by intros [[[] s]|] Hs.
Qed.

Lemma vmm_unmapped_run :
  result (unmap_tables demo_root 0x7fff000) vmm_mapped = Some (true, vmm_unmapped).
Proof.
  assert (match result (unmap_tables demo_root 0x7fff000) vmm_mapped with Some (b, _) => b | None => false end = true)
    as Hs by (by vm_compute).
  revert Hs. unfold vmm_unmapped. generalize (result (unmap_tables demo_root 0x7fff000) vmm_mapped).
  by intros [[[] s]|] Hs.
Qed.

Lemma vmm_mapped_leaf : leaf vmm_mapped demo_root (path_of 0x7fff000) = Some 0x200007.
Proof. by vm_compute. Qed.

Lemma mmu_mapped_trace :
  rtc (mmu_step (H:=demo_link)) (Mmu vmm_demo demo_root ∅ None) (Mmu vmm_mapped demo_root stale None).
Proof.
  eapply rtc_l; [apply (step_map (H:=demo_link) _ _ _ 0x7fff000 0x200000 7 vmm_mapped); [done|exact vmm_mapped_run]|].
  eapply rtc_l; [apply step_invlpg|].
  apply rtc_once. rewrite delete_empty. apply (step_load (H:=demo_link) _ _ _ _ 0x7fff000 0x200007), vmm_mapped_leaf.
Qed.

(** After the stores of the removal and before its [invlpg] the processor still
    uses the old entry; the theorem excludes no more than that page. *)
Lemma mmu_demo_trace :
  rtc (mmu_step (H:=demo_link)) (Mmu vmm_demo demo_root ∅ None)
      (Mmu vmm_unmapped demo_root stale (Some 0x7fff000)).
Proof.
  eapply rtc_r; [exact mmu_mapped_trace|]. apply step_unmap. exact vmm_unmapped_run.
Qed.


(** The page was in use through the remembered entry; once [vmm_unmap] has
    returned it faults. *)
Lemma updates_take_effect_witness :
  let m := Mmu vmm_mapped demo_root stale None in
  entry_used m 0x7fff123 = Some 0x200007 ∧
  ∃ m', rtc (mmu_step (H:=demo_link)) m m' ∧ entry_used m' 0x7fff123 = None ∧
    entry_used m' 0x8000123 = entry_used m 0x8000123.
Proof.
  split; [by vm_compute|].
  assert (mmu_ok (H:=demo_link) (Mmu vmm_mapped demo_root stale None)) as Hok
    by exact (mmu_reachable_ok (H:=demo_link) _ _ mmu_mapped_trace mmu_demo_ok).
  pose proof (vmm_unmap_phases demo_root 0x7fff000 vmm_mapped) as Hp. rewrite vmm_unmapped_run in Hp.
  destruct (updates_take_effect (H:=demo_link) _ _ _ Hok) as (_ & Hu & _).
  destruct (Hu _ _ _ Hp) as (Hs & _ & He).
  eexists. split; [exact Hs|]. split.
  - rewrite He. apply decide_True. by vm_compute.
  - rewrite He. apply decide_False. unfold same_page. vm_compute. discriminate.
Defined.
