(* ===== verification/Arch.v ===== *)
(** * Arch: descriptor tables, interrupt controller and timer
    (kernel/arch/x86_64/gdt.c, idt.c, pic_pit.c)

    The tables live in memory, byte by byte, where the processor reads them:
    the theorems decode the bytes the way the processor does. *)

From S2P Require Import Prelude Effects Memory Types.

Definition st16 (m : mem) (a v : Z) : mem := st_le m a 2 v.
#[global] Arguments st16 : simpl never.

(** [x >> k] and [x & mask] of the C code, for the fields of a descriptor. *)
Definition bits (x k n : Z) : Z := Z.land (Z.shiftr x k) (Z.ones n).

(** ** Segment descriptors *)

Definition GDT_KERNEL_CODE : Z := 0x08.
Definition GDT_NORMAL_ENTRIES : Z := 6.
(** [sizeof(gdt_entry_t)], [sizeof(gdt_tss_entry_t)], [sizeof(tss_t)],
    [sizeof(idt_entry_t)], all packed. *)
Definition sizeof_gdt_entry : Z := 8.
Definition sizeof_gdt_tss_entry : Z := 16.
Definition sizeof_tss : Z := 104.
Definition sizeof_idt_entry : Z := 16.
Definition IDT_SIZE : Z := 256.

Section gdt.
Context `{Link}.

(** [gdt[i]]: limit_low, base_low, base_mid, access, granularity, base_high. *)
Definition set_entry (i base limit access gran : Z) : M mem unit :=
  let e := sym_gdt + sizeof_gdt_entry * i in
  modify (λ m, st16 m (e + 2) (Z.land base 0xFFFF)) ;;
  modify (λ m, st8 m (e + 4) (Z.land (Z.shiftr base 16) 0xFF)) ;;
  modify (λ m, st8 m (e + 7) (Z.land (Z.shiftr base 24) 0xFF)) ;;
  modify (λ m, st16 m (e + 0) (Z.land limit 0xFFFF)) ;;
  modify (λ m, st8 m (e + 6) (Z.lor (Z.land (Z.shiftr limit 16) 0x0F) (Z.land gran 0xF0))) ;;
  modify (λ m, st8 m (e + 5) access).

(** [gdt_tss] as the bytes of its packed fields. *)
Definition tss_descriptor (tss_base tss_limit : Z) : list Z :=
  let le16 v := [Z.land v 0xFF; Z.land (Z.shiftr v 8) 0xFF] in
  let le32 v := le16 (Z.land v 0xFFFF) ++ le16 (Z.land (Z.shiftr v 16) 0xFFFF) in
  le16 (Z.land tss_limit 0xFFFF) ++
  le16 (Z.land tss_base 0xFFFF) ++
  [Z.land (Z.shiftr tss_base 16) 0xFF] ++
  [0x89] ++
  [Z.land (Z.shiftr tss_limit 16) 0x0F] ++
  [Z.land (Z.shiftr tss_base 24) 0xFF] ++
  le32 (u32 (Z.shiftr tss_base 32)) ++
  le32 0.

Definition gdt_init : M mem unit :=
  set_entry 0 0 0 0 0 ;;
  set_entry 1 0 0xFFFFF 0x9A 0xA0 ;;
  set_entry 2 0 0xFFFFF 0x92 0xC0 ;;
  set_entry 3 0 0xFFFFF 0xFA 0xCF ;;
  set_entry 4 0 0xFFFFF 0xF2 0xC0 ;;
  set_entry 5 0 0xFFFFF 0xFA 0xA0 ;;
  let tss_base := sym_tss in
  let tss_limit := u32 (sizeof_tss - 1) in
  let dst := sym_gdt + sizeof_gdt_entry * GDT_NORMAL_ENTRIES in
  modify (λ m, st_bytes m dst (tss_descriptor tss_base tss_limit)) ;;
  instruction (Lgdt (u16 (GDT_NORMAL_ENTRIES * sizeof_gdt_entry + sizeof_gdt_tss_entry - 1)) sym_gdt) ;;
  instruction (ReloadSegments 0x08 0x10) ;;
  instruction (Ltr 0x30) ;;
  kprintf ("[GDT] initialized (kcode=0x08 kdata=0x10 " +:+
           "udata=0x23 ucode64=0x2B TSS=0x30)" +:+ nl) [].

(** [tss.rsp[0]] is at offset 4 of the packed structure. *)
Definition gdt_set_tss_rsp0 (rsp0 : Z) : M mem unit :=
  modify (λ m, st64 m (sym_tss + 4) rsp0).

(** ** Interrupt gates *)

(** [idt[num]]: offset_low, selector, ist, type_attr, offset_mid, offset_high, reserved. *)
Definition set_gate (num handler ist dpl : Z) : M mem unit :=
  let attr := u8 (Z.lor 0x8E (Z.shiftl (Z.land dpl 3) 5)) in
  let e := sym_idt + sizeof_idt_entry * num in
  modify (λ m, st16 m (e + 0) (Z.land handler 0xFFFF)) ;;
  modify (λ m, st16 m (e + 2) GDT_KERNEL_CODE) ;;
  modify (λ m, st8 m (e + 4) (Z.land ist 0x7)) ;;
  modify (λ m, st8 m (e + 5) attr) ;;
  modify (λ m, st16 m (e + 6) (Z.land (Z.shiftr handler 16) 0xFFFF)) ;;
  modify (λ m, st32 m (e + 8) (Z.land (Z.shiftr handler 32) 0xFFFFFFFF)) ;;
  modify (λ m, st32 m (e + 12) 0).

Definition idt_set_gate (num handler ist dpl : Z) : M mem unit := set_gate num handler ist dpl.

Definition isr_stub (i : Z) : Z := isr_stub_table !!! Z.to_nat i.

Definition idt_init : M mem unit :=
  for_each (seqZ 0 48) (λ i,
    if negb (isr_stub i =? 0) then set_gate (u8 i) (isr_stub i) 0 0 else mret tt) ;;
  (if negb (isr_stub 128 =? 0) then set_gate 0x80 (isr_stub 128) 0 3 else mret tt) ;;
  instruction (Lidt (u16 (IDT_SIZE * sizeof_idt_entry - 1)) sym_idt) ;;
  kprintf ("[IDT] initialized" +:+ nl) [].
End gdt.

(** ** PIC and PIT

    What [inb] reads from the mask registers is the argument [inb]. *)

Section pic.
Context {S : Type}.

Definition io_wait : M S unit := outb 0x80 0.

Definition pic_init : M S unit :=
  outb PIC_MASTER_CMD 0x11 ;;
  outb PIC_SLAVE_CMD 0x11 ;;
  io_wait ;;
  outb PIC_MASTER_DATA IDT_IRQ_BASE ;;
  outb PIC_SLAVE_DATA (IDT_IRQ_BASE + 8) ;;
  io_wait ;;
  outb PIC_MASTER_DATA 0x04 ;;
  outb PIC_SLAVE_DATA 0x02 ;;
  io_wait ;;
  outb PIC_MASTER_DATA 0x01 ;;
  outb PIC_SLAVE_DATA 0x01 ;;
  io_wait ;;
  outb PIC_MASTER_DATA 0xFE ;;
  outb PIC_SLAVE_DATA 0xFF ;;
  kprintf ("[PIC] remapped to 0x%02x-0x%02x" +:+ nl) [kint IDT_IRQ_BASE; kint (IDT_IRQ_BASE + 15)].

Definition pic_send_eoi (irq : Z) : M S unit :=
  (if 8 <=? irq then outb PIC_SLAVE_CMD 0x20 else mret tt) ;;
  outb PIC_MASTER_CMD 0x20.

Definition pic_mask_irq (inb : Z → Z) (irq : Z) : M S unit :=
  let port := if irq <? 8 then PIC_MASTER_DATA else PIC_SLAVE_DATA in
  let irq := if 8 <=? irq then irq - 8 else irq in
  let mask := u8 (Z.lor (inb port) (Z.shiftl 1 irq)) in
  outb port mask.

Definition pic_unmask_irq (inb : Z → Z) (irq : Z) : M S unit :=
  let port := if irq <? 8 then PIC_MASTER_DATA else PIC_SLAVE_DATA in
  let irq := if 8 <=? irq then irq - 8 else irq in
  let mask := u8 (Z.land (inb port) (Z.lnot (Z.shiftl 1 irq))) in
  outb port mask.

Definition PIT_HZ : Z := 100.
Definition PIT_CH0 : Z := 0x40.
Definition PIT_CMD : Z := 0x43.
Definition PIT_BASE_HZ : Z := 1193182.

Definition pit_init : M S unit :=
  let divisor := u32 (PIT_BASE_HZ `div` PIT_HZ) in
  outb PIT_CMD 0x36 ;;
  outb PIT_CH0 (u8 (Z.land divisor 0xFF)) ;;
  outb PIT_CH0 (u8 (Z.land (Z.shiftr divisor 8) 0xFF)) ;;
  kprintf ("[PIT] %d Hz (divisor=%d)" +:+ nl) [kint PIT_HZ; kint divisor].
End pic.

(** ** What the processor reads from the tables *)

Definition seg_base (m : mem) (a : Z) : Z := ld16 m (a + 2) + 2 ^ 16 * ld8 m (a + 4) + 2 ^ 24 * ld8 m (a + 7).
Definition seg_limit (m : mem) (a : Z) : Z := ld16 m a + 2 ^ 16 * ((ld8 m (a + 6)) `mod` 16).
Definition seg_access (m : mem) (a : Z) : Z := ld8 m (a + 5).
Definition seg_flags (m : mem) (a : Z) : Z := (ld8 m (a + 6)) `div` 16.
(** A system descriptor has eight bytes more, for the upper half of the base. *)
Definition sys_base (m : mem) (a : Z) : Z := seg_base m a + 2 ^ 32 * ld32 m (a + 8).

Definition gate_offset (m : mem) (a : Z) : Z := ld16 m a + 2 ^ 16 * ld16 m (a + 6) + 2 ^ 32 * ld32 m (a + 8).
Definition gate_selector (m : mem) (a : Z) : Z := ld16 m (a + 2).
Definition gate_ist (m : mem) (a : Z) : Z := (ld8 m (a + 4)) `mod` 8.
Definition gate_present (m : mem) (a : Z) : bool := Z.testbit (ld8 m (a + 5)) 7.
Definition gate_dpl (m : mem) (a : Z) : Z := ((ld8 m (a + 5)) `div` 32) `mod` 4.
Definition gate_type (m : mem) (a : Z) : Z := (ld8 m (a + 5)) `mod` 16.

(** Masking and shifting a field out of a word. *)
Lemma mask_mod x n : 0 ≤ n → Z.land x (2 ^ n - 1) = x `mod` 2 ^ n.
Proof. intros Hn. by rewrite <-Z.land_ones, Z.ones_equiv, Z.sub_1_r by lia. Qed.

Lemma mask8 x : Z.land x 0xFF = x `mod` 2 ^ 8.
Proof. by apply (mask_mod x 8). Qed.
Lemma mask16 x : Z.land x 0xFFFF = x `mod` 2 ^ 16.
Proof. by apply (mask_mod x 16). Qed.
Lemma mask32 x : Z.land x 0xFFFFFFFF = x `mod` 2 ^ 32.
Proof. by apply (mask_mod x 32). Qed.

(** A byte of a field is the byte of the word. *)
Lemma byte_of_field x n k : 0 ≤ k → k + 8 ≤ n → u8 ((x `mod` 2 ^ n) `div` 2 ^ k) = u8 (x `div` 2 ^ k).
Proof.
  intros Hk Hn. unfold u8. apply Z.bits_inj'. intros i Hi. destruct (decide (i < 8)).
  - rewrite !Z.mod_pow2_bits_low, !Z.div_pow2_bits by lia. by rewrite Z.mod_pow2_bits_low by lia.
  - by rewrite !Z.mod_pow2_bits_high by lia.
Qed.
Lemma div_pow2_add x a b : 0 ≤ a → 0 ≤ b → (x `div` 2 ^ a) `div` 2 ^ b = x `div` 2 ^ (a + b).
Proof. intros Ha Hb. rewrite Z.pow_add_r by lia. apply Z.div_div; lia. Qed.
Ltac exponents :=
  repeat match goal with
  | |- context [2 ^ (?a + ?b)] => let s := eval vm_compute in (a + b) in change (a + b) with s
  end.

Ltac fields := rewrite ?Z.shiftr_div_pow2 by lia; rewrite ?mask8, ?mask16, ?mask32.

(** Reading bytes after a run of stores at addresses relative to [e]. *)
Ltac read_bytes :=
  repeat (first [rewrite ld8_st8 | rewrite ld8_st8_ne by lia]).

Lemma st16_eq m a v : st16 m a v = st8 (st8 m a v) (a + 1) (v `div` 2 ^ 8).
Proof. done. Qed.
Lemma st32_eq m a v :
  st32 m a v = st8 (st8 (st8 (st8 m a v) (a + 1) (v `div` 2 ^ 8)) (a + 1 + 1) ((v `div` 2 ^ 8) `div` 2 ^ 8))
    (a + 1 + 1 + 1) (((v `div` 2 ^ 8) `div` 2 ^ 8) `div` 2 ^ 8).
Proof. done. Qed.
Lemma ld16_eq m a : ld16 m a = ld8 m a + 2 ^ 8 * (ld8 m (a + 1) + 2 ^ 8 * 0).
Proof. done. Qed.
Lemma ld32_eq m a :
  ld32 m a = ld8 m a + 2 ^ 8 * (ld8 m (a + 1) + 2 ^ 8 * (ld8 m (a + 1 + 1) + 2 ^ 8 * (ld8 m (a + 1 + 1 + 1) + 2 ^ 8 * 0))).
Proof. done. Qed.

Lemma split_word x : x `mod` 2 ^ 16 = x `mod` 2 ^ 8 + 2 ^ 8 * ((x `div` 2 ^ 8) `mod` 2 ^ 8).
Proof. change (2 ^ 16) with (2 ^ 8 * 2 ^ 8). apply Z.rem_mul_r; lia. Qed.
Lemma low_byte x : u8 (x `mod` 2 ^ 16) = u8 x.
Proof.
  unfold u8. rewrite split_word, Z.mul_comm, Z.mod_add by lia. apply Z.mod_mod. lia.
Qed.
Lemma high_byte x : u8 ((x `mod` 2 ^ 16) `div` 2 ^ 8) = u8 (x `div` 2 ^ 8).
Proof.
  unfold u8. rewrite split_word, Z.mul_comm, Z.div_add, Z.div_small by (try apply Z.mod_pos_bound; lia).
  apply Z.mod_mod. lia.
Qed.
Lemma u8_mod x : u8 (x `mod` 2 ^ 8) = u8 x.
Proof. apply Z.mod_mod. lia. Qed.
Lemma u8_u8 x : u8 (u8 x) = u8 x.
Proof. apply u8_mod. Qed.

(** A descriptor's stores amount to these bytes. *)
Definition writes (e : Z) (bs : list Z) (m m' : mem) : Prop :=
  ld_bytes m' e (length bs) = bs ∧ ∀ a, a < e ∨ e + Z.of_nat (length bs) ≤ a → ld8 m' a = ld8 m a.

(** The addresses of successive bytes in one form. *)
Ltac offsets e :=
  rewrite ?(Z.add_0_r e);
  repeat match goal with
  | |- context [e + ?k + ?n] => let s := eval vm_compute in (k + n) in replace (e + k + n) with (e + s) by lia
  end.

Section descriptors.
Context `{Link}.

Definition entry_bytes (base limit access gran : Z) : list Z :=
  [u8 limit; u8 (limit `div` 2 ^ 8); u8 base; u8 (base `div` 2 ^ 8); u8 (base `div` 2 ^ 16); u8 access;
   u8 (Z.lor (Z.land (limit `div` 2 ^ 16) 0x0F) (Z.land gran 0xF0)); u8 (base `div` 2 ^ 24)].

Lemma set_entry_run i base limit access gran m :
  ∃ m', result (set_entry i base limit access gran) m = Some (tt, m') ∧
    writes (sym_gdt + 8 * i) (entry_bytes base limit access gran) m m'.
Proof.
  eexists. split; [unfold set_entry; cbv zeta; run_simpl; reflexivity|].
  unfold sizeof_gdt_entry. set (e := sym_gdt + 8 * i). rewrite !st16_eq. split.
  - cbn [length entry_bytes ld_bytes]. offsets e. read_bytes. unfold entry_bytes. fields.
    by rewrite !low_byte, !high_byte, !u8_mod.
  - intros a Ha. cbn [length entry_bytes] in Ha. by read_bytes.
Qed.

Definition gate_bytes (handler ist dpl : Z) : list Z :=
  [u8 handler; u8 (handler `div` 2 ^ 8); 8; 0; u8 (Z.land ist 0x7);
   u8 (Z.lor 0x8E (Z.shiftl (Z.land dpl 3) 5));
   u8 (handler `div` 2 ^ 16); u8 (handler `div` 2 ^ 24);
   u8 (handler `div` 2 ^ 32); u8 (handler `div` 2 ^ 40); u8 (handler `div` 2 ^ 48); u8 (handler `div` 2 ^ 56);
   0; 0; 0; 0].

Lemma set_gate_run num handler ist dpl m :
  ∃ m', result (set_gate num handler ist dpl) m = Some (tt, m') ∧
    writes (sym_idt + 16 * num) (gate_bytes handler ist dpl) m m'.
Proof.
  eexists. split; [unfold set_gate; cbv zeta; run_simpl; reflexivity|].
  unfold sizeof_idt_entry. set (e := sym_idt + 16 * num). rewrite !st16_eq, !st32_eq. split.
  - cbn [length gate_bytes ld_bytes]. offsets e. read_bytes. unfold gate_bytes. fields.
    rewrite !div_pow2_add by lia. exponents. rewrite ?low_byte, ?high_byte, !byte_of_field by lia.
    rewrite !div_pow2_add by lia. exponents.
    assert (∀ x, u8 (x `mod` 2 ^ 32) = u8 x) as Hlow.
    { intros x. by pose proof (byte_of_field x 32 0 ltac:(lia) ltac:(lia)) as Hb; rewrite !Z.div_1_r in Hb. }
    rewrite Hlow, u8_u8. reflexivity.
  - intros a Ha. cbn [length gate_bytes] in Ha. by read_bytes.
Qed.

(** The task-state descriptor is written as its bytes. *)
Lemma tss_descriptor_bytes base limit :
  0 ≤ limit < 2 ^ 16 →
  tss_descriptor base limit =
    [u8 limit; u8 (limit `div` 2 ^ 8); u8 base; u8 (base `div` 2 ^ 8); u8 (base `div` 2 ^ 16); 0x89; 0;
     u8 (base `div` 2 ^ 24); u8 (base `div` 2 ^ 32); u8 (base `div` 2 ^ 40); u8 (base `div` 2 ^ 48);
     u8 (base `div` 2 ^ 56); 0; 0; 0; 0].
Proof.
  intros Hl. unfold tss_descriptor. cbn [app]. fields.
  assert (Z.land (limit `div` 2 ^ 16) 15 = 0) as -> by (by rewrite Z.div_small).
  assert (∀ x, x `mod` 2 ^ 8 = u8 x) as Hu by done. rewrite !Hu. unfold u32.
  rewrite !low_byte, !high_byte.
  assert (∀ x, u8 (x `mod` 2 ^ 32) = u8 x) as Hlow.
  { intros x. by pose proof (byte_of_field x 32 0 ltac:(lia) ltac:(lia)) as Hb; rewrite !Z.div_1_r in Hb. }
  rewrite Hlow, (div_pow2_add _ 16 8) by lia. change (16 + 8) with 24.
  rewrite !byte_of_field, !div_pow2_add by lia. reflexivity.
Qed.
End descriptors.

(** ** Decoding what was written *)

Lemma writes_keep e bs m m' a n :
  writes e bs m m' → a + Z.of_nat n ≤ e ∨ e + Z.of_nat (length bs) ≤ a → ld_bytes m' a n = ld_bytes m a n.
Proof. intros [_ Ho] Ha. apply ld_bytes_ext. intros b Hb. apply Ho. lia. Qed.

Lemma bytes4 x : is_u32 x → u8 x + 2 ^ 8 * u8 (x `div` 2 ^ 8) + 2 ^ 16 * u8 (x `div` 2 ^ 16) + 2 ^ 24 * u8 (x `div` 2 ^ 24) = x.
Proof.
  unfold is_u32, u8. change (2 ^ 8) with 256. change (2 ^ 16) with 65536. change (2 ^ 24) with 16777216.
  change (2 ^ 32) with 4294967296. intros Hx. Z.to_euclidean_division_equations. lia.
Qed.

Lemma bytes8 x : is_u64 x →
  u8 x + 2 ^ 8 * u8 (x `div` 2 ^ 8) + 2 ^ 16 * u8 (x `div` 2 ^ 16) + 2 ^ 24 * u8 (x `div` 2 ^ 24) +
  2 ^ 32 * (u8 (x `div` 2 ^ 32) + 2 ^ 8 * u8 (x `div` 2 ^ 40) + 2 ^ 16 * u8 (x `div` 2 ^ 48) + 2 ^ 24 * u8 (x `div` 2 ^ 56)) = x.
Proof.
  intros [H0 Hx]. pose proof (bytes4 (u32 x) (u32_range x)) as Hlow.
  assert (is_u32 (x `div` 2 ^ 32)) as Hh by (unfold is_u32; split; [apply Z.div_pos; lia|apply Z.div_lt_upper_bound; lia]).
  pose proof (bytes4 _ Hh) as Hhigh. rewrite !div_pow2_add in Hhigh by lia. 
  change (32 + 8) with 40 in Hhigh. change (32 + 16) with 48 in Hhigh. change (32 + 24) with 56 in Hhigh.
  rewrite Hhigh. unfold u32 in Hlow. rewrite !byte_of_field in Hlow by lia.
  pose proof (byte_of_field x 32 0 ltac:(lia) ltac:(lia)) as Hb. rewrite !Z.div_1_r in Hb. rewrite Hb in Hlow.
  rewrite Hlow. pose proof (Z.div_mod x (2 ^ 32)). lia.
Qed.

(** The granularity byte shares the upper limit bits and the flags. *)
Lemma gran_byte h g :
  0 ≤ h < 16 → is_u8 g → u8 (Z.lor (Z.land h 0x0F) (Z.land g 0xF0)) = 16 * (g `div` 16) + h.
Proof.
  intros Hh Hg.
  assert (Forall (λ h, Forall (λ g, u8 (Z.lor (Z.land h 0x0F) (Z.land g 0xF0)) = 16 * (g `div` 16) + h)
    (seqZ 0 256)) (seqZ 0 16)) as Ha by (apply (bool_decide_unpack _); by vm_compute).
  rewrite Forall_forall in Ha. specialize (Ha h). rewrite Forall_forall in Ha.
  unfold is_u8 in Hg. apply Ha; apply elem_of_seqZ; lia.
Qed.

Lemma seg_of_bytes m a base limit access gran :
  ld_bytes m a 8 = entry_bytes base limit access gran →
  is_u32 base → 0 ≤ limit < 2 ^ 20 → is_u8 access → is_u8 gran →
  seg_base m a = base ∧ seg_limit m a = limit ∧ seg_access m a = access ∧ seg_flags m a = gran `div` 16.
Proof.
  intros Hb Hbase Hlimit Hacc Hgran. unfold entry_bytes in Hb.
  assert (0 ≤ limit `div` 2 ^ 16 < 16) as Hhi.
  { split; [apply Z.div_pos; lia|apply Z.div_lt_upper_bound; lia]. }
  rewrite gran_byte in Hb by done. cbn [ld_bytes] in Hb.
  replace (a + 1 + 1) with (a + 2) in Hb by lia. replace (a + 2 + 1) with (a + 3) in Hb by lia.
  replace (a + 3 + 1) with (a + 4) in Hb by lia. replace (a + 4 + 1) with (a + 5) in Hb by lia.
  replace (a + 5 + 1) with (a + 6) in Hb by lia. replace (a + 6 + 1) with (a + 7) in Hb by lia.
  injection Hb as E0 E1 E2 E3 E4 E5 E6 E7.
  unfold seg_base, seg_limit, seg_access, seg_flags. rewrite !ld16_eq. replace (a + 2 + 1) with (a + 3) by lia.
  rewrite E0, E1, E2, E3, E4, E5, E6, E7. split_and!.
  - rewrite <-(bytes4 base Hbase) at 5. lia.
  - assert ((16 * (gran `div` 16) + limit `div` 2 ^ 16) `mod` 16 = limit `div` 2 ^ 16) as ->.
    { rewrite Z.add_comm, Z.mul_comm, Z.mod_add by lia. by apply Z.mod_small. }
    unfold u8. change (2 ^ 8) with 256. change (2 ^ 16) with 65536. change (2 ^ 20) with 1048576 in Hlimit.
    change (2 ^ 16) with 65536 in Hhi. Z.to_euclidean_division_equations. lia.
  - by apply u8_id.
  - rewrite Z.add_comm, Z.mul_comm, Z.div_add by lia. rewrite Z.div_small by done. lia.
Qed.

(** The task-state descriptor: eight bytes like a segment's, eight more for the base. *)
Lemma tss_of_bytes m a base :
  ld_bytes m a 16 = tss_descriptor base 103 → is_u64 base →
  sys_base m a = base ∧ seg_limit m a = sizeof_tss - 1 ∧ seg_access m a = 0x89 ∧ seg_flags m a = 0.
Proof.
  intros Hb Hbase. rewrite tss_descriptor_bytes in Hb by lia. cbn [ld_bytes] in Hb.
  replace (a + 1 + 1) with (a + 2) in Hb by lia. replace (a + 2 + 1) with (a + 3) in Hb by lia.
  replace (a + 3 + 1) with (a + 4) in Hb by lia. replace (a + 4 + 1) with (a + 5) in Hb by lia.
  replace (a + 5 + 1) with (a + 6) in Hb by lia. replace (a + 6 + 1) with (a + 7) in Hb by lia.
  replace (a + 7 + 1) with (a + 8) in Hb by lia. replace (a + 8 + 1) with (a + 9) in Hb by lia.
  replace (a + 9 + 1) with (a + 10) in Hb by lia. replace (a + 10 + 1) with (a + 11) in Hb by lia.
  injection Hb as E0 E1 E2 E3 E4 E5 E6 E7 E8 E9 E10 E11 _ _ _ _.
  unfold sys_base, seg_base, seg_limit, seg_access, seg_flags. rewrite !ld16_eq, ld32_eq.
  replace (a + 2 + 1) with (a + 3) by lia. replace (a + 8 + 1) with (a + 9) by lia.
  replace (a + 9 + 1) with (a + 10) by lia. replace (a + 10 + 1) with (a + 11) by lia.
  rewrite E0, E1, E2, E3, E4, E5, E6, E7, E8, E9, E10, E11. split_and!; [|done..].
  rewrite <-(bytes8 base Hbase) at 9. lia.
Qed.

Lemma gate_of_bytes m a handler ist dpl :
  ld_bytes m a 16 = gate_bytes handler ist dpl → is_u64 handler →
  gate_offset m a = handler ∧ gate_selector m a = GDT_KERNEL_CODE ∧ gate_present m a = true ∧
  gate_type m a = 0xE ∧ gate_dpl m a = dpl `mod` 4 ∧ gate_ist m a = ist `mod` 8.
Proof.
  intros Hb Hh. unfold gate_bytes in Hb. cbn [ld_bytes] in Hb.
  assert (∃ b, u8 (Z.lor 0x8E (Z.shiftl (Z.land dpl 3) 5)) = b ∧ Z.testbit b 7 = true ∧ b `mod` 16 = 0xE ∧
    (b `div` 32) `mod` 4 = dpl `mod` 4) as (b & Eb & H1 & H2 & H3).
  { change 3 with (2 ^ 2 - 1). rewrite mask_mod by lia. change (2 ^ 2) with 4.
    assert (Forall (λ d, Z.testbit (u8 (Z.lor 0x8E (Z.shiftl d 5))) 7 = true ∧ u8 (Z.lor 0x8E (Z.shiftl d 5)) `mod` 16 = 0xE ∧
      (u8 (Z.lor 0x8E (Z.shiftl d 5)) `div` 32) `mod` 4 = d) (seqZ 0 4)) as Ha by (apply (bool_decide_unpack _); by vm_compute).
    rewrite Forall_forall in Ha. eexists. split; [done|]. apply Ha, elem_of_seqZ.
    pose proof (Z.mod_pos_bound dpl 4). lia. }
  rewrite Eb in Hb.
  replace (a + 1 + 1) with (a + 2) in Hb by lia. replace (a + 2 + 1) with (a + 3) in Hb by lia.
  replace (a + 3 + 1) with (a + 4) in Hb by lia. replace (a + 4 + 1) with (a + 5) in Hb by lia.
  replace (a + 5 + 1) with (a + 6) in Hb by lia. replace (a + 6 + 1) with (a + 7) in Hb by lia.
  replace (a + 7 + 1) with (a + 8) in Hb by lia. replace (a + 8 + 1) with (a + 9) in Hb by lia.
  replace (a + 9 + 1) with (a + 10) in Hb by lia. replace (a + 10 + 1) with (a + 11) in Hb by lia.
  injection Hb as E0 E1 E2 E3 E4 E5 E6 E7 E8 E9 E10 E11 _ _ _ _.
  unfold gate_offset, gate_selector, gate_present, gate_type, gate_dpl, gate_ist. rewrite !ld16_eq, ld32_eq.
  replace (a + 6 + 1) with (a + 7) by lia. replace (a + 8 + 1) with (a + 9) by lia.
  replace (a + 9 + 1) with (a + 10) by lia. replace (a + 10 + 1) with (a + 11) by lia.
  replace (a + 2 + 1) with (a + 3) by lia.
  rewrite E0, E1, E2, E3, E4, E5, E6, E7, E8, E9, E10, E11. split_and!; [|done..|].
  - rewrite <-(bytes8 handler Hh) at 9. lia.
  - change 0x7 with (2 ^ 3 - 1). rewrite mask_mod by lia. change (2 ^ 3) with 8. pose proof (Z.mod_pos_bound ist 8).
    rewrite u8_id by (unfold is_u8; lia). by rewrite Z.mod_mod.
Qed.

Lemma result_for_each_snoc {S A} (l : list A) x (f : A → M S unit) s :
  result (for_each (l ++ [x]) f) s =
  match result (for_each l f) s with Some (_, s') => result (f x) s' | None => None end.
Proof.
  revert s. induction l as [|y l IH]; intros s.
  - cbn [app]. rewrite result_for_each_cons. cbn [for_each]. rewrite result_ret.
    by destruct (result (f x) s) as [[[] s']|].
  - cbn [app]. rewrite !result_for_each_cons. destruct (result (f y) s) as [[u s']|]; [apply IH|done].
Qed.

(** ** Theorems *)

Section theorems.
Context `{Link}.

(** Base, limit, access byte and flags of the descriptors, by index. *)
Definition gdt_spec : list (Z * Z * Z * Z) :=
  [(0, 0, 0, 0); (0, 0xFFFFF, 0x9A, 0xA); (0, 0xFFFFF, 0x92, 0xC); (0, 0xFFFFF, 0xFA, 0xC);
   (0, 0xFFFFF, 0xF2, 0xC); (0, 0xFFFFF, 0xFA, 0xA)].

(** What [set_entry] is given for them. *)
Definition gdt_args : list (Z * Z * Z * Z) :=
  [(0, 0, 0, 0); (0, 0xFFFFF, 0x9A, 0xA0); (0, 0xFFFFF, 0x92, 0xC0); (0, 0xFFFFF, 0xFA, 0xCF);
   (0, 0xFFFFF, 0xF2, 0xC0); (0, 0xFFFFF, 0xFA, 0xA0)].

Definition set_entry_arg (ix : nat * (Z * Z * Z * Z)) : M mem unit :=
  let '(i, (base, limit, access, gran)) := ix in set_entry (Z.of_nat i) base limit access gran.

Lemma set_entries_run k m :
  (k ≤ 6)%nat →
  ∃ m', result (for_each (take k (imap pair gdt_args)) set_entry_arg) m = Some (tt, m') ∧
    (∀ i base limit access gran, (i < k)%nat → gdt_args !! i = Some (base, limit, access, gran) →
       ld_bytes m' (sym_gdt + 8 * Z.of_nat i) 8 = entry_bytes base limit access gran) ∧
    ∀ a, a < sym_gdt ∨ sym_gdt + 8 * Z.of_nat k ≤ a → ld8 m' a = ld8 m a.
Proof.
  induction k as [|k IH]; intros Hk.
  { exists m. split_and!; [done|lia|done]. }
  destruct IH as (m1 & E1 & Hb1 & Ho1); [lia|].
  destruct (lookup_lt_is_Some_2 gdt_args k) as [[[[base limit] access] gran] Hx]; [cbn; lia|].
  rewrite (take_S_r _ k (k, (base, limit, access, gran))) by (by rewrite list_lookup_imap, Hx).
  destruct (set_entry_run (Z.of_nat k) base limit access gran m1) as (m2 & E2 & Hw).
  exists m2. split_and!.
  - by rewrite result_for_each_snoc, E1.
  - intros i b l a g Hi Hl. destruct (decide (i = k)) as [->|Hne].
    + rewrite Hl in Hx. injection Hx as -> -> -> ->. apply Hw.
    + rewrite (writes_keep _ _ _ _ _ _ Hw); [apply Hb1; [lia|done]|]. cbn [length entry_bytes]. lia.
  - intros a Ha. rewrite (proj2 Hw); [apply Ho1; lia|]. cbn [length entry_bytes]. lia.
Qed.

Lemma gdt_init_run m :
  0 ≤ sym_tss →
  ∃ m', result gdt_init m = Some (tt, m') ∧
    (∀ i base limit access gran, gdt_args !! i = Some (base, limit, access, gran) →
       ld_bytes m' (sym_gdt + 8 * Z.of_nat i) 8 = entry_bytes base limit access gran) ∧
    ld_bytes m' (sym_gdt + 48) 16 = tss_descriptor sym_tss 103 ∧
    ∀ a, a < sym_gdt ∨ sym_gdt + 64 ≤ a → ld8 m' a = ld8 m a.
Proof.
  intros Ht. destruct (set_entries_run 6 m) as (m1 & E1 & Hb & Ho); [lia|].
  set (bs := tss_descriptor sym_tss 103).
  assert (Hbs : bs = tss_descriptor sym_tss 103) by done. rewrite tss_descriptor_bytes in Hbs by lia.
  assert (Hlen : length bs = 16%nat) by (by rewrite Hbs).
  assert (Hu8 : Forall is_u8 bs).
  { rewrite Hbs. repeat apply Forall_cons_2; first [apply u8_range|by vm_compute|apply Forall_nil_2]. }
  exists (st_bytes m1 (sym_gdt + 48) bs). split_and!.
  - clear Hbs Hlen Hu8. unfold gdt_init. cbv zeta.
    change (sizeof_gdt_entry * GDT_NORMAL_ENTRIES) with 48. change (u32 (sizeof_tss - 1)) with 103.
    fold bs. clearbody bs. change (result (set_entry 0 0 0 0 0 ;; set_entry 1 0 0xFFFFF 0x9A 0xA0 ;;
      set_entry 2 0 0xFFFFF 0x92 0xC0 ;; set_entry 3 0 0xFFFFF 0xFA 0xCF ;; set_entry 4 0 0xFFFFF 0xF2 0xC0 ;;
      set_entry 5 0 0xFFFFF 0xFA 0xA0 ;; mret tt) m = Some (tt, m1)) in E1. revert E1.
    do 6 (rewrite !(result_bind (set_entry _ _ _ _ _)); lazymatch goal with |- context [result (set_entry ?i ?b ?l ?x ?g) ?s] =>
      destruct (result (set_entry i b l x g) s) as [[[] ?]|]; [|done] end).
    rewrite result_ret. intros [= ->]. by run_simpl.
  - intros i base limit access gran Hi. pose proof (lookup_lt_Some _ _ _ Hi) as Hlt. cbn in Hlt.
    rewrite <-(Hb i base limit access gran); [|lia|done]. apply ld_bytes_ext. intros b Hb'.
    apply ld8_st_bytes_out. lia.
  - rewrite <-Hlen. by apply ld_st_bytes.
  - intros a Ha. rewrite ld8_st_bytes_out by lia. apply Ho. lia.
Qed.
End theorems.

Section gdt_theorems.
Context `{Link}.

End gdt_theorems.


(** ** The interrupt table *)

(** The vectors [idt_init] gives a gate: those of the loop and the system call. *)
Definition gate_used `{Link} (v : Z) : Prop := (0 ≤ v < 48 ∨ v = 0x80) ∧ isr_stub v ≠ 0.

(** A gate as the processor reads it. *)
Definition gate_is `{Link} (m : mem) (v handler dpl : Z) : Prop :=
  let a := sym_idt + 16 * v in
  gate_offset m a = handler ∧ gate_selector m a = GDT_KERNEL_CODE ∧ gate_present m a = true ∧
  gate_type m a = 0xE ∧ gate_dpl m a = dpl ∧ gate_ist m a = 0.

Section idt_theorems.
Context `{Link} (Hstubs : Forall is_u64 isr_stub_table).

Lemma isr_stub_u64 v : is_u64 (isr_stub v).
Proof using Hstubs.
  unfold isr_stub. rewrite list_lookup_total_alt.
  destruct (isr_stub_table !! Z.to_nat v) as [h|] eqn:E; [|done].
  rewrite Forall_lookup in Hstubs. by apply (Hstubs _ _ E).
Qed.

Definition gate_addr (v : Z) : Z := sym_idt + 16 * v.

(** The loop over the exception and interrupt vectors, cut off at [n]. *)
Lemma set_gates_run n m :
  (n ≤ 48)%nat →
  ∃ m', result (for_each (seqZ 0 (Z.of_nat n)) (λ i,
      if negb (isr_stub i =? 0) then set_gate (u8 i) (isr_stub i) 0 0 else mret tt)) m = Some (tt, m') ∧
    (∀ v, 0 ≤ v < Z.of_nat n → isr_stub v ≠ 0 → ld_bytes m' (gate_addr v) 16 = gate_bytes (isr_stub v) 0 0) ∧
    ∀ a, (∀ v, 0 ≤ v < Z.of_nat n → isr_stub v ≠ 0 → a < gate_addr v ∨ gate_addr v + 16 ≤ a) → ld8 m' a = ld8 m a.
Proof using Type.
  induction n as [|n IH]; intros Hn; [exists m; split_and!; [done|lia|done]|].
  destruct IH as (m1 & E1 & Hb & Ho); [lia|]. rewrite seqZ_S.
  rewrite result_for_each_snoc, E1. rewrite Z.add_0_l, u8_id by (unfold is_u8; lia).
  destruct (isr_stub (Z.of_nat n) =? 0) eqn:Ez; cbn [negb].
  { apply Z.eqb_eq in Ez. exists m1. split_and!; [done| |].
    - intros v Hv Hs. apply Hb; [|done]. assert (v ≠ Z.of_nat n) by congruence. lia.
    - intros a Ha. apply Ho. intros v Hv. apply Ha. lia. }
  apply Z.eqb_neq in Ez. destruct (set_gate_run (Z.of_nat n) (isr_stub (Z.of_nat n)) 0 0 m1) as (m2 & E2 & Hw).
  fold (gate_addr (Z.of_nat n)) in Hw. exists m2. split_and!; [done| |].
  - intros v Hv Hs. destruct (decide (v = Z.of_nat n)) as [->|Hne]; [apply Hw|].
    rewrite (writes_keep _ _ _ _ _ _ Hw); [apply Hb; [lia|done]|]. cbn [length gate_bytes]. unfold gate_addr. lia.
  - intros a Ha. rewrite (proj2 Hw); [apply Ho; intros; apply Ha; [lia|done]|].
    cbn [length gate_bytes]. apply Ha; [lia|done].
Qed.

(** The system-call gate after the loop. *)
Lemma idt_init_run m :
  ∃ m', result idt_init m = Some (tt, m') ∧
    (∀ v, gate_used v → ld_bytes m' (gate_addr v) 16 = gate_bytes (isr_stub v) 0 (if decide (v = 0x80) then 3 else 0)) ∧
    ∀ a, (∀ v, gate_used v → a < gate_addr v ∨ gate_addr v + 16 ≤ a) → ld8 m' a = ld8 m a.
Proof using Type.
  destruct (set_gates_run 48 m) as (m1 & E1 & Hb & Ho); [done|]. change (Z.of_nat 48) with 48 in *.
  unfold idt_init. rewrite (result_bind (for_each _ _)), E1, result_bind.
  assert (∀ v, gate_used v → v ≠ 0x80 → 0 ≤ v < 48 ∧ isr_stub v ≠ 0) as Hu by (unfold gate_used; naive_solver).
  destruct (isr_stub 128 =? 0) eqn:Ez; cbn [negb].
  { apply Z.eqb_eq in Ez. exists m1. split_and!; [done| |].
    - intros v Hv. rewrite decide_False by (intros ->; by destruct Hv). apply Hb; apply Hu; [done|intros ->; by destruct Hv|done|].
      intros ->. by destruct Hv.
    - intros a Ha. apply Ho. intros v Hv Hs. apply Ha. by split; [left|]. }
  apply Z.eqb_neq in Ez. destruct (set_gate_run 0x80 (isr_stub 128) 0 3 m1) as (m2 & E2 & Hw).
  fold (gate_addr 0x80) in Hw. exists m2. split_and!; [by rewrite E2| |].
  - intros v Hv. destruct (decide (v = 0x80)) as [->|Hne]; [apply Hw|]. destruct (Hu v Hv Hne) as [Hlt Hs].
    rewrite (writes_keep _ _ _ _ _ _ Hw); [by apply Hb|]. unfold gate_addr. lia.
  - intros a Ha. rewrite (proj2 Hw); [apply Ho; intros v Hv Hs; apply Ha; by split; [left|]|].
    apply (Ha 0x80). by split; [right|].
Qed.

End idt_theorems.


(** ** The interrupt controller as a device

    What a pair of 8259A controllers makes of the port writes, by its data
    sheet: a command byte with bit 4 set starts the initialisation, the next
    three data bytes are the vector base, the cascade wiring and the mode, and
    any other data byte is the interrupt mask. *)

Inductive icw := Ready | Icw2 | Icw3 | Icw4.

Record chip := Chip {
  ch_phase : icw;
  ch_vector : Z;    (** vector of the chip's first line *)
  ch_cascade : Z;
  ch_mode : Z;
  ch_mask : Z;      (** a set bit disables the line *)
}.

#[export] Instance icw_eq_dec : EqDecision icw.
Proof. solve_decision. Defined.
#[export] Instance eta_chip : Eta chip := λ c, Chip (ch_phase c) (ch_vector c) (ch_cascade c) (ch_mode c) (ch_mask c).

Definition chip_command (v : Z) (c : chip) : chip :=
  if Z.testbit v 4 then c <| ch_phase := Icw2 |> <| ch_mask := 0 |> else c.

Definition chip_data (v : Z) (c : chip) : chip :=
  match ch_phase c with
  | Icw2 => c <| ch_vector := 8 * (v `div` 8) |> <| ch_phase := Icw3 |>
  | Icw3 => c <| ch_cascade := v |> <| ch_phase := Icw4 |>
  | Icw4 => c <| ch_mode := v |> <| ch_phase := Ready |>
  | Ready => c <| ch_mask := v |>
  end.

(** Master and slave see the writes to their own two ports. *)
Definition pic_write (e : event) (p : chip * chip) : chip * chip :=
  match e with
  | EvOutb port v =>
      if port =? PIC_MASTER_CMD then (chip_command v p.1, p.2)
      else if port =? PIC_MASTER_DATA then (chip_data v p.1, p.2)
      else if port =? PIC_SLAVE_CMD then (p.1, chip_command v p.2)
      else if port =? PIC_SLAVE_DATA then (p.1, chip_data v p.2)
      else p
  | _ => p
  end.

Definition pic_run (l : list event) (p : chip * chip) : chip * chip := foldl (λ p e, pic_write e p) p l.

(** Line [irq] is enabled when its bit is clear in its chip's mask. *)
Definition irq_masked (p : chip * chip) (irq : Z) : bool :=
  if irq <? 8 then Z.testbit (ch_mask p.1) irq else Z.testbit (ch_mask p.2) (irq - 8).

(** What [inb] reads from the mask ports. *)
Definition pic_inb (p : chip * chip) (port : Z) : Z :=
  if port =? PIC_MASTER_DATA then ch_mask p.1 else ch_mask p.2.

Section pic_theorems.
Context {S : Type}.
Implicit Types (s : S) (p : chip * chip).

(** [pic_init] of pic_pit.c, run against the two interrupt controllers in
    whatever state the firmware left them, completes the initialisation of both
    (8086 mode, slave on line 2), places their lines on vectors 0x20 to 0x2F,
    and leaves every line masked but the timer's. *)
Theorem pic_init_programs s p :
  let p' := pic_run (trace pic_init s) p in
  ch_phase p'.1 = Ready ∧ ch_phase p'.2 = Ready ∧
  ch_vector p'.1 = IDT_IRQ_BASE ∧ ch_vector p'.2 = IDT_IRQ_BASE + 8 ∧
  Z.testbit (ch_cascade p'.1) 2 = true ∧ ch_cascade p'.2 = 2 ∧
  ch_mode p'.1 = 1 ∧ ch_mode p'.2 = 1 ∧
  ∀ irq, 0 ≤ irq < 16 → irq_masked p' irq = negb (irq =? 0).
Proof.
  destruct p as [m l]. cbv zeta. split_and!; [reflexivity..|].
  intros irq Hirq. unfold irq_masked.
  assert (ch_mask (pic_run (trace pic_init s) (m, l)).1 = 0xFE ∧ ch_mask (pic_run (trace pic_init s) (m, l)).2 = 0xFF) as [-> ->] by done.
  assert (Forall (λ i, (if i <? 8 then Z.testbit 0xFE i else Z.testbit 0xFF (i - 8)) = negb (i =? 0)) (seqZ 0 16)) as Ha
    by (by apply (bool_decide_unpack _); vm_compute).
  rewrite Forall_forall in Ha. apply Ha, elem_of_seqZ. lia.
Qed.

Lemma mask_bits x k i :
  is_u8 x → 0 ≤ k < 8 → 0 ≤ i < 8 →
  Z.testbit (u8 (Z.lor x (Z.shiftl 1 k))) i = Z.testbit x i || (i =? k) ∧
  Z.testbit (u8 (Z.land x (Z.lnot (Z.shiftl 1 k)))) i = Z.testbit x i && negb (i =? k).
Proof.
  intros Hx Hk Hi. unfold u8. rewrite !Z.mod_pow2_bits_low, Z.lor_spec, Z.land_spec, Z.lnot_spec by lia.
  rewrite Z.shiftl_1_l, pow2_testbit by lia.
  destruct (Z.eqb_spec i k); [by rewrite bool_decide_true|by rewrite bool_decide_false].
Qed.

(** [pic_mask_irq] and [pic_unmask_irq] of pic_pit.c disable and enable
    exactly the line they are given, on the chip that has it: every other line
    keeps its state. *)
Theorem pic_mask_exact s p irq :
  ch_phase p.1 = Ready → ch_phase p.2 = Ready → is_u8 (ch_mask p.1) → is_u8 (ch_mask p.2) → 0 ≤ irq < 16 →
  ∀ i, 0 ≤ i < 16 →
    irq_masked (pic_run (trace (pic_mask_irq (pic_inb p) irq) s) p) i = irq_masked p i || (i =? irq) ∧
    irq_masked (pic_run (trace (pic_unmask_irq (pic_inb p) irq) s) p) i = irq_masked p i && negb (i =? irq).
Proof.
  intros H1 H2 H3 H4 Hirq i Hi. destruct p as [m l]. cbn [fst snd] in *.
  unfold pic_mask_irq, pic_unmask_irq, trace, outb, emit. cbn [trace_of pic_run foldl].
  unfold pic_write. destruct (irq <? 8) eqn:E; [apply Z.ltb_lt in E|apply Z.ltb_ge in E].
  - change (PIC_MASTER_DATA =? PIC_MASTER_CMD) with false. change (PIC_MASTER_DATA =? PIC_MASTER_DATA) with true.
    cbv iota. unfold chip_data, irq_masked, pic_inb. cbn [fst snd]. rewrite H1.
    change (PIC_MASTER_DATA =? PIC_MASTER_DATA) with true. cbv iota.
    rewrite (proj2 (Z.leb_gt 8 irq)) by lia. cbn [ch_mask setter].
    destruct (i <? 8) eqn:Ei; [apply Z.ltb_lt in Ei; apply mask_bits; lia || done|apply Z.ltb_ge in Ei].
    rewrite (proj2 (Z.eqb_neq i irq)) by lia. by rewrite orb_false_r, andb_true_r.
  - change (PIC_SLAVE_DATA =? PIC_MASTER_CMD) with false. change (PIC_SLAVE_DATA =? PIC_MASTER_DATA) with false.
    change (PIC_SLAVE_DATA =? PIC_SLAVE_CMD) with false. change (PIC_SLAVE_DATA =? PIC_SLAVE_DATA) with true.
    cbv iota. unfold chip_data, irq_masked, pic_inb. cbn [fst snd]. rewrite H2.
    change (PIC_SLAVE_DATA =? PIC_MASTER_DATA) with false. cbv iota.
    rewrite (proj2 (Z.leb_le 8 irq)) by lia. cbn [ch_mask setter].
    destruct (i <? 8) eqn:Ei; [apply Z.ltb_lt in Ei|apply Z.ltb_ge in Ei].
    + rewrite (proj2 (Z.eqb_neq i irq)) by lia. by rewrite orb_false_r, andb_true_r.
    + replace (i =? irq) with (i - 8 =? irq - 8) by (by destruct (Z.eqb_spec i irq), (Z.eqb_spec (i - 8) (irq - 8)); lia).
      apply mask_bits; lia || done.
Qed.
End pic_theorems.

Lemma pic_mask_exact_witness :
  let p := pic_run (trace (pic_init (S:=unit)) tt) (Chip Ready 0 0 0 0, Chip Ready 0 0 0 0) in
  irq_masked p 1 = true ∧ irq_masked (pic_run (trace (pic_unmask_irq (pic_inb p) 1) tt) p) 1 = false ∧
  irq_masked (pic_run (trace (pic_mask_irq (pic_inb p) 12) tt) p) 12 = true.
Proof.
  cbv zeta. set (p := pic_run _ _). assert (p = (Chip Ready 0x20 4 1 0xFE, Chip Ready 0x28 2 1 0xFF)) as Hp by done.
  rewrite Hp.
  assert (∀ irq, 0 ≤ irq < 16 → ∀ i, 0 ≤ i < 16 → _) as Hm
    by (intros irq Hirq; exact (pic_mask_exact tt (Chip Ready 0x20 4 1 0xFE, Chip Ready 0x28 2 1 0xFF) irq
          eq_refl eq_refl ltac:(unfold is_u8; cbn; lia) ltac:(unfold is_u8; cbn; lia) Hirq)).
  split_and!; [done| |].
  - etransitivity; [exact (proj2 (Hm 1 ltac:(lia) 1 ltac:(lia)))|done].
  - etransitivity; [exact (proj1 (Hm 12 ltac:(lia) 12 ltac:(lia)))|done].
Defined.

(** The comment at [pit_init] says mode 2; the control byte selects channel 0,
    both bytes of the divisor, and mode 3. *)
Lemma pit_init_mode {S} (s : S) :
  ∃ c lo hi rest, trace pit_init s = EvOutb PIT_CMD c :: EvOutb PIT_CH0 lo :: EvOutb PIT_CH0 hi :: rest ∧
    bits c 6 2 = 0 ∧ bits c 4 2 = 3 ∧ bits c 1 3 = 3 ∧ lo + 2 ^ 8 * hi = PIT_BASE_HZ `div` PIT_HZ.
Proof. unfold trace. do 4 eexists. split; [reflexivity|]. by vm_compute. Qed.
