(* ===== verification/Kernel.v ===== *)
(** * Kernel: the kernel's data (include/kernel.h) and its global state

    The process table, the message pool and the static variables of the kernel
    in one record, of which every component is a lens.  Pointers into the two
    static arrays [proc_table] and [msg_pool] are slot numbers ([option nat],
    [None] for a null pointer); all other pointers are addresses. *)

From S2P Require Import Prelude Effects Memory Types Pmm Heap Vmm Arch.

Definition PROC_MAX : nat := 64.
Definition MAX_FDS : nat := 16.
Definition KSTACK_SIZE : Z := PAGE_SIZE * 4.
Definition IPC_MSG_MAX : Z := 256.

Inductive proc_state :=
  | PROC_UNUSED | PROC_READY | PROC_RUNNING | PROC_SLEEPING | PROC_WAITING | PROC_ZOMBIE.

#[export] Instance proc_state_eq_dec : EqDecision proc_state.
Proof. solve_decision. Defined.

(** [cpu_context_t]: the registers [switch_context] saves and restores. *)
Record cpu_context := CpuContext {
  c_r15 : Z; c_r14 : Z; c_r13 : Z; c_r12 : Z; c_rbx : Z; c_rbp : Z; c_rip : Z; c_rsp : Z;
}.
#[export] Instance eta_cpu_context : Eta cpu_context := λ c,
  CpuContext (c_r15 c) (c_r14 c) (c_r13 c) (c_r12 c) (c_rbx c) (c_rbp c) (c_rip c) (c_rsp c).
Definition context_zero : cpu_context := CpuContext 0 0 0 0 0 0 0 0.

(** [fd_entry_t] *)
Record fd_entry := FdEntry { fd_open : bool; fd_offset : Z; fd_file : Z }.
Definition fd_zero : fd_entry := FdEntry false 0 NULL.

(** [process_t] *)
Record process := Process {
  pid : Z;
  ppid : Z;
  state : proc_state;
  exit_code : Z;
  user_mode : bool;
  pml4 : Z;
  context : cpu_context;
  kernel_rsp : Z;
  sleep_ticks : Z;
  wait_pid : Z;
  msg_queue : option nat;
  msg_tail : option nat;
  msg_count : Z;
  fds : list fd_entry;
  kstack : Z;
  brk : Z;
  tf : Z;
  name : string;
  cr3 : Z;
  is_user : bool;
  started : bool;
  user_rip : Z;
  user_rsp : Z;
  user_sp : Z;
}.
#[export] Instance eta_process : Eta process := λ p,
  Process (pid p) (ppid p) (state p) (exit_code p) (user_mode p) (pml4 p) (context p)
    (kernel_rsp p) (sleep_ticks p) (wait_pid p) (msg_queue p) (msg_tail p) (msg_count p)
    (fds p) (kstack p) (brk p) (tf p) (name p) (cr3 p) (is_user p) (started p)
    (user_rip p) (user_rsp p) (user_sp p).

(** A slot filled with zero bytes: static storage, or [memset]. *)
Definition process_zero : process :=
  Process 0 0 PROC_UNUSED 0 false NULL context_zero 0 0 0 None None 0
    (replicate MAX_FDS fd_zero) NULL 0 NULL "" 0 false false 0 0 0.
#[export] Instance process_inhabited : Inhabited process := populate process_zero.

(** [ipc_message_t] in the pool; [m_data] holds the [IPC_MSG_MAX] bytes of [data]. *)
Record ipc_message := IpcMessage {
  m_from : Z;
  m_type : Z;
  m_len : Z;
  m_data : list Z;
  m_next : option nat;
}.
#[export] Instance eta_ipc_message : Eta ipc_message := λ m,
  IpcMessage (m_from m) (m_type m) (m_len m) (m_data m) (m_next m).
Definition message_zero : ipc_message := IpcMessage 0 0 0 (replicate (Z.to_nat IPC_MSG_MAX) 0) None.
#[export] Instance message_inhabited : Inhabited ipc_message := populate message_zero.

Definition IPC_POOL_SIZE : nat := 128.

(** The static variables of the kernel.  [k_mem] is the memory that C pointers
    other than those into page tables and heap blocks address; [k_if] is the
    interrupt flag of the processor. *)
Record kernel := Kernel {
  k_mem : mem;
  k_vmm : vmm;
  k_heap : heap;
  k_if : bool;
  proc_table : list process;
  current_proc : option nat;
  ticks : Z;
  next_pid : Z;
  msg_pool : list ipc_message;
  msg_used : list bool;
}.
#[export] Instance eta_kernel : Eta kernel := λ s,
  Kernel (k_mem s) (k_vmm s) (k_heap s) (k_if s) (proc_table s) (current_proc s) (ticks s)
    (next_pid s) (msg_pool s) (msg_used s).

(** Static storage before [kernel_main]. *)
Definition kernel_zero (v : vmm) : kernel :=
  Kernel ∅ v heap_zero false (replicate PROC_MAX process_zero) None 0 1
    (replicate IPC_POOL_SIZE message_zero) (replicate IPC_POOL_SIZE false).

(** ** The components as lenses *)

#[export] Program Instance lens_kernel_mem : Lens kernel mem := {|
  view := k_mem;
  put m s := s <| k_mem := m |>;
|}.
Solve Obligations with (by intros []).

#[export] Program Instance lens_kernel_vmm : Lens kernel vmm := {|
  view := k_vmm;
  put v s := s <| k_vmm := v |>;
|}.
Solve Obligations with (by intros []).

#[export] Program Instance lens_kernel_heap : Lens kernel heap := {|
  view := k_heap;
  put h s := s <| k_heap := h |>;
|}.
Solve Obligations with (by intros []).

#[export] Program Instance lens_kernel_pmm : Lens kernel pmm := {|
  view s := v_pmm (k_vmm s);
  put p s := s <| k_vmm := (k_vmm s) <| v_pmm := p |> |>;
|}.
Solve Obligations with (by intros [? []]).

(** ** The process table *)

(** [proc_table[i]] *)
Definition proc (s : kernel) (i : nat) : process := proc_table s !!! i.
Definition upd_proc (i : nat) (f : process → process) (s : kernel) : kernel :=
  s <| proc_table := alter f i (proc_table s) |>.

(** [msg_pool[i]] *)
Definition msg (s : kernel) (i : nat) : ipc_message := msg_pool s !!! i.
Definition upd_msg (i : nat) (f : ipc_message → ipc_message) (s : kernel) : kernel :=
  s <| msg_pool := alter f i (msg_pool s) |>.

(** The processor's interrupt flag. *)
Definition save_flags : M kernel bool := gets k_if.
Definition cli : M kernel unit := instruction Cli ;; modify (λ s, s <| k_if := false |>).
Definition sti : M kernel unit := instruction Sti ;; modify (λ s, s <| k_if := true |>).
Definition restore_flags (f : bool) : M kernel unit := modify (λ s, s <| k_if := f |>).

(** [switch_context(&old->context, &new->context)]: see Effects.  Switching to
    itself saves and restores the same registers and returns. *)
Definition switch_context (old new : nat) : M kernel unit := λ s,
  if decide (old = new) then Done [] tt s else Switch [] old new s (λ s', Done [] tt s').

Section access.
Implicit Types s : kernel.

Lemma proc_upd s i j f :
  (i < length (proc_table s))%nat →
  proc (upd_proc i f s) j = if decide (i = j) then f (proc s i) else proc s j.
Proof.
  intros Hi. unfold proc, upd_proc. simpl. case_decide as E.
  - subst. rewrite list_lookup_total_alt, list_lookup_alter_eq, list_lookup_total_alt.
    destruct (lookup_lt_is_Some_2 _ _ Hi) as [p ->]. done.
  - by rewrite !list_lookup_total_alt, list_lookup_alter_ne.
Qed.

Lemma msg_upd s i j f :
  (i < length (msg_pool s))%nat →
  msg (upd_msg i f s) j = if decide (i = j) then f (msg s i) else msg s j.
Proof.
  intros Hi. unfold msg, upd_msg. simpl. case_decide as E.
  - subst. rewrite list_lookup_total_alt, list_lookup_alter_eq, list_lookup_total_alt.
    destruct (lookup_lt_is_Some_2 _ _ Hi) as [p ->]. done.
  - by rewrite !list_lookup_total_alt, list_lookup_alter_ne.
Qed.

Lemma length_upd_proc i f s : length (proc_table (upd_proc i f s)) = length (proc_table s).
Proof. apply length_alter. Qed.

Lemma length_upd_msg i f s : length (msg_pool (upd_msg i f s)) = length (msg_pool s).
Proof. apply length_alter. Qed.

Lemma proc_upd_eq s i f :
  (i < length (proc_table s))%nat → proc (upd_proc i f s) i = f (proc s i).
Proof. intros Hi. by rewrite proc_upd, decide_True. Qed.

Lemma proc_upd_ne s i j f : i ≠ j → proc (upd_proc i f s) j = proc s j.
Proof.
  intros Hne. unfold proc, upd_proc. simpl. by rewrite !list_lookup_total_alt, list_lookup_alter_ne.
Qed.

(** Updates of the other components do not reach the process table, nor the
    other way round. *)
Lemma proc_set_mem s m j : proc (s <| k_mem := m |>) j = proc s j.
Proof. done. Qed.
Lemma proc_set_vmm s v j : proc (s <| k_vmm := v |>) j = proc s j.
Proof. done. Qed.
Lemma proc_set_heap s h j : proc (s <| k_heap := h |>) j = proc s j.
Proof. done. Qed.
Lemma proc_set_next s n j : proc (s <| next_pid := n |>) j = proc s j.
Proof. done. Qed.
Lemma proc_set_current s c j : proc (s <| current_proc := c |>) j = proc s j.
Proof. done. Qed.
Lemma proc_set_ticks s n j : proc (s <| ticks := n |>) j = proc s j.
Proof. done. Qed.
Lemma proc_set_if s b j : proc (s <| k_if := b |>) j = proc s j.
Proof. done. Qed.
Lemma proc_set_used s u j : proc (s <| msg_used := u |>) j = proc s j.
Proof. done. Qed.
Lemma proc_upd_msg s i f j : proc (upd_msg i f s) j = proc s j.
Proof. done. Qed.

Lemma table_set_mem s m : proc_table (s <| k_mem := m |>) = proc_table s.
Proof. done. Qed.
Lemma table_set_vmm s v : proc_table (s <| k_vmm := v |>) = proc_table s.
Proof. done. Qed.
Lemma table_set_heap s h : proc_table (s <| k_heap := h |>) = proc_table s.
Proof. done. Qed.
Lemma table_set_next s n : proc_table (s <| next_pid := n |>) = proc_table s.
Proof. done. Qed.
Lemma table_set_current s c : proc_table (s <| current_proc := c |>) = proc_table s.
Proof. done. Qed.
Lemma table_set_ticks s n : proc_table (s <| ticks := n |>) = proc_table s.
Proof. done. Qed.
Lemma table_set_if s b : proc_table (s <| k_if := b |>) = proc_table s.
Proof. done. Qed.
Lemma table_set_used s u : proc_table (s <| msg_used := u |>) = proc_table s.
Proof. done. Qed.
Lemma table_upd_msg s i f : proc_table (upd_msg i f s) = proc_table s.
Proof. done. Qed.

Lemma msg_upd_eq s i f :
  (i < length (msg_pool s))%nat → msg (upd_msg i f s) i = f (msg s i).
Proof. intros Hi. by rewrite msg_upd, decide_True. Qed.

Lemma msg_upd_ne s i j f : i ≠ j → msg (upd_msg i f s) j = msg s j.
Proof.
  intros Hne. unfold msg, upd_msg. simpl. by rewrite !list_lookup_total_alt, list_lookup_alter_ne.
Qed.

Lemma msg_set_mem s m j : msg (s <| k_mem := m |>) j = msg s j.
Proof. done. Qed.
Lemma msg_set_vmm s v j : msg (s <| k_vmm := v |>) j = msg s j.
Proof. done. Qed.
Lemma msg_set_heap s h j : msg (s <| k_heap := h |>) j = msg s j.
Proof. done. Qed.
Lemma msg_set_next s n j : msg (s <| next_pid := n |>) j = msg s j.
Proof. done. Qed.
Lemma msg_set_current s c j : msg (s <| current_proc := c |>) j = msg s j.
Proof. done. Qed.
Lemma msg_set_ticks s n j : msg (s <| ticks := n |>) j = msg s j.
Proof. done. Qed.
Lemma msg_set_if s b j : msg (s <| k_if := b |>) j = msg s j.
Proof. done. Qed.
Lemma msg_set_used s u j : msg (s <| msg_used := u |>) j = msg s j.
Proof. done. Qed.
Lemma msg_upd_proc s i f j : msg (upd_proc i f s) j = msg s j.
Proof. done. Qed.

Lemma pool_set_mem s m : msg_pool (s <| k_mem := m |>) = msg_pool s.
Proof. done. Qed.
Lemma pool_set_vmm s v : msg_pool (s <| k_vmm := v |>) = msg_pool s.
Proof. done. Qed.
Lemma pool_set_heap s h : msg_pool (s <| k_heap := h |>) = msg_pool s.
Proof. done. Qed.
Lemma pool_set_next s n : msg_pool (s <| next_pid := n |>) = msg_pool s.
Proof. done. Qed.
Lemma pool_set_current s c : msg_pool (s <| current_proc := c |>) = msg_pool s.
Proof. done. Qed.
Lemma pool_set_ticks s n : msg_pool (s <| ticks := n |>) = msg_pool s.
Proof. done. Qed.
Lemma pool_set_if s b : msg_pool (s <| k_if := b |>) = msg_pool s.
Proof. done. Qed.
Lemma pool_set_used s u : msg_pool (s <| msg_used := u |>) = msg_pool s.
Proof. done. Qed.
Lemma pool_upd_proc s i f : msg_pool (upd_proc i f s) = msg_pool s.
Proof. done. Qed.

Lemma result_switch_context old s : result (switch_context old old) s = Some (tt, s).
Proof. unfold result, switch_context. by rewrite decide_True. Qed.
End access.

Create Rewrite HintDb table.
#[export] Hint Rewrite length_upd_proc table_set_mem table_set_vmm table_set_heap table_set_next
  table_set_current table_set_ticks table_set_if table_set_used table_upd_msg : table.
Create Rewrite HintDb proc.
#[export] Hint Rewrite proc_set_mem proc_set_vmm proc_set_heap proc_set_next proc_set_current
  proc_set_ticks proc_set_if proc_set_used proc_upd_msg : proc.

(** [proc_simpl] reads a slot of an updated table, given the range of the
    slots that are updated and disequalities of the others. *)
Ltac proc_simpl :=
  repeat (autorewrite with proc ||
          (rewrite proc_upd_eq by (autorewrite with table; assumption)) ||
          (rewrite proc_upd_ne by congruence)).

Create Rewrite HintDb pool.
#[export] Hint Rewrite length_upd_msg pool_upd_proc pool_set_mem pool_set_vmm pool_set_heap pool_set_next pool_set_current pool_set_ticks pool_set_if pool_set_used : pool.
Create Rewrite HintDb msg.
#[export] Hint Rewrite msg_upd_proc msg_set_mem msg_set_vmm msg_set_heap msg_set_next msg_set_current msg_set_ticks msg_set_if msg_set_used : msg.

(** The same for the message pool. *)
Ltac msg_simpl :=
  repeat (autorewrite with msg ||
          (rewrite msg_upd_eq by (autorewrite with pool; assumption)) ||
          (rewrite msg_upd_ne by congruence)).

(** ** The invariant of the kernel's data

    [sched_inv]: one process at most is RUNNING, and it is the current one;
    PIDs are positive, below [next_pid] and identify a slot. *)

Definition slot (i : nat) : Prop := (i < PROC_MAX)%nat.
Definition used (s : kernel) (i : nat) : Prop := state (proc s i) ≠ PROC_UNUSED.

Record sched_inv (s : kernel) : Prop := {
  si_len : length (proc_table s) = PROC_MAX;
  si_cur c : current_proc s = Some c → slot c ∧ used s c;
  si_run i : slot i → state (proc s i) = PROC_RUNNING → current_proc s = Some i;
  si_pid i : slot i → used s i → 1 ≤ pid (proc s i) < next_pid s;
  si_inj i j : slot i → slot j → used s i → used s j → pid (proc s i) = pid (proc s j) → i = j;
  si_next : 1 ≤ next_pid s < 2 ^ 31;
}.

(** The chain of [next] pointers from [h]. *)
Fixpoint chain (s : kernel) (h : option nat) (l : list nat) : Prop :=
  match l with
  | [] => h = None
  | m :: l => h = Some m ∧ chain s (m_next (msg s m)) l
  end.

(** [msg_used[m]] *)
Definition pool_used (s : kernel) (m : nat) : bool := msg_used s !!! m.

(** [q i] lists the pool slots queued for process slot [i], oldest first: the
    queues are linked lists with a tail pointer and a count, they share no
    message, and the messages in use are exactly the queued ones. *)
Record queues_ok (s : kernel) (q : nat → list nat) : Prop := {
  qo_pool : length (msg_pool s) = IPC_POOL_SIZE ∧ length (msg_used s) = IPC_POOL_SIZE;
  qo_head i : slot i → chain s (msg_queue (proc s i)) (q i);
  qo_tail i : slot i → msg_tail (proc s i) = last (q i);
  qo_count i : slot i → msg_count (proc s i) = Z.of_nat (length (q i));
  qo_used m : (m < IPC_POOL_SIZE)%nat → pool_used s m = true ↔ ∃ i, slot i ∧ m ∈ q i;
  qo_range i m : m ∈ q i → slot i ∧ (m < IPC_POOL_SIZE)%nat;
  qo_nodup i : NoDup (q i);
  qo_disj i j m : m ∈ q i → m ∈ q j → i = j;
  qo_unused i : slot i → ¬ used s i → q i = [];
  qo_data m : (m < IPC_POOL_SIZE)%nat →
    length (m_data (msg s m)) = Z.to_nat IPC_MSG_MAX ∧ 0 ≤ m_len (msg s m) ≤ IPC_MSG_MAX;
}.

Definition kernel_inv (s : kernel) : Prop := sched_inv s ∧ ∃ q, queues_ok s q.

(** What a process that is switched to finds. *)
Definition resumed (i : nat) (s : kernel) : Prop :=
  current_proc s = Some i ∧ state (proc s i) = PROC_RUNNING.

Section inv.
Implicit Types s : kernel.

Lemma chain_ext s s' h l :
  (∀ m, m ∈ l → m_next (msg s' m) = m_next (msg s m)) → chain s h l → chain s' h l.
Proof.
  revert h. induction l as [|m l IH]; intros h Hm; simpl; [done|].
  intros [-> Hc]. split; [done|]. rewrite Hm by (by left). apply IH; [|done].
  intros m' Hm'. apply Hm. by right.
Qed.

Lemma chain_fun s h l l' : chain s h l → chain s h l' → l = l'.
Proof.
  revert h l'. induction l as [|m l IH]; intros h [|m' l']; simpl; [done| | |].
  - intros -> [? _]. done.
  - intros [-> _]. done.
  - intros [-> H1] [[= ->] H2]. f_equal. by eapply IH.
Qed.

(** The queues only depend on the pool and the queue fields of the table. *)
Lemma queues_ok_ext s s' q :
  queues_ok s q → msg_pool s' = msg_pool s → msg_used s' = msg_used s →
  (∀ i, slot i → msg_queue (proc s' i) = msg_queue (proc s i) ∧
     msg_tail (proc s' i) = msg_tail (proc s i) ∧ msg_count (proc s' i) = msg_count (proc s i) ∧
     (used s i → used s' i)) →
  queues_ok s' q.
Proof.
  intros Hq Hp Hu Hi. split.
  - rewrite Hp, Hu. apply Hq.
  - intros i Hs. destruct (Hi i Hs) as (-> & _). eapply chain_ext; [|by apply Hq].
    intros m _. unfold msg. by rewrite Hp.
  - intros i Hs. destruct (Hi i Hs) as (_ & -> & _). by apply Hq.
  - intros i Hs. destruct (Hi i Hs) as (_ & _ & -> & _). by apply Hq.
  - unfold pool_used. rewrite Hu. apply Hq.
  - apply Hq.
  - apply Hq.
  - apply Hq.
  - intros i Hs Hn. apply (qo_unused _ _ Hq); [done|]. intros Hus. by apply Hn, Hi.
  - unfold msg. rewrite Hp. apply Hq.
Qed.

(** An update of one slot that leaves its PID alone. *)
Lemma sched_inv_upd s i f :
  sched_inv s → slot i →
  (let p := proc s i in
   pid (f p) = pid p ∧ (state (f p) = PROC_UNUSED ↔ state p = PROC_UNUSED) ∧
   (state (f p) = PROC_RUNNING → current_proc s = Some i)) →
  sched_inv (upd_proc i f s) ∧ ∀ j, used (upd_proc i f s) j ↔ used s j.
Proof.
  intros Hs Hi (Hpid & Hst & Hrun).
  assert (Hlen : (i < length (proc_table s))%nat) by (by rewrite (si_len _ Hs)).
  assert (Hu : ∀ j, used (upd_proc i f s) j ↔ used s j).
  { intros j. unfold used. rewrite (proc_upd s i j f Hlen). case_decide; [subst; by rewrite Hst|done]. }
  assert (Hp : ∀ j, pid (proc (upd_proc i f s) j) = pid (proc s j)).
  { intros j. rewrite (proc_upd s i j f Hlen). case_decide; [by subst|done]. }
  split; [split|done].
  - rewrite length_upd_proc. apply Hs.
  - intros c Hc. rewrite Hu. by apply Hs.
  - intros j Hj. rewrite (proc_upd s i j f Hlen). case_decide; [subst; done|]. by apply Hs.
  - intros j Hj. rewrite Hu, Hp. by apply Hs.
  - intros j k Hj Hk. rewrite !Hu, !Hp. by apply Hs.
  - apply Hs.
Qed.

Lemma sched_inv_same s s' :
  sched_inv s → proc_table s' = proc_table s → current_proc s' = current_proc s →
  next_pid s' = next_pid s → sched_inv s'.
Proof.
  intros Hs Hp Hc Hn.
  assert (∀ i, proc s' i = proc s i) as Hpi by (intros i; unfold proc; by rewrite Hp).
  split; unfold used; try setoid_rewrite Hpi; rewrite ?Hp, ?Hc, ?Hn; apply Hs.
Qed.

(** An update of one slot that leaves its PID and queue alone. *)
Lemma kernel_inv_upd s i f :
  kernel_inv s → slot i →
  (let p := proc s i in
   pid (f p) = pid p ∧ msg_queue (f p) = msg_queue p ∧ msg_tail (f p) = msg_tail p ∧
   msg_count (f p) = msg_count p ∧ (state (f p) = PROC_UNUSED ↔ state p = PROC_UNUSED) ∧
   (state (f p) = PROC_RUNNING → current_proc s = Some i)) →
  kernel_inv (upd_proc i f s).
Proof.
  intros [Hs [q Hq]] Hi (Hpid & Hmq & Hmt & Hmc & Hst & Hrun).
  assert (Hlen : (i < length (proc_table s))%nat) by (by rewrite (si_len _ Hs)).
  destruct (sched_inv_upd s i f Hs Hi) as [Hs' Hu]; [done|].
  split; [done|]. exists q. apply (queues_ok_ext s); try done.
  intros j Hj. rewrite Hu. rewrite (proc_upd s i j f Hlen). case_decide; by subst.
Qed.

(** Parts of the state the invariant does not speak about. *)
Lemma kernel_inv_same s s' :
  kernel_inv s → proc_table s' = proc_table s → current_proc s' = current_proc s →
  next_pid s' = next_pid s → msg_pool s' = msg_pool s → msg_used s' = msg_used s → kernel_inv s'.
Proof.
  intros [Hs [q Hq]] Hp Hc Hn Hm Hu. split; [by eapply sched_inv_same|].
  exists q. apply (queues_ok_ext s); try done. intros i Hi. unfold used, proc. by rewrite Hp.
Qed.
End inv.

(** ** A concrete kernel state

    Slot 0 (PID 1) runs, slot 1 (PID 2) is READY with two queued messages,
    slot 2 (PID 3) sleeps for 5 ticks. *)

Definition demo_proc (n : Z) (st : proc_state) : process :=
  process_zero <| pid := n |> <| ppid := 0 |> <| state := st |>.

Definition demo_kernel : kernel :=
  let m1 := message_zero <| m_from := 1 |> <| m_type := 0x100 |> <| m_len := 2 |>
              <| m_data := [104; 105] ++ replicate 254 0 |> <| m_next := Some 1%nat |> in
  let m2 := message_zero <| m_from := 1 |> <| m_type := 0x101 |> in
  let p0 := demo_proc 1 PROC_RUNNING in
  let p1 := (demo_proc 2 PROC_READY) <| msg_queue := Some 0%nat |> <| msg_tail := Some 1%nat |>
              <| msg_count := 2 |> in
  let p2 := (demo_proc 3 PROC_SLEEPING) <| sleep_ticks := 5 |> in
  (kernel_zero vmm_demo)
    <| proc_table := [p0; p1; p2] ++ replicate 61 process_zero |>
    <| current_proc := Some 0%nat |> <| next_pid := 4 |> <| k_if := true |>
    <| msg_pool := [m1; m2] ++ replicate 126 message_zero |>
    <| msg_used := [true; true] ++ replicate 126 false |>.

Definition demo_queue (i : nat) : list nat := if decide (i = 1)%nat then [0; 1]%nat else [].

Lemma slots_forall (P : nat → Prop) : Forall P (seq 0 PROC_MAX) → ∀ i, slot i → P i.
Proof. intros HP i Hi. rewrite Forall_forall in HP. apply HP, elem_of_seq. unfold slot in Hi. lia. Qed.

Lemma used_demo i : slot i → used demo_kernel i → (i < 3)%nat.
Proof.
  revert i. apply (slots_forall (λ i, used demo_kernel i → (i < 3)%nat)). unfold used.
  apply (bool_decide_unpack (Forall (λ i, ¬ state (proc demo_kernel i) = PROC_UNUSED → (i < 3)%nat) (seq 0 PROC_MAX))).
  by vm_compute.
Qed.

Lemma sched_inv_demo : sched_inv demo_kernel.
Proof.
  split.
  - done.
  - intros c [= <-]. split; [unfold slot, PROC_MAX; lia|done].
  - apply (slots_forall (λ i, state (proc demo_kernel i) = PROC_RUNNING → current_proc demo_kernel = Some i)).
    apply (bool_decide_unpack (Forall (λ i, state (proc demo_kernel i) = PROC_RUNNING →
      current_proc demo_kernel = Some i) (seq 0 PROC_MAX))). by vm_compute.
  - intros i Hi Hu. pose proof (used_demo i Hi Hu). do 3 (destruct i as [|i]; [vm_compute; split; congruence|]). lia.
  - intros i j Hi Hj Hu Hu'. pose proof (used_demo i Hi Hu). pose proof (used_demo j Hj Hu').
    do 3 (destruct i as [|i]; [do 3 (destruct j as [|j]; [done|]); lia|]). lia.
  - vm_compute. split; congruence.
Qed.

Lemma demo_queue_elem i m : m ∈ demo_queue i ↔ i = 1%nat ∧ (m < 2)%nat.
Proof.
  unfold demo_queue. case_decide as E.
  - rewrite !elem_of_cons, elem_of_nil. lia.
  - rewrite elem_of_nil. tauto.
Qed.

Lemma queues_ok_demo : queues_ok demo_kernel demo_queue.
Proof.
  assert (Hother : ∀ i, slot i → i ≠ 1%nat → msg_queue (proc demo_kernel i) = None ∧
     msg_tail (proc demo_kernel i) = None ∧ msg_count (proc demo_kernel i) = 0).
  { apply (slots_forall (λ i, i ≠ 1%nat → msg_queue (proc demo_kernel i) = None ∧
       msg_tail (proc demo_kernel i) = None ∧ msg_count (proc demo_kernel i) = 0)).
    apply (bool_decide_unpack (Forall (λ i, i ≠ 1%nat → msg_queue (proc demo_kernel i) = None ∧
       msg_tail (proc demo_kernel i) = None ∧ msg_count (proc demo_kernel i) = 0) (seq 0 PROC_MAX))).
    by vm_compute. }
  split.
  - done.
  - intros i Hi. unfold demo_queue. case_decide as E; [subst; by vm_compute|]. cbn. by apply Hother.
  - intros i Hi. unfold demo_queue. case_decide as E; [subst; by vm_compute|]. cbn. by apply Hother.
  - intros i Hi. unfold demo_queue. case_decide as E; [subst; by vm_compute|]. cbn. by apply Hother.
  - assert (∀ m, (m < IPC_POOL_SIZE)%nat → pool_used demo_kernel m = bool_decide (m < 2)%nat) as Hu.
    { intros m Hm. assert (Forall (λ m, pool_used demo_kernel m = bool_decide (m < 2)%nat) (seq 0 IPC_POOL_SIZE)) as Ha.
      { apply (bool_decide_unpack _). by vm_compute. }
      rewrite Forall_forall in Ha. apply Ha, elem_of_seq. lia. }
    intros m Hm. rewrite (Hu m Hm), bool_decide_eq_true. setoid_rewrite demo_queue_elem. split.
    + intros H2. exists 1%nat. split; [unfold slot, PROC_MAX; lia|done].
    + intros (i & _ & _ & ?). done.
  - intros i m [-> Hm]%demo_queue_elem. unfold slot, PROC_MAX, IPC_POOL_SIZE. lia.
  - intros i. unfold demo_queue. case_decide; [|constructor]. apply (bool_decide_unpack _). by vm_compute.
  - intros i j m [-> _]%demo_queue_elem [-> _]%demo_queue_elem. done.
  - intros i Hi Hu. unfold demo_queue. case_decide as E; [subst|done]. by destruct Hu.
  - intros m Hm.
    assert (Forall (λ m, length (m_data (msg demo_kernel m)) = Z.to_nat IPC_MSG_MAX ∧
              0 ≤ m_len (msg demo_kernel m) ≤ IPC_MSG_MAX) (seq 0 IPC_POOL_SIZE)) as Ha.
    { apply (bool_decide_unpack _). by vm_compute. }
    rewrite Forall_forall in Ha. apply Ha, elem_of_seq. lia.
Qed.

Lemma demo_kernel_inv : kernel_inv demo_kernel.
Proof. split; [exact sched_inv_demo|]. exists demo_queue. exact queues_ok_demo. Qed.
