(* ===== verification/Proc.v ===== *)
(** * Proc: the process table and the round-robin scheduler
    (kernel/proc/proc.c)

    [schedule] leaves the CPU through [switch_context]; what runs until the
    process is switched back to is anybody's code, so its properties are stated
    with [always]: an invariant that holds whenever the CPU changes hands. *)

From S2P Require Import Prelude Effects Interfaces Memory Types Pmm Heap Vmm Arch Kernel.

Definition KERNEL_BASE : Z := 0xFFFFFFFF80000000.

Section ops.
Context `{Link}.

(** [for (i = 0; i < PROC_MAX; i++) if (proc_table[i] is P) return i;] *)
Definition find_proc (P : process → Prop) `{∀ p, Decision (P p)} (s : kernel) : option nat :=
  fst <$> list_find P (proc_table s).

Definition alloc_proc_slot : M kernel (option nat) :=
  s ← get ;
  match find_proc (λ p, state p = PROC_UNUSED) s with
  | Some i =>
      modify (upd_proc i (λ _, process_zero)) ;;
      modify (upd_proc i (λ p, p <| state := PROC_READY |>)) ;;
      mret (Some i)
  | None => mret None
  end.

(** [return next_pid++;] *)
Definition alloc_pid : M kernel Z :=
  n ← gets next_pid ;
  modify (λ s, s <| next_pid := s32 (next_pid s + 1) |>) ;;
  mret n.

Definition alloc_kernel_stack_for_proc : M kernel Z :=
  stack ← lift pmm_alloc_page ;
  (if stack =? NULL then panic "no memory for kernel stack" else mret tt) ;;
  mret (u64 (stack + 0x1000)).

Definition proc_init : M kernel unit :=
  for_each (seq 0 PROC_MAX) (λ i,
    modify (upd_proc i (λ p, p <| state := PROC_UNUSED |> <| pid := 0 |>))) ;;
  kprintf ("[PROC] initialized (max %d)" +:+ nl) [kint (Z.of_nat PROC_MAX)].

Definition alloc_proc : M kernel (option nat) :=
  gets (find_proc (λ p, state p = PROC_UNUSED)).

(** Memory as the page tables and the code around them see it. *)
Definition vmm_memory (f : mem → mem) : M kernel unit :=
  modify (λ s, s <| k_vmm := (k_vmm s) <| v_mem := f (v_mem (k_vmm s)) |> |>).

(** [elf] is the address of the [elf_load_result_t], whose one field is at 0. *)
Definition proc_create_elf (nm : string) (elf : Z) : M kernel (option nat) :=
  slot ← alloc_proc_slot ;
  match slot with
  | None => mret None
  | Some p =>
      n ← alloc_pid ;
      modify (upd_proc p (λ q, q <| pid := n |> <| state := PROC_READY |>
                                 <| is_user := true |> <| started := false |>)) ;;
      new_pml4_pa ← lift pmm_alloc_page ;
      (if new_pml4_pa =? NULL then panic "no memory for process PML4" else mret tt) ;;
      let v_new_pml4 := u64 (new_pml4_pa + KERNEL_BASE) in
      vmm_memory (λ m, memset m v_new_pml4 0 4096) ;;
      kpml4 ← gets (λ s, kernel_pml4 (k_vmm s)) ;
      vmm_memory (λ m, memcpy m v_new_pml4 kpml4 4096) ;;
      modify (upd_proc p (λ q, q <| cr3 := new_pml4_pa |> <| pml4 := v_new_pml4 |>)) ;;
      let user_stack_top := 0x00007fffffffe000 in
      for_each (page_range (user_stack_top - 0x1000) user_stack_top) (λ addr,
        pa ← lift pmm_alloc_page ;
        t ← gets (λ s, pml4 (proc s p)) ;
        lift (vmm_map t addr pa 0x7) ;;
        mret tt) ;;
      entry ← gets (λ s, ld64 (k_mem s) elf) ;
      modify (upd_proc p (λ q, q <| user_rip := entry |> <| user_rsp := user_stack_top |>)) ;;
      kprintf ("elf_entry = %p" +:+ nl) [KInt entry] ;;
      kprintf ("user_rip = %p" +:+ nl) [KInt entry] ;;
      kprintf ("user_rsp = %p" +:+ nl) [KInt user_stack_top] ;;
      krsp ← alloc_kernel_stack_for_proc ;
      modify (upd_proc p (λ q, q <| kernel_rsp := krsp |>)) ;;
      modify (upd_proc p (λ q,
        q <| context := (context q) <| c_rsp := krsp |> <| c_rip := proc_entry_user |> |>)) ;;
      mret (Some p)
  end.

Definition proc_create (nm : string) (entry : Z) (user : bool) : M kernel (option nat) :=
  slot ← alloc_proc ;
  match slot with
  | None =>
      kprintf ("[PROC] table full!" +:+ nl) [] ;;
      mret None
  | Some p =>
      kstack ← lift (kmalloc KSTACK_SIZE) ;
      if kstack =? NULL then
        kprintf ("[PROC] no memory for stack" +:+ nl) [] ;;
        mret None
      else
        let kstack_top := u64 (kstack + KSTACK_SIZE) in
        modify (upd_proc p (λ q, q <| context := CpuContext 0 0 0 0 0 0 entry kstack_top |>)) ;;
        let sp := u64 (kstack_top - 8) in
        lift (S:=heap) (modify (λ h, h <| h_mem := st64 (h_mem h) sp entry |>)) ;;
        modify (upd_proc p (λ q, q <| kernel_rsp := sp |>)) ;;
        modify (upd_proc p (λ q, q <| context := (context q) <| c_r12 := entry |> |>)) ;;
        modify (upd_proc p (λ q, q <| context := (context q) <| c_rip := proc_entrypoint |> |>)) ;;
        modify (upd_proc p (λ q, q <| kernel_rsp := kstack_top |>)) ;;
        n ← alloc_pid ;
        s ← get ;
        let parent := match current_proc s with Some c => pid (proc s c) | None => 0 end in
        modify (upd_proc p (λ q, q <| pid := n |> <| ppid := parent |> <| state := PROC_READY |>
          <| exit_code := 0 |> <| sleep_ticks := 0 |> <| msg_queue := None |>
          <| msg_tail := None |> <| msg_count := 0 |> <| name := String.substring 0 15 nm |>)) ;;
        kprintf ("[PROC] created '%s' pid=%d" +:+ nl) [KStr (Some (String.substring 0 15 nm)); kint n] ;;
        mret (Some p)
  end.

Definition proc_find (n : Z) : M kernel (option nat) :=
  gets (find_proc (λ p, state p ≠ PROC_UNUSED ∧ pid p = n)).

(** The round-robin search of [schedule]: the first READY slot after [start]. *)
Fixpoint sched_scan (s : kernel) (start n k : nat) : option nat :=
  match k with
  | O => None
  | S k =>
      let idx := ((start + n) mod PROC_MAX)%nat in
      if decide (state (proc s idx) = PROC_READY) then Some idx
      else sched_scan s start (S n) k
  end.

Definition schedule : M kernel unit :=
  cur ← gets current_proc ;
  match cur with
  | None => mret tt
  | Some old =>
      s ← get ;
      (if decide (state (proc s old) = PROC_RUNNING) then
         modify (upd_proc old (λ p, p <| state := PROC_READY |>))
       else mret tt) ;;
      s ← get ;
      match sched_scan s old 1 PROC_MAX with
      | Some idx =>
          modify (λ s, s <| current_proc := Some idx |>) ;;
          modify (upd_proc idx (λ p, p <| state := PROC_RUNNING |>)) ;;
          s ← get ;
          lift (gdt_set_tss_rsp0 (kernel_rsp (proc s idx))) ;;
          (if is_user (proc s idx) && negb (started (proc s idx)) then
             modify (upd_proc idx (λ p, p <| started := true |>))
           else mret tt) ;;
          switch_context old idx
      | None =>
          if decide (state (proc s old) = PROC_READY) then
            modify (upd_proc old (λ p, p <| state := PROC_RUNNING |>))
          else mret tt
      end
  end.

Definition proc_exit (code : Z) : M kernel unit :=
  cur ← gets current_proc ;
  match cur with
  | None => mret tt
  | Some c =>
      modify (upd_proc c (λ p, p <| state := PROC_ZOMBIE |>)) ;;
      modify (upd_proc c (λ p, p <| exit_code := code |>)) ;;
      n ← gets (λ s, pid (proc s c)) ;
      kprintf ("[PROC] pid=%d exited code=%d" +:+ nl) [kint n; kint code] ;;
      schedule
  end.

Definition proc_yield : M kernel unit := schedule.

Definition proc_sleep (ms : Z) : M kernel unit :=
  cur ← gets current_proc ;
  match cur with
  | None => mret tt
  | Some c =>
      modify (upd_proc c (λ p, p <| sleep_ticks := u64 (ms * PIT_HZ) `div` 1000 |>)) ;;
      modify (upd_proc c (λ p, if sleep_ticks p =? 0 then p <| sleep_ticks := 1 |> else p)) ;;
      modify (upd_proc c (λ p, p <| state := PROC_SLEEPING |>)) ;;
      schedule
  end.

(** [p] is a slot or the null pointer. *)
Definition proc_wakeup (p : option nat) : M kernel unit :=
  match p with
  | Some i => modify (upd_proc i (λ p,
      if decide (state p = PROC_SLEEPING) then p <| state := PROC_READY |> else p))
  | None => mret tt
  end.

(** The countdown of one slot in [sched_tick]. *)
Definition tick_proc (p : process) : process :=
  if decide (state p = PROC_SLEEPING) then
    let p := if 0 <? sleep_ticks p then p <| sleep_ticks := sleep_ticks p - 1 |> else p in
    if sleep_ticks p =? 0 then p <| state := PROC_READY |> else p
  else p.

Definition sched_tick : M kernel unit :=
  for_each (seq 0 PROC_MAX) (λ i, modify (upd_proc i tick_proc)) ;;
  s ← get ;
  if bool_decide (is_Some (current_proc s)) && (ticks s `mod` 10 =? 0) then schedule else mret tt.
End ops.

(** ** Searching the table *)

Section search.
Implicit Types s : kernel.

Lemma find_proc_some (P : process → Prop) `{∀ p, Decision (P p)} s i :
  length (proc_table s) = PROC_MAX → find_proc P s = Some i →
  slot i ∧ P (proc s i) ∧ ∀ j, (j < i)%nat → ¬ P (proc s j).
Proof.
  intros Hlen. unfold find_proc, slot, proc. destruct (list_find P (proc_table s)) as [[k p]|] eqn:E; [|done].
  intros [= <-]. apply list_find_Some in E as (Hk & HP & Hmin). simpl.
  pose proof (lookup_lt_Some _ _ _ Hk). split; [lia|]. split.
  - by rewrite (list_lookup_total_correct _ _ _ Hk).
  - intros j Hj. destruct (lookup_lt_is_Some_2 (proc_table s) j) as [p' Hp']; [lia|].
    rewrite (list_lookup_total_correct _ _ _ Hp'). by eapply Hmin.
Qed.

Lemma find_proc_none (P : process → Prop) `{∀ p, Decision (P p)} s :
  length (proc_table s) = PROC_MAX → find_proc P s = None → ∀ i, slot i → ¬ P (proc s i).
Proof.
  intros Hlen. unfold find_proc, slot, proc. destruct (list_find P (proc_table s)) as [[k p]|] eqn:E; [done|].
  intros _ i Hi. apply list_find_None in E. rewrite Forall_lookup in E.
  destruct (lookup_lt_is_Some_2 (proc_table s) i) as [p' Hp']; [lia|].
  rewrite (list_lookup_total_correct _ _ _ Hp'). by eapply E.
Qed.
End search.

(** ** [schedule] *)

Section schedule.
Context `{Link}.
Implicit Types s : kernel.

(** The current process gives up RUNNING for READY. *)
Definition preempt (old : nat) s : kernel :=
  if decide (state (proc s old) = PROC_RUNNING)
  then upd_proc old (λ p, p <| state := PROC_READY |>) s else s.

(** Slot [idx] becomes the current process. *)
Definition dispatch (idx : nat) s : kernel :=
  let s := upd_proc idx (λ p, p <| state := PROC_RUNNING |>) (s <| current_proc := Some idx |>) in
  let s := s <| k_mem := st64 (k_mem s) (sym_tss + 4) (kernel_rsp (proc s idx)) |> in
  if is_user (proc s idx) && negb (started (proc s idx))
  then upd_proc idx (λ p, p <| started := true |>) s else s.

(** [schedule] in one equation. *)
Lemma schedule_eq s old :
  current_proc s = Some old →
  schedule s =
    let s0 := preempt old s in
    match sched_scan s0 old 1 PROC_MAX with
    | Some idx => switch_context old idx (dispatch idx s0)
    | None => Done [] tt (if decide (state (proc s0 old) = PROC_READY)
                          then upd_proc old (λ p, p <| state := PROC_RUNNING |>) s0 else s0)
    end.
Proof.
  intros Hc. unfold schedule, gets, mbind, M_bind. cbn [bind_run prepend]. rewrite Hc.
  unfold get. cbn [bind_run prepend app]. unfold preempt.
  destruct (decide (state (proc s old) = PROC_RUNNING)); unfold modify, mret, M_ret;
    cbn [bind_run prepend app].
  all: destruct (sched_scan _ old 1 PROC_MAX) as [idx|];
    [|by destruct (decide (state (proc _ old) = PROC_READY))].
  all: cbn [bind_run prepend app]; unfold dispatch, lift, gdt_set_tss_rsp0, modify;
    cbn [bind_run prepend app lift_run view put lens_kernel_mem]; unfold switch_context;
    cbn zeta; destruct (is_user _ && _); cbn [bind_run prepend app]; by destruct (decide (old = idx)).
Qed.

Lemma sched_scan_some s start n k idx :
  sched_scan s start n k = Some idx →
  ∃ d, (n ≤ d < n + k)%nat ∧ idx = ((start + d) mod PROC_MAX)%nat ∧
    state (proc s idx) = PROC_READY ∧
    ∀ d', (n ≤ d' < d)%nat → state (proc s ((start + d') mod PROC_MAX)%nat) ≠ PROC_READY.
Proof.
  revert n. induction k as [|k IH]; intros n; cbn [sched_scan]; [done|].
  case_decide as Hr.
  - intros [= <-]. exists n. split_and!; [lia|lia|done|done|]. intros d' Hd. lia.
  - intros Hs. destruct (IH _ Hs) as (d & Hd & -> & Hst & Hmin).
    exists d. split_and!; [lia|lia|done|done|]. intros d' Hd'.
    destruct (decide (d' = n)) as [->|]; [done|]. apply Hmin. lia.
Qed.

Lemma sched_scan_none s start n k :
  sched_scan s start n k = None →
  ∀ d, (n ≤ d < n + k)%nat → state (proc s ((start + d) mod PROC_MAX)%nat) ≠ PROC_READY.
Proof.
  revert n. induction k as [|k IH]; intros n; cbn [sched_scan]; [lia|].
  case_decide as Hr; [done|]. intros Hs d Hd.
  destruct (decide (d = n)) as [->|]; [done|]. apply (IH _ Hs). lia.
Qed.

(** Every slot is at some distance between 1 and [PROC_MAX]. *)
Lemma slot_distance start i :
  slot start → slot i → ∃ d, (1 ≤ d ≤ PROC_MAX)%nat ∧ i = ((start + d) mod PROC_MAX)%nat.
Proof.
  unfold slot, PROC_MAX. intros Hs Hi.
  destruct (decide (start < i)%nat).
  - exists (i - start)%nat. split; [lia|]. replace (start + (i - start))%nat with i by lia.
    by rewrite Nat.mod_small.
  - exists (64 + i - start)%nat. split; [lia|]. replace (start + (64 + i - start))%nat with (i + 1 * 64)%nat by lia.
    by rewrite Nat.Div0.mod_add, Nat.mod_small.
Qed.

Lemma sched_scan_none_all s start :
  slot start → sched_scan s start 1 PROC_MAX = None →
  ∀ i, slot i → state (proc s i) ≠ PROC_READY.
Proof.
  intros Hs Hn i Hi. destruct (slot_distance start i Hs Hi) as (d & Hd & ->).
  eapply sched_scan_none; [done|]. lia.
Qed.

Lemma mod_slot n : slot (n mod PROC_MAX)%nat.
Proof. unfold slot. by apply Nat.mod_upper_bound. Qed.

Lemma sched_scan_slot s start idx :
  sched_scan s start 1 PROC_MAX = Some idx → slot idx ∧ state (proc s idx) = PROC_READY.
Proof. intros (d & _ & -> & Hst & _)%sched_scan_some. split; [apply mod_slot|done]. Qed.

(** The two outcomes of [schedule]: the branch that keeps a READY current
    process running is never taken, because the search ends with it. *)
Lemma schedule_cases s old :
  current_proc s = Some old → slot old →
  let s0 := preempt old s in
  (∃ idx, sched_scan s0 old 1 PROC_MAX = Some idx ∧ schedule s = switch_context old idx (dispatch idx s0)) ∨
  ((∀ i, slot i → state (proc s0 i) ≠ PROC_READY) ∧ schedule s = Done [] tt s0).
Proof.
  intros Hc Ho s0. rewrite (schedule_eq s old Hc). fold s0. cbn zeta.
  destruct (sched_scan s0 old 1 PROC_MAX) as [idx|] eqn:E; [left; by exists idx|right].
  pose proof (sched_scan_none_all _ _ Ho E) as Hn. split; [done|].
  rewrite decide_False; [done|]. by apply Hn.
Qed.

Lemma proc_preempt s old j :
  length (proc_table s) = PROC_MAX → slot old →
  proc (preempt old s) j =
    if decide (j = old ∧ state (proc s old) = PROC_RUNNING) then (proc s old) <| state := PROC_READY |>
    else proc s j.
Proof.
  intros Hl Ho. unfold preempt. destruct (decide (state (proc s old) = PROC_RUNNING)) as [Hr|Hr].
  - rewrite proc_upd by (rewrite Hl; exact Ho). destruct (decide (old = j)) as [->|Hne].
    + by rewrite decide_True.
    + rewrite decide_False; [done|]. intros [? _]; congruence.
  - rewrite decide_False; [done|]. tauto.
Qed.

(** What [dispatch] changes: the slot's state and [started] flag. *)
Lemma proc_dispatch s idx j :
  length (proc_table s) = PROC_MAX → slot idx →
  proc (dispatch idx s) j =
    if decide (j = idx) then
      (proc s idx) <| state := PROC_RUNNING |>
                   <| started := started (proc s idx) || is_user (proc s idx) |>
    else proc s j.
Proof.
  intros Hl Hi. unfold dispatch.
  assert (Hlen : (idx < length (proc_table s))%nat) by (rewrite Hl; exact Hi).
  set (s1 := upd_proc idx _ _).
  assert (Hl1 : (idx < length (proc_table s1))%nat) by (unfold s1; rewrite length_upd_proc; done).
  assert (H1 : ∀ k, proc s1 k = if decide (idx = k) then (proc s idx) <| state := PROC_RUNNING |> else proc s k).
  { intros k. unfold s1. by rewrite proc_upd. }
  cbn zeta. 
  set (s2 := s1 <| k_mem := _ |>).
  assert (H2 : ∀ k, proc s2 k = proc s1 k) by done.
  rewrite !H2. rewrite (H1 idx), decide_True by done. cbn [is_user started setter].
  destruct (is_user (proc s idx)) eqn:Eu, (started (proc s idx)) eqn:Es; cbn [andb negb orb].
  all: try (rewrite H2, H1; destruct (decide (idx = j)) as [<-|Hne];
    [rewrite decide_True by done; destruct (proc s idx); simpl in *; by subst|rewrite !decide_False by done; done]).
  rewrite (proc_upd s2 idx j) by done. rewrite !H2, (H1 idx), (decide_True (P := idx = idx)) by done.
  destruct (decide (idx = j)) as [<-|Hne].
  - rewrite decide_True by done. destruct (proc s idx). simpl in *. by subst.
  - rewrite decide_False by done. rewrite H1. by rewrite decide_False.
Qed.

Lemma preempt_inv s old :
  kernel_inv s → current_proc s = Some old → kernel_inv (preempt old s).
Proof.
  intros Hi Hc. unfold preempt. case_decide as Hr; [|done].
  apply kernel_inv_upd; [done|by apply Hi|]. cbn. rewrite Hr. by split_and!.
Qed.

Lemma preempt_no_running s old :
  kernel_inv s → current_proc s = Some old →
  ∀ i, slot i → state (proc (preempt old s) i) ≠ PROC_RUNNING.
Proof.
  intros [Hs _] Hc i Hi. destruct (si_cur _ Hs old Hc) as [Ho _].
  rewrite proc_preempt by (done || apply Hs). case_decide as E; [done|].
  intros Hr. assert (Some old = Some i) as [= ->] by (rewrite <-Hc; by apply Hs). tauto.
Qed.

Lemma preempt_rest s old :
  current_proc (preempt old s) = current_proc s ∧ ticks (preempt old s) = ticks s ∧
  msg_pool (preempt old s) = msg_pool s ∧ msg_used (preempt old s) = msg_used s.
Proof. unfold preempt. by case_decide. Qed.

Lemma dispatch_rest s idx :
  let s' := dispatch idx s in
  current_proc s' = Some idx ∧ length (proc_table s') = length (proc_table s) ∧
  next_pid s' = next_pid s ∧ msg_pool s' = msg_pool s ∧ msg_used s' = msg_used s ∧ ticks s' = ticks s.
Proof.
  cbn zeta. unfold dispatch. cbn zeta. case_match; cbn; by rewrite ?length_alter.
Qed.

Lemma dispatch_inv s idx :
  kernel_inv s → (∀ i, slot i → state (proc s i) ≠ PROC_RUNNING) → slot idx →
  state (proc s idx) = PROC_READY →
  kernel_inv (dispatch idx s) ∧ resumed idx (dispatch idx s).
Proof.
  intros [Hs [q Hq]] Hnr Hi Hr.
  destruct (dispatch_rest s idx) as (Hc & Hl & Hn & Hp & Hu & _).
  assert (Hpd := λ j, proc_dispatch s idx j (si_len _ Hs) Hi).
  assert (Hused : ∀ j, used (dispatch idx s) j ↔ used s j).
  { intros j. unfold used. rewrite Hpd. case_decide; [subst; by rewrite Hr|done]. }
  assert (Hpid : ∀ j, pid (proc (dispatch idx s) j) = pid (proc s j)).
  { intros j. rewrite Hpd. case_decide; by subst. }
  split; [split|].
  - split.
    + rewrite Hl. apply Hs.
    + intros c. rewrite Hc, Hused. intros [= <-]. split; [done|]. unfold used. by rewrite Hr.
    + intros j Hj. rewrite Hpd, Hc. case_decide; [by subst|]. intros Hx. by destruct (Hnr j Hj).
    + intros j Hj. rewrite Hused, Hpid, Hn. by apply Hs.
    + intros j k Hj Hk. rewrite !Hused, !Hpid. by apply Hs.
    + rewrite Hn. apply Hs.
  - exists q. apply (queues_ok_ext s); [done..|]. intros j Hj. rewrite Hused.
    rewrite Hpd. case_decide; by subst.
  - split; [done|]. by rewrite Hpd, decide_True.
Qed.

(** [schedule] keeps the invariant at every hand-over, hands over to a process
    that is current and RUNNING, and returns to the process that called it. *)
Definition back_to s (_ : unit) (s' : kernel) : Prop :=
  kernel_inv s' ∧ current_proc s' = current_proc s.

Lemma always_schedule s :
  kernel_inv s → always kernel_inv resumed (back_to s) (schedule s).
Proof.
  intros Hi. destruct (current_proc s) as [old|] eqn:Hc.
  2:{ unfold schedule, gets, mbind, M_bind. cbn [bind_run]. rewrite Hc. by split. }
  destruct (si_cur _ (proj1 Hi) old Hc) as [Ho _].
  destruct (schedule_cases s old Hc Ho) as [(idx & Hscan & ->)|[_ ->]].
  - destruct (sched_scan_slot _ _ _ Hscan) as [Hidx Hrdy].
    destruct (dispatch_inv (preempt old s) idx) as [Hinv Hres];
      [by apply preempt_inv|by apply preempt_no_running|done|done|].
    unfold switch_context. case_decide as E.
    + subst idx. split; [done|]. rewrite Hc. apply Hres.
    + split_and!; [done..|]. intros s' Hs' [Hc' _]. split; [done|]. by rewrite Hc, Hc'.
  - split; [by apply preempt_inv|]. by rewrite (proj1 (preempt_rest s old)).
Qed.
End schedule.

(** ** Everything but [schedule] keeps the CPU *)

Section locality.
Context `{Link}.

Lemma local_pmm_alloc_page : local pmm_alloc_page.
Proof.
  apply local_bind; [apply local_get|]. intros s. apply local_bind; [apply local_kprintf|]. intros _.
  generalize 0. induction (Z.to_nat (pmm_total_pages s)) as [|n IH]; intros i; simpl; solve_local.
Qed.

Lemma local_kmalloc size : local (kmalloc size).
Proof.
  assert (∀ n b sz, local (kmalloc_find n b sz)) as Hf.
  { induction n as [|n IH]; intros b sz; cbn [kmalloc_find]; solve_local. }
  unfold kmalloc. solve_local.
Qed.

Lemma local_alloc_table : local alloc_table.
Proof. pose proof local_pmm_alloc_page. unfold alloc_table. solve_local. Qed.

Lemma local_vmm_map root va pa fl : local (vmm_map root va pa fl).
Proof. pose proof local_alloc_table. unfold vmm_map, next_table. solve_local. Qed.
End locality.

#[export] Hint Resolve local_pmm_alloc_page local_kmalloc local_vmm_map : local.

(** ** Creating processes *)

Section create.
Context `{Link}.
Implicit Types s : kernel.

(** The parts of the state that process creation leaves alone. *)
Record same_rest s s' : Prop := {
  sr_current : current_proc s' = current_proc s;
  sr_ticks : ticks s' = ticks s;
  sr_pool : msg_pool s' = msg_pool s;
  sr_used : msg_used s' = msg_used s;
}.

(** A free slot [p] was given to a new READY process. *)
Record new_process s s' (p : nat) : Prop := {
  np_len : length (proc_table s') = length (proc_table s);
  np_other j : j ≠ p → proc s' j = proc s j;
  np_pid : pid (proc s' p) = next_pid s;
  np_state : state (proc s' p) = PROC_READY;
  np_queue : msg_queue (proc s' p) = None ∧ msg_tail (proc s' p) = None ∧ msg_count (proc s' p) = 0;
  np_next : next_pid s' = next_pid s + 1;
  np_rest : same_rest s s';
}.

Lemma new_process_inv s s' p :
  kernel_inv s → slot p → ¬ used s p → next_pid s + 1 < 2 ^ 31 → new_process s s' p → kernel_inv s'.
Proof.
  intros [Hs [q Hq]] Hp Hnu Hlt [Hl Ho Hpid Hst (Hmq & Hmt & Hmc) Hn [Hc _ Hpo Hus]].
  assert (Hu : ∀ j, used s' j ↔ j = p ∨ used s j).
  { intros j. unfold used. destruct (decide (j = p)) as [->|Hne]; [rewrite Hst; naive_solver|].
    rewrite Ho by done. tauto. }
  assert (Hsmall : ∀ j, slot j → used s j → pid (proc s j) ≠ next_pid s).
  { intros j Hj Huj. pose proof (si_pid _ Hs j Hj Huj). lia. }
  pose proof (si_next _ Hs). split; [split|exists q].
  - rewrite Hl. apply Hs.
  - intros c. rewrite Hc, Hu. intros Hcur. destruct (si_cur _ Hs c Hcur). tauto.
  - intros i Hi. rewrite Hc. destruct (decide (i = p)) as [->|Hne]; [by rewrite Hst|].
    rewrite Ho by done. by apply Hs.
  - intros i Hi [->|Hui]%Hu; [rewrite Hpid, Hn; lia|]. rewrite Hn.
    destruct (decide (i = p)) as [->|Hne]; [done|]. rewrite Ho by done.
    pose proof (si_pid _ Hs i Hi Hui). lia.
  - intros i j Hi Hj Hui Huj. apply Hu in Hui, Huj.
    destruct (decide (i = p)) as [->|Hnei], (decide (j = p)) as [->|Hnej]; [done| | |].
    + destruct Huj as [?|Huj]; [done|]. rewrite Hpid, Ho by done. intros Heq. by destruct (Hsmall j Hj Huj).
    + destruct Hui as [?|Hui]; [done|]. rewrite Hpid, Ho by done. intros Heq. by destruct (Hsmall i Hi Hui).
    + destruct Hui as [?|Hui], Huj as [?|Huj]; try done. rewrite !Ho by done. by apply Hs.
  - rewrite Hn. lia.
  - pose proof (qo_unused _ _ Hq p Hp Hnu) as Hqp.
    assert (Hch : ∀ h l, chain s' h l ↔ chain s h l).
    { intros h l. split; apply chain_ext; intros m _; unfold msg; by rewrite Hpo. }
    split.
    + rewrite Hpo, Hus. apply Hq.
    + intros i Hi. rewrite Hch. destruct (decide (i = p)) as [->|Hne]; [by rewrite Hmq, Hqp|].
      rewrite Ho by done. by apply Hq.
    + intros i Hi. destruct (decide (i = p)) as [->|Hne]; [by rewrite Hmt, Hqp|].
      rewrite Ho by done. by apply Hq.
    + intros i Hi. destruct (decide (i = p)) as [->|Hne]; [by rewrite Hmc, Hqp|].
      rewrite Ho by done. by apply Hq.
    + unfold pool_used. rewrite Hus. apply Hq.
    + apply Hq.
    + apply Hq.
    + apply Hq.
    + intros i Hi. rewrite Hu. intros Hn'. apply (qo_unused _ _ Hq); tauto.
    + unfold msg. rewrite Hpo. apply Hq.
Qed.

Lemma result_alloc_proc_slot s :
  result alloc_proc_slot s =
    match find_proc (λ p, state p = PROC_UNUSED) s with
    | Some i => Some (Some i, upd_proc i (λ p, p <| state := PROC_READY |>) (upd_proc i (λ _, process_zero) s))
    | None => Some (None, s)
    end.
Proof. unfold alloc_proc_slot. run_simpl. by destruct (find_proc _ s). Qed.

(** [proc_create], every branch. *)
Lemma proc_create_cases s nm entry user kst h :
  length (proc_table s) = PROC_MAX → 1 ≤ next_pid s < 2 ^ 31 - 1 →
  result (kmalloc KSTACK_SIZE) (k_heap s) = Some (kst, h) →
  match find_proc (λ p, state p = PROC_UNUSED) s with
  | None => result (proc_create nm entry user) s = Some (None, s)
  | Some p =>
      if decide (kst = NULL) then
        result (proc_create nm entry user) s = Some (None, s <| k_heap := h |>)
      else ∃ s', result (proc_create nm entry user) s = Some (Some p, s') ∧ new_process s s' p ∧
        let top := u64 (kst + KSTACK_SIZE) in
        context (proc s' p) = CpuContext 0 0 0 entry 0 0 proc_entrypoint top ∧
        kernel_rsp (proc s' p) = top ∧ exit_code (proc s' p) = 0 ∧ sleep_ticks (proc s' p) = 0 ∧
        ppid (proc s' p) = (match current_proc s with Some c => pid (proc s c) | None => 0 end) ∧
        name (proc s' p) = String.substring 0 15 nm ∧
        k_heap s' = h <| h_mem := st64 (h_mem h) (u64 (top - 8)) entry |>
  end.
Proof.
  intros Hl Hn Hk. unfold proc_create, alloc_proc, alloc_pid. run_simpl.
  destruct (find_proc (λ p, state p = PROC_UNUSED) s) as [p|] eqn:Ef; run_simpl; [|done].
  cbn [view lens_kernel_heap]. rewrite Hk. cbn [fst snd put lens_kernel_heap].
  case_decide as Hz.
  { subst kst. change (NULL =? NULL) with true. cbv iota. by run_simpl. }
  assert ((kst =? NULL) = false) as -> by (by apply Z.eqb_neq).
  destruct (find_proc_some _ s p Hl Ef) as (Hp & Hst & _).
  run_simpl. cbn [put view lens_kernel_heap]. eexists. split; [reflexivity|].
  assert (Hps : (p < length (proc_table s))%nat) by (rewrite Hl; exact Hp).
  split; [|cbn zeta; split_and!; proc_simpl; try reflexivity].
  - split.
    + by autorewrite with table.
    + intros j Hj. by proc_simpl.
    + proc_simpl. reflexivity.
    + proc_simpl. reflexivity.
    + proc_simpl. by split_and!.
    + cbn -[s32]. unfold s32. rewrite Z.mod_small; lia.
    + by split.
  - match goal with |- context [@setter _ _ ppid _ (λ _, ?x) _] =>
      transitivity x; [reflexivity|] end.
    match goal with |- context [match current_proc ?x with _ => _ end] =>
      change (current_proc x) with (current_proc s) end.
    destruct (current_proc s) as [c|]; [|reflexivity].
    destruct (decide (p = c)) as [<-|Hne]; proc_simpl; reflexivity.
Qed.
End create.

(** ** Every operation keeps the invariant *)

Section keep.
Context `{Link}.
Implicit Types s : kernel.

(** The table and the queues are as before. *)
Definition same_data s s' : Prop :=
  proc_table s' = proc_table s ∧ current_proc s' = current_proc s ∧ next_pid s' = next_pid s ∧
  msg_pool s' = msg_pool s ∧ msg_used s' = msg_used s.

Lemma kernel_inv_data s s' : kernel_inv s → same_data s s' → kernel_inv s'.
Proof. intros Hi (?&?&?&?&?). by eapply kernel_inv_same. Qed.

(** A component whose state the invariant does not speak about. *)
Class Outside {T} (l : Lens kernel T) := outside s t : same_data s (put t s).
#[export] Instance outside_mem : Outside lens_kernel_mem.
Proof. by intros s t. Qed.
#[export] Instance outside_vmm : Outside lens_kernel_vmm.
Proof. by intros s t. Qed.
#[export] Instance outside_heap : Outside lens_kernel_heap.
Proof. by intros s t. Qed.
#[export] Instance outside_pmm : Outside lens_kernel_pmm.
Proof. by intros s t. Qed.

Lemma always_lift_outside {T A} `{l : Lens kernel T, !Outside l} (m : M T A) (Q : A → kernel → Prop) s :
  kernel_inv s → local m → (∀ a s', kernel_inv s' → same_data s s' → Q a s') →
  always kernel_inv resumed Q (lift m s).
Proof.
  intros Hi Hl HQ. apply always_lift_local; [done|..].
  - intros x. eapply kernel_inv_data; [done|]. apply outside.
  - intros a x. apply HQ; [|apply outside]. eapply kernel_inv_data; [done|]. apply outside.
Qed.

(** Updating a slot's fields other than its PID, state and queue. *)
Lemma kernel_inv_quiet s i f :
  kernel_inv s → slot i →
  (∀ p, pid (f p) = pid p ∧ msg_queue (f p) = msg_queue p ∧ msg_tail (f p) = msg_tail p ∧
        msg_count (f p) = msg_count p ∧ state (f p) = state p) →
  kernel_inv (upd_proc i f s).
Proof.
  intros Hi Hs Hf. apply kernel_inv_upd; [done..|]. cbn zeta.
  destruct (Hf (proc s i)) as (-> & -> & -> & -> & ->). split_and!; try done. by apply Hi.
Qed.

Definition done_with s (_ : option nat) (s' : kernel) : Prop :=
  kernel_inv s' ∧ current_proc s' = current_proc s.

Lemma local_proc_create nm entry user : local (proc_create nm entry user).
Proof.
  pose proof local_kmalloc. unfold proc_create, alloc_proc, alloc_pid. solve_local.
Qed.

Lemma always_proc_create s nm entry user :
  kernel_inv s → next_pid s < 2 ^ 31 - 1 →
  always kernel_inv resumed (done_with s) (proc_create nm entry user s).
Proof.
  intros Hi Hn. pose proof (si_next _ (proj1 Hi)) as Hn1. pose proof (si_len _ (proj1 Hi)) as Hl.
  destruct (local_cases (kmalloc KSTACK_SIZE) (k_heap s)) as [[kst Hk]|Hk]; [apply local_kmalloc| |].
  - pose proof (proc_create_cases s nm entry user _ _ Hl ltac:(lia) Hk) as Hc.
    destruct (find_proc _ s) as [p|] eqn:Ef.
    + destruct (find_proc_some _ s p Hl Ef) as (Hp & Hst & _). case_decide.
      * eapply always_result; [exact Hc|]. split; [|done]. by eapply kernel_inv_data.
      * destruct Hc as (s' & Hr & Hnew & _). eapply always_result; [exact Hr|].
        split; [|by apply Hnew]. eapply (new_process_inv s s' p); [done|done|by intros Hu|lia|done].
    + by eapply always_result.
  - unfold proc_create, alloc_proc. apply always_bind. cbn.
    destruct (find_proc _ s) as [p|] eqn:Ef; [|by split].
    apply always_bind. unfold lift. pose proof (local_kmalloc KSTACK_SIZE (k_heap s)) as Hloc.
    unfold result in Hk. cbn [view lens_kernel_heap].
    destruct (kmalloc KSTACK_SIZE (k_heap s)); try done; cbn; by eapply kernel_inv_data.
Qed.

Lemma always_proc_exit s code :
  kernel_inv s → always kernel_inv resumed (back_to s) (proc_exit code s).
Proof.
  intros Hi. unfold proc_exit. always_step.
  destruct (current_proc s) as [c|] eqn:Hc; [|by split].
  destruct (si_cur _ (proj1 Hi) c Hc) as [Hs Hu]. unfold used in Hu.
  do 4 always_step.
  set (s1 := upd_proc c _ (upd_proc c _ s)).
  assert (kernel_inv s1) as Hi1.
  { apply kernel_inv_quiet; [|done|done]. by apply kernel_inv_upd. }
  eapply always_mono; [|by apply always_schedule]. intros [] s' [H1 H2]. by split.
Qed.

Lemma always_proc_sleep s ms :
  kernel_inv s → always kernel_inv resumed (back_to s) (proc_sleep ms s).
Proof.
  intros Hi. unfold proc_sleep. always_step.
  destruct (current_proc s) as [c|] eqn:Hc; [|by split].
  destruct (si_cur _ (proj1 Hi) c Hc) as [Hs Hu].
  do 3 always_step.
  set (s1 := upd_proc c _ s). set (s2 := upd_proc c _ s1). set (s3 := upd_proc c _ s2).
  assert (kernel_inv s1) as Hi1 by (by apply kernel_inv_quiet).
  assert (kernel_inv s2) as Hi2.
  { apply kernel_inv_quiet; [done..|]. intros p. by destruct (_ =? _). }
  assert (kernel_inv s3) as Hi3.
  { apply kernel_inv_upd; [done..|]. cbn. split_and!; try done.
    split; [done|]. intros Hx. destruct (si_cur _ (proj1 Hi2) c Hc) as [_ Hu2]. by destruct Hu2. }
  eapply always_mono; [|by apply always_schedule]. intros [] s' [H1 H2]. by split.
Qed.

Lemma tick_proc_fields p :
  pid (tick_proc p) = pid p ∧ msg_queue (tick_proc p) = msg_queue p ∧
  msg_tail (tick_proc p) = msg_tail p ∧ msg_count (tick_proc p) = msg_count p ∧
  (state (tick_proc p) = PROC_UNUSED ↔ state p = PROC_UNUSED) ∧
  (state (tick_proc p) = PROC_RUNNING ↔ state p = PROC_RUNNING).
Proof.
  unfold tick_proc. case_decide as Hs; [|done].
  destruct (0 <? sleep_ticks p); cbn zeta; destruct (sleep_ticks _ =? 0); cbn; by rewrite ?Hs.
Qed.

Definition tick_all s : kernel := foldl (λ s i, upd_proc i tick_proc s) s (seq 0 PROC_MAX).

Lemma tick_all_inv s :
  kernel_inv s → kernel_inv (tick_all s) ∧ current_proc (tick_all s) = current_proc s ∧
  ticks (tick_all s) = ticks s.
Proof.
  unfold tick_all. intros Hi.
  assert (∀ l s, Forall slot l → kernel_inv s →
    let s' := foldl (λ s i, upd_proc i tick_proc s) s l in
    kernel_inv s' ∧ current_proc s' = current_proc s ∧ ticks s' = ticks s) as Hl.
  { clear. intros l. induction l as [|i l IH]; intros s Hl Hi; [done|].
    apply Forall_cons in Hl as [H1 Hl]. cbn. destruct (IH (upd_proc i tick_proc s) Hl) as (?&->&->); [|done].
    apply kernel_inv_upd; [done..|]. destruct (tick_proc_fields (proc s i)) as (?&?&?&?&?&Hr).
    cbn zeta. split_and!; try done. rewrite Hr. by apply Hi. }
  apply Hl; [|done]. apply Forall_forall. intros i Hx%elem_of_seq. unfold slot. lia.
Qed.

Lemma always_sched_tick s :
  kernel_inv s → always kernel_inv resumed (back_to s) (sched_tick s).
Proof.
  intros Hi. unfold sched_tick. apply always_bind.
  eapply always_result; [apply result_for_each_modify|]. fold (tick_all s).
  destruct (tick_all_inv s Hi) as (Hi' & Hc & _). always_step.
  case_match; [|by split]. eapply always_mono; [|by apply always_schedule].
  intros [] s' [H1 H2]. split; [done|]. by rewrite H2.
Qed.

Lemma wakeup_inv s i :
  kernel_inv s → slot i →
  kernel_inv (upd_proc i (λ p, if decide (state p = PROC_SLEEPING) then p <| state := PROC_READY |> else p) s).
Proof.
  intros Hi Hs. apply kernel_inv_upd; [done..|]. cbn zeta.
  case_decide as E; cbn; [rewrite E|]; split_and!; try done. by apply Hi.
Qed.
End keep.

(** ** User processes *)

Section elf.
Context `{Link}.
Implicit Types s : kernel.

(** What [proc_create_elf] leaves in the slot: the stack pointer is written to
    [user_rsp], and [user_sp] keeps the 0 of [memset]. *)
Record elf_process (rsp : Z) s s' (p : nat) : Prop := {
  ep_inv : kernel_inv s';
  ep_current : current_proc s' = current_proc s;
  ep_next : next_pid s' = next_pid s + 1;
  ep_slot : slot p;
  ep_other j : j ≠ p → proc s' j = proc s j;
  ep_pid : pid (proc s' p) = next_pid s;
  ep_state : state (proc s' p) = PROC_READY;
  ep_user : is_user (proc s' p) = true ∧ started (proc s' p) = false;
  ep_sp : user_sp (proc s' p) = 0;
  ep_rsp : user_rsp (proc s' p) = rsp;
}.

(** The state after the slot and the PID were taken. *)
Definition claim_slot (p : nat) s : kernel :=
  upd_proc p (λ q, q <| pid := next_pid s |> <| state := PROC_READY |>
                     <| is_user := true |> <| started := false |>)
    ((upd_proc p (λ q, q <| state := PROC_READY |>) (upd_proc p (λ _, process_zero) s))
       <| next_pid := s32 (next_pid s + 1) |>).

Lemma claim_slot_elf s p :
  kernel_inv s → next_pid s < 2 ^ 31 - 1 → slot p → ¬ used s p → elf_process 0 s (claim_slot p s) p.
Proof.
  intros Hi Hn Hp Hu. pose proof (si_next _ (proj1 Hi)).
  assert (Hps : (p < length (proc_table s))%nat) by (rewrite (si_len _ (proj1 Hi)); exact Hp).
  assert (Hs32 : s32 (next_pid s + 1) = next_pid s + 1) by (apply s32_id; lia).
  assert (Hpp : proc (claim_slot p s) p = process_zero <| state := PROC_READY |> <| pid := next_pid s |>
    <| state := PROC_READY |> <| is_user := true |> <| started := false |>).
  { unfold claim_slot. by proc_simpl. }
  assert (Ho : ∀ j, j ≠ p → proc (claim_slot p s) j = proc s j).
  { intros j Hj. unfold claim_slot. by proc_simpl. }
  assert (Hnp : next_pid (claim_slot p s) = next_pid s + 1) by exact Hs32.
  assert (Hnew : new_process s (claim_slot p s) p).
  { split; try done; rewrite ?Hpp; try done. unfold claim_slot. by autorewrite with table. }
  split; try done; try (by rewrite Hpp). by apply (new_process_inv s (claim_slot p s) p); [done|done|done|lia|].
Qed.

(** Later steps only touch the slot's other fields. *)
Lemma elf_process_upd rsp rsp' s s' p f :
  elf_process rsp s s' p →
  (∀ q, pid (f q) = pid q ∧ msg_queue (f q) = msg_queue q ∧ msg_tail (f q) = msg_tail q ∧
        msg_count (f q) = msg_count q ∧ state (f q) = state q) →
  (∀ q, is_user (f q) = is_user q ∧ started (f q) = started q ∧ user_sp (f q) = user_sp q) →
  user_rsp (f (proc s' p)) = rsp' →
  elf_process rsp' s (upd_proc p f s') p.
Proof.
  intros [Hi Hc Hn Hp Ho Hpid Hst Hu Hsp Hrsp] Hf Hg Hr.
  assert (Hps : (p < length (proc_table s'))%nat) by (rewrite (si_len _ (proj1 Hi)); exact Hp).
  destruct (Hf (proc s' p)) as (E1 & _ & _ & _ & E2). destruct (Hg (proc s' p)) as (E3 & E4 & E5).
  split; try done.
  - by apply kernel_inv_quiet.
  - intros j Hj. proc_simpl. by apply Ho.
  - proc_simpl. by rewrite E1.
  - proc_simpl. by rewrite E2.
  - proc_simpl. by rewrite E3, E4.
  - proc_simpl. by rewrite E5.
  - by proc_simpl.
Qed.

Lemma elf_process_data rsp s s1 s2 p :
  elf_process rsp s s1 p → same_data s1 s2 → elf_process rsp s s2 p.
Proof.
  intros [Hi Hc Hn Hp Ho Hpid Hst Hu Hsp Hrsp] Hd. pose proof Hd as (Ht & Hc' & Hn' & _).
  assert (∀ j, proc s2 j = proc s1 j) as Hpr by (intros j; unfold proc; by rewrite Ht).
  split; rewrite ?Hpr, ?Hc', ?Hn'; try done.
  - by eapply kernel_inv_data.
  - intros j Hj. rewrite Hpr. by apply Ho.
Qed.

Lemma always_elf_lift {T A B} `{l : Lens kernel T, !Outside l} (m : M T A) (f : A → M kernel B) (Q : B → kernel → Prop) rsp s s1 p :
  elf_process rsp s s1 p → local m →
  (∀ a s2, elf_process rsp s s2 p → always kernel_inv resumed Q (f a s2)) →
  always kernel_inv resumed Q ((lift m ≫= f) s1).
Proof.
  intros Hs Hl Hf. apply always_bind. apply always_lift_outside; [apply Hs|done|].
  intros a s2 _ Hd. apply Hf. by eapply elf_process_data.
Qed.

(** A frame, or panic. *)
Lemma always_elf_check {B} (x : Z) msg (f : unit → M kernel B) (Q : B → kernel → Prop) rsp s s1 p :
  elf_process rsp s s1 p → (x ≠ NULL → always kernel_inv resumed Q (f tt s1)) →
  always kernel_inv resumed Q (((if x =? NULL then panic msg else mret tt) ≫= f) s1).
Proof.
  intros Hs Hf. apply always_bind. destruct (x =? NULL) eqn:E; cbn; [apply Hs|].
  apply Hf. by apply Z.eqb_neq.
Qed.

Definition elf_done s (r : option nat) (s' : kernel) : Prop :=
  match r with
  | Some p => ¬ used s p ∧ elf_process 0x00007fffffffe000 s s' p ∧
              c_rip (context (proc s' p)) = proc_entry_user
  | None => s' = s
  end.

(** Forget how the current state was reached. *)
Ltac elf_step rsp tac :=
  match goal with He : elf_process _ ?s ?s1 ?p |- always _ _ _ (_ ?x) =>
    let He' := fresh in
    assert (elf_process rsp s x p) as He' by tac;
    revert He'; generalize x; clear He; try clear s1; intros s1 He
  end.

Lemma always_proc_create_elf s nm elf :
  kernel_inv s → next_pid s < 2 ^ 31 - 1 →
  always kernel_inv resumed (elf_done s) (proc_create_elf nm elf s).
Proof.
  intros Hi Hn. unfold proc_create_elf. apply always_bind. pose proof (result_alloc_proc_slot s) as Hr.
  destruct (find_proc _ s) as [p|] eqn:Ef; (eapply always_result; [exact Hr|]); [|done].
  destruct (find_proc_some _ s p (si_len _ (proj1 Hi)) Ef) as (Hp & Hst & _).
  assert (Hu : ¬ used s p) by (by intros Hx).
  apply always_bind. unfold alloc_pid. do 2 always_step. apply (always_result _ _ _ _ _ _ _ (result_ret _ _)).
  always_step.
  match goal with |- always _ _ _ (_ ?x) => change x with (claim_slot p s) end.
  pose proof (claim_slot_elf s p Hi Hn Hp Hu) as He. revert He. generalize (claim_slot p s).
  intros s1 He.
  apply (always_elf_lift _ _ _ _ s s1 p He local_pmm_alloc_page). clear s1 He. intros pa s1 He.
  apply (always_elf_check _ _ _ _ _ s s1 p He). intros _. cbv zeta.
  unfold vmm_memory. always_step.
  elf_step 0 ltac:(by eapply elf_process_data). do 2 always_step.
  elf_step 0 ltac:(by eapply elf_process_data).
  always_step. elf_step 0 ltac:(by eapply elf_process_upd; [..|apply He]).
  apply always_bind. eapply always_mono; [|apply (always_for_each _ _ (λ s', elf_process 0 s s' p)); [|exact He]].
  2:{ intros addr s2 He2. apply (always_elf_lift _ _ _ _ s s2 p He2 local_pmm_alloc_page). intros pa' s3 He3.
      always_step. apply (always_elf_lift _ _ _ _ s s3 p He3); [apply local_vmm_map|]. by intros r s4 He4. }
  clear s1 He. intros ? s1 He. cbn beta in He |- *. do 2 always_step.
  generalize (ld64 (k_mem s1) elf). intros entry.
  elf_step 0x00007fffffffe000 ltac:(by eapply elf_process_upd). do 3 always_step.
  apply always_bind. unfold alloc_kernel_stack_for_proc.
  apply (always_elf_lift _ _ _ _ s s1 p He local_pmm_alloc_page). clear s1 He. intros stk s1 He.
  apply (always_elf_check _ _ _ _ _ s s1 p He). intros _.
  apply (always_result _ _ _ _ _ _ _ (result_ret _ _)). always_step.
  elf_step 0x00007fffffffe000 ltac:(by eapply elf_process_upd; [..|apply He]). always_step.
  apply (always_result _ _ _ _ _ _ _ (result_ret _ _)). split_and!; [done|by eapply elf_process_upd; [..|apply He]|].
  assert (Hps : (p < length (proc_table s1))%nat) by (rewrite (si_len _ (proj1 (ep_inv _ _ _ _ He))); exact Hp).
  by proc_simpl.
Qed.
End elf.

(** ** Sleeping *)

Lemma final_prepend {S A} l (r : run S A) : final (prepend l r) = final r.
Proof. by destruct r. Qed.

(** The caller as [proc_sleep] leaves it. *)
Definition fall_asleep (ms : Z) (p : process) : process :=
  let p := p <| sleep_ticks := u64 (ms * PIT_HZ) `div` 1000 |> in
  let p := if sleep_ticks p =? 0 then p <| sleep_ticks := 1 |> else p in
  p <| state := PROC_SLEEPING |>.

Section sleep.
Implicit Types p : process.

Lemma tick_sleeping p :
  state p = PROC_SLEEPING → 1 < sleep_ticks p →
  state (tick_proc p) = PROC_SLEEPING ∧ sleep_ticks (tick_proc p) = sleep_ticks p - 1.
Proof.
  intros Hs Ht. unfold tick_proc. rewrite decide_True by done.
  rewrite (proj2 (Z.ltb_lt _ _)) by lia. cbn. rewrite (proj2 (Z.eqb_neq _ _)) by lia. done.
Qed.

Lemma tick_last p :
  state p = PROC_SLEEPING → sleep_ticks p = 1 → state (tick_proc p) = PROC_READY.
Proof. intros Hs Ht. unfold tick_proc. rewrite decide_True by done. cbn. by rewrite Ht. Qed.

Lemma iter_tick n p :
  state p = PROC_SLEEPING → (Z.of_nat n < sleep_ticks p) →
  state (Nat.iter n tick_proc p) = PROC_SLEEPING ∧
  sleep_ticks (Nat.iter n tick_proc p) = sleep_ticks p - Z.of_nat n.
Proof.
  intros Hs. induction n as [|n IH]; intros Hn; [cbn; split; [done|lia]|].
  destruct IH as [H1 H2]; [lia|]. rewrite Nat.iter_succ.
  destruct (tick_sleeping _ H1) as [H3 H4]; [lia|]. split; [done|]. lia.
Qed.
End sleep.

(** ** Properties *)

Section properties.
Context `{Link}.
Implicit Types s : kernel.

(** The number of slots from [a] forward to [b], cyclically, in [1..PROC_MAX]. *)
Definition distance (a b : nat) : nat := ((b + 2 * PROC_MAX - a - 1) mod PROC_MAX + 1)%nat.

Lemma distance_spec a d : slot a → (1 ≤ d ≤ PROC_MAX)%nat → distance a ((a + d) mod PROC_MAX) = d.
Proof.
  unfold slot, distance, PROC_MAX. intros Ha Hd.
  destruct (decide (a + d < 64)%nat).
  - rewrite (Nat.mod_small (a + d)) by lia.
    replace (a + d + 2 * 64 - a - 1)%nat with ((d - 1) + 2 * 64)%nat by lia.
    rewrite Nat.Div0.mod_add, Nat.mod_small; lia.
  - assert ((a + d) mod 64 = a + d - 64)%nat as ->.
    { replace (a + d)%nat with ((a + d - 64) + 1 * 64)%nat at 1 by lia.
      rewrite Nat.Div0.mod_add. apply Nat.mod_small. lia. }
    replace (a + d - 64 + 2 * 64 - a - 1)%nat with ((d - 1) + 1 * 64)%nat by lia.
    rewrite Nat.Div0.mod_add, Nat.mod_small; lia.
Qed.

(** C8: round robin. [schedule] puts a RUNNING caller back to READY and switches
    to the READY process at the smallest cyclic distance after it, which becomes
    the one RUNNING process, with its kernel stack in the TSS; no other process
    changes. If no process is READY it returns without a switch. *)
Theorem schedule_round_robin s old :
  kernel_inv s → current_proc s = Some old →
  let s0 := preempt old s in
  (∃ idx, slot idx ∧ state (proc s0 idx) = PROC_READY ∧
     (∀ i, slot i → state (proc s0 i) = PROC_READY → (distance old idx ≤ distance old i)%nat) ∧
     schedule s = switch_context old idx (dispatch idx s0) ∧
     resumed idx (dispatch idx s0) ∧
     k_mem (dispatch idx s0) = st64 (k_mem s) (sym_tss + 4) (kernel_rsp (proc s idx)) ∧
     (∀ i, i ≠ idx → proc (dispatch idx s0) i = proc s0 i)) ∨
  ((∀ i, slot i → state (proc s0 i) ≠ PROC_READY) ∧ schedule s = Done [] tt s0).
Proof.
  intros Hi Hc s0. destruct (si_cur _ (proj1 Hi) old Hc) as [Ho _].
  assert (Hl : length (proc_table s) = PROC_MAX) by apply Hi.
  destruct (schedule_cases s old Hc Ho) as [(idx & Hscan & Hs)|Hs]; [left|by right]. fold s0 in Hscan, Hs.
  assert (Hi0 : kernel_inv s0) by (by apply preempt_inv).
  assert (Hl0 : length (proc_table s0) = PROC_MAX) by apply Hi0.
  destruct (sched_scan_slot _ _ _ Hscan) as [Hidx Hrdy]. exists idx. split_and!; [done|done| |done|..].
  - apply sched_scan_some in Hscan as (d & Hd & Hid & _ & Hmin). intros i Hsl Hri.
    destruct (slot_distance old i Ho Hsl) as (d' & Hd' & Hi').
    rewrite Hid, Hi', !distance_spec by (done || lia).
    destruct (decide (d' < d)%nat); [|lia]. exfalso. apply (Hmin d'); [lia|]. by rewrite <-Hi'.
  - apply dispatch_inv; [done|by apply preempt_no_running|done|done].
  - unfold dispatch. cbn zeta. set (s1 := upd_proc idx _ _).
    assert (kernel_rsp (proc s1 idx) = kernel_rsp (proc s idx)) as ->.
    { unfold s1. rewrite proc_upd_eq by (cbn; rewrite Hl0; exact Hidx).
      change (kernel_rsp (proc s0 idx) = kernel_rsp (proc s idx)).
      unfold s0. rewrite proc_preempt by done. by case_decide as E; [destruct E as [-> _]|]. }
    assert (k_mem s1 = k_mem s) as -> by (unfold s1, s0, preempt; by case_decide).
    by case_match.
  - intros i Hne. rewrite proc_dispatch by done. by rewrite decide_False.
Qed.

(** C22: bounded waiting. A READY process that is not the current one is at a
    distance of at most [PROC_MAX] from it, and every call of [schedule] either
    runs it or hands the CPU to a process from which the distance is smaller,
    leaving it READY: it runs after at most [PROC_MAX] calls. *)
Theorem schedule_bounded_wait s old i :
  kernel_inv s → current_proc s = Some old → slot i → i ≠ old → state (proc s i) = PROC_READY →
  ∃ new, current_proc (final (schedule s)) = Some new ∧
    (new = i ∨ ((distance new i < distance old i ≤ PROC_MAX)%nat ∧
                state (proc (final (schedule s)) i) = PROC_READY)).
Proof.
  intros Hi Hc Hs Hne Hr. destruct (si_cur _ (proj1 Hi) old Hc) as [Ho _].
  assert (Hl : length (proc_table s) = PROC_MAX) by apply Hi.
  set (s0 := preempt old s).
  assert (Hr0 : state (proc s0 i) = PROC_READY).
  { unfold s0. rewrite proc_preempt by done. rewrite decide_False; [done|]. tauto. }
  assert (Hl0 : length (proc_table s0) = PROC_MAX) by apply (preempt_inv s old Hi Hc).
  destruct (schedule_cases s old Hc Ho) as [(idx & Hscan & ->)|[Hn _]]; [|by destruct (Hn i Hs)].
  fold s0 in Hscan |- *. assert (Hfin : final (switch_context old idx (dispatch idx s0)) = dispatch idx s0).
  { unfold switch_context. by case_decide. }
  rewrite Hfin. destruct (dispatch_rest s0 idx) as (Hcur & _). exists idx. split; [done|].
  destruct (decide (idx = i)) as [|Hni]; [by left|right].
  destruct (sched_scan_slot _ _ _ Hscan) as [Hidx _].
  split; [|by rewrite proc_dispatch, decide_False by done].
  apply sched_scan_some in Hscan as (d & Hd & Hid & _ & Hmin).
  destruct (slot_distance old i Ho Hs) as (d' & Hd' & Hi').
  assert (d < d')%nat as Hlt.
  { destruct (decide (d' < d)%nat); [exfalso; apply (Hmin d'); [lia|]; by rewrite <-Hi'|].
    destruct (decide (d' = d)) as [->|]; [congruence|lia]. }
  assert (i = (idx + (d' - d)) mod PROC_MAX)%nat as Hi2.
  { rewrite Hi', Hid, Nat.Div0.add_mod_idemp_l. f_equal. lia. }
  rewrite Hi2 at 1. rewrite distance_spec by (done || lia).
  rewrite Hi', distance_spec by (done || lia). lia.
Qed.

(** A process that is not RUNNING or READY is not touched by [schedule]. *)
Lemma schedule_other s c :
  kernel_inv s → slot c → state (proc s c) ≠ PROC_RUNNING → state (proc s c) ≠ PROC_READY →
  proc (final (schedule s)) c = proc s c.
Proof.
  intros Hi Hs Hn Hr. destruct (current_proc s) as [old|] eqn:Hc.
  2:{ unfold schedule, gets, mbind, M_bind. cbn [bind_run]. by rewrite Hc. }
  destruct (si_cur _ (proj1 Hi) old Hc) as [Ho _].
  assert (Hp : proc (preempt old s) c = proc s c).
  { rewrite proc_preempt by (done || apply Hi). rewrite decide_False; [done|]. by intros [-> ?]. }
  destruct (schedule_cases s old Hc Ho) as [(idx & Hscan & ->)|[_ ->]]; [|done].
  destruct (sched_scan_slot _ _ _ Hscan) as [Hidx Hrdy].
  assert (final (switch_context old idx (dispatch idx (preempt old s))) = dispatch idx (preempt old s)) as ->.
  { unfold switch_context. by case_decide. }
  rewrite proc_dispatch by (done || apply (preempt_inv s old Hi Hc)). rewrite decide_False; [done|].
  intros ->. by rewrite Hp in Hrdy.
Qed.

Lemma proc_sleep_final s c ms :
  kernel_inv s → current_proc s = Some c →
  proc (final (proc_sleep ms s)) c = fall_asleep ms (proc s c).
Proof.
  intros Hi Hc. destruct (si_cur _ (proj1 Hi) c Hc) as [Hs Hu].
  assert (Hl : (c < length (proc_table s))%nat) by (rewrite (si_len _ (proj1 Hi)); exact Hs).
  set (s1 := upd_proc c (λ p, p <| sleep_ticks := u64 (ms * PIT_HZ) `div` 1000 |>) s).
  set (s2 := upd_proc c (λ p, if sleep_ticks p =? 0 then p <| sleep_ticks := 1 |> else p) s1).
  set (s3 := upd_proc c (λ p, p <| state := PROC_SLEEPING |>) s2).
  assert (final (proc_sleep ms s) = final (schedule s3)) as ->.
  { unfold proc_sleep, gets, mbind, M_bind. cbn [bind_run prepend app]. rewrite Hc.
    unfold modify. cbn [bind_run prepend app]. by rewrite !final_prepend. }
  assert (Hp : proc s3 c = fall_asleep ms (proc s c)) by (unfold s3, s2, s1; by proc_simpl).
  rewrite <-Hp. apply schedule_other; [|done|by rewrite Hp..].
  assert (kernel_inv s1) by (by apply kernel_inv_quiet).
  assert (Hi2 : kernel_inv s2).
  { apply kernel_inv_quiet; [done..|]. intros p. by destruct (_ =? _). }
  apply kernel_inv_upd; [done..|]. cbn. split_and!; try done.
  split; [done|]. intros Hx. destruct (si_cur _ (proj1 Hi2) c Hc) as [_ Hu2]. by destruct Hu2.
Qed.

(** With another process READY, [proc_sleep] hands the CPU over. *)
Lemma proc_sleep_switches s c j ms :
  kernel_inv s → current_proc s = Some c → slot j → j ≠ c → state (proc s j) = PROC_READY →
  ∃ l new s', proc_sleep ms s = Switch l c new s' (λ s2, Done [] tt s2) ∧ new ≠ c.
Proof.
  intros Hi Hc Hj Hjc Hr. destruct (si_cur _ (proj1 Hi) c Hc) as [Hs Hu].
  assert (Hl : (c < length (proc_table s))%nat) by (rewrite (si_len _ (proj1 Hi)); exact Hs).
  unfold proc_sleep, gets, mbind, M_bind. cbn [bind_run prepend app]. rewrite Hc.
  unfold modify. cbn [bind_run prepend app].
  set (s1 := upd_proc c _ s). set (s2 := upd_proc c _ s1). set (s3 := upd_proc c _ s2).
  assert (Hc3 : current_proc s3 = Some c) by exact Hc.
  assert (Hp : state (proc s3 c) = PROC_SLEEPING) by (unfold s3, s2, s1; by proc_simpl).
  assert (Hl3 : length (proc_table s3) = PROC_MAX).
  { unfold s3, s2, s1. autorewrite with table. apply Hi. }
  assert (Hj3 : state (proc s3 j) = PROC_READY) by (unfold s3, s2, s1; by proc_simpl).
  assert (Hpre : preempt c s3 = s3) by (unfold preempt; by rewrite Hp).
  destruct (schedule_cases s3 c Hc3 Hs) as [(idx & Hscan & Hsw)|[Hn _]].
  - rewrite Hpre in Hscan, Hsw. destruct (sched_scan_slot _ _ _ Hscan) as [_ Hrdy].
    assert (c ≠ idx) by (intros ->; congruence). rewrite Hsw. unfold switch_context.
    rewrite decide_False by done. cbn. eexists _, idx, _. by split.
  - rewrite Hpre in Hn. by destruct (Hn j Hj).
Qed.

(** C33: [proc_sleep] puts the caller to sleep for max(1, (ms * 100 mod 2^64) / 1000)
    ticks: after fewer timer ticks it is still SLEEPING, after exactly that many
    it is READY. *)
Theorem proc_sleep_exact s c ms :
  kernel_inv s → current_proc s = Some c → is_u64 ms →
  let n := Z.max 1 (u64 (ms * PIT_HZ) `div` 1000) in
  let p := proc (final (proc_sleep ms s)) c in
  state p = PROC_SLEEPING ∧
  (∀ k, Z.of_nat k < n → state (Nat.iter k tick_proc p) = PROC_SLEEPING) ∧
  state (Nat.iter (Z.to_nat n) tick_proc p) = PROC_READY.
Proof.
  intros Hi Hc Hms n p. destruct (si_cur _ (proj1 Hi) c Hc) as [Hs Hu].
  assert (Hl : length (proc_table s) = PROC_MAX) by apply Hi.
  assert (Hsl : (c < length (proc_table s))%nat) by (rewrite Hl; exact Hs).
  pose proof (u64_range (ms * PIT_HZ)) as Hrange. unfold is_u64 in Hrange.
  assert (state p = PROC_SLEEPING ∧ sleep_ticks p = n) as [Hst Hn].
  { unfold p. rewrite (proc_sleep_final s c ms Hi Hc). unfold n, fall_asleep. cbn zeta. cbn [sleep_ticks setter].
    set (t := u64 (ms * PIT_HZ) `div` 1000). destruct (t =? 0) eqn:E.
    - apply Z.eqb_eq in E. rewrite E. done.
    - apply Z.eqb_neq in E. assert (0 ≤ t) by (apply Z.div_pos; lia). split; [done|]. cbn. lia. }
  assert (1 ≤ n) by (unfold n; lia).
  split_and!; [done| |].
  - intros k Hk. apply iter_tick; [done|lia].
  - replace (Z.to_nat n) with (S (Z.to_nat n - 1)) by lia. rewrite Nat.iter_succ.
    destruct (iter_tick (Z.to_nat n - 1) p Hst) as [H1 H2]; [lia|]. apply tick_last; [done|]. lia.
Qed.

(** [proc_find] returns a slot exactly when it holds a process with that PID,
    and no other slot does. *)
Theorem proc_find_spec s n i :
  kernel_inv s →
  (∃ r, result (proc_find n) s = Some (r, s) ∧ (r = Some i ↔ slot i ∧ used s i ∧ pid (proc s i) = n)).
Proof.
  intros [Hs _]. unfold proc_find. run_simpl. eexists. split; [done|]. split.
  - intros Hf. destruct (find_proc_some _ s i (si_len _ Hs) Hf) as (Hi & [Hu Hp] & _). done.
  - intros (Hi & Hu & Hp). destruct (find_proc _ s) as [j|] eqn:Ef.
    + destruct (find_proc_some _ s j (si_len _ Hs) Ef) as (Hj & [Huj Hpj] & _). f_equal.
      apply (si_inj _ Hs); [done..|]. congruence.
    + by destruct (find_proc_none _ s (si_len _ Hs) Ef i Hi).
Qed.

(** C40: [proc_create]. With the table full or the heap exhausted it returns NULL
    and creates nothing; otherwise it returns the first free slot, which holds a
    READY process with the next PID, an empty message queue and a context that
    enters [proc_entrypoint] with the entry point in r12 on top of the new
    kernel stack, and the data invariant holds. *)
Theorem proc_create_spec s nm entry user kst h :
  kernel_inv s → next_pid s < 2 ^ 31 - 1 → result (kmalloc KSTACK_SIZE) (k_heap s) = Some (kst, h) →
  ∃ r s', result (proc_create nm entry user) s = Some (r, s') ∧ kernel_inv s' ∧
  match r with
  | None => ((∀ i, slot i → used s i) ∧ s' = s) ∨ (kst = NULL ∧ s' = s <| k_heap := h |>)
  | Some p =>
      slot p ∧ ¬ used s p ∧ (∀ j, (j < p)%nat → used s j) ∧ new_process s s' p ∧
      context (proc s' p) = CpuContext 0 0 0 entry 0 0 proc_entrypoint (u64 (kst + KSTACK_SIZE)) ∧
      ppid (proc s' p) = (match current_proc s with Some c => pid (proc s c) | None => 0 end)
  end.
Proof.
  intros Hi Hn Hk. pose proof (si_next _ (proj1 Hi)). pose proof (si_len _ (proj1 Hi)) as Hl.
  pose proof (proc_create_cases s nm entry user kst h Hl ltac:(lia) Hk) as Hc.
  destruct (find_proc _ s) as [p|] eqn:Ef.
  - destruct (find_proc_some _ s p Hl Ef) as (Hp & Hst & Hmin). case_decide as Hz.
    + eexists _, _. split; [exact Hc|]. split; [by eapply kernel_inv_data|]. by right.
    + destruct Hc as (s' & Hr & Hnew & Hctx & _ & _ & _ & Hpp & _). exists (Some p), s'.
      assert (¬ used s p) as Hnu by (intros Hu; by apply Hu).
      split; [done|]. split; [by apply (new_process_inv s s' p); [..|lia|]|].
      split_and!; [done|done| |done..]. intros j Hj Hx. by apply (Hmin j Hj).
  - eexists _, _. split; [exact Hc|]. split; [done|]. left. split; [|done].
    intros i Hsl Hu. by apply (find_proc_none _ s Hl Ef i Hsl).
Qed.

(** A process that [proc_create_elf] returns is a new READY user process with
    the next PID, whose start address is [proc_entry_user]; its stack pointer is
    in [user_rsp], while the field [user_sp] that the entry code loads is 0. *)
Theorem proc_create_elf_user_sp s nm elf p s' :
  kernel_inv s → next_pid s < 2 ^ 31 - 1 → result (proc_create_elf nm elf) s = Some (Some p, s') →
  kernel_inv s' ∧ slot p ∧ ¬ used s p ∧ (∀ j, j ≠ p → proc s' j = proc s j) ∧
  pid (proc s' p) = next_pid s ∧ state (proc s' p) = PROC_READY ∧
  is_user (proc s' p) = true ∧ started (proc s' p) = false ∧
  c_rip (context (proc s' p)) = proc_entry_user ∧
  user_rsp (proc s' p) = 0x00007fffffffe000 ∧ user_sp (proc s' p) = 0.
Proof.
  intros Hi Hn Hr. pose proof (always_proc_create_elf s nm elf Hi Hn) as Ha.
  unfold result in Hr. destruct (proc_create_elf nm elf s); simplify_eq.
  destruct Ha as (Hu & [] & Hrip). naive_solver.
Qed.
End properties.

(** ** Witnesses *)

Lemma schedule_round_robin_witness :
  let s0 := preempt 0 demo_kernel in
  (∃ idx, slot idx ∧ state (proc s0 idx) = PROC_READY ∧
     (∀ i, slot i → state (proc s0 i) = PROC_READY → (distance 0 idx ≤ distance 0 i)%nat) ∧
     schedule (H:=demo_link) demo_kernel = switch_context 0 idx (dispatch (H:=demo_link) idx s0) ∧
     resumed idx (dispatch (H:=demo_link) idx s0) ∧
     k_mem (dispatch (H:=demo_link) idx s0) =
       st64 (k_mem demo_kernel) (sym_tss (Link:=demo_link) + 4) (kernel_rsp (proc demo_kernel idx)) ∧
     (∀ i, i ≠ idx → proc (dispatch (H:=demo_link) idx s0) i = proc s0 i)) ∨
  ((∀ i, slot i → state (proc s0 i) ≠ PROC_READY) ∧ schedule (H:=demo_link) demo_kernel = Done [] tt s0).
Proof. apply (schedule_round_robin (H:=demo_link) demo_kernel 0 demo_kernel_inv). reflexivity. Defined.

Lemma schedule_bounded_wait_witness :
  ∃ new, current_proc (final (schedule (H:=demo_link) demo_kernel)) = Some new ∧
    (new = 1%nat ∨ ((distance new 1 < distance 0 1 ≤ PROC_MAX)%nat ∧
                state (proc (final (schedule (H:=demo_link) demo_kernel)) 1) = PROC_READY)).
Proof.
  apply (schedule_bounded_wait (H:=demo_link) demo_kernel 0 1 demo_kernel_inv);
    [reflexivity|apply (bool_decide_unpack (1 < 64)%nat); reflexivity|discriminate|reflexivity].
Defined.

Lemma proc_sleep_exact_witness :
  let n := Z.max 1 (u64 (50 * PIT_HZ) `div` 1000) in
  let p := proc (final (proc_sleep (H:=demo_link) 50 demo_kernel)) 0 in
  state p = PROC_SLEEPING ∧
  (∀ k, Z.of_nat k < n → state (Nat.iter k tick_proc p) = PROC_SLEEPING) ∧
  state (Nat.iter (Z.to_nat n) tick_proc p) = PROC_READY.
Proof.
  apply (proc_sleep_exact (H:=demo_link) demo_kernel 0 50 demo_kernel_inv);
    [reflexivity|split; [discriminate|reflexivity]].
Defined.

Lemma proc_find_spec_witness :
  ∃ r, result (proc_find 3) demo_kernel = Some (r, demo_kernel) ∧
    (r = Some 2%nat ↔ slot 2 ∧ used demo_kernel 2 ∧ pid (proc demo_kernel 2) = 3).
Proof. apply (proc_find_spec demo_kernel 3 2 demo_kernel_inv). Defined.

Definition demo_heap_after : heap :=
  match result (kmalloc KSTACK_SIZE) heap_zero with Some (_, h) => h | None => heap_zero end.

Lemma proc_create_spec_witness :
  ∃ r s', result (proc_create (H:=demo_link) "idle" 0x104000 false) demo_kernel = Some (r, s') ∧ kernel_inv s' ∧
  match r with
  | None => ((∀ i, slot i → used demo_kernel i) ∧ s' = demo_kernel) ∨
            (0x400018 = NULL ∧ s' = demo_kernel <| k_heap := demo_heap_after |>)
  | Some p =>
      slot p ∧ ¬ used demo_kernel p ∧ (∀ j, (j < p)%nat → used demo_kernel j) ∧ new_process demo_kernel s' p ∧
      context (proc s' p) = CpuContext 0 0 0 0x104000 0 0 (proc_entrypoint (Link:=demo_link)) (u64 (0x400018 + KSTACK_SIZE)) ∧
      ppid (proc s' p) = (match current_proc demo_kernel with Some c => pid (proc demo_kernel c) | None => 0 end)
  end.
Proof.
  apply (proc_create_spec (H:=demo_link) demo_kernel "idle" 0x104000 false 0x400018 demo_heap_after demo_kernel_inv);
    [reflexivity|]. by vm_compute.
Defined.

(** [demo_kernel] has frames to give: [proc_create_elf] succeeds in it. *)
Definition demo_elf_kernel : kernel :=
  match result (proc_create_elf (H:=demo_link) "sh" 0x5000) demo_kernel with
  | Some (_, s) => s | None => demo_kernel end.

Lemma demo_elf_ok :
  result (proc_create_elf (H:=demo_link) "sh" 0x5000) demo_kernel = Some (Some 3%nat, demo_elf_kernel).
Proof.
  unfold demo_elf_kernel. apply run_state_of. by vm_compute.
Qed.

Lemma proc_create_elf_user_sp_witness :
  kernel_inv demo_elf_kernel ∧ slot 3 ∧ ¬ used demo_kernel 3 ∧
  (∀ j, j ≠ 3%nat → proc demo_elf_kernel j = proc demo_kernel j) ∧
  pid (proc demo_elf_kernel 3) = next_pid demo_kernel ∧ state (proc demo_elf_kernel 3) = PROC_READY ∧
  is_user (proc demo_elf_kernel 3) = true ∧ started (proc demo_elf_kernel 3) = false ∧
  c_rip (context (proc demo_elf_kernel 3)) = proc_entry_user (Link:=demo_link) ∧
  user_rsp (proc demo_elf_kernel 3) = 0x00007fffffffe000 ∧ user_sp (proc demo_elf_kernel 3) = 0.
Proof.
  apply (proc_create_elf_user_sp (H:=demo_link) demo_kernel "sh" 0x5000 3 demo_elf_kernel demo_kernel_inv);
    [reflexivity|exact demo_elf_ok].
Defined.
