(* ===== verification/Ipc.v ===== *)
(** * Ipc: messages between processes (kernel/ipc/ipc.c)

    Messages live in a static pool and wait in a linked list per process.  The
    specification of a process's messages is its [mailbox], a list: [ipc_send]
    appends to it and [ipc_recv] takes its head; [queues_ok] of file Kernel is
    the representation invariant. *)

From S2P Require Import Prelude Effects Memory Types Arch Vmm Kernel Proc.

Section ops.
Context `{Link}.

Definition msg_alloc : M kernel (option nat) :=
  s ← get ;
  match fst <$> list_find (λ u, u = false) (msg_used s) with
  | Some i =>
      modify (λ s, s <| msg_used := <[i := true]> (msg_used s) |>) ;;
      modify (upd_msg i (λ m, m <| m_next := None |>)) ;;
      mret (Some i)
  | None => mret None
  end.

(** The argument is a pointer into the pool or null. *)
Definition msg_free (m : option nat) : M kernel unit :=
  match m with
  | None => mret tt
  | Some i =>
      if decide (i < IPC_POOL_SIZE)%nat
      then modify (λ s, s <| msg_used := <[i := false]> (msg_used s) |>)
      else mret tt
  end.

(** [for (i = 0; i < len; i++) dst[i] = src[i];] on an array of bytes. *)
Fixpoint copy_in (i : nat) (src : list Z) (dst : list Z) : list Z :=
  match src with
  | [] => dst
  | b :: src => copy_in (S i) src (<[i := b]> dst)
  end.

Definition ipc_send (dst type data len : Z) : M kernel Z :=
  target ← proc_find dst ;
  match target with
  | None => mret (- ESRCH)
  | Some t =>
      if IPC_MSG_MAX <? len then mret (- EINVAL) else
      m ← msg_alloc ;
      match m with
      | None => mret (- ENOMEM)
      | Some m =>
          s ← get ;
          let from := match current_proc s with Some c => pid (proc s c) | None => 0 end in
          modify (upd_msg m (λ x, x <| m_from := from |> <| m_type := type |> <| m_len := len |>)) ;;
          (if (0 <? len) && negb (data =? NULL) then
             modify (upd_msg m (λ x, x <| m_data :=
               copy_in 0 (ld_bytes (k_mem s) data (Z.to_nat len)) (m_data x) |>))
           else mret tt) ;;
          flags ← save_flags ;
          cli ;;
          modify (upd_msg m (λ x, x <| m_next := None |>)) ;;
          s ← get ;
          match msg_tail (proc s t) with
          | None => modify (upd_proc t (λ p, p <| msg_queue := Some m |> <| msg_tail := Some m |>))
          | Some l =>
              modify (upd_msg l (λ x, x <| m_next := Some m |>)) ;;
              modify (upd_proc t (λ p, p <| msg_tail := Some m |>))
          end ;;
          modify (upd_proc t (λ p, p <| msg_count := u32 (msg_count p + 1) |>)) ;;
          s ← get ;
          (if decide (state (proc s t) = PROC_SLEEPING) then proc_wakeup (Some t) else mret tt) ;;
          restore_flags flags ;;
          mret 0
      end
  end.

(** The slot of [current_proc], which is not null here. *)
Definition self : M kernel nat :=
  c ← gets current_proc ;
  match c with Some c => mret c | None => panic "null pointer" end.

(** [*out = *m] field by field; [out] is the address of an [ipc_message_t]:
    from at 0, type at 4, len at 8, data at 12, next at 272. *)
Definition copy_out (out : Z) (m : ipc_message) : M kernel unit :=
  let store f := modify (λ s, s <| k_mem := f (k_mem s) |>) in
  store (λ mm, st32 mm out (m_from m)) ;;
  store (λ mm, st32 mm (out + 4) (m_type m)) ;;
  store (λ mm, st32 mm (out + 8) (m_len m)) ;;
  store (λ mm, st_bytes mm (out + 12) (take (Z.to_nat (m_len m)) (m_data m))) ;;
  store (λ mm, st64 mm (out + 272) NULL).

(** The [while (true)] of [ipc_recv]. *)
Fixpoint ipc_recv_loop (fuel : nat) (out : Z) : M kernel Z :=
  match fuel with
  | O => no_fuel
  | S fuel =>
      flags ← save_flags ;
      cli ;;
      c ← self ;
      s ← get ;
      match msg_queue (proc s c) with
      | Some m =>
          modify (upd_proc c (λ p, p <| msg_queue := m_next (msg s m) |>)) ;;
          modify (upd_proc c (λ p, if decide (msg_queue p = None) then p <| msg_tail := None |> else p)) ;;
          modify (upd_proc c (λ p, p <| msg_count := u32 (msg_count p - 1) |>)) ;;
          copy_out out (msg s m) ;;
          msg_free (Some m) ;;
          restore_flags flags ;;
          mret 0
      | None =>
          restore_flags flags ;;
          proc_sleep 10 ;;
          ipc_recv_loop fuel out
      end
  end.

Definition ipc_recv (fuel : nat) (out : Z) : M kernel Z :=
  c ← gets current_proc ;
  if bool_decide (c = None) || (out =? NULL) then mret (- EINVAL)
  else ipc_recv_loop fuel out.
End ops.

(** ** Mailboxes *)

(** What a receiver sees of a message. *)
Record letter := Letter { l_from : Z; l_type : Z; l_len : Z; l_data : list Z }.

Definition letter_of (m : ipc_message) : letter :=
  Letter (m_from m) (m_type m) (m_len m) (take (Z.to_nat (m_len m)) (m_data m)).

Definition mailbox (s : kernel) (q : nat → list nat) (i : nat) : list letter :=
  letter_of ∘ msg s <$> q i.

(** The abstract queues with slot [i]'s replaced. *)
Definition set_queue (q : nat → list nat) (i : nat) (l : list nat) : nat → list nat :=
  λ j, if decide (j = i) then l else q j.

Section lemmas.
Context `{Link}.
Implicit Types s : kernel.

Lemma copy_in_spec i src dst :
  (i + length src ≤ length dst)%nat →
  copy_in i src dst = take i dst ++ src ++ drop (i + length src) dst.
Proof.
  revert i dst. induction src as [|b src IH]; intros i dst Hl; simpl in *.
  { by rewrite Nat.add_0_r, take_drop. }
  rewrite IH by (rewrite length_insert; lia).
  rewrite insert_take_drop by lia.
  assert (length (take i dst) = i) as Ht by (rewrite length_take; lia).
  rewrite take_app_ge by lia. rewrite Ht. replace (S i - i)%nat with 1%nat by lia.
  rewrite drop_app_ge by (rewrite Ht; lia). rewrite Ht.
  replace (S i + length src - i)%nat with (S (length src)) by lia. simpl.
  rewrite drop_drop, <-app_assoc. simpl. do 4 f_equal. lia.
Qed.

Lemma chain_none s h l : chain s h l → (h = None ↔ l = []).
Proof. destruct l; simpl; [by intros ->|]. by intros [-> _]. Qed.

Lemma chain_app s s' h l m :
  chain s h l → NoDup l → m ∉ l →
  (∀ x, x ∈ l → Some x ≠ last l → m_next (msg s' x) = m_next (msg s x)) →
  (∀ x, last l = Some x → m_next (msg s' x) = Some m) → m_next (msg s' m) = None →
  chain s' (match l with [] => Some m | _ => h end) (l ++ [m]).
Proof.
  revert h. induction l as [|x l IH]; intros h Hc Hnd Hni Hsame Hlast Hm; simpl.
  { by rewrite Hm. }
  destruct Hc as [-> Hc]. split; [done|]. apply NoDup_cons in Hnd as [Hx Hnd].
  destruct l as [|y l].
  - simpl. rewrite (Hlast x) by done. by rewrite Hm.
  - rewrite Hsame; [|by left|].
    + apply (IH (m_next (msg s x))); try done.
      * set_solver.
      * intros z Hz. apply Hsame. by right.
    + intros Heq. apply Hx. apply last_Some_elem_of. exact (eq_sym Heq).
Qed.

(** [m], free before, now queued behind the messages of slot [t]. *)
Record enqueued s s' (q : nat → list nat) (t m : nat) : Prop := {
  en_lengths : length (msg_pool s') = length (msg_pool s) ∧ length (msg_used s') = length (msg_used s);
  en_other x : x ≠ m → Some x ≠ last (q t) → m_next (msg s' x) = m_next (msg s x);
  en_last x : last (q t) = Some x → m_next (msg s' x) = Some m;
  en_new : m_next (msg s' m) = None;
  en_used x : (x < IPC_POOL_SIZE)%nat → pool_used s' x = if decide (x = m) then true else pool_used s x;
  en_procs i : slot i → i ≠ t → proc s' i = proc s i;
  en_queue : msg_queue (proc s' t) = (match q t with [] => Some m | _ => msg_queue (proc s t) end);
  en_tail : msg_tail (proc s' t) = Some m;
  en_count : msg_count (proc s' t) = msg_count (proc s t) + 1;
  en_live : used s' t;
  en_data x : (x < IPC_POOL_SIZE)%nat →
    length (m_data (msg s' x)) = Z.to_nat IPC_MSG_MAX ∧ 0 ≤ m_len (msg s' x) ≤ IPC_MSG_MAX;
}.

Lemma unqueued s q m i :
  queues_ok s q → (m < IPC_POOL_SIZE)%nat → pool_used s m = false → m ∉ q i.
Proof.
  intros Hq Hm Hu Hin. assert (pool_used s m = true); [|congruence].
  apply (qo_used _ _ Hq); [done|]. exists i. split; [|done]. by apply (qo_range _ _ Hq i m).
Qed.

Lemma elem_of_set_queue q t l i x :
  x ∈ set_queue q t l i ↔ (i = t ∧ x ∈ l) ∨ (i ≠ t ∧ x ∈ q i).
Proof. unfold set_queue. case_decide; naive_solver. Qed.

Lemma enqueue_ok s s' q t m :
  queues_ok s q → slot t → (m < IPC_POOL_SIZE)%nat → pool_used s m = false →
  enqueued s s' q t m → queues_ok s' (set_queue q t (q t ++ [m])).
Proof.
  intros Hq Ht Hm Hfree He.
  assert (Hni : ∀ i, m ∉ q i) by (intros i; by eapply unqueued).
  split.
  - destruct (en_lengths _ _ _ _ _ He) as [-> ->]. apply Hq.
  - intros i Hi. unfold set_queue. case_decide as E.
    + subst i. rewrite (en_queue _ _ _ _ _ He). pose proof (qo_head _ _ Hq t Ht) as Hc.
      apply (chain_app s s' _ _ m Hc); try done; try apply Hq; try apply He.
      intros x Hx. apply (en_other _ _ _ _ _ He). intros ->. by destruct (Hni t).
    + rewrite (en_procs _ _ _ _ _ He) by done. eapply chain_ext; [|by apply Hq].
      intros x Hx. apply (en_other _ _ _ _ _ He).
      * intros ->. by destruct (Hni i).
      * intros Hl. apply E. apply (qo_disj _ _ Hq i t x); [done|]. apply last_Some_elem_of. done.
  - intros i Hi. unfold set_queue. case_decide as E.
    + subst i. by rewrite (en_tail _ _ _ _ _ He), last_snoc.
    + rewrite (en_procs _ _ _ _ _ He) by done. by apply Hq.
  - intros i Hi. unfold set_queue. case_decide as E.
    + subst i. rewrite (en_count _ _ _ _ _ He), (qo_count _ _ Hq), length_app by done. simpl. lia.
    + rewrite (en_procs _ _ _ _ _ He) by done. by apply Hq.
  - intros x Hx. rewrite (en_used _ _ _ _ _ He) by done. setoid_rewrite elem_of_set_queue.
    case_decide as E.
    + subst x. split; [|done]. intros _. exists t. split; [done|]. left. set_solver.
    + rewrite (qo_used _ _ Hq) by done. split; intros (i & Hi & Hin); exists i; (split; [done|]).
      * destruct (decide (i = t)) as [->|]; [left; set_solver|by right].
      * destruct Hin as [[-> Hin]|[? ?]]; [|done]. set_solver.
  - intros i x [[-> Hin]|[Hne Hin]]%elem_of_set_queue; [|by apply Hq].
    apply elem_of_app in Hin as [Hin|Hin]; [by apply Hq|]. apply list_elem_of_singleton in Hin. by subst.
  - intros i. unfold set_queue. case_decide; [|apply Hq]. apply NoDup_app. split_and!.
    + apply Hq.
    + intros x Hx Hxm. apply list_elem_of_singleton in Hxm. subst. by destruct (Hni t).
    + apply NoDup_singleton.
  - intros i j x. rewrite !elem_of_set_queue, elem_of_app, list_elem_of_singleton.
    pose proof (qo_disj _ _ Hq i j x). pose proof (Hni i). pose proof (Hni j).
    intros [[E1 [X1|X1]]|[E1 X1]] [[E2 [X2|X2]]|[E2 X2]]; subst; naive_solver.
  - intros i Hi Hnu. unfold set_queue. case_decide as E.
    + subst i. by destruct Hnu; apply He.
    + apply Hq; [done|]. intros Hu. apply Hnu. unfold used in *. by rewrite (en_procs _ _ _ _ _ He).
  - apply He.
Qed.

(** The head [m] of slot [t]'s queue taken out. *)
Record dequeued s s' (t m : nat) (rest : list nat) : Prop := {
  de_lengths : length (msg_pool s') = length (msg_pool s) ∧ length (msg_used s') = length (msg_used s);
  de_next x : msg s' x = msg s x;
  de_used x : (x < IPC_POOL_SIZE)%nat → pool_used s' x = if decide (x = m) then false else pool_used s x;
  de_procs i : slot i → i ≠ t → proc s' i = proc s i;
  de_queue : msg_queue (proc s' t) = m_next (msg s m);
  de_tail : msg_tail (proc s' t) = if decide (m_next (msg s m) = None) then None else msg_tail (proc s t);
  de_count : msg_count (proc s' t) = msg_count (proc s t) - 1;
  de_live : used s' t;
}.

Lemma dequeue_ok s s' q t m rest :
  queues_ok s q → slot t → q t = m :: rest → dequeued s s' t m rest →
  queues_ok s' (set_queue q t rest).
Proof.
  intros Hq Ht Hqt He.
  pose proof (qo_head _ _ Hq t Ht) as Hc. rewrite Hqt in Hc. destruct Hc as [_ Hc].
  assert (Hm : m ∈ q t) by (rewrite Hqt; by left).
  pose proof (qo_nodup _ _ Hq t) as Hnd. rewrite Hqt in Hnd. apply NoDup_cons in Hnd as [Hmr Hnd].
  assert (Hch : ∀ h l, chain s h l → chain s' h l).
  { intros h l. apply chain_ext. intros x _. by rewrite (de_next _ _ _ _ _ He). }
  split.
  - destruct (de_lengths _ _ _ _ _ He) as [-> ->]. apply Hq.
  - intros i Hi. unfold set_queue. case_decide as E.
    + subst i. rewrite (de_queue _ _ _ _ _ He). by apply Hch.
    + rewrite (de_procs _ _ _ _ _ He) by done. by apply Hch, Hq.
  - intros i Hi. unfold set_queue. case_decide as E.
    + subst i. rewrite (de_tail _ _ _ _ _ He). pose proof (chain_none _ _ _ Hc) as Hnone.
      rewrite (qo_tail _ _ Hq), Hqt by done. destruct rest as [|y rest].
      * rewrite decide_True by tauto. done.
      * rewrite decide_False; [done|]. intros Hx. by apply Hnone in Hx.
    + rewrite (de_procs _ _ _ _ _ He) by done. by apply Hq.
  - intros i Hi. unfold set_queue. case_decide as E.
    + subst i. rewrite (de_count _ _ _ _ _ He), (qo_count _ _ Hq), Hqt by done. simpl. lia.
    + rewrite (de_procs _ _ _ _ _ He) by done. by apply Hq.
  - intros x Hx. rewrite (de_used _ _ _ _ _ He) by done. setoid_rewrite elem_of_set_queue.
    case_decide as E.
    + subst x. split; [done|]. intros (i & Hi & [[-> Hin]|[Hne Hin]]); [done|].
      destruct Hne. by apply (qo_disj _ _ Hq i t m).
    + rewrite (qo_used _ _ Hq) by done. split; intros (i & Hi & Hin); exists i; (split; [done|]).
      * destruct (decide (i = t)) as [->|]; [left|by right]. rewrite Hqt in Hin. set_solver.
      * destruct Hin as [[-> Hin]|[? ?]]; [|done]. rewrite Hqt. set_solver.
  - intros i x [[-> Hin]|[Hne Hin]]%elem_of_set_queue; apply Hq; [|done]. rewrite Hqt. by right.
  - intros i. unfold set_queue. case_decide; [done|apply Hq].
  - intros i j x. rewrite !elem_of_set_queue. pose proof (qo_disj _ _ Hq i j x) as Hd.
    assert (x ∈ rest → x ∈ q t) by (intros; rewrite Hqt; by right).
    intros [[-> ?]|[? ?]] [[-> ?]|[? ?]]; auto.
  - intros i Hi Hnu. unfold set_queue. case_decide as E.
    + subst i. by destruct Hnu; apply He.
    + apply Hq; [done|]. intros Hu. apply Hnu. unfold used in *. by rewrite (de_procs _ _ _ _ _ He).
  - intros x. rewrite (de_next _ _ _ _ _ He). apply Hq.
Qed.

(** ** [ipc_send] *)

Lemma msg_alloc_cases s q :
  queues_ok s q →
  match fst <$> list_find (λ u, u = false) (msg_used s) with
  | Some m => (m < IPC_POOL_SIZE)%nat ∧ pool_used s m = false
  | None => ∀ m, (m < IPC_POOL_SIZE)%nat → pool_used s m = true
  end.
Proof.
  intros Hq. destruct (qo_pool _ _ Hq) as [_ Hl]. unfold pool_used.
  destruct (list_find _ (msg_used s)) as [[m u]|] eqn:E; cbn.
  - apply list_find_Some in E as (Hm & -> & _). pose proof (lookup_lt_Some _ _ _ Hm).
    split; [lia|]. by apply list_lookup_total_correct.
  - intros m Hm. apply list_find_None in E. rewrite Forall_lookup in E.
    destruct (lookup_lt_is_Some_2 (msg_used s) m) as [u Hu]; [lia|].
    rewrite (list_lookup_total_correct _ _ _ Hu). specialize (E _ _ Hu). by destruct u.
Qed.

Definition send_payload s (m : nat) (data len : Z) : list Z :=
  if (0 <? len) && negb (data =? NULL) then ld_bytes (k_mem s) data (Z.to_nat len)
  else take (Z.to_nat len) (m_data (msg s m)).

Definition sender s : Z := match current_proc s with Some c => pid (proc s c) | None => 0 end.

(** The message [ipc_send] builds in slot [m] of the pool. *)
Definition new_message s (m : nat) (type data len : Z) : ipc_message :=
  let x := (msg s m) <| m_next := None |> <| m_from := sender s |> <| m_type := type |> <| m_len := len |> in
  let x := if (0 <? len) && negb (data =? NULL)
           then x <| m_data := copy_in 0 (ld_bytes (k_mem s) data (Z.to_nat len)) (m_data x) |> else x in
  x <| m_next := None |>.

(** What a successful [ipc_send] to slot [t] with pool slot [m] changes. *)
Record sent s s' (t m : nat) (type data len : Z) : Prop := {
  st_msgs x : msg s' x =
    if decide (x = m) then new_message s m type data len
    else if decide (Some x = msg_tail (proc s t)) then (msg s x) <| m_next := Some m |> else msg s x;
  st_lengths : length (msg_pool s') = length (msg_pool s);
  st_used : msg_used s' = <[m := true]> (msg_used s);
  st_procs i : i ≠ t → proc s' i = proc s i;
  st_queue : msg_queue (proc s' t) =
    (match msg_tail (proc s t) with None => Some m | Some _ => msg_queue (proc s t) end);
  st_tail : msg_tail (proc s' t) = Some m;
  st_count : msg_count (proc s' t) = u32 (msg_count (proc s t) + 1);
  st_state : state (proc s' t) =
    if decide (state (proc s t) = PROC_SLEEPING) then PROC_READY else state (proc s t);
  st_sched : sched_inv s';
  st_rest : current_proc s' = current_proc s ∧ k_mem s' = k_mem s ∧ k_if s' = k_if s ∧ ticks s' = ticks s;
}.

(** The state between filling the message in and linking it. *)
Record filled s s' (m : nat) (type data len : Z) : Prop := {
  fl_new : (msg s' m) <| m_next := None |> = new_message s m type data len;
  fl_msgs x : x ≠ m → msg s' x = msg s x;
  fl_lengths : length (msg_pool s') = length (msg_pool s);
  fl_used : msg_used s' = <[m := true]> (msg_used s);
  fl_sched : proc_table s' = proc_table s ∧ current_proc s' = current_proc s ∧ next_pid s' = next_pid s;
  fl_rest : k_mem s' = k_mem s ∧ k_if s' = k_if s ∧ ticks s' = ticks s;
}.

(** The state after the message was linked. *)
Record linked s s' (t m : nat) (type data len : Z) : Prop := {
  lk_msgs x : msg s' x =
    if decide (x = m) then new_message s m type data len
    else if decide (Some x = msg_tail (proc s t)) then (msg s x) <| m_next := Some m |> else msg s x;
  lk_lengths : length (msg_pool s') = length (msg_pool s);
  lk_used : msg_used s' = <[m := true]> (msg_used s);
  lk_procs i : i ≠ t → proc s' i = proc s i;
  lk_table : length (proc_table s') = length (proc_table s);
  lk_proc : proc s' t = (proc s t)
    <| msg_queue := match msg_tail (proc s t) with None => Some m | Some _ => msg_queue (proc s t) end |>
    <| msg_tail := Some m |>;
  lk_sched : sched_inv s';
  lk_rest : current_proc s' = current_proc s ∧ k_mem s' = k_mem s ∧ ticks s' = ticks s;
}.

(** Linking the filled message to the end of the queue. *)
Lemma link_stage s q sA t m type data len :
  sched_inv s → queues_ok s q → slot t → state (proc s t) ≠ PROC_UNUSED → pool_used s m = false →
  (m < IPC_POOL_SIZE)%nat → filled s sA m type data len →
  ∃ sB, result (match msg_tail (proc s t) with
                | None => modify (upd_proc t (λ p, p <| msg_queue := Some m |> <| msg_tail := Some m |>))
                | Some l =>
                    modify (upd_msg l (λ x, x <| m_next := Some m |>)) ;;
                    modify (upd_proc t (λ p, p <| msg_tail := Some m |>))
                end) (upd_msg m (λ x, x <| m_next := None |>) (sA <| k_if := false |>)) = Some (tt, sB) ∧
    linked s sB t m type data len.
Proof.
  intros Hs Hq Hts Hu Hfree Hmr [Hnew Hmsgs Hlens Hused (Htab & Hcur & Hnext) (Hmem & Hif & Htk)].
  assert (Hpr : ∀ i, proc sA i = proc s i) by (intros i; unfold proc; by rewrite Htab).
  assert (HmA : (m < length (msg_pool sA))%nat) by (by rewrite Hlens, (proj1 (qo_pool _ _ Hq))).
  assert (HtA : (t < length (proc_table sA))%nat) by (rewrite Htab, (si_len _ Hs); exact Hts).
  assert (Hs0 : sched_inv sA) by (by apply (sched_inv_same s)).
  assert (Htail : ∀ l, msg_tail (proc s t) = Some l → l ≠ m ∧ (l < length (msg_pool sA))%nat).
  { intros l Hl. rewrite (qo_tail _ _ Hq) in Hl by done. apply last_Some_elem_of in Hl.
    split; [intros ->; by eapply unqueued|]. rewrite Hlens, (proj1 (qo_pool _ _ Hq)). by apply (qo_range _ _ Hq t). }
  assert (Hsched : ∀ sx f, sched_inv sx → proc sx t = proc s t → current_proc sx = current_proc s →
    (t < length (proc_table sx))%nat → (∀ p, state (f p) = state p ∧ pid (f p) = pid p) → sched_inv (upd_proc t f sx)).
  { intros sx f Hx Hpx Hcx Htx Hf. destruct (Hf (proc sx t)) as [E1 E2].
    apply sched_inv_upd; [done|done|]. cbv zeta. rewrite E1, E2, Hpx. split_and!; [done|done|]. intros Hr. rewrite Hcx. by apply Hs. }
  destruct (msg_tail (proc s t)) as [l|] eqn:El; run_simpl; (eexists; split; [reflexivity|]).
  - destruct (Htail l eq_refl) as [Hlm Hl]. split; [|by autorewrite with pool|done| | | | |by split_and!].
    + intros x. rewrite El. destruct (decide (x = m)) as [->|Hx]; [by msg_simpl|].
      destruct (decide (x = l)) as [->|Hxl].
      * rewrite decide_True by done. msg_simpl. by rewrite Hmsgs.
      * rewrite decide_False by congruence. msg_simpl. by apply Hmsgs.
    + intros i Hi. proc_simpl. apply Hpr.
    + autorewrite with table. by rewrite Htab.
    + proc_simpl. by rewrite Hpr, El.
    + apply Hsched; [by apply (sched_inv_same sA)|apply Hpr|exact Hcur|exact HtA|done].
  - split; [|by autorewrite with pool|done| | | | |by split_and!].
    + intros x. rewrite El. destruct (decide (x = m)) as [->|Hx]; [by msg_simpl|].
      rewrite decide_False by done. msg_simpl. by apply Hmsgs.
    + intros i Hi. proc_simpl. apply Hpr.
    + autorewrite with table. by rewrite Htab.
    + proc_simpl. by rewrite Hpr, El.
    + apply Hsched; [by apply (sched_inv_same sA)|apply Hpr|exact Hcur|exact HtA|done].
Qed.

(** Counting the message and waking the receiver; [b] is the saved flag. *)
Lemma count_stage s sB t m type data len :
  sched_inv s → slot t → state (proc s t) ≠ PROC_UNUSED → linked s sB t m type data len →
  ∃ s', result (modify (upd_proc t (λ p, p <| msg_count := u32 (msg_count p + 1) |>)) ;;
                s0 ← get ;
                (if decide (state (proc s0 t) = PROC_SLEEPING) then proc_wakeup (Some t) else mret tt) ;;
                restore_flags (k_if s) ;;
                mret 0) sB = Some (0, s') ∧ sent s s' t m type data len.
Proof.
  intros Hs Hts Hu [HmB HlB HuB HpB HtB HptB HsB (HcB & HkB & HtkB)].
  assert (HtB' : (t < length (proc_table sB))%nat) by (rewrite HtB, (si_len _ Hs); exact Hts).
  run_simpl. proc_simpl. rewrite HptB.
  set (f := λ p, p <| msg_count := u32 (msg_count p + 1) |>).
  assert (HsC : sched_inv (upd_proc t f sB)).
  { apply sched_inv_upd; [done..|]. rewrite HptB. cbn. split_and!; [done|done|].
    intros Hr. rewrite HcB. by apply Hs. }
  destruct (decide _) as [Hsl|Hsl]; cbn in Hsl; unfold proc_wakeup; run_simpl; (eexists; split; [reflexivity|]).
  all: unfold restore_flags; split; try (intros; msg_simpl; by rewrite ?HmB);
    try (intros; proc_simpl; by rewrite ?HpB).
  all: try (proc_simpl; rewrite HptB; unfold f; cbn; rewrite ?Hsl, ?decide_True, ?decide_False by done; done).
  all: try (by split_and!).
  - destruct (sched_inv_upd (upd_proc t f sB) t
      (λ p, if decide (state p = PROC_SLEEPING) then p <| state := PROC_READY |> else p)) as [HsD _]; [done|done| |].
    { proc_simpl. rewrite HptB. unfold f. cbn. rewrite Hsl, decide_True by done. done. }
    by eapply sched_inv_same.
  - by eapply sched_inv_same.
Qed.

Lemma ipc_send_ok s q dst type data len t m :
  sched_inv s → queues_ok s q → len ≤ IPC_MSG_MAX →
  find_proc (λ p, state p ≠ PROC_UNUSED ∧ pid p = dst) s = Some t →
  fst <$> list_find (λ u, u = false) (msg_used s) = Some m →
  ∃ s', result (ipc_send dst type data len) s = Some (0, s') ∧ sent s s' t m type data len.
Proof.
  intros Hs Hq Hlen Ht Hm.
  destruct (find_proc_some _ s t (si_len _ Hs) Ht) as (Hts & [Hu Hp] & _).
  pose proof (msg_alloc_cases s q Hq) as Ha. rewrite Hm in Ha. destruct Ha as [Hmr Hfree].
  assert (Hmp : (m < length (msg_pool s))%nat) by (rewrite (proj1 (qo_pool _ _ Hq)); exact Hmr).
  unfold ipc_send, proc_find. run_simpl. rewrite Ht. cbn [fst snd].
  rewrite (proj2 (Z.ltb_ge _ _)) by done. unfold msg_alloc. run_simpl. rewrite Hm. run_simpl.
  match goal with |- context [match ?r with Some _ => _ | None => _ end] =>
    assert (∃ sA, r = Some (tt, sA) ∧ filled s sA m type data len) as (sA & -> & HA) end.
  { destruct ((0 <? len) && negb (data =? NULL)) eqn:E; run_simpl; (eexists; split; [reflexivity|]).
    all: split; [unfold new_message; rewrite E; by msg_simpl|intros x Hx; by msg_simpl
      |by autorewrite with pool|done|done|done]. }
  unfold save_flags, cli. run_simpl. proc_simpl.
  assert (Hpt : proc sA t = proc s t) by (unfold proc; by rewrite (proj1 (fl_sched _ _ _ _ _ _ HA))).
  destruct (link_stage s q sA t m type data len Hs Hq Hts Hu Hfree Hmr HA) as (sB & HrB & HB).
  rewrite Hpt, HrB, (proj1 (proj2 (fl_rest _ _ _ _ _ _ HA))). by apply count_stage.
Qed.

(** The queue of the target after a successful [ipc_send]. *)
Lemma new_message_letter s m type data len :
  length (m_data (msg s m)) = Z.to_nat IPC_MSG_MAX → 0 ≤ len ≤ IPC_MSG_MAX →
  letter_of (new_message s m type data len) = Letter (sender s) type len (send_payload s m data len).
Proof.
  intros Hd Hlen. unfold new_message, send_payload, letter_of. cbn zeta.
  destruct ((0 <? len) && negb (data =? NULL)); cbn; [|done]. f_equal.
  rewrite copy_in_spec by (rewrite length_ld_bytes, Hd; lia). cbn.
  rewrite take_0, app_nil_l, take_app_le by (rewrite length_ld_bytes; lia). apply take_ge. rewrite length_ld_bytes. lia.
Qed.

Lemma new_message_data s m type data len :
  length (m_data (msg s m)) = Z.to_nat IPC_MSG_MAX → 0 ≤ len ≤ IPC_MSG_MAX →
  m_next (new_message s m type data len) = None ∧ m_len (new_message s m type data len) = len ∧
  length (m_data (new_message s m type data len)) = Z.to_nat IPC_MSG_MAX.
Proof.
  intros Hd Hlen. unfold new_message. cbn zeta.
  destruct ((0 <? len) && negb (data =? NULL)); cbn; split_and!; try done.
  rewrite copy_in_spec by (rewrite length_ld_bytes, Hd; lia). cbn.
  rewrite take_0, app_nil_l, length_app, length_drop, length_ld_bytes, Hd. lia.
Qed.

Lemma sent_enqueued s s' q t m type data len :
  queues_ok s q → slot t → used s t → (m < IPC_POOL_SIZE)%nat → pool_used s m = false → 0 ≤ len ≤ IPC_MSG_MAX →
  sent s s' t m type data len → enqueued s s' q t m.
Proof.
  intros Hq Ht Hu Hm Hfree Hlen Hst. destruct (qo_data _ _ Hq m Hm) as [Hd _].
  destruct (new_message_data s m type data len Hd Hlen) as (Hn1 & Hn2 & Hn3).
  pose proof (qo_tail _ _ Hq t Ht) as Htl.
  split.
  - rewrite (st_lengths _ _ _ _ _ _ _ Hst), (st_used _ _ _ _ _ _ _ Hst), length_insert. done.
  - intros x Hx Hl. rewrite (st_msgs _ _ _ _ _ _ _ Hst), decide_False, Htl, decide_False by done. done.
  - intros x Hl. rewrite (st_msgs _ _ _ _ _ _ _ Hst). rewrite decide_False.
    + rewrite Htl, decide_True by done. done.
    + intros ->. apply last_Some_elem_of in Hl. by eapply (unqueued s q m t).
  - by rewrite (st_msgs _ _ _ _ _ _ _ Hst), decide_True.
  - intros x Hx. unfold pool_used. rewrite (st_used _ _ _ _ _ _ _ Hst).
    assert (Hlu : (m < length (msg_used s))%nat) by (by rewrite (proj2 (qo_pool _ _ Hq))).
    case_decide as E; [subst; by apply list_lookup_total_insert_eq|by apply list_lookup_total_insert_ne].
  - intros i _. apply (st_procs _ _ _ _ _ _ _ Hst).
  - rewrite (st_queue _ _ _ _ _ _ _ Hst), Htl. destruct (q t) as [|x l] eqn:E; [done|].
    destruct (last (x :: l)) eqn:El; [done|]. by apply last_None in El.
  - apply Hst.
  - rewrite (st_count _ _ _ _ _ _ _ Hst), (qo_count _ _ Hq) by done. apply u32_id.
    assert (length (q t) ≤ IPC_POOL_SIZE)%nat; [|unfold is_u32, IPC_POOL_SIZE in *; lia].
    assert (length (seq 0 IPC_POOL_SIZE) = IPC_POOL_SIZE) as <- by apply length_seq.
    apply submseteq_length, NoDup_submseteq; [apply Hq|].
    intros x Hx. apply elem_of_seq. apply (qo_range _ _ Hq) in Hx. lia.
  - unfold used. rewrite (st_state _ _ _ _ _ _ _ Hst). by case_decide.
  - intros x Hx. rewrite (st_msgs _ _ _ _ _ _ _ Hst). case_decide; [by rewrite Hn2|].
    case_decide; cbn; by apply Hq.
Qed.

(** Mailboxes after an enqueue. *)
Lemma sent_mailbox s s' q t m type data len i :
  queues_ok s q → slot t → (m < IPC_POOL_SIZE)%nat → pool_used s m = false → 0 ≤ len ≤ IPC_MSG_MAX →
  sent s s' t m type data len →
  mailbox s' (set_queue q t (q t ++ [m])) i =
    if decide (i = t) then mailbox s q t ++ [Letter (sender s) type len (send_payload s m data len)]
    else mailbox s q i.
Proof.
  intros Hq Ht Hm Hfree Hlen Hst. destruct (qo_data _ _ Hq m Hm) as [Hd _].
  assert (Hsame : ∀ j x, x ∈ q j → letter_of (msg s' x) = letter_of (msg s x)).
  { intros j x Hx. rewrite (st_msgs _ _ _ _ _ _ _ Hst). rewrite decide_False.
    - by case_decide.
    - intros ->. by eapply unqueued. }
  assert (Hold : ∀ j, letter_of ∘ msg s' <$> q j = letter_of ∘ msg s <$> q j).
  { intros j. apply list_fmap_ext. intros k x Hx. cbn. apply (Hsame j). by eapply list_elem_of_lookup_2. }
  unfold mailbox, set_queue. case_decide; [subst|done].
  rewrite fmap_app, Hold. f_equal. cbn. rewrite (st_msgs _ _ _ _ _ _ _ Hst), decide_True by done.
  by rewrite new_message_letter.
Qed.

(** ** [ipc_recv] *)

(** Memory after [copy_out]. *)
Definition stored (mm : mem) (out : Z) (m : ipc_message) : mem :=
  let mm := st32 mm out (m_from m) in
  let mm := st32 mm (out + 4) (m_type m) in
  let mm := st32 mm (out + 8) (m_len m) in
  let mm := st_bytes mm (out + 12) (take (Z.to_nat (m_len m)) (m_data m)) in
  st64 mm (out + 272) NULL.

Lemma result_copy_out out m s :
  result (copy_out out m) s = Some (tt, s <| k_mem := stored (k_mem s) out m |>).
Proof. unfold copy_out. cbn zeta. run_simpl. by destruct s. Qed.

(** What the receiver reads in its buffer. *)
Definition read_letter (mm : mem) (out : Z) : letter :=
  Letter (ld32 mm out) (ld32 mm (out + 4)) (ld32 mm (out + 8))
    (ld_bytes mm (out + 12) (Z.to_nat (ld32 mm (out + 8)))).

Lemma ld_le_st_bytes_out mm a bs b n :
  b + Z.of_nat n ≤ a ∨ a + Z.of_nat (length bs) ≤ b → ld_le (st_bytes mm a bs) b n = ld_le mm b n.
Proof. intros H0. apply ld_le_ext. intros c Hc. apply ld8_st_bytes_out. lia. Qed.

Lemma read_stored mm out m :
  0 ≤ m_len m ≤ IPC_MSG_MAX → length (m_data m) = Z.to_nat IPC_MSG_MAX →
  Forall is_u8 (take (Z.to_nat (m_len m)) (m_data m)) →
  read_letter (stored mm out m) out =
    Letter (u32 (m_from m)) (u32 (m_type m)) (m_len m) (take (Z.to_nat (m_len m)) (m_data m)).
Proof.
  intros Hl Hd Hb. set (bs := take (Z.to_nat (m_len m)) (m_data m)) in *. unfold IPC_MSG_MAX in *.
  assert (Hlb : length bs = Z.to_nat (m_len m)) by (unfold bs; rewrite length_take; lia).
  unfold read_letter, stored. cbn zeta. fold bs.
  assert (Hld : ∀ k, 0 ≤ k ≤ 8 → ld32 (st64 (st_bytes (st32 (st32 (st32 mm out (m_from m)) (out + 4) (m_type m))
      (out + 8) (m_len m)) (out + 12) bs) (out + 272) NULL) (out + k) =
    ld32 (st32 (st32 (st32 mm out (m_from m)) (out + 4) (m_type m)) (out + 8) (m_len m)) (out + k)).
  { intros k Hk. rewrite ld32_st64_ne by lia. apply ld_le_st_bytes_out. simpl. lia. }
  pose proof (Hld 0 ltac:(lia)) as H0. rewrite Z.add_0_r in H0. rewrite H0, !Hld by lia. clear Hld H0.
  rewrite ld32_st32, !ld32_st32_ne, !ld32_st32 by lia.
  rewrite (u32_id (m_len m)) by (unfold is_u32; lia). f_equal.
  { by rewrite ld32_st32_ne, ld32_st32 by lia. }
  rewrite (ld_bytes_ext _ (st_bytes (st32 (st32 (st32 mm out (m_from m)) (out + 4) (m_type m)) (out + 8) (m_len m)) (out + 12) bs)).
  - rewrite <-Hlb. by apply ld_st_bytes.
  - intros b Hb'. apply ld8_st64_out. lia.
Qed.

(** Memory outside the buffer is left alone. *)
Lemma stored_out mm out m a :
  (length (take (Z.to_nat (m_len m)) (m_data m)) ≤ 256)%nat →
  a < out ∨ out + 280 ≤ a → ld8 (stored mm out m) a = ld8 mm a.
Proof.
  intros Hl Ha. unfold stored. cbn zeta.
  rewrite ld8_st64_out, ld8_st_bytes_out, !ld8_st32_out by lia. done.
Qed.

Lemma sched_inv_outside s b : sched_inv s → sched_inv (s <| k_if := b |>).
Proof. intros Hs. by apply (sched_inv_same s). Qed.
Lemma sched_inv_outside' s u : sched_inv s → sched_inv (s <| msg_used := u |>).
Proof. intros Hs. by apply (sched_inv_same s). Qed.
Lemma sched_inv_outside'' s m : sched_inv s → sched_inv (s <| k_mem := m |>).
Proof. intros Hs. by apply (sched_inv_same s). Qed.

(** What receiving [m], the head of slot [c]'s queue, changes. *)
Record received s s' (c m : nat) (rest : list nat) (out : Z) : Prop := {
  rc_deq : dequeued s s' c m rest;
  rc_mem : k_mem s' = stored (k_mem s) out (msg s m);
  rc_sched : sched_inv s';
  rc_state : state (proc s' c) = state (proc s c);
  rc_rest : current_proc s' = current_proc s ∧ k_if s' = k_if s ∧ ticks s' = ticks s;
}.

Lemma sched_inv_quiet s i f :
  sched_inv s → slot i → (∀ p, pid (f p) = pid p ∧ state (f p) = state p) → sched_inv (upd_proc i f s).
Proof.
  intros Hs Hi Hf. apply sched_inv_upd; [done..|]. cbn zeta. destruct (Hf (proc s i)) as [-> ->].
  split_and!; try done. by apply Hs.
Qed.

Lemma ipc_recv_loop_ok s q c m rest n out :
  sched_inv s → queues_ok s q → current_proc s = Some c → q c = m :: rest →
  ∃ s', result (ipc_recv_loop (S n) out) s = Some (0, s') ∧ received s s' c m rest out.
Proof.
  intros Hs Hq Hc Hqc. destruct (si_cur _ Hs c Hc) as [Hcs Hu].
  assert (Hct : (c < length (proc_table s))%nat) by (rewrite (si_len _ Hs); exact Hcs).
  pose proof (qo_head _ _ Hq c Hcs) as Hh. rewrite Hqc in Hh. destruct Hh as [Hh _].
  assert (Hmr : (m < IPC_POOL_SIZE)%nat) by (apply (qo_range _ _ Hq c); rewrite Hqc; by left).
  assert (Hml : (m < length (msg_used s))%nat) by (by rewrite (proj2 (qo_pool _ _ Hq))).
  pose proof (qo_count _ _ Hq c Hcs) as Hcnt. rewrite Hqc in Hcnt.
  cbn [ipc_recv_loop]. unfold save_flags, cli, self. run_simpl.
  change (current_proc (s <| k_if := false |>)) with (current_proc s). rewrite Hc. run_simpl.
  rewrite proc_set_if, Hh. run_simpl. rewrite result_copy_out. run_simpl. unfold msg_free, restore_flags.
  rewrite decide_True by done. run_simpl. eexists. split; [reflexivity|].
  assert (Hcl : u32 (msg_count (proc s c) - 1) = msg_count (proc s c) - 1).
  { apply u32_id. rewrite Hcnt. cbn [length]. pose proof (qo_nodup _ _ Hq c) as Hnd.
    assert (length (q c) ≤ IPC_POOL_SIZE)%nat; [|rewrite Hqc in *; unfold is_u32, IPC_POOL_SIZE in *; simpl in *; lia].
    assert (length (seq 0 IPC_POOL_SIZE) = IPC_POOL_SIZE) as <- by apply length_seq.
    apply submseteq_length, NoDup_submseteq; [done|].
    intros x Hx. apply elem_of_seq. apply (qo_range _ _ Hq) in Hx. lia. }
  set (sI := s <| k_if := false |>).
  split.
  - split.
    + split; [done|]. exact (length_insert (msg_used s) m false).
    + done.
    + intros x Hx. unfold pool_used. cbn.
      case_decide as E; [subst; by apply list_lookup_total_insert_eq|by apply list_lookup_total_insert_ne].
    + intros i Hi Hne. by proc_simpl.
    + proc_simpl. cbn. by case_decide.
    + proc_simpl. cbn. by repeat case_decide.
    + proc_simpl. cbn. case_decide; exact Hcl.
    + unfold used. proc_simpl. cbn. by case_decide.
  - done.
  - apply sched_inv_outside, sched_inv_outside', sched_inv_outside''.
    apply sched_inv_quiet; [|done|done]. apply sched_inv_quiet; [|done|intros p; by case_decide].
    apply sched_inv_quiet; [|done|done]. by apply (sched_inv_same s).
  - proc_simpl. cbn. by case_decide.
  - by split_and!.
Qed.
End lemmas.

(** ** Properties *)

Section properties.
Context `{Link}.
Implicit Types s : kernel.

(** The four outcomes of [ipc_send]. *)
Definition send_outcome s (q : nat → list nat) (dst type data len : Z) (r : Z) s' : Prop :=
  (r = - ESRCH ∧ s' = s ∧ ∀ i, slot i → used s i → pid (proc s i) ≠ dst) ∨
  (r = - EINVAL ∧ s' = s ∧ IPC_MSG_MAX < len) ∨
  (r = - ENOMEM ∧ s' = s ∧ ∀ m, (m < IPC_POOL_SIZE)%nat → pool_used s m = true) ∨
  (r = 0 ∧ len ≤ IPC_MSG_MAX ∧ ∃ t m, slot t ∧ used s t ∧ pid (proc s t) = dst ∧
     (m < IPC_POOL_SIZE)%nat ∧ pool_used s m = false ∧ sent s s' t m type data len ∧
     queues_ok s' (set_queue q t (q t ++ [m]))).

Lemma ipc_send_outcome s q dst type data len :
  sched_inv s → queues_ok s q → 0 ≤ len →
  ∃ r s', result (ipc_send dst type data len) s = Some (r, s') ∧
    send_outcome s q dst type data len r s'.
Proof.
  intros Hs Hq Hlen. unfold send_outcome.
  destruct (find_proc (λ p, state p ≠ PROC_UNUSED ∧ pid p = dst) s) as [t|] eqn:Ht.
  2:{ eexists _, _. split; [unfold ipc_send, proc_find; run_simpl; rewrite Ht; reflexivity|].
      left. split_and!; [done..|]. intros i Hi Hu Hp.
      by apply (find_proc_none _ s (si_len _ Hs) Ht i Hi). }
  destruct (find_proc_some _ s t (si_len _ Hs) Ht) as (Hts & [Hu Hp] & _).
  destruct (IPC_MSG_MAX <? len) eqn:El.
  { eexists _, _. split; [unfold ipc_send, proc_find; run_simpl; rewrite Ht; cbn [fst snd]; rewrite El; reflexivity|].
    right; left. by apply Z.ltb_lt in El. }
  pose proof (msg_alloc_cases s q Hq) as Hm. apply Z.ltb_ge in El as El'.
  destruct (fst <$> list_find (λ u, u = false) (msg_used s)) as [m|] eqn:Ef.
  - destruct (ipc_send_ok s q dst type data len t m Hs Hq El' Ht Ef) as (s' & Hr & Hst).
    exists 0, s'. split; [done|]. do 3 right. split_and!; [done..|]. exists t, m.
    destruct Hm as [Hm Hfree]. split_and!; try done.
    apply (enqueue_ok s); try done. by eapply sent_enqueued.
  - eexists _, _. split; [|right; right; left; by split_and!].
    unfold ipc_send, proc_find, msg_alloc. run_simpl. rewrite Ht. cbn [fst snd]. rewrite El. run_simpl.
    rewrite Ef. by run_simpl.
Qed.

(** C7: [ipc_send] always returns. It fails with ESRCH, EINVAL or ENOMEM exactly
    when there is no such process, the message is longer than 256 bytes, or the
    pool is used up, and then changes nothing; otherwise it appends one letter
    with the sender's PID to the mailbox of the target, leaves the other
    mailboxes and processes alone, wakes the target if it sleeps, and restores
    the interrupt flag. *)
Theorem ipc_send_spec s q dst type data len :
  sched_inv s → queues_ok s q → 0 ≤ len →
  ∃ r s', result (ipc_send dst type data len) s = Some (r, s') ∧
  ((r = - ESRCH ∧ s' = s ∧ ∀ i, slot i → used s i → pid (proc s i) ≠ dst) ∨
   (r = - EINVAL ∧ s' = s ∧ IPC_MSG_MAX < len) ∨
   (r = - ENOMEM ∧ s' = s ∧ ∀ m, (m < IPC_POOL_SIZE)%nat → pool_used s m = true) ∨
   (r = 0 ∧ len ≤ IPC_MSG_MAX ∧ ∃ t m q', slot t ∧ used s t ∧ pid (proc s t) = dst ∧
      queues_ok s' q' ∧
      mailbox s' q' t = mailbox s q t ++ [Letter (sender s) type len (send_payload s m data len)] ∧
      (∀ i, i ≠ t → mailbox s' q' i = mailbox s q i ∧ proc s' i = proc s i) ∧
      state (proc s' t) = (if decide (state (proc s t) = PROC_SLEEPING) then PROC_READY else state (proc s t)) ∧
      sched_inv s' ∧ current_proc s' = current_proc s ∧ k_mem s' = k_mem s ∧ k_if s' = k_if s)).
Proof.
  intros Hs Hq Hlen. destruct (ipc_send_outcome s q dst type data len Hs Hq Hlen) as (r & s' & Hr & Ho).
  exists r, s'. split; [done|]. destruct Ho as [Ho|[Ho|[Ho|Ho]]]; [by left|by right; left|by do 2 right; left|].
  do 3 right. destruct Ho as (-> & Hle & t & m & Ht & Hu & Hp & Hm & Hfree & Hst & Hq').
  split_and!; [done..|]. exists t, m, (set_queue q t (q t ++ [m])).
  split_and!; [done..| | |apply Hst|apply Hst|apply Hst|apply Hst|apply Hst].
  - rewrite (sent_mailbox s s' q t m type data len) by done. by rewrite decide_True.
  - intros i Hi. rewrite (sent_mailbox s s' q t m type data len) by done. rewrite decide_False by done.
    split; [done|by apply Hst].
Qed.

(** C12: [ipc_recv] with a message waiting returns 0 at once: the oldest letter is
    in the caller's buffer, its pool slot is free again, and every mailbox holds
    the letters it held otherwise. *)
Theorem ipc_recv_fifo s q c m rest n out :
  sched_inv s → queues_ok s q → mem_wf (k_mem s) → current_proc s = Some c → out ≠ NULL →
  q c = m :: rest → Forall is_u8 (l_data (letter_of (msg s m))) → is_u32 (m_type (msg s m)) →
  is_u32 (m_from (msg s m)) →
  ∃ s' q', result (ipc_recv (S n) out) s = Some (0, s') ∧ queues_ok s' q' ∧ sched_inv s' ∧
    mailbox s q c = read_letter (k_mem s') out :: mailbox s' q' c ∧
    (∀ i, i ≠ c → mailbox s' q' i = mailbox s q i) ∧
    pool_used s' m = false ∧
    (∀ a, a < out ∨ out + 280 ≤ a → ld8 (k_mem s') a = ld8 (k_mem s) a) ∧
    state (proc s' c) = state (proc s c) ∧ k_if s' = k_if s.
Proof.
  intros Hs Hq Hmem Hc Hout Hqc Hbytes Hty Hfrom. destruct (si_cur _ Hs c Hc) as [Hcs Hu].
  destruct (ipc_recv_loop_ok s q c m rest n out Hs Hq Hc Hqc) as (s' & Hr & Hrc).
  assert (Hm : (m < IPC_POOL_SIZE)%nat) by (apply (qo_range _ _ Hq c); rewrite Hqc; by left).
  destruct (qo_data _ _ Hq m Hm) as [Hd Hl].
  exists s', (set_queue q c rest). split.
  { unfold ipc_recv. run_simpl. rewrite Hc. by rewrite (proj2 (Z.eqb_neq _ _)). }
  pose proof (rc_deq _ _ _ _ _ _ Hrc) as Hde.
  assert (Hold : ∀ l : list nat, letter_of ∘ msg s' <$> l = letter_of ∘ msg s <$> l).
  { intros l. apply list_fmap_ext. intros k x _. cbn. by rewrite (de_next _ _ _ _ _ Hde). }
  split_and!.
  - by eapply dequeue_ok.
  - apply Hrc.
  - unfold mailbox, set_queue. rewrite decide_True, Hqc, Hold by done. rewrite fmap_cons. f_equal.
    rewrite (rc_mem _ _ _ _ _ _ Hrc). rewrite read_stored by done. cbn. unfold letter_of.
    by rewrite (u32_id (m_from _)), (u32_id (m_type _)).
  - intros i Hi. unfold mailbox, set_queue. by rewrite decide_False, Hold.
  - rewrite (de_used _ _ _ _ _ Hde) by done. by rewrite decide_True.
  - intros a Ha. rewrite (rc_mem _ _ _ _ _ _ Hrc). apply stored_out; [|done].
    rewrite length_take, Hd. unfold IPC_MSG_MAX. lia.
  - apply Hrc.
  - apply Hrc.
Qed.

Lemma switch_queues s q c t :
  kernel_inv s → queues_ok s q → current_proc s = Some c → slot t → state (proc s t) = PROC_READY →
  let s' := dispatch t (preempt c s) in
  sched_inv s' ∧ queues_ok s' q ∧ current_proc s' = Some t ∧ ∀ m, msg s' m = msg s m.
Proof.
  intros Hi Hq Hc Ht Hr s'. destruct (si_cur _ (proj1 Hi) c Hc) as [Hcs Hu].
  assert (Hl : length (proc_table s) = PROC_MAX) by apply Hi.
  assert (Hne : t ≠ c ∨ state (proc s c) = PROC_READY) by (destruct (decide (t = c)); subst; auto).
  assert (Hr0 : state (proc (preempt c s) t) = PROC_READY).
  { rewrite proc_preempt by done. by case_decide. }
  destruct (dispatch_inv (preempt c s) t) as [[Hs' _] [Hres _]];
    [by apply preempt_inv|by apply preempt_no_running|done|done|].
  assert (Hl0 : length (proc_table (preempt c s)) = PROC_MAX) by apply (preempt_inv s c Hi Hc).
  destruct (dispatch_rest (preempt c s) t) as (_ & _ & _ & Hp & Hus & _).
  destruct (preempt_rest s c) as (_ & _ & Hp0 & Hu0).
  split_and!; [done| |done|intros m; unfold msg, s'; by rewrite Hp, Hp0].
  apply (queues_ok_ext s); [done|by unfold s'; rewrite Hp|by unfold s'; rewrite Hus|].
  intros i Hsl. unfold s', used. rewrite proc_dispatch by done. rewrite !proc_preempt by done.
  repeat case_decide; subst; cbn; naive_solver.
Qed.

(** C32: round trip. A message sent to a process with an empty mailbox arrives
    unchanged when that process is next switched to and calls [ipc_recv]: the
    buffer holds the sender's PID, the type, the length and the bytes that were
    at [data]. *)
Theorem ipc_roundtrip s q c t type data len out n s1 :
  sched_inv s → queues_ok s q → mem_wf (k_mem s) → current_proc s = Some c →
  is_u32 type → 0 < len → data ≠ NULL → out ≠ NULL →
  slot t → used s t → q t = [] → 
  result (ipc_send (pid (proc s t)) type data len) s = Some (0, s1) → state (proc s1 t) = PROC_READY →
  ∃ s2, result (ipc_recv (S n) out) (dispatch t (preempt c s1)) = Some (0, s2) ∧
    read_letter (k_mem s2) out =
      Letter (pid (proc s c)) type len (ld_bytes (k_mem s) data (Z.to_nat len)).
Proof.
  intros Hs Hq Hmem Hc Hty Hlen Hdata Hout Ht Hu Hqt Hr Hrdy.
  destruct (ipc_send_outcome s q (pid (proc s t)) type data len Hs Hq) as (r & s1' & Hr' & Ho); [lia|].
  rewrite Hr in Hr'. injection Hr' as <- <-.
  destruct Ho as [(?&_)|[(?&_)|[(?&_)|Ho]]]; [done..|].
  destruct Ho as (_ & Hle & t' & m & Ht' & Hu' & Hp' & Hm & Hfree & Hst & Hq1).
  assert (t' = t) as -> by (by apply (si_inj _ Hs)).
  assert (Hc1 : current_proc s1 = Some c) by (rewrite <-Hc; apply Hst).
  rewrite Hqt in Hq1. destruct (qo_data _ _ Hq m Hm) as [Hd _].
  destruct (switch_queues s1 (set_queue q t ([] ++ [m])) c t) as (Hs2 & Hq2 & Hc2 & Hm2); [|exact Hq1|done..|].
  { split; [apply Hst|by eexists]. }
  set (s2 := dispatch t (preempt c s1)) in *.
  destruct (ipc_recv_loop_ok s2 (set_queue q t ([] ++ [m])) t m [] n out Hs2 Hq2 Hc2) as (s3 & Hr3 & Hrc).
  { unfold set_queue. by rewrite decide_True. }
  exists s3. split.
  { unfold ipc_recv. run_simpl. rewrite Hc2. by rewrite (proj2 (Z.eqb_neq _ _)). }
  rewrite (rc_mem _ _ _ _ _ _ Hrc), Hm2, (st_msgs _ _ _ _ _ _ _ Hst), decide_True by done.
  destruct (new_message_data s m type data len Hd) as (_ & Hl1 & Hl2); [lia|].
  pose proof (new_message_letter s m type data len Hd ltac:(lia)) as Hlet.
  set (nm := new_message s m type data len) in *. clearbody nm.
  pose proof (f_equal l_from Hlet) as Hfr. pose proof (f_equal l_type Hlet) as Hty'.
  pose proof (f_equal l_data Hlet) as Hby. cbn in Hfr, Hty', Hby. clear Hlet.
  rewrite read_stored; [|rewrite Hl1; lia|done|].
  - rewrite Hby, Hfr, Hty', Hl1. unfold send_payload, sender. rewrite Hc.
    rewrite (proj2 (Z.ltb_lt _ _)), (proj2 (Z.eqb_neq _ _)) by done. cbn. f_equal.
    + apply u32_id. destruct (si_cur _ Hs c Hc) as [Hcs Hcu]. pose proof (si_pid _ Hs c Hcs Hcu).
      pose proof (si_next _ Hs). unfold is_u32. lia.
    + by apply u32_id.
  - rewrite Hby. unfold send_payload. rewrite (proj2 (Z.ltb_lt _ _)), (proj2 (Z.eqb_neq _ _)) by done.
    by apply ld_bytes_u8.
Qed.

(** An empty queue costs one sleep. *)
Lemma ipc_recv_loop_sleep s c n out :
  current_proc s = Some c → msg_queue (proc s c) = None →
  ipc_recv_loop (S n) out s = prepend [EvInstr Cli] ((proc_sleep 10 ;; ipc_recv_loop n out) s).
Proof.
  intros Hc Hq. cbn [ipc_recv_loop].
  unfold save_flags, cli, self, gets, get, instruction, emit, modify, restore_flags, mbind, M_bind, mret, M_ret.
  cbn [bind_run prepend app].
  change (current_proc (s <| k_if := false |>)) with (current_proc s). rewrite Hc.
  cbn [bind_run prepend app]. rewrite proc_set_if, Hq. cbn [bind_run prepend app].
  unfold modify. cbn [bind_run prepend app].
  assert ((s <| k_if := false |>) <| k_if := k_if s |> = s) as -> by (by destruct s).

  destruct (bind_run _ (proc_sleep 10 s)); done.
Qed.

Lemma always_copy_free s c m rest q n out :
  sched_inv s → queues_ok s q → current_proc s = Some c → q c = m :: rest →
  always kernel_inv resumed (λ _ s', kernel_inv s' ∧ current_proc s' = current_proc s)
    (ipc_recv_loop (S n) out s).
Proof.
  intros Hs Hq Hc Hqc. destruct (ipc_recv_loop_ok s q c m rest n out Hs Hq Hc Hqc) as (s' & Hr & Hrc).
  eapply always_result; [exact Hr|]. destruct (si_cur _ Hs c Hc) as [Hcs Hu]. split; [|apply Hrc].
  split; [apply Hrc|]. exists (set_queue q c rest). by eapply dequeue_ok, Hrc.
Qed.

Lemma always_ipc_recv s n out :
  kernel_inv s →
  always kernel_inv resumed (λ _ s', kernel_inv s' ∧ current_proc s' = current_proc s) (ipc_recv n out s).
Proof.
  intros Hi. unfold ipc_recv. always_step.
  destruct (bool_decide (current_proc s = None) || (out =? NULL)) eqn:E; [by split|].
  apply orb_false_elim in E as [E%bool_decide_eq_false _].
  destruct (current_proc s) as [c|] eqn:Hc; [clear E|done].
  revert s Hi Hc. induction n as [|n IH]; intros s Hi Hc; [exact Hi|].
  destruct Hi as [Hs [q Hq]] eqn:Ei. destruct (si_cur _ Hs c Hc) as [Hcs Hu].
  pose proof (qo_head _ _ Hq c Hcs) as Hh. destruct (q c) as [|m rest] eqn:Hqc.
  - rewrite (ipc_recv_loop_sleep s c n out Hc) by exact Hh. apply always_prepend, always_bind.
    eapply always_mono; [|by apply always_proc_sleep]. intros [] s1 [Hi1 Hc1].
    apply IH; [done|]. by rewrite Hc1.
  - rewrite <-Hc. by eapply always_copy_free.
Qed.

Lemma always_ipc_send s dst type data len :
  kernel_inv s → 0 ≤ len →
  always kernel_inv resumed (λ _ s', kernel_inv s' ∧ current_proc s' = current_proc s)
    (ipc_send dst type data len s).
Proof.
  intros [Hs [q Hq]] Hlen.
  destruct (ipc_send_outcome s q dst type data len Hs Hq Hlen) as (r & s' & Hr & Ho).
  eapply always_result; [exact Hr|].
  destruct Ho as [(_&->&_)|[(_&->&_)|[(_&->&_)|Ho]]]; [by split; [split; [|exists q]|]..|].
  destruct Ho as (_ & _ & t & m & _ & _ & _ & _ & _ & Hst & Hq').
  split; [split; [apply Hst|by eexists]|apply Hst].
Qed.

(** C37: blocking. With an empty mailbox and another process READY, [ipc_recv]
    puts the caller to sleep for one tick and hands the CPU over to a READY
    process; if a letter is in the mailbox when the caller is resumed, in
    whatever state the kernel then is, it returns 0 with the oldest letter
    taken out and stored in the buffer. *)
Theorem ipc_recv_blocks s c j n out :
  kernel_inv s → current_proc s = Some c → out ≠ NULL → msg_queue (proc s c) = None →
  slot j → j ≠ c → state (proc s j) = PROC_READY →
  ∃ l new s' k, ipc_recv (S (S n)) out s = Switch l c new s' k ∧
    kernel_inv s' ∧ resumed new s' ∧ new ≠ c ∧
    state (proc s' c) = PROC_SLEEPING ∧ sleep_ticks (proc s' c) = 1 ∧
    ∀ s2 q2 m rest, sched_inv s2 → queues_ok s2 q2 → resumed c s2 → q2 c = m :: rest →
      ∃ l' s3, k s2 = Done l' 0 s3 ∧ received s2 s3 c m rest out ∧ queues_ok s3 (set_queue q2 c rest).
Proof.
  intros Hi Hc Hout Hmq Hj Hjc Hr. destruct (si_cur _ (proj1 Hi) c Hc) as [Hcs Hu].
  assert (Hf : proc (final (proc_sleep 10 s)) c = fall_asleep 10 (proc s c)) by (by apply proc_sleep_final).
  pose proof (always_proc_sleep s 10 Hi) as Ha.
  destruct (proc_sleep_switches s c j 10 Hi Hc Hj Hjc Hr) as (l & new & s' & Hsw & Hnew).
  rewrite Hsw in Hf, Ha. cbn in Hf. destruct Ha as (Hi' & Hres & _).
  eexists _, new, s', _. split_and!.
  - unfold ipc_recv, gets, mbind, M_bind. cbn [bind_run prepend]. rewrite Hc.
    cbn -[ipc_recv_loop]. rewrite (proj2 (Z.eqb_neq _ _)) by done. cbn [orb].
    rewrite (ipc_recv_loop_sleep s c (S n) out Hc Hmq). unfold mbind, M_bind. rewrite Hsw.
    cbn [bind_run prepend app]. reflexivity.
  - done.
  - done.
  - done.
  - by rewrite Hf.
  - by rewrite Hf.
  - intros s2 q2 m rest Hs2 Hq2 [Hc2 _] Hqc.
    destruct (ipc_recv_loop_ok s2 q2 c m rest n out Hs2 Hq2 Hc2 Hqc) as (s3 & Hr3 & Hrc).
    unfold result in Hr3. cbn [bind_run]. destruct (ipc_recv_loop (S n) out s2) as [l3 r3 s3'| | |] eqn:E; simplify_eq.
    eexists _, s3. split; [cbn [prepend]; reflexivity|]. split; [done|].
    destruct (si_cur _ Hs2 c Hc2). by eapply dequeue_ok, Hrc.
Qed.

End properties.

(** ** A zombie's mailbox *)

(** PID 1 runs, PID 2 has exited. *)
Definition zombie_kernel : kernel :=
  (kernel_zero vmm_demo)
    <| proc_table := [demo_proc 1 PROC_RUNNING; demo_proc 2 PROC_ZOMBIE] ++ replicate 62 process_zero |>
    <| current_proc := Some 0%nat |> <| next_pid := 3 |>.

(** [n] empty messages to PID 2, then one to PID 1. *)
Definition flood (n : nat) : M kernel Z :=
  for_each (seq 0 n) (λ _, ipc_send 2 0 NULL 0 ;; mret tt) ;;
  ipc_send 1 0 NULL 0.

(** A process that has exited still takes messages: as many of them as the
    pool has slots, sent to one zombie, and no process can send any more; with
    one fewer the last message still goes through. *)
Theorem zombie_exhausts_pool :
  fst <$> result (flood IPC_POOL_SIZE) zombie_kernel = Some (- ENOMEM) ∧
  fst <$> result (flood (IPC_POOL_SIZE - 1)) zombie_kernel = Some 0.
Proof. split; by vm_compute. Qed.

(** ** Witnesses *)

Lemma ipc_send_spec_witness :
  ∃ r s', result (ipc_send 3 7 0x5000 4) demo_kernel = Some (r, s') ∧
  ((r = - ESRCH ∧ s' = demo_kernel ∧ ∀ i, slot i → used demo_kernel i → pid (proc demo_kernel i) ≠ 3) ∨
   (r = - EINVAL ∧ s' = demo_kernel ∧ IPC_MSG_MAX < 4) ∨
   (r = - ENOMEM ∧ s' = demo_kernel ∧ ∀ m, (m < IPC_POOL_SIZE)%nat → pool_used demo_kernel m = true) ∨
   (r = 0 ∧ 4 ≤ IPC_MSG_MAX ∧ ∃ t m q', slot t ∧ used demo_kernel t ∧ pid (proc demo_kernel t) = 3 ∧
      queues_ok s' q' ∧
      mailbox s' q' t = mailbox demo_kernel demo_queue t ++
        [Letter (sender demo_kernel) 7 4 (send_payload demo_kernel m 0x5000 4)] ∧
      (∀ i, i ≠ t → mailbox s' q' i = mailbox demo_kernel demo_queue i ∧ proc s' i = proc demo_kernel i) ∧
      state (proc s' t) = (if decide (state (proc demo_kernel t) = PROC_SLEEPING) then PROC_READY
                           else state (proc demo_kernel t)) ∧
      sched_inv s' ∧ current_proc s' = current_proc demo_kernel ∧ k_mem s' = k_mem demo_kernel ∧
      k_if s' = k_if demo_kernel)).
Proof. apply (ipc_send_spec demo_kernel demo_queue 3 7 0x5000 4 sched_inv_demo queues_ok_demo). done. Defined.

(** [demo_kernel] with slot 1, which has two letters, running. *)
Definition demo_receiver : kernel := dispatch (H:=demo_link) 1 (preempt 0 demo_kernel).

Lemma demo_receiver_ok :
  sched_inv demo_receiver ∧ queues_ok demo_receiver demo_queue ∧ current_proc demo_receiver = Some 1%nat.
Proof.
  destruct (switch_queues (H:=demo_link) demo_kernel demo_queue 0 1) as (?&?&?&_);
    [exact demo_kernel_inv|exact queues_ok_demo|done|unfold slot, PROC_MAX; lia|done|done].
Qed.

Lemma switch_mem_wf `{Link} s c t : mem_wf (k_mem s) → mem_wf (k_mem (dispatch t (preempt c s))).
Proof.
  intros Hm. assert (mem_wf (k_mem (preempt c s))) as Hp by (unfold preempt; by case_decide).
  unfold dispatch. cbn zeta. case_match; by apply mem_wf_st64.
Qed.

Lemma demo_receiver_mem : mem_wf (k_mem demo_receiver).
Proof. apply switch_mem_wf, mem_wf_empty. Qed.

Lemma ipc_recv_fifo_witness :
  ∃ s' q', result (ipc_recv (H:=demo_link) 1 0x5000) demo_receiver = Some (0, s') ∧ queues_ok s' q' ∧ sched_inv s' ∧
    mailbox demo_receiver demo_queue 1 = read_letter (k_mem s') 0x5000 :: mailbox s' q' 1 ∧
    (∀ i, i ≠ 1%nat → mailbox s' q' i = mailbox demo_receiver demo_queue i) ∧
    pool_used s' 0 = false ∧
    (∀ a, a < 0x5000 ∨ 0x5000 + 280 ≤ a → ld8 (k_mem s') a = ld8 (k_mem demo_receiver) a) ∧
    state (proc s' 1) = state (proc demo_receiver 1) ∧ k_if s' = k_if demo_receiver.
Proof.
  destruct demo_receiver_ok as (Hs & Hq & Hc).
  apply (ipc_recv_fifo (H:=demo_link) demo_receiver demo_queue 1 0 [1%nat] 0 0x5000 Hs Hq demo_receiver_mem Hc);
    [done|by vm_compute| |by (vm_compute; split; congruence)|by (vm_compute; split; congruence)].
  apply (bool_decide_unpack (Forall (λ b, 0 ≤ b < 2 ^ 8) _)). by vm_compute.
Defined.

(** After PID 1 sent four bytes to PID 3, which sleeps. *)
Definition demo_sent : kernel :=
  match result (ipc_send 3 7 0x5000 4) demo_kernel with Some (_, s) => s | None => demo_kernel end.

Lemma demo_sent_ok : result (ipc_send 3 7 0x5000 4) demo_kernel = Some (0, demo_sent).
Proof. unfold demo_sent. apply run_state_of. by vm_compute. Qed.

Lemma ipc_roundtrip_witness :
  ∃ s2, result (ipc_recv (H:=demo_link) 1 0x6000) (dispatch (H:=demo_link) 2 (preempt 0 demo_sent)) = Some (0, s2) ∧
    read_letter (k_mem s2) 0x6000 =
      Letter (pid (proc demo_kernel 0)) 7 4 (ld_bytes (k_mem demo_kernel) 0x5000 (Z.to_nat 4)).
Proof.
  apply (ipc_roundtrip (H:=demo_link) demo_kernel demo_queue 0 2 7 0x5000 4 0x6000 0 demo_sent
           sched_inv_demo queues_ok_demo mem_wf_empty);
    [done|done|done|done|done|unfold slot, PROC_MAX; lia|done|done|exact demo_sent_ok|by vm_compute].
Defined.

Lemma ipc_recv_blocks_witness :
  ∃ l new s' k, ipc_recv (H:=demo_link) 2 0x5000 demo_kernel = Switch l 0 new s' k ∧
    kernel_inv s' ∧ resumed new s' ∧ new ≠ 0%nat ∧
    state (proc s' 0) = PROC_SLEEPING ∧ sleep_ticks (proc s' 0) = 1 ∧
    ∀ s2 q2 m rest, sched_inv s2 → queues_ok s2 q2 → resumed 0 s2 → q2 0%nat = m :: rest →
      ∃ l' s3, k s2 = Done l' 0 s3 ∧ received s2 s3 0 m rest 0x5000 ∧ queues_ok s3 (set_queue q2 0 rest).
Proof.
  apply (ipc_recv_blocks (H:=demo_link) demo_kernel 0 1 0 0x5000 demo_kernel_inv);
    [done|done|done|unfold slot, PROC_MAX; lia|done|done].
Defined.
