(* ===== verification/Trap.v ===== *)
(** * Trap: system calls and interrupts (kernel/proc/syscall.c and
    [interrupt_dispatch] of kernel/arch/x86_64/idt.c)

    [syscall_handler] and [interrupt_dispatch] as they are written, and the
    interleavings they give rise to: a step relation in which the current
    process enters the kernel, runs until [switch_context] suspends it, and is
    resumed by another process's [switch_context]. *)

From S2P Require Import Prelude Effects Memory Types Arch Vmm Kernel Proc Ipc.

(** include/syscall_num.h *)
Definition SYS_EXIT : Z := 1.
Definition SYS_WRITE : Z := 4.
Definition SYS_GETPID : Z := 20.
Definition SYS_GETPPID : Z := 64.
Definition SYS_YIELD : Z := 24.
Definition SYS_SLEEP : Z := 162.
Definition SYS_IPC_SEND : Z := 200.
Definition SYS_IPC_RECV : Z := 201.

(** The others that the header declares; the kernel serves none of them. *)
Definition SYS_READ : Z := 3.
Definition SYS_OPEN : Z := 5.
Definition SYS_CLOSE : Z := 6.
Definition SYS_LSEEK : Z := 19.
Definition SYS_SPAWN : Z := 250.
Definition SYS_WAITPID : Z := 251.
Definition SYS_GETDENTS : Z := 252.
Definition SYS_SBRK : Z := 253.

(** [interrupt_frame_t] *)
Record interrupt_frame := InterruptFrame {
  r15 : Z; r14 : Z; r13 : Z; r12 : Z; r11 : Z; r10 : Z; r9 : Z; r8 : Z;
  rbp : Z; rdi : Z; rsi : Z; rdx : Z; rcx : Z; rbx : Z; rax : Z;
  int_no : Z; err_code : Z; rip : Z; cs : Z; rflags : Z; rsp : Z; ss : Z;
}.
#[export] Instance eta_interrupt_frame : Eta interrupt_frame := λ f,
  InterruptFrame (r15 f) (r14 f) (r13 f) (r12 f) (r11 f) (r10 f) (r9 f) (r8 f) (rbp f) (rdi f)
    (rsi f) (rdx f) (rcx f) (rbx f) (rax f) (int_no f) (err_code f) (rip f) (cs f) (rflags f)
    (rsp f) (ss f).

Section ops.
Context `{Link}.

Definition syscall_init : M kernel unit := kprintf ("[SYSCALL] handler via INT 0x80" +:+ nl) [].

(** [fuel] bounds the retries of [ipc_recv]. *)
Definition syscall_handler (fuel : nat) (num a1 a2 a3 a4 a5 : Z) : M kernel Z :=
  if num =? SYS_EXIT then proc_exit (s32 a1) ;; mret 0 else
  if num =? SYS_WRITE then
    let fd := s32 a1 in
    kprintf ("[SYSCALL] SYS_WRITE" +:+ nl) [] ;;
    let buf := a2 in
    let len := a3 in
    if (fd =? 1) || (fd =? 2) then
      for_each (seqZ 0 len) (λ i,
        s ← get ;
        emit (EvPutc (ld8 (k_mem s) (u64 (buf + i))))) ;;
      mret len
    else mret (u64 (-9))
  else
  if num =? SYS_GETPID then
    gets (λ s, match current_proc s with Some c => u64 (pid (proc s c)) | None => 0 end) else
  if num =? SYS_GETPPID then
    gets (λ s, match current_proc s with Some c => u64 (ppid (proc s c)) | None => 0 end) else
  if num =? SYS_YIELD then proc_yield ;; mret 0 else
  if num =? SYS_SLEEP then proc_sleep a1 ;; mret 0 else
  if num =? SYS_IPC_SEND then
    r ← ipc_send (s32 a1) (u32 a2) a3 (u32 a4) ;
    mret (u64 r) else
  if num =? SYS_IPC_RECV then
    r ← ipc_recv fuel a1 ;
    mret (u64 r) else
  kprintf ("[SYSCALL] unknown syscall %lu" +:+ nl) [KInt num] ;;
  mret (u64 (- ENOSYS)).

Definition exception_names : list string :=
  ["Divide Error"; "Debug"; "NMI"; "Breakpoint"; "Overflow"; "Bound Range";
   "Invalid Opcode"; "Device Not Available"; "Double Fault"; "Coprocessor Seg"; "Invalid TSS";
   "Segment Not Present"; "Stack Fault"; "General Protection"; "Page Fault"; "Reserved";
   "FPU Error"; "Alignment Check"; "Machine Check"; "SIMD Error"].

(** [cr2] is what [read_cr2] returns; the result is the frame that the stub
    restores the registers from. *)
Definition interrupt_dispatch (fuel : nat) (cr2 : Z) (frame : interrupt_frame) : M kernel interrupt_frame :=
  let no := int_no frame in
  if no <? 32 then
    let name := default "Unknown" (exception_names !! Z.to_nat no) in
    kprintf (nl +:+ "[EXCEPTION #%d] %s" +:+ nl) [kint no; KStr (Some name)] ;;
    kprintf ("r12=%p" +:+ nl) [KInt (r12 frame)] ;;
    kprintf ("  err=%lx rip=%p rsp=%p" +:+ nl) [KInt (err_code frame); KInt (rip frame); KInt (rsp frame)] ;;
    (if no =? IDT_PAGE_FAULT then kprintf ("  cr2=%p (fault addr)" +:+ nl) [KInt cr2] else mret tt) ;;
    panic "unhandled exception"
  else if no =? 0x80 then
    ret ← syscall_handler fuel (rax frame) (rdi frame) (rsi frame) (rdx frame) (r10 frame) (r8 frame) ;
    mret (frame <| rax := ret |>)
  else if (IDT_IRQ_BASE <=? no) && (no <? IDT_IRQ_BASE + 16) then
    let irq := u8 (no - IDT_IRQ_BASE) in
    (if irq =? 0 then
       modify (λ s, s <| ticks := u64 (ticks s + 1) |>) ;;
       sched_tick
     else mret tt) ;;
    pic_send_eoi irq ;;
    mret frame
  else mret frame.
End ops.

(** ** The invariant across traps *)

Section keep.
Context `{Link}.
Implicit Types s : kernel.

(** Back in the process that entered the kernel, data invariant intact. *)
Definition returns_to {A} s (_ : A) s' : Prop := kernel_inv s' ∧ current_proc s' = current_proc s.

Lemma always_then {A B} s (m : M kernel A) (g : A → B) :
  always kernel_inv resumed (returns_to s) (m s) →
  always kernel_inv resumed (returns_to s) ((a ← m ; mret (g a)) s).
Proof. intros Hm. apply always_bind. eapply always_mono; [|exact Hm]. by intros a s'. Qed.

Lemma always_syscall s fuel num a1 a2 a3 a4 a5 :
  kernel_inv s → always kernel_inv resumed (returns_to s) (syscall_handler fuel num a1 a2 a3 a4 a5 s).
Proof.
  intros Hi. unfold syscall_handler.
  destruct (num =? SYS_EXIT); [apply always_then; by apply always_proc_exit|].
  destruct (num =? SYS_WRITE).
  { always_step. cbv zeta. destruct (_ || _); [|by split]. apply always_bind.
    eapply always_mono; [|apply (always_for_each _ _ (λ s', kernel_inv s' ∧ current_proc s' = current_proc s))].
    - intros [] s' Hs'. exact Hs'.
    - intros i s' Hs'. by always_step.
    - done. }
  destruct (num =? SYS_GETPID); [by split|].
  destruct (num =? SYS_GETPPID); [by split|].
  destruct (num =? SYS_YIELD); [apply always_then; by apply always_schedule|].
  destruct (num =? SYS_SLEEP); [apply always_then; by apply always_proc_sleep|].
  destruct (num =? SYS_IPC_SEND).
  { apply always_then. apply always_ipc_send; [done|]. apply u32_range. }
  destruct (num =? SYS_IPC_RECV); [apply always_then; by apply always_ipc_recv|].
  always_step. by split.
Qed.

Lemma always_interrupt s fuel cr2 frame :
  kernel_inv s → always kernel_inv resumed (returns_to s) (interrupt_dispatch fuel cr2 frame s).
Proof.
  intros Hi. unfold interrupt_dispatch. cbv zeta. destruct (int_no frame <? 32).
  { do 3 always_step. destruct (int_no frame =? IDT_PAGE_FAULT); [always_step|apply always_bind]; exact Hi. }
  destruct (int_no frame =? 0x80); [apply always_then; by apply always_syscall|].
  destruct (_ && _); [|by split]. apply always_bind.
  assert (Hend : ∀ (u : unit) s', returns_to s u s' →
    always kernel_inv resumed (returns_to s)
      ((pic_send_eoi (u8 (int_no frame - IDT_IRQ_BASE)) ;; mret frame) s')).
  { intros u s' Hs'. unfold pic_send_eoi. apply always_bind, always_bind. by destruct (8 <=? _). }
  destruct (u8 (int_no frame - IDT_IRQ_BASE) =? 0); [|by apply (Hend tt)].
  always_step. eapply always_mono; [exact Hend|].
  assert (kernel_inv (s <| ticks := u64 (ticks s + 1) |>)) as Hi1 by (by eapply kernel_inv_same).
  eapply always_mono; [|by apply always_sched_tick]. intros [] s' [H1 H2]. split; [done|]. by rewrite H2.
Qed.
End keep.

(** ** Single traps *)

Section traps.
Context `{Link}.
Implicit Types s : kernel.

Lemma for_each_emit {S A} (f : S → A → event) (l : list A) (t : S) :
  for_each l (λ x, s ← get ; emit (f s x)) t = Done (map (f t) l) tt t.
Proof.
  induction l as [|x l IH]; [done|]. cbn [for_each map].
  change (prepend [f t x] (for_each l (λ x, s ← get ; emit (f s x)) t) = Done (f t x :: map (f t) l) tt t).
  by rewrite IH.
Qed.

(** [schedule] hands the CPU over when another process is READY. *)
Lemma schedule_switches s c j :
  kernel_inv s → current_proc s = Some c → slot j → j ≠ c → state (proc s j) = PROC_READY →
  ∃ new, new ≠ c ∧ slot new ∧ state (proc s new) = PROC_READY ∧
    schedule s = Switch [] c new (dispatch new (preempt c s)) (λ s', Done [] tt s') ∧
    resumed new (dispatch new (preempt c s)).
Proof.
  intros Hi Hc Hj Hjc Hr. destruct (si_cur _ (proj1 Hi) c Hc) as [Hsc Hu].
  destruct Hi as [Hs Hq]. assert (Hl := si_len _ Hs).
  assert (Hjp : state (proc (preempt c s) j) = PROC_READY).
  { rewrite proc_preempt by done. by rewrite decide_False by (by intros [-> _]). }
  destruct (schedule_cases s c Hc Hsc) as [(idx & Hscan & Hsw)|[Hn _]]; [|by destruct (Hn j Hj)].
  destruct (sched_scan_some _ _ _ _ _ Hscan) as (d & Hd & Hidx & Hst & Hmin).
  assert (Hne : idx ≠ c).
  { intros ->. destruct (slot_distance c j Hsc Hj) as (d' & Hd' & ->).
    assert (d = PROC_MAX) as ->.
    { destruct (decide (d < PROC_MAX)%nat) as [Hlt|]; [|lia]. exfalso.
      unfold slot, PROC_MAX in *. destruct (decide (c + d < 64)%nat).
      - rewrite Nat.mod_small in Hidx by lia. lia.
      - replace (c + d)%nat with (c + d - 64 + 1 * 64)%nat in Hidx by lia.
        rewrite Nat.Div0.mod_add, Nat.mod_small in Hidx by lia. lia. }
    destruct (decide (d' = PROC_MAX)) as [->|Hne].
    { by rewrite <-Hidx in Hjc. }
    by apply (Hmin d'); [lia|]. }
  assert (slot idx) as Hsi by (rewrite Hidx; apply mod_slot).
  exists idx. split_and!; [done|done| | |].
  - rewrite proc_preempt in Hst by done. by rewrite decide_False in Hst by (by intros [-> _]).
  - rewrite Hsw. unfold switch_context. by rewrite decide_False.
  - apply dispatch_inv; [by apply preempt_inv|by apply preempt_no_running|done|done].
Qed.

(** The tick that is coming preempts. *)
Definition timer_due s : bool := u64 (ticks s + 1) `mod` 10 =? 0.

Lemma sched_tick_eq s :
  kernel_inv s →
  sched_tick s =
    if bool_decide (is_Some (current_proc s)) && (ticks s `mod` 10 =? 0) then schedule (tick_all s)
    else Done [] tt (tick_all s).
Proof.
  intros Hi. unfold sched_tick.
  assert (∀ l t, for_each l (λ i, modify (upd_proc i tick_proc)) t =
    Done [] tt (foldl (λ s i, upd_proc i tick_proc s) t l)) as Hl.
  { induction l as [|x l IH]; intros t; [done|].
    change (prepend [] (for_each l (λ i, modify (upd_proc i tick_proc)) (upd_proc x tick_proc t)) =
      Done [] tt (foldl (λ s i, upd_proc i tick_proc s) (upd_proc x tick_proc t) l)).
    by rewrite IH. }
  unfold mbind, M_bind. rewrite Hl. fold (tick_all s). cbn [bind_run]. unfold get.
  cbn [bind_run prepend app]. destruct (tick_all_inv s Hi) as (_ & -> & ->).
  case_match; [|done]. by destruct (schedule (tick_all s)).
Qed.

Lemma proc_tick_all s j :
  length (proc_table s) = PROC_MAX → slot j → proc (tick_all s) j = tick_proc (proc s j).
Proof.
  intros Hl Hj. unfold tick_all.
  assert (∀ l s, NoDup l → Forall slot l → length (proc_table s) = PROC_MAX →
    proc (foldl (λ s i, upd_proc i tick_proc s) s l) j =
      if decide (j ∈ l) then tick_proc (proc s j) else proc s j) as Hf.
  { clear. induction l as [|i l IH]; intros s Hnd Hls Hl; [done|].
    apply NoDup_cons in Hnd as [Hni Hnd]. apply Forall_cons in Hls as [Hi Hls]. cbn [foldl].
    rewrite IH by (done || by rewrite length_upd_proc).
    rewrite (proc_upd s i j) by (rewrite Hl; exact Hi).
    destruct (decide (i = j)) as [->|Hne].
    - rewrite (decide_False (P := j ∈ l)) by done. by rewrite decide_True by (by left).
    - destruct (decide (j ∈ l)) as [Hin|Hin].
      + by rewrite decide_True by (by right).
      + rewrite decide_False; [done|]. by intros [?|?]%elem_of_cons. }
  rewrite Hf; [|apply NoDup_seq| |done].
  - rewrite decide_True; [done|]. apply elem_of_seq. unfold slot in Hj. lia.
  - apply Forall_forall. intros i Hi%elem_of_seq. unfold slot. lia.
Qed.

(** C17: preemption at the timer interrupt. On every tenth tick, when another
    process is READY, the interrupt handler hands the CPU to it with nothing
    sent to the interrupt controller: the end-of-interrupt command is in the
    rest of the handler, which runs when the interrupted process is switched
    back to, and then restores its frame. On the other ticks the handler counts
    the sleeping processes down, acknowledges the interrupt and returns. *)
Theorem timer_interrupt s c j fuel cr2 frame :
  kernel_inv s → current_proc s = Some c → slot j → j ≠ c → state (proc s j) = PROC_READY →
  int_no frame = IDT_IRQ_BASE →
  let eoi := [EvOutb PIC_MASTER_CMD 0x20] in
  let s1 := tick_all (s <| ticks := u64 (ticks s + 1) |>) in
  if timer_due s then
    ∃ new k, new ≠ c ∧ state (proc s1 new) = PROC_READY ∧ resumed new (dispatch new (preempt c s1)) ∧
      interrupt_dispatch fuel cr2 frame s = Switch [] c new (dispatch new (preempt c s1)) k ∧
      ∀ s', k s' = Done eoi frame s'
  else interrupt_dispatch fuel cr2 frame s = Done eoi frame s1.
Proof.
  intros Hi Hc Hj Hjc Hr Hno eoi s1.
  set (s0 := s <| ticks := u64 (ticks s + 1) |>).
  assert (Hi0 : kernel_inv s0) by (by eapply kernel_inv_same).
  destruct (tick_all_inv s0 Hi0) as (Hi1 & Hc1 & Ht1). change (tick_all s0) with s1 in Hi1, Hc1, Ht1.
  assert (Hj1 : state (proc s1 j) = PROC_READY).
  { change s1 with (tick_all s0). rewrite proc_tick_all by (done || apply Hi0). unfold tick_proc.
    change (proc s0 j) with (proc s j). by rewrite decide_False by (by rewrite Hr). }
  destruct (schedule_switches s1 c j Hi1) as (new & Hnew & Hsn & Hrn & Hsw & Hres); [by rewrite Hc1|done..|].
  pose proof (sched_tick_eq s0 Hi0) as Heq. change (tick_all s0) with s1 in Heq.
  rewrite bool_decide_true in Heq by (change (is_Some (current_proc s)); by rewrite Hc).
  change (ticks s0) with (u64 (ticks s + 1)) in Heq. fold (timer_due s) in Heq.
  assert (Hrun : interrupt_dispatch fuel cr2 frame s =
    bind_run (λ _, pic_send_eoi 0 ;; mret frame) (prepend [] (sched_tick s0))).
  { unfold interrupt_dispatch. rewrite Hno. reflexivity. }
  rewrite Hrun, Heq. destruct (timer_due s); [|reflexivity].
  cbn [andb]. rewrite Hsw. cbn [bind_run prepend app]. eexists new, _. split_and!; [done|done|exact Hres|reflexivity|].
  by intros s'.
Qed.
(** The system calls of [syscall_handler]. *)
Definition syscalls : list Z :=
  [SYS_EXIT; SYS_WRITE; SYS_GETPID; SYS_GETPPID; SYS_YIELD; SYS_SLEEP; SYS_IPC_SEND; SYS_IPC_RECV].

Lemma dispatch_int80 s fuel cr2 frame :
  int_no frame = 0x80 →
  interrupt_dispatch fuel cr2 frame s =
    bind_run (λ ret, mret (frame <| rax := ret |>))
      (syscall_handler fuel (rax frame) (rdi frame) (rsi frame) (rdx frame) (r10 frame) (r8 frame) s).
Proof. intros Hno. unfold interrupt_dispatch. rewrite Hno. reflexivity. Qed.

Lemma int80_write_run s fuel cr2 frame :
  int_no frame = 0x80 → rax frame = SYS_WRITE →
  let banner := EvPrintf ("[SYSCALL] SYS_WRITE" +:+ nl) [] in
  interrupt_dispatch fuel cr2 frame s =
    if decide (s32 (rdi frame) = 1 ∨ s32 (rdi frame) = 2) then
      Done (banner :: map (λ i, EvPutc (ld8 (k_mem s) (u64 (rsi frame + i)))) (seqZ 0 (rdx frame)))
        (frame <| rax := rdx frame |>) s
    else Done [banner] (frame <| rax := 2 ^ 64 - 9 |>) s.
Proof.
  intros Hno Hrax banner. rewrite dispatch_int80, Hrax by done.
  unfold syscall_handler. cbn [Z.eqb Pos.eqb SYS_WRITE SYS_EXIT]. cbv zeta.
  case_decide as Hfd.
  - assert ((s32 (rdi frame) =? 1) || (s32 (rdi frame) =? 2) = true) as -> by lia.
    unfold mbind, M_bind, kprintf, emit. cbn [bind_run].
    pose proof (for_each_emit (λ s i, EvPutc (ld8 (k_mem s) (u64 (rsi frame + i)))) (seqZ 0 (rdx frame)) s) as Hf.
    unfold mbind, M_bind, emit in Hf. rewrite Hf. cbn [bind_run prepend app]. unfold mret, M_ret.
    cbn [prepend bind_run]. by rewrite !app_nil_r.
  - assert ((s32 (rdi frame) =? 1) || (s32 (rdi frame) =? 2) = false) as -> by lia. reflexivity.
Qed.

(** [int 0x80] with [SYS_WRITE]: to file descriptors 1 and 2 the handler
    prints exactly the [rdx] bytes at [rsi], in order, and returns [rdx] in
    [rax]; to every other descriptor it prints none and returns -9. Nothing
    else of the kernel state or of the frame changes. *)
Theorem int80_write s fuel cr2 frame :
  int_no frame = 0x80 → rax frame = SYS_WRITE →
  let banner := EvPrintf ("[SYSCALL] SYS_WRITE" +:+ nl) [] in
  interrupt_dispatch fuel cr2 frame s =
    if decide (s32 (rdi frame) = 1 ∨ s32 (rdi frame) = 2) then
      Done (banner :: map (λ i, EvPutc (ld8 (k_mem s) (u64 (rsi frame + i)))) (seqZ 0 (rdx frame)))
        (frame <| rax := rdx frame |>) s
    else Done [banner] (frame <| rax := 2 ^ 64 - 9 |>) s.
Proof. apply int80_write_run. Qed.

(** [int 0x80] with the queries and with numbers that are not assigned:
    [SYS_GETPID] returns the caller's PID, which no other process has,
    [SYS_GETPPID] its parent's, and unknown calls return -ENOSYS; the kernel
    state and the other registers are left alone. *)
Theorem int80_query s c fuel cr2 frame :
  kernel_inv s → current_proc s = Some c → int_no frame = 0x80 →
  (rax frame = SYS_GETPID → ∃ n, interrupt_dispatch fuel cr2 frame s = Done [] (frame <| rax := n |>) s ∧
     1 ≤ n < 2 ^ 31 ∧ ∀ i, slot i → used s i → pid (proc s i) = n ↔ i = c) ∧
  (rax frame = SYS_GETPPID →
     interrupt_dispatch fuel cr2 frame s = Done [] (frame <| rax := u64 (ppid (proc s c)) |>) s) ∧
  (rax frame ∉ syscalls →
     interrupt_dispatch fuel cr2 frame s =
       Done [EvPrintf ("[SYSCALL] unknown syscall %lu" +:+ nl) [KInt (rax frame)]]
         (frame <| rax := 2 ^ 64 - ENOSYS |>) s).
Proof.
  intros [Hs _] Hc Hno. destruct (si_cur _ Hs c Hc) as [Hsc Hu].
  rewrite dispatch_int80 by done. unfold syscall_handler. split_and!; intros Hrax.
  - rewrite Hrax. cbn [Z.eqb Pos.eqb SYS_WRITE SYS_EXIT SYS_GETPID]. unfold gets. rewrite Hc.
    destruct (si_pid _ Hs c Hsc Hu) as [H1 H2]. pose proof (si_next _ Hs).
    rewrite u64_id by (unfold is_u64; lia). exists (pid (proc s c)). split_and!; [reflexivity|lia|lia|].
    intros i Hi Hui. split; [|by intros ->]. by apply (si_inj _ Hs).
  - rewrite Hrax. cbn [Z.eqb Pos.eqb SYS_WRITE SYS_EXIT SYS_GETPID SYS_GETPPID]. unfold gets. by rewrite Hc.
  - assert (∀ n, n ∈ syscalls → (rax frame =? n) = false) as Hne.
    { intros n Hn. apply Z.eqb_neq. intros E. apply Hrax. by rewrite E. }
    rewrite !Hne by (apply (bool_decide_unpack _); reflexivity). reflexivity.
Qed.
End traps.

(** ** All interleavings *)

(** The ways into the kernel: an interrupt or system call, or a direct call by
    code that runs in kernel mode (the processes of kernel/main.c). *)
Inductive entry :=
  | Interrupt (fuel : nat) (cr2 : Z) (frame : interrupt_frame)
  | KCreate (nm : string) (start : Z)
  | KCreateElf (nm : string) (elf : Z)
  | KExit (code : Z)
  | KYield
  | KSleep (ms : Z)
  | KSend (dst type data len : Z)
  | KRecv (fuel : nat) (out : Z).

Section system.
Context `{Link}.

Definition handler (e : entry) : M kernel unit :=
  match e with
  | Interrupt fuel cr2 frame => interrupt_dispatch fuel cr2 frame ;; mret tt
  | KCreate nm start => proc_create nm start false ;; mret tt
  | KCreateElf nm elf => proc_create_elf nm elf ;; mret tt
  | KExit code => proc_exit code
  | KYield => proc_yield
  | KSleep ms => proc_sleep ms
  | KSend dst type data len => ipc_send dst type data len ;; mret tt
  | KRecv fuel out => ipc_recv fuel out ;; mret tt
  end.

(** Creation needs a PID that is left; lengths are unsigned. *)
Definition entry_ok (e : entry) (s : kernel) : Prop :=
  match e with
  | KCreate _ _ | KCreateElf _ _ => next_pid s < 2 ^ 31 - 1
  | KSend _ _ _ len => 0 ≤ len
  | _ => True
  end.

(** Processes suspended in [switch_context], with the rest of their call. *)
Abbreviation suspended := (nat → option (kernel → run kernel unit)).

(** The CPU runs the current process's own code, or the kernel for it. *)
Inductive config :=
  | OutOfKernel (s : kernel) (sp : suspended)
  | InKernel (r : run kernel unit) (sp : suspended).

Definition suspend (i : nat) (k : kernel → run kernel unit) (sp : suspended) : suspended :=
  λ j, if decide (j = i) then Some k else sp j.
Definition resume (i : nat) (sp : suspended) : suspended :=
  λ j, if decide (j = i) then None else sp j.

Inductive step : config → config → Prop :=
  | step_enter s sp e :
      entry_ok e s → step (OutOfKernel s sp) (InKernel (handler e s) sp)
  | step_leave l u s sp :
      step (InKernel (Done l u s) sp) (OutOfKernel s sp)
  (** [new] was suspended earlier: it goes on where it left off *)
  | step_resume l old new s k sp k' :
      sp new = Some k' →
      step (InKernel (Switch l old new s k) sp) (InKernel (k' s) (suspend old k (resume new sp)))
  (** [new] starts at its entry point *)
  | step_start l old new s k sp :
      sp new = None →
      step (InKernel (Switch l old new s k) sp) (OutOfKernel s (suspend old k sp)).

Definition state_of (c : config) : kernel :=
  match c with OutOfKernel s _ => s | InKernel r _ => final r end.

Abbreviation guarantee := (always kernel_inv resumed (λ _, kernel_inv)).

Definition suspended_ok (sp : suspended) : Prop :=
  ∀ i k, sp i = Some k → ∀ s, kernel_inv s → resumed i s → guarantee (k s).

Definition config_ok (c : config) : Prop :=
  match c with
  | OutOfKernel s sp => kernel_inv s ∧ suspended_ok sp
  | InKernel r sp => guarantee r ∧ suspended_ok sp
  end.

Lemma guarantee_handler e s : kernel_inv s → entry_ok e s → guarantee (handler e s).
Proof.
  intros Hi He.
  assert (Hunit : ∀ A (m : M kernel A) (Q : A → kernel → Prop), always kernel_inv resumed Q (m s) →
    (∀ a s', Q a s' → kernel_inv s') → guarantee ((m ;; mret tt) s)).
  { intros A m Q Hm HQ. apply always_bind. eapply always_mono; [|exact Hm]. intros a s' Hs'. by apply (HQ a). }
  destruct e; cbn [handler entry_ok] in *.
  - eapply Hunit; [by apply always_interrupt|]. by intros ? ? [? _].
  - eapply Hunit; [by apply always_proc_create|]. by intros ? ? [? _].
  - eapply Hunit; [by apply always_proc_create_elf|]. intros [p|] s'; [by intros (_ & [] & _)|by intros ->].
  - eapply always_mono; [|by apply always_proc_exit]. by intros ? ? [? _].
  - eapply always_mono; [|by apply always_schedule]. by intros ? ? [? _].
  - eapply always_mono; [|by apply always_proc_sleep]. by intros ? ? [? _].
  - eapply Hunit; [by apply always_ipc_send|]. by intros ? ? [? _].
  - eapply Hunit; [by apply always_ipc_recv|]. by intros ? ? [? _].
Qed.

Lemma guarantee_final (r : run kernel unit) : guarantee r → kernel_inv (final r).
Proof. destruct r; cbn; tauto. Qed.

Lemma suspend_ok old k sp :
  suspended_ok sp → (∀ s, kernel_inv s → resumed old s → guarantee (k s)) → suspended_ok (suspend old k sp).
Proof. intros Hsp Hk i k'. unfold suspend. case_decide; [|apply Hsp]. subst. by intros [= <-]. Qed.

Lemma resume_ok new sp : suspended_ok sp → suspended_ok (resume new sp).
Proof. intros Hsp i k. unfold resume. case_decide; [done|]. apply Hsp. Qed.

Lemma step_ok c c' : step c c' → config_ok c → config_ok c'.
Proof.
  intros [s sp e He|l u s sp|l old new s k sp k' Hk'|l old new s k sp Hnone] Hc; cbn in *.
  - destruct Hc as [Hi Hsp]. split; [by apply guarantee_handler|done].
  - done.
  - destruct Hc as [(Hi & Hr & Hk) Hsp]. split; [by eapply Hsp|].
    apply suspend_ok; [exact (resume_ok _ _ Hsp)|exact Hk].
  - destruct Hc as [(Hi & Hr & Hk) Hsp]. split; [done|].
    apply suspend_ok; [exact Hsp|exact Hk].
Qed.

Lemma reachable_ok s c :
  kernel_inv s → rtc step (OutOfKernel s (λ _, None)) c → kernel_inv (state_of c).
Proof.
  intros Hi Hsteps. assert (config_ok c) as Hc.
  { assert (config_ok (OutOfKernel s (λ _, None))) as H0 by (split; [done|by intros i k]).
    revert H0. clear Hi. induction Hsteps as [|c1 c2 c3 H12 _ IH]; [done|].
    intros H1. eapply IH, step_ok; [exact H12|exact H1]. }
  destruct c; [apply Hc|]. apply guarantee_final, Hc.
Qed.


(** Mutual exclusion. In no reachable state are two processes RUNNING. *)
Theorem one_running s c i j :
  kernel_inv s → rtc step (OutOfKernel s (λ _, None)) c → slot i → slot j →
  state (proc (state_of c) i) = PROC_RUNNING → state (proc (state_of c) j) = PROC_RUNNING → i = j.
Proof.
  intros Hi Hsteps Hsi Hsj Hri Hrj. destruct (reachable_ok _ _ Hi Hsteps) as [Hs _].
  pose proof (si_run _ Hs i Hsi Hri). pose proof (si_run _ Hs j Hsj Hrj). congruence.
Qed.
End system.

(** ** Witnesses *)

(** A frame of the timer interrupt, and one of a system call. *)
Definition demo_frame (no num a1 a2 a3 : Z) : interrupt_frame :=
  InterruptFrame 0 0 0 0 0 0 0 0 0 a1 a2 a3 0 0 num no 0 0x400000 0x2B 0x202 0x7FFFFFFFE000 0x23.

Definition demo_due : kernel := demo_kernel <| ticks := 19 |>.
Lemma demo_due_inv : kernel_inv demo_due.
Proof. exact (kernel_inv_same demo_kernel demo_due demo_kernel_inv eq_refl eq_refl eq_refl eq_refl eq_refl). Qed.

Lemma timer_interrupt_witness :
  let s1 := tick_all (demo_due <| ticks := u64 (ticks demo_due + 1) |>) in
  ∃ new k, new ≠ 0%nat ∧ state (proc s1 new) = PROC_READY ∧
    resumed new (dispatch (H:=demo_link) new (preempt 0 s1)) ∧
    interrupt_dispatch (H:=demo_link) 0 0 (demo_frame 32 0 0 0 0) demo_due =
      Switch [] 0 new (dispatch (H:=demo_link) new (preempt 0 s1)) k ∧
    ∀ s', k s' = Done [EvOutb PIC_MASTER_CMD 0x20] (demo_frame 32 0 0 0 0) s'.
Proof.
  exact (timer_interrupt (H:=demo_link) demo_due 0 1 0 0 (demo_frame 32 0 0 0 0) demo_due_inv eq_refl
    (bool_decide_unpack (1 < 64)%nat I) ltac:(discriminate) eq_refl eq_refl).
Defined.

Lemma int80_write_witness :
  interrupt_dispatch (H:=demo_link) 0 0 (demo_frame 0x80 4 1 0x5000 2) demo_kernel =
  Done [EvPrintf ("[SYSCALL] SYS_WRITE" +:+ nl) []; EvPutc 0; EvPutc 0] (demo_frame 0x80 2 1 0x5000 2) demo_kernel.
Proof. exact (int80_write (H:=demo_link) demo_kernel 0 0 (demo_frame 0x80 4 1 0x5000 2) eq_refl eq_refl). Defined.

Lemma int80_query_witness :
  ∃ n, interrupt_dispatch (H:=demo_link) 0 0 (demo_frame 0x80 20 0 0 0) demo_kernel =
         Done [] (demo_frame 0x80 n 0 0 0) demo_kernel ∧
     1 ≤ n < 2 ^ 31 ∧ ∀ i, slot i → used demo_kernel i → pid (proc demo_kernel i) = n ↔ i = 0%nat.
Proof.
  exact (proj1 (int80_query (H:=demo_link) demo_kernel 0 0 0 (demo_frame 0x80 20 0 0 0) demo_kernel_inv eq_refl eq_refl)
    eq_refl).
Defined.

(** The timer preempts slot 0, and another process starts. *)
Lemma demo_steps : ∃ new s' sp,
  rtc (step (H:=demo_link)) (OutOfKernel demo_kernel (λ _, None)) (OutOfKernel s' sp) ∧
  new ≠ 0%nat ∧ slot new ∧ resumed new s'.
Proof.
  pose proof (schedule_switches (H:=demo_link) demo_kernel 0 1 demo_kernel_inv eq_refl
    (bool_decide_unpack (1 < 64)%nat I) ltac:(discriminate) eq_refl) as (new & Hne & Hsn & _ & Hsw & Hres).
  revert Hsw Hres. generalize (dispatch (H:=demo_link) new (preempt 0 demo_kernel)). intros s' Hsw Hres.
  exists new, s', (suspend 0 (λ s', Done [] tt s') (λ _, None)). split; [|done].
  eapply rtc_l; [by apply (step_enter _ _ KYield)|]. cbn [handler]. unfold proc_yield. rewrite Hsw.
  apply rtc_once. by apply step_start.
Qed.


Lemma one_running_witness : ∃ new s' sp,
  rtc (step (H:=demo_link)) (OutOfKernel demo_kernel (λ _, None)) (OutOfKernel s' sp) ∧ new ≠ 0%nat ∧
  ∀ i, slot i → state (proc s' i) = PROC_RUNNING → i = new.
Proof.
  destruct demo_steps as (new & s' & sp & Hsteps & Hne & Hsn & Hres). exists new, s', sp.
  split; [exact Hsteps|]. split; [exact Hne|]. intros i Hi Hr.
  exact (one_running demo_kernel _ i new demo_kernel_inv Hsteps Hi Hsn Hr (proj2 Hres)).
Defined.
