(* ===== verification/Cpu.v ===== *)
(** * Cpu: the processor, as far as the kernel's assembly uses it

    A machine state with the sixteen general registers, the selectors, the flags
    and memory; the instructions of kernel/arch/x86_64/context.asm, isr_stub.asm,
    kernel/proc/proc_entry.asm, proc_entry_user.asm and kernel/usr/user_enter.asm;
    the delivery of interrupts through the descriptor tables that file Arch
    writes, and [iretq].  A program is a list of instructions that [fetch] finds
    at consecutive addresses; what the assembler makes of an instruction, and so
    how long it is, is left open.  [step] is [None] where the model ends: at the
    addresses of C functions, in 32-bit mode, and where a table is not what the
    kernel sets up. *)

From S2P Require Import Prelude Effects Memory Types Arch.

(** ** Registers *)

Inductive reg :=
  | RAX | RBX | RCX | RDX | RSI | RDI | RBP | RSP
  | R8 | R9 | R10 | R11 | R12 | R13 | R14 | R15.
#[export] Instance reg_eq_dec : EqDecision reg.
Proof. solve_decision. Defined.

Record regs := Regs {
  g_rax : Z; g_rbx : Z; g_rcx : Z; g_rdx : Z; g_rsi : Z; g_rdi : Z; g_rbp : Z; g_rsp : Z;
  g_r8 : Z; g_r9 : Z; g_r10 : Z; g_r11 : Z; g_r12 : Z; g_r13 : Z; g_r14 : Z; g_r15 : Z;
}.
#[export] Instance eta_regs : Eta regs := λ g,
  Regs (g_rax g) (g_rbx g) (g_rcx g) (g_rdx g) (g_rsi g) (g_rdi g) (g_rbp g) (g_rsp g)
    (g_r8 g) (g_r9 g) (g_r10 g) (g_r11 g) (g_r12 g) (g_r13 g) (g_r14 g) (g_r15 g).

Definition getr (r : reg) (g : regs) : Z :=
  match r with
  | RAX => g_rax g | RBX => g_rbx g | RCX => g_rcx g | RDX => g_rdx g
  | RSI => g_rsi g | RDI => g_rdi g | RBP => g_rbp g | RSP => g_rsp g
  | R8 => g_r8 g | R9 => g_r9 g | R10 => g_r10 g | R11 => g_r11 g
  | R12 => g_r12 g | R13 => g_r13 g | R14 => g_r14 g | R15 => g_r15 g
  end.

Definition setr (r : reg) (v : Z) (g : regs) : regs :=
  match r with
  | RAX => g <| g_rax := v |> | RBX => g <| g_rbx := v |> | RCX => g <| g_rcx := v |>
  | RDX => g <| g_rdx := v |> | RSI => g <| g_rsi := v |> | RDI => g <| g_rdi := v |>
  | RBP => g <| g_rbp := v |> | RSP => g <| g_rsp := v |> | R8 => g <| g_r8 := v |>
  | R9 => g <| g_r9 := v |> | R10 => g <| g_r10 := v |> | R11 => g <| g_r11 := v |>
  | R12 => g <| g_r12 := v |> | R13 => g <| g_r13 := v |> | R14 => g <| g_r14 := v |>
  | R15 => g <| g_r15 := v |>
  end.

Definition all_regs : list reg :=
  [RAX; RBX; RCX; RDX; RSI; RDI; RBP; RSP; R8; R9; R10; R11; R12; R13; R14; R15].

Lemma getr_setr r r' v g : getr r' (setr r v g) = if decide (r = r') then v else getr r' g.
Proof. by destruct r, r'. Qed.
Lemma getr_setr_eq r v g : getr r (setr r v g) = v.
Proof. by rewrite getr_setr, decide_True. Qed.
Lemma getr_setr_ne r r' v g : r ≠ r' → getr r' (setr r v g) = getr r' g.
Proof. intros. by rewrite getr_setr, decide_False. Qed.
Lemma setr_setr r v v' g : setr r v (setr r v' g) = setr r v g.
Proof. by destruct r. Qed.
Lemma setr_getr r g : setr r (getr r g) g = g.
Proof. by destruct r, g. Qed.

Lemma regs_ext g g' : (∀ r, getr r g = getr r g') → g = g'.
Proof.
  intros H. pose proof (H RAX). pose proof (H RBX). pose proof (H RCX). pose proof (H RDX).
  pose proof (H RSI). pose proof (H RDI). pose proof (H RBP). pose proof (H RSP).
  pose proof (H R8). pose proof (H R9). pose proof (H R10). pose proof (H R11).
  pose proof (H R12). pose proof (H R13). pose proof (H R14). pose proof (H R15).
  destruct g, g'. cbn in *. by subst.
Qed.

(** Every register holds 64 bits. *)
Definition regs_ok (g : regs) : Prop := ∀ r, is_u64 (getr r g).

(** The data segment registers. *)
Inductive sreg := DS | ES | FS | GS.
#[export] Instance sreg_eq_dec : EqDecision sreg.
Proof. solve_decision. Defined.
Record segs := Segs { sel_ds : Z; sel_es : Z; sel_fs : Z; sel_gs : Z }.
#[export] Instance eta_segs : Eta segs := λ s, Segs (sel_ds s) (sel_es s) (sel_fs s) (sel_gs s).
Definition setseg (r : sreg) (v : Z) (s : segs) : segs :=
  match r with
  | DS => s <| sel_ds := v |> | ES => s <| sel_es := v |>
  | FS => s <| sel_fs := v |> | GS => s <| sel_gs := v |>
  end.

(** The machine state.  [long] is the 64-bit flag of the loaded code segment. *)
Record cpu := Cpu {
  gpr : regs;
  pc : Z;
  fl : Z;
  sel_cs : Z;
  sel_ss : Z;
  data_segs : segs;
  long : bool;
  page_root : Z;
  efer : Z;
  ram : mem;
}.
#[export] Instance eta_cpu : Eta cpu := λ c,
  Cpu (gpr c) (pc c) (fl c) (sel_cs c) (sel_ss c) (data_segs c) (long c) (page_root c) (efer c) (ram c).

Definition greg (r : reg) (c : cpu) : Z := getr r (gpr c).
Definition set_reg (r : reg) (v : Z) (c : cpu) : cpu := c <| gpr := setr r v (gpr c) |>.
Definition set_pc (a : Z) (c : cpu) : cpu := c <| pc := a |>.
(** The current privilege level. *)
Definition cpl (c : cpu) : Z := sel_cs c `mod` 4.

Lemma set_pc_set_pc a b c : set_pc b (set_pc a c) = set_pc b c.
Proof. done. Qed.

(** Bits of RFLAGS and of EFER (include/arch/x86_64.h). *)
Definition RFLAGS_TF : Z := BIT 8.
Definition RFLAGS_IF : Z := BIT 9.
Definition RFLAGS_NT : Z := BIT 14.
Definition RFLAGS_RF : Z := BIT 16.
Definition EFER_SCE : Z := BIT 0.
Definition EFER_LME : Z := BIT 8.
Definition MSR_EFER : Z := 0xC0000080.

(** ** Instructions *)

(** Those that run on to the next one. *)
Inductive op :=
  | MovRR (d s : reg)
  | MovRI (d : reg) (v : Z)
  | Load (d b : reg) (disp : Z)      (** [mov d, [b + disp]] *)
  | Store (b : reg) (disp : Z) (s : reg)  (** [mov [b + disp], s] *)
  | LoadAbs (d : reg) (a : Z)        (** [mov d, [rel a]] *)
  | MovAx (v : Z)                    (** [mov ax, v] *)
  | MovSeg (s : sreg)                (** [mov s, ax] *)
  | MovCr3 (s : reg)                 (** [mov cr3, s] *)
  | PushR (r : reg)
  | PushI (v : Z)
  | PopR (r : reg)
  | AddRI (r : reg) (v : Z)
  | OpSti.

(** And those that transfer control. *)
Inductive insn :=
  | Op (o : op)
  | Ret
  | CallR (r : reg)
  | CallA (a : Z)
  | JmpA (a : Z)
  | Iretq
  | IntN (n : Z)
  | Syscall
  | OpHlt.

(** The image: [fetch a] is the instruction at [a] and the address after it. *)
Class Image := {
  fetch : Z → option (insn * Z);
  sym_switch_context : Z;      (** kernel/arch/x86_64/context.asm *)
  sym_isr_common : Z;          (** kernel/arch/x86_64/isr_stub.asm *)
  sym_interrupt_dispatch : Z;  (** kernel/arch/x86_64/idt.c *)
  sym_proc_exit : Z;           (** kernel/proc/proc.c *)
  sym_current_proc : Z;        (** the variable of kernel/proc/proc.c *)
  sym_enter_user_mode : Z;     (** kernel/main.c, kernel/usr/user_enter.asm *)
}.

Definition push (v : Z) (c : cpu) : cpu :=
  let sp := u64 (greg RSP c - 8) in
  (set_reg RSP sp c) <| ram := st64 (ram c) sp v |>.

(** The word a [pop] takes, and the state after it. *)
Definition top (c : cpu) : Z := ld64 (ram c) (greg RSP c).
Definition drop_word (c : cpu) : cpu := set_reg RSP (u64 (greg RSP c + 8)) c.

(** The arithmetic flags of an addition. *)
Definition parity_even (x : Z) : bool :=
  negb (foldr xorb false ((λ i, Z.testbit x i) <$> seqZ 0 8)).
Definition flag (i : Z) (b : bool) : Z := if b then 2 ^ i else 0.
Definition add_flags (f x y : Z) : Z :=
  let r := u64 (x + y) in
  let bits := Z.lor (flag 0 (2 ^ 64 <=? x + y)) (Z.lor (flag 2 (parity_even r))
    (Z.lor (flag 4 (16 <=? x `mod` 16 + y `mod` 16)) (Z.lor (flag 6 (r =? 0))
    (Z.lor (flag 7 (Z.testbit r 63)) (flag 11 (negb (s64 x + s64 y =? s64 r))))))) in
  Z.lor (Z.land f (Z.lnot 0x8D5)) bits.

Section machine.
Context `{Link, Image}.

(** The descriptor behind a selector. *)
Definition desc (sel : Z) : Z := sym_gdt + 8 * (sel `div` 8).
Definition desc_present (m : mem) (sel : Z) : bool := Z.testbit (seg_access m (desc sel)) 7.
Definition desc_dpl (m : mem) (sel : Z) : Z := (seg_access m (desc sel) `div` 32) `mod` 4.
Definition desc_long (m : mem) (sel : Z) : bool := Z.testbit (seg_flags m (desc sel)) 1.
Definition desc_code (m : mem) (sel : Z) : bool := Z.testbit (seg_access m (desc sel)) 3.
Definition null_sel (sel : Z) : bool := sel `div` 4 =? 0.

(** Loading a data segment register at privilege level [l]. *)
Definition data_ok (m : mem) (l sel : Z) : bool :=
  null_sel sel || (desc_present m sel && (Z.max l (sel `mod` 4) <=? desc_dpl m sel)).

Definition exec (o : op) (c : cpu) : option cpu :=
  match o with
  | MovRR d s => Some (set_reg d (greg s c) c)
  | MovRI d v => Some (set_reg d v c)
  | Load d b disp => Some (set_reg d (ld64 (ram c) (u64 (greg b c + disp))) c)
  | Store b disp s => Some (c <| ram := st64 (ram c) (u64 (greg b c + disp)) (greg s c) |>)
  | LoadAbs d a => Some (set_reg d (ld64 (ram c) a) c)
  | MovAx v => Some (set_reg RAX (greg RAX c - u16 (greg RAX c) + v) c)
  | MovSeg s =>
      let v := u16 (greg RAX c) in
      if data_ok (ram c) (cpl c) v then Some (c <| data_segs := setseg s v (data_segs c) |>) else None
  | MovCr3 s => if cpl c =? 0 then Some (c <| page_root := greg s c |>) else None
  | PushR r => Some (push (greg r c) c)
  | PushI v => Some (push v c)
  | PopR r => Some (set_reg r (top c) (drop_word c))
  | AddRI r v =>
      Some ((set_reg r (u64 (greg r c + v)) c) <| fl := add_flags (fl c) (greg r c) (u64 v) |>)
  | OpSti => if cpl c =? 0 then Some (c <| fl := Z.lor (fl c) RFLAGS_IF |>) else None
  end.

(** Interrupt [v]: through its gate to the stub, on the stack of the task-state
    segment when the privilege level changes, with the state that is interrupted
    (and the error code, for the exceptions that have one) on the stack. *)
Definition interrupt (v : Z) (err : option Z) (c : cpu) : option cpu :=
  let m := ram c in
  let g := sym_idt + sizeof_idt_entry * v in
  let cs' := gate_selector m g in
  let l := desc_dpl m cs' in
  if gate_present m g && (gate_type m g =? 14) && (gate_ist m g =? 0) &&
     desc_present m cs' && desc_code m cs' && desc_long m cs' && (l <=? cpl c)
  then
    let outer := l <? cpl c in
    let sp := if outer then ld64 m (sym_tss + 4 + 8 * l) else greg RSP c in
    let c1 := set_reg RSP (16 * (sp `div` 16)) c in
    let c2 := push (pc c) (push (sel_cs c) (push (fl c) (push (greg RSP c) (push (sel_ss c) c1)))) in
    let c3 := match err with Some e => push e c2 | None => c2 end in
    Some (c3 <| fl := Z.land (fl c) (Z.lnot (Z.lor RFLAGS_IF (Z.lor RFLAGS_TF (Z.lor RFLAGS_NT RFLAGS_RF)))) |>
             <| sel_cs := 4 * (cs' `div` 4) + l |>
             <| sel_ss := if outer then l else sel_ss c |>
             <| long := true |>
             <| pc := gate_offset m g |>)
  else None.

(** [int n] needs a gate that the privilege level may use; otherwise it is a
    general protection fault, whose error code names the gate. *)
Definition int_n (n : Z) (c next : cpu) : option cpu :=
  if cpl c <=? gate_dpl (ram c) (sym_idt + sizeof_idt_entry * n) then interrupt n None next
  else interrupt 13 (Some (8 * n + 2)) c.

(** A data segment register of an inner level is cleared on the way out. *)
Definition leave_seg (m : mem) (l sel : Z) : Z :=
  if negb (null_sel sel) && (desc_dpl m sel <? l) then 0 else sel.

Definition iretq (c : cpu) : option cpu :=
  let m := ram c in
  let w i := ld64 m (u64 (greg RSP c + 8 * i)) in
  let cs' := w 1 in
  let l := cs' `mod` 4 in
  if negb (Z.testbit (fl c) 14) && desc_present m cs' && desc_code m cs' && (desc_dpl m cs' =? l) && (cpl c <=? l) then
    let out x := if cpl c <? l then leave_seg m l x else x in
    let d := data_segs c in
    Some ((set_reg RSP (w 3) c) <| pc := w 0 |> <| sel_cs := cs' |> <| fl := w 2 |> <| sel_ss := w 4 |>
            <| long := desc_long m cs' |>
            <| data_segs := Segs (out (sel_ds d)) (out (sel_es d)) (out (sel_fs d)) (out (sel_gs d)) |>)
  else None.

Definition step (c : cpu) : option cpu :=
  if negb (long c) then None else
  match fetch (pc c) with
  | None => None
  | Some (i, next) =>
      let c' := set_pc next c in
      match i with
      | Op o => exec o c'
      | Ret => Some (set_pc (top c') (drop_word c'))
      | CallR r => Some (set_pc (greg r c') (push next c'))
      | CallA a => Some (set_pc a (push next c'))
      | JmpA a => Some (set_pc a c')
      | Iretq => iretq c'
      | IntN n => int_n n c c'
      | Syscall => if Z.testbit (efer c) 0 then None else interrupt 6 None c
      | OpHlt => None
      end
  end.

Definition steps : cpu → cpu → Prop := rtc (λ c c', step c = Some c').

(** The instructions [p] are at [a], up to [b]. *)
Fixpoint loaded (a : Z) (p : list insn) (b : Z) : Prop :=
  match p with
  | [] => a = b
  | i :: p => ∃ next, fetch a = Some (i, next) ∧ loaded next p b
  end.

Fixpoint exec_all (os : list op) (c : cpu) : option cpu :=
  match os with
  | [] => Some c
  | o :: os => match exec o c with Some c => exec_all os c | None => None end
  end.
End machine.

(** ** Running straight-line code *)

Section running.
Context `{Link, Image}.
Implicit Types c : cpu.

Lemma exec_set_pc o c a : exec o (set_pc a c) = set_pc a <$> exec o c.
Proof.
  destruct o as [| | | | | |s|s| | | | |]; try done; cbn [exec];
    change (cpl (set_pc a c)) with (cpl c); change (greg RAX (set_pc a c)) with (greg RAX c);
    change (ram (set_pc a c)) with (ram c).
  - by destruct (data_ok _ _ _).
  - by destruct (cpl c =? 0).
  - by destruct (cpl c =? 0).
Qed.

Lemma exec_long o c c' : exec o c = Some c' → long c' = long c.
Proof.
  destruct o as [| | | | | |s|s| | | | |]; cbn [exec]; repeat case_match; by intros [= <-].
Qed.

Lemma exec_all_app os1 os2 c :
  exec_all (os1 ++ os2) c = match exec_all os1 c with Some c => exec_all os2 c | None => None end.
Proof. revert c. induction os1 as [|o os1 IH]; intros c; [done|]. cbn. by destruct (exec o c). Qed.

Lemma exec_all_long os c c' : exec_all os c = Some c' → long c' = long c.
Proof.
  revert c. induction os as [|o os IH]; intros c; cbn; [congruence|].
  destruct (exec o c) as [c1|] eqn:E; [|done]. intros ->%IH. by eapply exec_long.
Qed.

Lemma exec_all_set_pc os c a : exec_all os (set_pc a c) = set_pc a <$> exec_all os c.
Proof.
  revert c. induction os as [|o os IH]; intros c; [done|]. cbn. rewrite exec_set_pc.
  destruct (exec o c) as [c1|]; [|done]. apply IH.
Qed.

Lemma loaded_app a p q b : loaded a (p ++ q) b ↔ ∃ m, loaded a p m ∧ loaded m q b.
Proof.
  revert a. induction p as [|i p IH]; intros a; cbn.
  - split; [by exists a|]. by intros (m & -> & ?).
  - split.
    + intros (n & Hn & (m & H1 & H2)%IH). exists m. split; [by exists n|done].
    + intros (m & (n & Hn & H1) & H2). exists n. split; [done|]. apply IH. by exists m.
Qed.

(** One instruction. *)
Lemma step_insn c i next :
  long c = true → fetch (pc c) = Some (i, next) →
  step c =
    let c' := set_pc next c in
    match i with
    | Op o => exec o c'
    | Ret => Some (set_pc (top c') (drop_word c'))
    | CallR r => Some (set_pc (greg r c') (push next c'))
    | CallA a => Some (set_pc a (push next c'))
    | JmpA a => Some (set_pc a c')
    | Iretq => iretq c'
    | IntN n => int_n n c c'
    | Syscall => if Z.testbit (efer c) 0 then None else interrupt 6 None c
    | OpHlt => None
    end.
Proof. intros Hl Hf. unfold step. by rewrite Hl, Hf. Qed.

Lemma steps_trans c1 c2 c3 : steps c1 c2 → steps c2 c3 → steps c1 c3.
Proof. unfold steps. intros. by transitivity c2. Qed.

(** A block of straight-line code runs to its end. *)
Lemma steps_ops os c c' b :
  long c = true → loaded (pc c) (Op <$> os) b → exec_all os c = Some c' → steps c (set_pc b c').
Proof.
  revert c c'. induction os as [|o os IH]; intros c c' Hl Hp He; cbn in *.
  - injection He as <-. subst b. assert (set_pc (pc c) c = c) as -> by (by destruct c). apply rtc_refl.
  - destruct Hp as (next & Hf & Hp). destruct (exec o c) as [c1|] eqn:E; [|done].
    eapply rtc_l.
    + rewrite (step_insn _ _ _ Hl Hf). cbn. by rewrite exec_set_pc, E.
    + assert (set_pc b c' = set_pc b (set_pc next c')) as -> by done.
      apply IH; [cbn; by rewrite (exec_long _ _ _ E)|exact Hp|]. rewrite exec_all_set_pc, He. reflexivity.
Qed.

(** A block of straight-line code closed by a transfer of control [i]. *)
Lemma steps_block os i c c' c'' b :
  long c = true → loaded (pc c) ((Op <$> os) ++ [i]) b → exec_all os c = Some c' →
  (∀ a, fetch a = Some (i, b) → step (set_pc a c') = Some c'') → steps c c''.
Proof.
  intros Hl Hp He Hi. apply loaded_app in Hp as (m & Hp & n & Hf & Hn). cbn in Hn. subst n.
  eapply rtc_r; [by eapply steps_ops|]. by apply Hi.
Qed.
End running.

(** ** Words in memory *)

(** [ws] from [a] on, eight bytes each; the last one is stored first. *)
Fixpoint st_words (m : mem) (a : Z) (ws : list Z) : mem :=
  match ws with
  | [] => m
  | w :: ws => st64 (st_words m (a + 8) ws) a w
  end.
Fixpoint ld_words (m : mem) (a : Z) (n : nat) : list Z :=
  match n with
  | O => []
  | S n => ld64 m a :: ld_words m (a + 8) n
  end.

Lemma length_ld_words m a n : length (ld_words m a n) = n.
Proof. revert a. induction n; intros; cbn; [done|]. by f_equal. Qed.

Lemma ld8_st_words_out m a ws b :
  b < a ∨ a + 8 * Z.of_nat (length ws) ≤ b → ld8 (st_words m a ws) b = ld8 m b.
Proof.
  revert a. induction ws as [|w ws IH]; intros a Hb; cbn [st_words length] in *; [done|].
  rewrite ld8_st64_out by lia. apply IH. lia.
Qed.

Lemma ld64_st_words_out m a ws b :
  b + 8 ≤ a ∨ a + 8 * Z.of_nat (length ws) ≤ b → ld64 (st_words m a ws) b = ld64 m b.
Proof. intros Hb. apply ld_le_ext. intros x Hx. apply ld8_st_words_out. lia. Qed.

Lemma ld_words_ext m1 m2 a n :
  (∀ b, a ≤ b < a + 8 * Z.of_nat n → ld8 m1 b = ld8 m2 b) → ld_words m1 a n = ld_words m2 a n.
Proof.
  revert a. induction n as [|n IH]; intros a Hb; cbn; [done|]. f_equal.
  - apply ld_le_ext. intros b Hb'. apply Hb. lia.
  - apply IH. intros b Hb'. apply Hb. lia.
Qed.

Lemma ld_st_words m a ws : Forall is_u64 ws → ld_words (st_words m a ws) a (length ws) = ws.
Proof.
  revert a. induction ws as [|w ws IH]; intros a Hws; cbn [st_words ld_words length]; [done|].
  apply Forall_cons in Hws as [Hw Hws]. rewrite ld64_st64 by done. f_equal.
  etransitivity; [|exact (IH (a + 8) Hws)]. apply ld_words_ext. intros b Hb. apply ld8_st64_out. lia.
Qed.

(** ** Pushing and popping lists *)

Section stack.
Context `{Link, Image}.
Implicit Types c : cpu.

(** The stack pointer and memory after pushing [vs], first to last. *)
Definition pushed (vs : list Z) (c : cpu) : cpu :=
  let sp := greg RSP c - 8 * Z.of_nat (length vs) in
  (set_reg RSP sp c) <| ram := st_words (ram c) sp (rev vs) |>.

Lemma greg_set_reg r r' v c : greg r' (set_reg r v c) = if decide (r = r') then v else greg r' c.
Proof. apply getr_setr. Qed.

Lemma cpu_ext c c' :
  gpr c = gpr c' → pc c = pc c' → fl c = fl c' → sel_cs c = sel_cs c' → sel_ss c = sel_ss c' →
  data_segs c = data_segs c' → long c = long c' → page_root c = page_root c' → efer c = efer c' →
  ram c = ram c' → c = c'.
Proof. destruct c, c'. cbn. by intros -> -> -> -> -> -> -> -> -> ->. Qed.

Lemma st_words_app m a ws w : st_words m a (ws ++ [w]) = st_words (st64 m (a + 8 * Z.of_nat (length ws)) w) a ws.
Proof.
  revert a. induction ws as [|x ws IH]; intros a; cbn [st_words app length].
  - by rewrite Z.add_0_r.
  - rewrite IH. do 3 f_equal. lia.
Qed.

Lemma pushed_nil c : pushed [] c = c.
Proof. destruct c as [[] ? ? ? ? ? ? ? ? ?]. unfold pushed, set_reg. cbn. by rewrite Z.sub_0_r. Qed.

Lemma push_pushed v vs c :
  8 * Z.of_nat (S (length vs)) ≤ greg RSP c < 2 ^ 64 → pushed vs (push v c) = pushed (v :: vs) c.
Proof.
  intros Hsp. unfold push, pushed, set_reg, greg in *. destruct c as [g a f cs ss d l p e m].
  cbn [gpr ram setter] in *. rewrite getr_setr_eq, u64_id by (unfold is_u64; lia).
  cbn [length rev]. rewrite st_words_app, length_rev, setr_setr.
  replace (getr RSP g - 8 - 8 * Z.of_nat (length vs)) with (getr RSP g - 8 * Z.of_nat (S (length vs))) by lia.
  replace (getr RSP g - 8 * Z.of_nat (S (length vs)) + 8 * Z.of_nat (length vs)) with (getr RSP g - 8) by lia.
  done.
Qed.

Lemma greg_push_ne r v c : r ≠ RSP → greg r (push v c) = greg r c.
Proof. intros Hr. exact (getr_setr_ne RSP r _ _ (not_eq_sym Hr)). Qed.

Lemma greg_push_rsp v c : 8 ≤ greg RSP c < 2 ^ 64 → greg RSP (push v c) = greg RSP c - 8.
Proof.
  intros Hsp. etransitivity; [exact (getr_setr_eq RSP _ _)|]. apply u64_id. unfold is_u64. lia.
Qed.

(** A push of an immediate value or of a register other than the stack pointer. *)
Definition is_push (o : op) : bool :=
  match o with PushI _ => true | PushR r => negb (bool_decide (r = RSP)) | _ => false end.
Definition push_val c (o : op) : Z :=
  match o with PushI v => v | PushR r => greg r c | _ => 0 end.

Lemma push_val_push v c o : is_push o = true → push_val (push v c) o = push_val c o.
Proof. destruct o; try done. cbn. case_bool_decide; [done|]. intros _. by apply greg_push_ne. Qed.

Lemma exec_pushes os c :
  Forall (λ o, is_push o = true) os → 8 * Z.of_nat (length os) ≤ greg RSP c < 2 ^ 64 →
  exec_all os c = Some (pushed (push_val c <$> os) c).
Proof.
  revert c. induction os as [|o os IH]; intros c Hos Hsp; cbn [fmap list_fmap exec_all].
  - by rewrite pushed_nil.
  - apply Forall_cons in Hos as [Ho Hos]. cbn [length] in Hsp.
    assert (exec o c = Some (push (push_val c o) c)) as -> by (by destruct o).
    rewrite IH by (done || (rewrite greg_push_rsp; lia)).
    rewrite (list_fmap_ext _ (push_val c)).
    + rewrite push_pushed; [done|]. rewrite length_fmap. lia.
    + intros i x Hx. apply push_val_push. rewrite Forall_forall in Hos. eapply Hos, list_elem_of_lookup_2, Hx.
Qed.

(** The registers after popping [rs] off the words [ws]. *)
Fixpoint pop_into (rs : list reg) (ws : list Z) (g : regs) : regs :=
  match rs, ws with
  | r :: rs, w :: ws => pop_into rs ws (setr r w g)
  | _, _ => g
  end.

Lemma pop_into_other rs ws g r : r ∉ rs → getr r (pop_into rs ws g) = getr r g.
Proof.
  revert ws g. induction rs as [|x rs IH]; intros [|w ws] g Hr; cbn; [done..|].
  apply not_elem_of_cons in Hr as [Hx Hr]. rewrite IH by done. by apply getr_setr_ne.
Qed.

Lemma setr_comm r r' v v' g : r ≠ r' → setr r v (setr r' v' g) = setr r' v' (setr r v g).
Proof.
  intros Hr. apply regs_ext. intros x. rewrite !getr_setr. repeat case_decide; congruence.
Qed.

Lemma exec_pop_regs rs c :
  RSP ∉ rs → 0 ≤ greg RSP c → greg RSP c + 8 * Z.of_nat (length rs) < 2 ^ 64 →
  exec_all (PopR <$> rs) c =
    Some (c <| gpr := setr RSP (greg RSP c + 8 * Z.of_nat (length rs))
                        (pop_into rs (ld_words (ram c) (greg RSP c) (length rs)) (gpr c)) |>).
Proof.
  revert c. induction rs as [|r rs IH]; intros c Hn Hlo Hsp; cbn [fmap list_fmap exec_all exec length] in *.
  - destruct c as [[] ? ? ? ? ? ? ? ? ?]. cbn. by rewrite Z.add_0_r.
  - apply not_elem_of_cons in Hn as [Hr Hn].
    set (c1 := set_reg r (top c) (drop_word c)).
    assert (E : greg RSP c1 = greg RSP c + 8).
    { unfold c1, drop_word. rewrite !greg_set_reg, decide_False, decide_True by done.
      apply u64_id. unfold is_u64. lia. }
    rewrite (IH c1) by (done || lia). rewrite E. cbn [ld_words pop_into].
    unfold c1, drop_word, set_reg, top, greg. destruct c as [g a f cs ss d l p e m]. cbn [gpr ram setter].
    do 2 f_equal.
    replace (getr RSP g + 8 + 8 * Z.of_nat (length rs)) with (getr RSP g + 8 * Z.of_nat (S (length rs))) by lia.
    rewrite u64_id by (unfold is_u64, greg in *; cbn in *; lia).
    assert (∀ ws h h', (∀ x, x ≠ RSP → getr x h = getr x h') →
      ∀ v, setr RSP v (pop_into rs ws h) = setr RSP v (pop_into rs ws h')) as Hx.
    { clear. intros ws. revert ws. induction rs as [|y rs IH]; intros [|w ws] h h' Hh v; cbn [pop_into];
        try (apply regs_ext; intros x; rewrite !getr_setr; case_decide; [done|apply Hh; congruence]).
      apply IH. intros x Hx. rewrite !getr_setr. case_decide; [done|]. by apply Hh. }
    apply Hx. intros x Hx'. rewrite !getr_setr. repeat case_decide; congruence.
Qed.
End stack.

(** ** The descriptors that [gdt_init] leaves *)

Section flat.
Context `{Link, Image}.
Implicit Types m : mem.

(** What [Arch.gdt_init_table] states of memory after [gdt_init]. *)
Definition flat_gdt m : Prop := ∀ i base limit access flags,
  gdt_spec !! i = Some (base, limit, access, flags) →
  seg_access m (sym_gdt + 8 * Z.of_nat i) = access ∧ seg_flags m (sym_gdt + 8 * Z.of_nat i) = flags.

Lemma flat_gdt_agree m m' : agree sym_gdt (sym_gdt + 48) m m' → flat_gdt m → flat_gdt m'.
Proof.
  intros Ha Hm i base limit access flags Hi. destruct (Hm i base limit access flags Hi) as [<- <-].
  apply lookup_lt_Some in Hi. change (length gdt_spec) with 6%nat in Hi.
  unfold seg_access, seg_flags. by rewrite !(Ha (_ + _)) by lia.
Qed.

(** A selector of the kernel's table. *)
Lemma flat_sel m sel i base limit access flags :
  flat_gdt m → gdt_spec !! i = Some (base, limit, access, flags) → sel `div` 8 = Z.of_nat i →
  desc_present m sel = Z.testbit access 7 ∧ desc_code m sel = Z.testbit access 3 ∧
  desc_dpl m sel = (access `div` 32) `mod` 4 ∧ desc_long m sel = Z.testbit flags 1.
Proof.
  intros Hm Hi Hs. destruct (Hm i base limit access flags Hi) as [Ha Hf].
  unfold desc_present, desc_code, desc_dpl, desc_long, desc. by rewrite Hs, Ha, Hf.
Qed.

(** The data selectors of the kernel and of user mode, loaded by the kernel. *)
Lemma flat_data_ok m : flat_gdt m → data_ok m 0 0x10 = true ∧ data_ok m 0 0x23 = true.
Proof.
  intros Hm. unfold data_ok.
  destruct (flat_sel m 0x10 2 _ _ _ _ Hm eq_refl eq_refl) as (-> & _ & -> & _).
  by destruct (flat_sel m 0x23 4 _ _ _ _ Hm eq_refl eq_refl) as (-> & _ & -> & _).
Qed.

(** Data segment registers on the way out to user mode. *)
Lemma flat_leave_seg m : flat_gdt m →
  leave_seg m 3 0 = 0 ∧ leave_seg m 3 0x10 = 0 ∧ leave_seg m 3 0x23 = 0x23.
Proof.
  intros Hm. unfold leave_seg.
  destruct (flat_sel m 0x10 2 _ _ _ _ Hm eq_refl eq_refl) as (_ & _ & -> & _).
  by destruct (flat_sel m 0x23 4 _ _ _ _ Hm eq_refl eq_refl) as (_ & _ & -> & _).
Qed.

(** The code selectors: kernel, 32-bit user, 64-bit user. *)
Lemma flat_code m : flat_gdt m →
  (desc_present m 0x08 = true ∧ desc_code m 0x08 = true ∧ desc_dpl m 0x08 = 0 ∧ desc_long m 0x08 = true) ∧
  (desc_present m 0x1B = true ∧ desc_code m 0x1B = true ∧ desc_dpl m 0x1B = 3 ∧ desc_long m 0x1B = false) ∧
  (desc_present m 0x2B = true ∧ desc_code m 0x2B = true ∧ desc_dpl m 0x2B = 3 ∧ desc_long m 0x2B = true).
Proof.
  intros Hm.
  destruct (flat_sel m 0x08 1 _ _ _ _ Hm eq_refl eq_refl) as (-> & -> & -> & ->).
  destruct (flat_sel m 0x1B 3 _ _ _ _ Hm eq_refl eq_refl) as (-> & -> & -> & ->).
  by destruct (flat_sel m 0x2B 5 _ _ _ _ Hm eq_refl eq_refl) as (-> & -> & -> & ->).
Qed.

(** ** [iretq] *)

(** The state [iretq] goes to when it pops [ip], [cs], [f], [sp] and [ss]. *)
Definition returned (ip cs f sp ss : Z) (c : cpu) : cpu :=
  let out x := if cpl c <? cs `mod` 4 then leave_seg (ram c) (cs `mod` 4) x else x in
  let d := data_segs c in
  (set_reg RSP sp c) <| pc := ip |> <| sel_cs := cs |> <| fl := f |> <| sel_ss := ss |>
    <| long := desc_long (ram c) cs |>
    <| data_segs := Segs (out (sel_ds d)) (out (sel_es d)) (out (sel_fs d)) (out (sel_gs d)) |>.

Lemma iretq_returns c ip cs f sp ss :
  ld_words (ram c) (greg RSP c) 5 = [ip; cs; f; sp; ss] → 0 ≤ greg RSP c → greg RSP c + 40 ≤ 2 ^ 64 →
  Z.testbit (fl c) 14 = false → desc_present (ram c) cs = true → desc_code (ram c) cs = true →
  desc_dpl (ram c) cs = cs `mod` 4 → cpl c ≤ cs `mod` 4 →
  iretq c = Some (returned ip cs f sp ss c).
Proof.
  intros Hw H1 H2 Hnt Hp Hc Hd Hl. unfold iretq. cbv zeta. cbn [ld_words] in Hw.
  remember (greg RSP c) as r eqn:Er. clear Er. remember (ram c) as m eqn:Em.
  injection Hw as E0 E1 E2 E3 E4. rewrite <-!Z.add_assoc in *.
  assert (∀ i, 0 ≤ i < 5 → u64 (r + 8 * i) = r + 8 * i) as Hu.
  { intros i Hi. apply u64_id. unfold is_u64. lia. }
  rewrite !Hu by lia. rewrite Z.mul_0_r, Z.add_0_r.
  change (8 * 1) with 8. change (8 * 2) with 16. change (8 * 3) with 24. change (8 * 4) with 32.
  change (8 + 8) with 16 in *. change (8 + (8 + 8)) with 24 in *. 
  change (16 + 8) with 24 in *. change (24 + 8) with 32 in *. change (8 + 16) with 24 in *. change (8 + 24) with 32 in *.
  rewrite E0, E1, E2, E3, E4, Hnt, Hp, Hc, Hd, Z.eqb_refl, (proj2 (Z.leb_le _ _) Hl), Em. reflexivity.
Qed.
End flat.

(** ** Concrete images, for the examples *)

#[export] Instance op_eq_dec : EqDecision op.
Proof. solve_decision. Defined.
#[export] Instance insn_eq_dec : EqDecision insn.
Proof. solve_decision. Defined.

(** Four bytes for every instruction. *)
Fixpoint assemble (a : Z) (p : list insn) : list (Z * (insn * Z)) :=
  match p with
  | [] => []
  | i :: p => (a, (i, a + 4)) :: assemble (a + 4) p
  end.

Definition image_of (blocks : list (Z * list insn)) : Image := {|
  fetch a := (list_to_map (blocks ≫= (λ b, assemble b.1 b.2)) : gmap Z (insn * Z)) !! a;
  sym_switch_context := 0x103000; sym_isr_common := 0x103100; sym_interrupt_dispatch := 0x104000;
  sym_proc_exit := 0x104100; sym_current_proc := 0x104200; sym_enter_user_mode := 0x103400;
|}.

Fixpoint load_end `{Image} (a : Z) (p : list insn) : option Z :=
  match p with
  | [] => Some a
  | i :: p => match fetch a with
              | Some (j, next) => if decide (i = j) then load_end next p else None
              | None => None
              end
  end.

Lemma load_end_loaded `{Image} a p b : load_end a p = Some b → loaded a p b.
Proof.
  revert a. induction p as [|i p IH]; intros a; cbn; [congruence|].
  destruct (fetch a) as [[j next]|]; [|done]. case_decide; [|done]. subst. intros Hp. exists next. auto.
Qed.

(** A range of registers checked by evaluation. *)
Definition regs_okb (g : regs) : bool := forallb (λ r, (0 <=? getr r g) && (getr r g <? 2 ^ 64)) all_regs.
Lemma regs_okb_ok g : regs_okb g = true → regs_ok g.
Proof.
  intros Hg r. unfold regs_okb in Hg. rewrite forallb_forall in Hg.
  assert (In r all_regs) as Hr by (destruct r; cbn; tauto). apply Hg in Hr.
  apply andb_prop in Hr as [H1 H2]. split; [by apply Z.leb_le|by apply Z.ltb_lt].
Qed.

(** Numbered registers in kernel mode, at [a], with memory [m]. *)
Definition demo_regs (rdi rsi rsp : Z) : regs := Regs 1 2 3 4 rsi rdi 7 rsp 9 10 11 12 13 14 15 16.
Definition demo_cpu (a rdi rsi rsp : Z) (m : mem) : cpu :=
  Cpu (demo_regs rdi rsi rsp) a 0x202 0x08 0x10 (Segs 0x10 0x10 0x10 0x10) true 0x1000 0 m.
