(* ===== verification/Context.v ===== *)
(** * Context: the assembly between processes
    (kernel/arch/x86_64/context.asm, kernel/proc/proc_entry.asm,
    proc_entry_user.asm, kernel/usr/user_enter.asm)

    [switch_context] as instructions, against what the scheduler takes it to do:
    a call that returns, with the caller's registers and stack, when somebody
    switches back; and the first instructions of a process, from the context
    that [proc_create] makes to its entry point or to user mode. *)

From S2P Require Import Prelude Effects Memory Types Arch Heap Kernel Cpu.

(** [switch_context(old, new)]: [rdi] = old, [rsi] = new. *)
Definition save_context : list op :=
  [Store RDI 0 R15; Store RDI 8 R14; Store RDI 16 R13; Store RDI 24 R12; Store RDI 32 RBX;
   Store RDI 40 RBP; Load RAX RSP 0; Store RDI 48 RAX; Store RDI 56 RSP].
Definition load_context : list op :=
  [Load R15 RSI 0; Load R14 RSI 8; Load R13 RSI 16; Load R12 RSI 24; Load RBX RSI 32;
   Load RBP RSI 40; Load RSP RSI 56; Load RAX RSI 48; Store RSP 0 RAX].
Definition switch_context_asm : list insn := (Op <$> save_context ++ load_context) ++ [Ret].

(** The first instructions of a kernel process, and what its entry function
    returns to. *)
Definition proc_entrypoint_ops : list op := [MovRR RDI R12; OpSti].
Definition proc_entrypoint_asm : list insn := (Op <$> proc_entrypoint_ops) ++ [CallR R12].
Definition proc_return_asm `{Image} : list insn := [Op (MovRI RDI 0); CallA sym_proc_exit].

(** Offsets into [process_t]. *)
Definition USER_RIP_OFFSET : Z := 0x1c8.
Definition USER_SP_OFFSET : Z := 0x1d8.
Definition CR3_OFFSET : Z := 0x1b8.

Definition proc_entry_user_ops `{Image} : list op :=
  [LoadAbs RBX sym_current_proc; Load RDI RBX USER_RIP_OFFSET; Load RSI RBX USER_SP_OFFSET;
   Load RDX RBX CR3_OFFSET].
Definition proc_entry_user_asm `{Image} : list insn := (Op <$> proc_entry_user_ops) ++ [JmpA sym_enter_user_mode].

(** kernel/usr/user_enter.asm, and the inline assembly of the function of the
    same name in kernel/main.c, which is the one that is linked: there the
    stack pointer and the entry point are in registers [sp] and [ip] of the
    compiler's choice. *)
Definition user_enter_ops : list op :=
  [MovCr3 RDX; PushI 0x23; PushR RSI; PushI 0x202; PushI 0x1B; PushR RDI].
Definition user_enter_asm : list insn := (Op <$> user_enter_ops) ++ [Iretq].
Definition enter_user_mode_ops (sp ip : reg) : list op :=
  [MovAx 0x23; MovSeg DS; MovSeg ES; MovSeg FS; MovSeg GS;
   PushI 0x23; PushR sp; PushI 0x202; PushI 0x1B; PushR ip].
Definition enter_user_mode_asm (sp ip : reg) : list insn := (Op <$> enter_user_mode_ops sp ip) ++ [Iretq].

(** ** Switching *)

(** A [cpu_context_t] at address [p]. *)
Definition ctx_at (m : mem) (p : Z) : cpu_context :=
  CpuContext (ld64 m p) (ld64 m (p + 8)) (ld64 m (p + 16)) (ld64 m (p + 24)) (ld64 m (p + 32))
    (ld64 m (p + 40)) (ld64 m (p + 48)) (ld64 m (p + 56)).
Definition sizeof_cpu_context : Z := 64.

(** What a call of [switch_context] has to bring back: the registers a callee
    preserves, the return address and the stack pointer. *)
Definition caller_context (c : cpu) : cpu_context :=
  CpuContext (greg R15 c) (greg R14 c) (greg R13 c) (greg R12 c) (greg RBX c) (greg RBP c) (top c) (greg RSP c).

(** Memory with the context [k] stored at [p], low word first. *)
Definition st_ctx (m : mem) (p : Z) (k : cpu_context) : mem :=
  st64 (st64 (st64 (st64 (st64 (st64 (st64 (st64 m p (c_r15 k)) (p + 8) (c_r14 k)) (p + 16) (c_r13 k))
    (p + 24) (c_r12 k)) (p + 32) (c_rbx k)) (p + 40) (c_rbp k)) (p + 48) (c_rip k)) (p + 56) (c_rsp k).

Definition ctx_ok (k : cpu_context) : Prop :=
  is_u64 (c_r15 k) ∧ is_u64 (c_r14 k) ∧ is_u64 (c_r13 k) ∧ is_u64 (c_r12 k) ∧ is_u64 (c_rbx k) ∧
  is_u64 (c_rbp k) ∧ is_u64 (c_rip k) ∧ is_u64 (c_rsp k).

Lemma ctx_at_st_ctx m p k : ctx_ok k → ctx_at (st_ctx m p k) p = k.
Proof.
  intros (? & ? & ? & ? & ? & ? & ? & ?). unfold ctx_at, st_ctx. destruct k. cbn in *.
  f_equal; repeat (rewrite ld64_st64_ne by lia); by apply ld64_st64.
Qed.

Lemma ld8_st_ctx_out m p k a : a < p ∨ p + sizeof_cpu_context ≤ a → ld8 (st_ctx m p k) a = ld8 m a.
Proof. unfold sizeof_cpu_context. intros Ha. unfold st_ctx. by rewrite !ld8_st64_out by lia. Qed.

Lemma mem_wf_st_ctx m p k : mem_wf m → mem_wf (st_ctx m p k).
Proof. intros Hm. unfold st_ctx. auto 10 with mem. Qed.

Lemma ctx_at_ok m p : mem_wf m → ctx_ok (ctx_at m p).
Proof. intros Hm. unfold ctx_ok, ctx_at. cbn. split_and!; by apply ld64_range. Qed.

Lemma ctx_at_ext m1 m2 p :
  agree p (p + sizeof_cpu_context) m1 m2 → ctx_at m1 p = ctx_at m2 p.
Proof.
  unfold sizeof_cpu_context. intros Ha. unfold ctx_at.
  by rewrite !(agree_ld64 _ _ _ _ _ Ha) by lia.
Qed.

#[local] Opaque ld64 st64.

Section switch.
Context `{Link, Image}.
Implicit Types c : cpu.

(** A process about to switch from the context at [o] to the one at [n]. *)
Record switching (c : cpu) (o n : Z) : Prop := {
  sg_pc : pc c = sym_switch_context;
  sg_long : long c = true;
  sg_rdi : greg RDI c = o;
  sg_rsi : greg RSI c = n;
  sg_regs : regs_ok (gpr c);
  sg_mem : mem_wf (ram c);
  sg_range : 0 ≤ o ∧ o + sizeof_cpu_context ≤ 2 ^ 64 ∧ 0 ≤ n ∧ n + sizeof_cpu_context ≤ 2 ^ 64;
  (** the stack is not in the old context *)
  sg_stack : greg RSP c + 8 ≤ o ∨ o + sizeof_cpu_context ≤ greg RSP c;
}.

(** The registers and memory [switch_context] leaves. *)
Definition load_regs (k : cpu_context) (g : regs) : regs :=
  setr RSP (u64 (c_rsp k + 8)) (setr RAX (c_rip k) (setr RBP (c_rbp k) (setr RBX (c_rbx k)
    (setr R12 (c_r12 k) (setr R13 (c_r13 k) (setr R14 (c_r14 k) (setr R15 (c_r15 k) g))))))).
Definition switched (c : cpu) (k : cpu_context) : cpu :=
  c <| gpr := load_regs k (gpr c) |>
    <| ram := st64 (st_ctx (ram c) (greg RDI c) (caller_context c)) (c_rsp k) (c_rip k) |>
    <| pc := c_rip k |>.

Lemma save_context_exec c o n :
  switching c o n →
  exec_all save_context c =
    Some ((set_reg RAX (top c) c) <| ram := st_ctx (ram c) o (caller_context c) |>).
Proof.
  intros Hs. pose proof (sg_rdi _ _ _ Hs) as Ho. destruct (sg_range _ _ _ Hs) as (? & ? & ? & ?).
  pose proof (sg_stack _ _ _ Hs) as Hst. pose proof (sg_regs _ _ _ Hs RSP) as Hsp.
  unfold sizeof_cpu_context in *. unfold greg, is_u64 in *.
  destruct c as [[] a f cs ss d l p e m]. cbn in *. subst o. unfold top, caller_context, greg. cbn.
  rewrite !Z.add_0_r, !u64_id by (unfold is_u64; lia). by rewrite !ld64_st64_ne by lia.
Qed.

Lemma load_regs_rax k v g : load_regs k (setr RAX v g) = load_regs k g.
Proof. by destruct g. Qed.

Lemma load_context_exec c n :
  mem_wf (ram c) → greg RSI c = n → 0 ≤ n → n + sizeof_cpu_context ≤ 2 ^ 64 →
  let k := ctx_at (ram c) n in
  exec_all load_context c =
    Some (c <| gpr := setr RSP (c_rsp k) (load_regs k (gpr c)) |>
            <| ram := st64 (ram c) (c_rsp k) (c_rip k) |>).
Proof.
  intros Hm Hn H1 H2 k. pose proof (ctx_at_ok _ n Hm) as (_ & _ & _ & _ & _ & _ & _ & Hrsp).
  change (c_rsp (ctx_at (ram c) n)) with (ld64 (ram c) (n + 56)) in Hrsp.
  unfold k, ctx_at, load_regs, sizeof_cpu_context, greg in *.
  destruct c as [[] a f cs ss d l p e m]. cbn in *. subst n.
  rewrite Z.add_0_r. rewrite !(u64_id (_ + 8)), !(u64_id (_ + 16)), !(u64_id (_ + 24)), !(u64_id (_ + 32)),
    !(u64_id (_ + 40)), !(u64_id (_ + 48)), !(u64_id (_ + 56)), (u64_id g_rsi) by (unfold is_u64; lia).
  by rewrite Z.add_0_r, (u64_id (ld64 _ _)).
Qed.

Hypothesis switch_loaded : ∃ b, loaded sym_switch_context switch_context_asm b.

(** [switch_context], executed. *)
Lemma switch_run c o n :
  switching c o n → let k := ctx_at (st_ctx (ram c) o (caller_context c)) n in steps c (switched c k).
Proof.
  intros Hs k. destruct switch_loaded as [b Hp]. rewrite <-(sg_pc _ _ _ Hs) in Hp.
  pose proof (save_context_exec c o n Hs) as He. 
  set (c1 := (set_reg RAX (top c) c) <| ram := st_ctx (ram c) o (caller_context c) |>) in He.
  assert (Hm : mem_wf (ram c1)) by (apply mem_wf_st_ctx, Hs).
  destruct (ctx_at_ok _ n Hm) as (_ & _ & _ & _ & _ & _ & Hrip & Hrsp). change (ctx_at (ram c1) n) with k in Hrip, Hrsp.
  pose proof (sg_rsi _ _ _ Hs) as Hn. change (greg RSI c) with (greg RSI c1) in Hn.
  assert (Hk : k = ctx_at (ram c1) n) by reflexivity.
  pose proof (load_context_exec c1 n Hm Hn) as He2. cbv zeta in He2. rewrite <-Hk in He2.
  change (gpr c1) with (setr RAX (top c) (gpr c)) in He2. rewrite load_regs_rax in He2.
  set (c2 := c1 <| gpr := _ |> <| ram := _ |>) in He2.
  refine (steps_block (save_context ++ load_context) Ret c c2 _ b (sg_long _ _ _ Hs) Hp _ _).
  { rewrite exec_all_app, He. apply He2; apply (sg_range _ _ _ Hs). }
  intros a Hf. rewrite (step_insn (set_pc a c2) Ret b (sg_long _ _ _ Hs) Hf). cbv zeta. f_equal.
  unfold top, drop_word, switched, set_reg, set_pc, greg. cbn [gpr ram setter pc].
  assert (greg RSP c2 = c_rsp k) as Hg by apply getr_setr_eq. unfold greg in Hg. rewrite Hg.
  assert (ram c2 = st64 (ram c1) (c_rsp k) (c_rip k)) as -> by done. rewrite ld64_st64 by done.
  pose proof (sg_rdi _ _ _ Hs) as Ho. unfold greg in Ho. rewrite Ho. 
  apply cpu_ext; cbn [gpr pc fl sel_cs sel_ss data_segs long page_root efer ram]; [|reflexivity..].
  assert (gpr c2 = setr RSP (c_rsp k) (load_regs k (gpr c))) as -> by done.
  unfold load_regs. by rewrite !setr_setr.
Qed.
End switch.

(** ** What a switch does *)

Definition callee_saved : list reg := [RBX; RBP; R12; R13; R14; R15].

Section properties.
Context `{Link, Image}.
Implicit Types c : cpu.

(** The context that [c] switches to. *)
Definition next_context c (o n : Z) : cpu_context := ctx_at (st_ctx (ram c) o (caller_context c)) n.

Lemma switching_next_ok c o n : switching c o n → ctx_ok (next_context c o n).
Proof. intros Hs. apply ctx_at_ok, mem_wf_st_ctx, Hs. Qed.

Lemma caller_context_ok c o n : switching c o n → ctx_ok (caller_context c).
Proof.
  intros Hs. pose proof (sg_regs _ _ _ Hs) as Hg.
  split_and!; [exact (Hg R15)|exact (Hg R14)|exact (Hg R13)|exact (Hg R12)|exact (Hg RBX)|exact (Hg RBP)| |exact (Hg RSP)].
  apply ld64_range, Hs.
Qed.

(** The registers after a switch: those of the new context, and the others as
    they were. *)
Lemma switched_regs c k :
  greg R15 (switched c k) = c_r15 k ∧ greg R14 (switched c k) = c_r14 k ∧ greg R13 (switched c k) = c_r13 k ∧
  greg R12 (switched c k) = c_r12 k ∧ greg RBX (switched c k) = c_rbx k ∧ greg RBP (switched c k) = c_rbp k ∧
  greg RSP (switched c k) = u64 (c_rsp k + 8) ∧
  ∀ r, r ∉ RAX :: RSP :: callee_saved → greg r (switched c k) = greg r c.
Proof.
  split_and!; try reflexivity. intros r Hr. unfold greg, switched. cbn [gpr setter]. unfold load_regs.
  rewrite !getr_setr_ne; [done|..]; intros <-; apply Hr; set_solver.
Qed.

(** The memory after a switch. *)
Lemma switched_mem c o n k a :
  switching c o n → (a < o ∨ o + sizeof_cpu_context ≤ a) → (a < c_rsp k ∨ c_rsp k + 8 ≤ a) →
  ld8 (ram (switched c k)) a = ld8 (ram c) a.
Proof.
  intros Hs Ha Hk. unfold switched. cbn [ram setter]. rewrite (sg_rdi _ _ _ Hs), ld8_st64_out by done.
  by apply ld8_st_ctx_out.
Qed.

(** The context that was saved, unless the new stack lies on top of it. *)
Lemma switched_saved c o n k :
  switching c o n → (c_rsp k + 8 ≤ o ∨ o + sizeof_cpu_context ≤ c_rsp k) →
  ctx_at (ram (switched c k)) o = caller_context c.
Proof.
  intros Hs Hk. unfold switched. cbn [ram setter]. rewrite (sg_rdi _ _ _ Hs).
  rewrite (ctx_at_ext _ (st_ctx (ram c) o (caller_context c))).
  - apply ctx_at_st_ctx. by eapply caller_context_ok.
  - intros a Ha. apply ld8_st64_out. unfold sizeof_cpu_context in *. lia.
Qed.

Hypothesis switch_loaded : ∃ b, loaded sym_switch_context switch_context_asm b.

(** C5: switching away and back. A call of [switch_context] at [c] saves into
    the context at [o] and goes on at the new context. Whenever somebody later
    switches to [o], its contents untouched, the call returns: to its return
    address, with the stack pointer a [ret] leaves and all registers that C code
    expects a call to preserve, and memory as the other side left it, but for
    the context it saved itself and the word of the return address. *)
Theorem switch_context_roundtrip c o n c2 o2 :
  switching c o n → let k := next_context c o n in
  (c_rsp k + 8 ≤ o ∨ o + sizeof_cpu_context ≤ c_rsp k) → greg RSP c + 8 < 2 ^ 64 →
  switching c2 o2 o → (o2 + sizeof_cpu_context ≤ o ∨ o + sizeof_cpu_context ≤ o2) →
  ctx_at (ram c2) o = ctx_at (ram (switched c k)) o →
  steps c (switched c k) ∧ pc (switched c k) = c_rip k ∧
  ∃ c3, steps c2 c3 ∧ pc c3 = top c ∧ greg RSP c3 = greg RSP c + 8 ∧
    (∀ r, r ∈ callee_saved → greg r c3 = greg r c) ∧
    ∀ a, a < o2 ∨ o2 + sizeof_cpu_context ≤ a → a < greg RSP c ∨ greg RSP c + 8 ≤ a →
      ld8 (ram c3) a = ld8 (ram c2) a.
Proof.
  intros Hs k Hk Hsp Hs2 Ho Hctx. split; [by apply switch_run|]. split; [done|].
  rewrite (switched_saved c o n k Hs Hk) in Hctx.
  assert (next_context c2 o2 o = caller_context c) as Hn.
  { rewrite <-Hctx. apply ctx_at_ext. intros a Ha. apply ld8_st_ctx_out. lia. }
  exists (switched c2 (caller_context c)). split; [rewrite <-Hn; by apply switch_run|].
  split; [done|]. destruct (switched_regs c2 (caller_context c)) as (H15 & H14 & H13 & H12 & Hbx & Hbp & Hrsp & _).
  split_and!.
  - rewrite Hrsp. apply u64_id. pose proof (sg_regs _ _ _ Hs RSP). unfold is_u64, greg in *. cbn in *. lia.
  - intros r Hr. unfold callee_saved in Hr.
    repeat (apply elem_of_cons in Hr as [->|Hr]; [done|]). by apply elem_of_nil in Hr.
  - intros a Ha1 Ha2. by apply (switched_mem c2 o2 o).
Qed.

(** Switching to oneself, which [schedule] does when no other process is
    READY, is a call that returns at once: it keeps every register but [rax] and
    all memory but the context it saves. *)
Theorem switch_context_self c o :
  switching c o o → greg RSP c + 8 < 2 ^ 64 →
  ∃ c', steps c c' ∧ pc c' = top c ∧ greg RSP c' = greg RSP c + 8 ∧
    (∀ r, r ≠ RAX → r ≠ RSP → greg r c' = greg r c) ∧
    ∀ a, a < o ∨ o + sizeof_cpu_context ≤ a → ld8 (ram c') a = ld8 (ram c) a.
Proof.
  intros Hs Hsp.
  assert (next_context c o o = caller_context c) as Hk by (apply ctx_at_st_ctx; by eapply caller_context_ok).
  exists (switched c (caller_context c)). split; [rewrite <-Hk; by apply switch_run|]. split; [done|].
  destruct (switched_regs c (caller_context c)) as (H15 & H14 & H13 & H12 & Hbx & Hbp & Hrsp & Hother).
  split_and!.
  - rewrite Hrsp. apply u64_id. pose proof (sg_regs _ _ _ Hs RSP). unfold is_u64, greg in *. cbn in *. lia.
  - intros r H1 H2. destruct (decide (r ∈ callee_saved)) as [Hr|Hr].
    + unfold callee_saved in Hr.
      repeat (apply elem_of_cons in Hr as [->|Hr]; [done|]). by apply elem_of_nil in Hr.
    + apply Hother. by rewrite !not_elem_of_cons.
  - intros a Ha. unfold switched. cbn [ram setter caller_context c_rsp c_rip].
    rewrite (sg_rdi _ _ _ Hs). pose proof (sg_stack _ _ _ Hs) as Hst. unfold sizeof_cpu_context in *.
    destruct (decide (a < greg RSP c ∨ greg RSP c + 8 ≤ a)) as [Hout|Hin].
    { rewrite ld8_st64_out by done. apply ld8_st_ctx_out. unfold sizeof_cpu_context. lia. }
    set (m := st_ctx (ram c) o (caller_context c)).
    assert (top c = ld64 m (greg RSP c)) as ->.
    { apply (agree_ld64 (greg RSP c) (greg RSP c + 8)); [|lia..]. intros b Hb. symmetry.
      apply ld8_st_ctx_out. unfold sizeof_cpu_context. lia. }
    rewrite ld8_st64_ld64 by apply mem_wf_st_ctx, Hs.
    apply ld8_st_ctx_out. unfold sizeof_cpu_context. lia.
Qed.
End properties.

(** ** The first run of a process *)

Section first_run.
Context `{Link, Image}.
Implicit Types c : cpu.

Hypothesis switch_loaded : ∃ b, loaded sym_switch_context switch_context_asm b.

(** The context [proc_create] leaves for a process that starts at [entry] on a
    stack that ends at [ktop]. *)
Definition first_context (entry ktop : Z) : cpu_context := CpuContext 0 0 0 entry 0 0 proc_entrypoint ktop.

Lemma entrypoint_run c b :
  long c = true → cpl c = 0 → loaded (pc c) proc_entrypoint_asm b →
  steps c (set_pc (greg R12 c) (push b ((set_reg RDI (greg R12 c) c) <| fl := Z.lor (fl c) RFLAGS_IF |>))).
Proof.
  intros Hl Hcpl Hp.
  set (c1 := (set_reg RDI (greg R12 c) c) <| fl := Z.lor (fl c) RFLAGS_IF |>).
  refine (steps_block proc_entrypoint_ops (CallR R12) c c1 _ b Hl Hp _ _).
  { cbn [proc_entrypoint_ops exec_all exec]. change (cpl (set_reg RDI (greg R12 c) c)) with (cpl c). by rewrite Hcpl. }
  intros a Hf. rewrite (step_insn (set_pc a c1) (CallR R12) b Hl Hf). reflexivity.
Qed.

Lemma return_run c b :
  long c = true → loaded (pc c) proc_return_asm b →
  ∃ c', steps c c' ∧ pc c' = sym_proc_exit ∧ greg RDI c' = 0.
Proof.
  intros Hl Hp. set (c1 := set_reg RDI 0 c). exists (set_pc sym_proc_exit (push b c1)). split_and!.
  - refine (steps_block [MovRI RDI 0] (CallA sym_proc_exit) c c1 _ b Hl Hp eq_refl _).
    intros a Hf. rewrite (step_insn (set_pc a c1) (CallA sym_proc_exit) b Hl Hf). reflexivity.
  - done.
  - etransitivity; [exact (greg_push_ne RDI b c1 ltac:(done))|]. apply getr_setr_eq.
Qed.

Lemma first_run c o n entry ktop b :
  switching c o n → next_context c o n = first_context entry ktop → cpl c = 0 →
  ktop + 8 < 2 ^ 64 → is_u64 b → loaded proc_entrypoint proc_entrypoint_asm b →
  ∃ c', steps c c' ∧ pc c' = entry ∧ greg RDI c' = entry ∧ greg RSP c' = ktop ∧ top c' = b ∧
    Z.testbit (fl c') 9 = true ∧
    ∀ a, a < o ∨ o + sizeof_cpu_context ≤ a → a < ktop ∨ ktop + 8 ≤ a → ld8 (ram c') a = ld8 (ram c) a.
Proof.
  intros Hs Hk Hcpl Htop Hb Hp.
  pose proof (switching_next_ok c o n Hs) as (_ & _ & _ & _ & _ & _ & _ & Hkt). rewrite Hk in Hkt. cbn in Hkt.
  pose proof (switch_run switch_loaded c o n Hs) as Hsteps. cbv zeta in Hsteps. fold (next_context c o n) in Hsteps.
  rewrite Hk in Hsteps. set (k := first_context entry ktop) in *. set (c1 := switched c k) in *.
  assert (Hrsp : greg RSP c1 = ktop + 8).
  { destruct (switched_regs c k) as (_ & _ & _ & _ & _ & _ & E & _). etransitivity; [exact E|].
    apply u64_id. unfold is_u64 in *. cbn. lia. }
  pose proof (entrypoint_run c1 b (sg_long _ _ _ Hs) Hcpl Hp) as Hrun.
  set (c2 := (set_reg RDI (greg R12 c1) c1) <| fl := Z.lor (fl c1) RFLAGS_IF |>) in *.
  assert (Hrsp2 : greg RSP c2 = ktop + 8) by exact Hrsp.
  assert (Hpush : greg RSP (push b c2) = ktop).
  { rewrite greg_push_rsp; rewrite Hrsp2; unfold is_u64 in *; lia. }
  eexists. split; [eapply steps_trans; [exact Hsteps|exact Hrun]|].
  change (greg R12 c1) with entry. split_and!.
  - done.
  - etransitivity; [exact (greg_push_ne RDI b c2 ltac:(done))|]. reflexivity.
  - exact Hpush.
  - unfold top. change (greg RSP (set_pc entry (push b c2))) with (greg RSP (push b c2)). rewrite Hpush.
    change (ram (set_pc entry (push b c2))) with (st64 (ram c2) (u64 (greg RSP c2 - 8)) b).
    rewrite Hrsp2, u64_id by (unfold is_u64 in *; lia). rewrite Z.add_simpl_r. by apply ld64_st64.
  - change (fl (set_pc entry (push b c2))) with (Z.lor (fl c1) RFLAGS_IF).
    rewrite Z.lor_spec. apply orb_true_r.
  - intros a Ha1 Ha2. change (ram (set_pc entry (push b c2))) with (st64 (ram c1) (u64 (greg RSP c2 - 8)) b).
    rewrite Hrsp2, u64_id by (unfold is_u64 in *; lia). rewrite Z.add_simpl_r, ld8_st64_out by lia.
    by apply (switched_mem c o n).
Qed.

(** C23: the first time somebody switches to a process that [proc_create] made,
    it calls its entry function with interrupts on, the whole stack free and the
    entry point as first argument; when that function returns, the process calls
    [proc_exit] with 0. Nothing but the saved context of the other process and
    one word of memory changes; that word is the one after the end of the stack. *)
Theorem proc_first_run c o n entry ktop b b' :
  switching c o n → next_context c o n = first_context entry ktop → cpl c = 0 →
  ktop + 8 < 2 ^ 64 → is_u64 b → loaded proc_entrypoint proc_entrypoint_asm b → loaded b proc_return_asm b' →
  (∃ c', steps c c' ∧ pc c' = entry ∧ greg RDI c' = entry ∧ greg RSP c' = ktop ∧ top c' = b ∧
     Z.testbit (fl c') 9 = true ∧
     ∀ a, a < o ∨ o + sizeof_cpu_context ≤ a → a < ktop ∨ ktop + 8 ≤ a → ld8 (ram c') a = ld8 (ram c) a) ∧
  (∀ c2, pc c2 = b → long c2 = true → ∃ c3, steps c2 c3 ∧ pc c3 = sym_proc_exit ∧ greg RDI c3 = 0).
Proof.
  intros Hs Hk Hcpl Htop Hb Hp Hret. split; [by eapply first_run|].
  intros c2 Hpc Hl. apply (return_run c2 b' Hl). by rewrite Hpc.
Qed.

(** The stack is a block of the heap, and the word after it is the [size] field
    of the next block's header: the first run of a process overwrites it with a
    return address. *)
Theorem first_run_hits_heap c o n entry ktop b s l i blk nxt :
  switching c o n → next_context c o n = first_context entry ktop → cpl c = 0 → ktop + 8 < 2 ^ 64 →
  is_u64 b → loaded proc_entrypoint proc_entrypoint_asm b →
  heap_rel s l → l !! i = Some nxt → l !! S i = Some blk → ktop = payload blk + b_size blk →
  agree KHEAP_START (heap_ptr s) (ram c) (h_mem s) →
  blk_size s (b_addr nxt) = b_size nxt ∧ ld64 (ram c) (b_addr nxt) = b_size nxt ∧
  ∃ c', steps c c' ∧ pc c' = entry ∧ ld64 (ram c') (b_addr nxt) = b.
Proof.
  intros Hs Hk Hcpl Hlt Hb Hp Hr Hn Hblk Hktop Hag.
  assert (b_addr nxt = ktop ∧ blk_size s (b_addr nxt) = b_size nxt ∧
          KHEAP_START ≤ b_addr nxt ∧ b_addr nxt + 24 ≤ heap_ptr s) as (Ha & Hsz & Hlo & Hhi).
  { destruct Hr as [_ Hc Ht _]. unfold payload in Hktop. unfold sizeof_heap_block in *.
    revert Hc Ht. generalize (heap_head s), (heap_ptr s). revert i Hn Hblk. clear -Hktop.
    induction l as [|x l IH]; intros i Hn Hblk a hi Hc Ht; [done|].
    destruct Hc as (-> & Hx & _ & Hc), Ht as (Hhi & Hx0 & _ & Ht). destruct i as [|i]; cbn in Hn, Hblk.
    - injection Hn as ->. destruct l as [|y l]; [done|]. injection Hblk as ->. 
      pose proof (tiled_lo _ _ Ht) as Hlo. destruct Ht as (Hy & _). unfold sizeof_heap_block in *.
      cbn [length] in Hlo. unfold blk_size. split_and!; [lia|exact Hx|lia|lia].
    - destruct (IH i Hn Hblk _ _ Hc Ht) as (E & Hsz & Hlo & Hle). unfold sizeof_heap_block in *.
      split_and!; [done|done|done|lia]. }
  split; [done|]. split.
  { rewrite (agree_ld64 _ _ _ _ _ Hag) by lia. exact Hsz. }
  destruct (first_run c o n entry ktop b Hs Hk Hcpl Hlt Hb Hp) as (c' & Hsteps & Hpc & _ & Hsp & Htop & _).
  exists c'. split; [done|]. split; [done|]. by rewrite Ha, <-Hsp.
Qed.
End first_run.

(** ** The way to user mode *)

Section user_entry.
Context `{Link, Image}.
Implicit Types c : cpu.

(** The first instructions of a user process call [enter_user_mode] with
    three fields of the current process: the start address, the field at offset
    0x1d8 ([user_sp]) as stack pointer and the address of the page tables. *)
Theorem proc_entry_user_run c b p :
  pc c = proc_entry_user → long c = true → loaded proc_entry_user proc_entry_user_asm b →
  p = ld64 (ram c) sym_current_proc → 0 ≤ p → p + USER_SP_OFFSET + 8 ≤ 2 ^ 64 →
  ∃ c', steps c c' ∧ pc c' = sym_enter_user_mode ∧
    greg RDI c' = ld64 (ram c) (p + USER_RIP_OFFSET) ∧ greg RSI c' = ld64 (ram c) (p + USER_SP_OFFSET) ∧
    greg RDX c' = ld64 (ram c) (p + CR3_OFFSET) ∧ greg RSP c' = greg RSP c ∧ ram c' = ram c.
Proof.
  intros Hpc Hl Hp Ep H1 H2. rewrite <-Hpc in Hp.
  set (c1 := set_reg RDX (ld64 (ram c) (p + CR3_OFFSET)) (set_reg RSI (ld64 (ram c) (p + USER_SP_OFFSET))
    (set_reg RDI (ld64 (ram c) (p + USER_RIP_OFFSET)) (set_reg RBX p c)))).
  exists (set_pc sym_enter_user_mode c1). split.
  - refine (steps_block proc_entry_user_ops (JmpA sym_enter_user_mode) c c1 _ b Hl Hp _ _).
    + unfold c1, proc_entry_user_ops, set_reg, greg, USER_RIP_OFFSET, USER_SP_OFFSET, CR3_OFFSET in *.
      destruct c as [[] ? ? ? ? ? ? ? ? ?]. cbn in *. rewrite <-Ep. by rewrite !u64_id by (unfold is_u64; lia).
    + intros a Hf. by rewrite (step_insn (set_pc a c1) (JmpA sym_enter_user_mode) b Hl Hf).
  - split_and!; [done|..]; by destruct c as [[] ? ? ? ? ? ? ? ? ?].
Qed.

Definition user_frame_ops (sp ip : reg) : list op := [PushI 0x23; PushR sp; PushI 0x202; PushI 0x1B; PushR ip].

(** The selectors the kernel has in its data segment registers, and what user
    mode finds there. *)
Definition kernel_sel (x : Z) : Prop := x = 0 ∨ x = 0x10 ∨ x = 0x23.
Definition segs_ok (d : segs) : Prop :=
  kernel_sel (sel_ds d) ∧ kernel_sel (sel_es d) ∧ kernel_sel (sel_fs d) ∧ kernel_sel (sel_gs d).
Definition user_segs (d : segs) : segs :=
  let out x := if decide (x = 0x23) then 0x23 else 0 in
  Segs (out (sel_ds d)) (out (sel_es d)) (out (sel_fs d)) (out (sel_gs d)).

(** The code selectors a frame can have. *)
Definition code_sel (x : Z) : Prop := x = 0x08 ∨ x = 0x1B ∨ x = 0x2B.

Lemma flat_code_sel m x : flat_gdt m → code_sel x →
  desc_present m x = true ∧ desc_code m x = true ∧ desc_dpl m x = x `mod` 4 ∧ desc_long m x = negb (x =? 0x1B).
Proof. intros Hm. destruct (flat_code m Hm) as (H1 & H2 & H3). by intros [-> | [-> | ->]]. Qed.

(** The data segments after a return from kernel mode. *)
Lemma returned_segs ip x f sp ss c :
  cpl c = 0 → flat_gdt (ram c) → code_sel x → segs_ok (data_segs c) →
  data_segs (returned ip x f sp ss c) = if x =? 0x08 then data_segs c else user_segs (data_segs c).
Proof.
  intros Hcpl Hg Hx (? & ? & ? & ?). unfold returned. cbn [data_segs setter]. rewrite Hcpl.
  destruct (flat_leave_seg _ Hg) as (L0 & L10 & L23).
  assert (∀ y, kernel_sel y → leave_seg (ram c) 3 y = if decide (y = 0x23) then 0x23 else 0) as Hls.
  { intros y [-> | [-> | ->]]; [by rewrite L0|by rewrite L10|by rewrite L23]. }
  destruct Hx as [-> | [-> | ->]].
  - by destruct (data_segs c).
  - change (0x1B `mod` 4) with 3. cbn [Z.ltb Z.compare]. by rewrite !Hls.
  - change (0x2B `mod` 4) with 3. cbn [Z.ltb Z.compare]. by rewrite !Hls.
Qed.

(** The frame that [iretq] goes to user mode with. *)
Lemma user_frame_run pre sp ip c c1 b :
  long c = true → loaded (pc c) ((Op <$> pre ++ user_frame_ops sp ip) ++ [Iretq]) b →
  exec_all pre c = Some c1 → sp ≠ RSP → ip ≠ RSP →
  cpl c1 = 0 → flat_gdt (ram c1) → 40 ≤ greg RSP c1 < 2 ^ 64 → regs_ok (gpr c1) →
  (greg RSP c1 ≤ sym_gdt ∨ sym_gdt + 48 ≤ greg RSP c1 - 40) → Z.testbit (fl c1) 14 = false →
  segs_ok (data_segs c1) →
  ∃ c', steps c c' ∧ pc c' = greg ip c1 ∧ greg RSP c' = greg sp c1 ∧ fl c' = 0x202 ∧ sel_cs c' = 0x1B ∧
    sel_ss c' = 0x23 ∧ long c' = false ∧ page_root c' = page_root c1 ∧
    (∀ r, r ≠ RSP → greg r c' = greg r c1) ∧
    data_segs c' = user_segs (data_segs c1) ∧
    ∀ a, a < greg RSP c1 - 40 ∨ greg RSP c1 ≤ a → ld8 (ram c') a = ld8 (ram c1) a.
Proof.
  intros Hl Hp He Hsp Hip Hc Hgdt Hrsp Hok Hdis Hnt Hsel.
  set (vs := [0x23; greg sp c1; 0x202; 0x1B; greg ip c1]).
  assert (exec_all (user_frame_ops sp ip) c1 = Some (pushed vs c1)) as He2.
  { apply exec_pushes; [|cbn [length user_frame_ops]; lia]. repeat (apply Forall_cons; split; [|]); cbn; try done;
      by rewrite bool_decide_false. }
  set (c2 := pushed vs c1) in *.
  assert (E2 : greg RSP c2 = greg RSP c1 - 40) by (apply getr_setr_eq).
  assert (Hmem : ∀ a, a < greg RSP c1 - 40 ∨ greg RSP c1 ≤ a → ld8 (ram c2) a = ld8 (ram c1) a).
  { intros a Ha. apply (ld8_st_words_out (ram c1) _ (rev vs)). cbn [rev vs length app]. lia. }
  assert (Hgdt2 : flat_gdt (ram c2)).
  { apply (flat_gdt_agree (ram c1)); [|done]. intros a Ha. symmetry. apply Hmem. lia. }
  destruct (flat_code _ Hgdt2) as (_ & (Hpr & Hcode & Hdpl & Hlong) & _).
  set (c3 := returned (greg ip c1) 0x1B 0x202 (greg sp c1) 0x23 (set_pc b c2)).
  assert (Hsteps : steps c c3).
  { refine (steps_block (pre ++ user_frame_ops sp ip) Iretq c c2 c3 b Hl Hp _ _).
    { by rewrite exec_all_app, He. }
    intros a Hf. rewrite (step_insn (set_pc a c2) Iretq b); [|change (long c1 = true); by rewrite (exec_all_long _ _ _ He)|exact Hf].
    cbv zeta. rewrite set_pc_set_pc. apply iretq_returns.
    - change (ld_words (ram c2) (greg RSP c2) 5 = rev vs). rewrite E2.
      apply (ld_st_words (ram c1) _ (rev vs)). cbn [rev vs app].
      repeat (apply Forall_cons; split); try done; apply Hok.
    - change (0 ≤ greg RSP c2). lia.
    - change (greg RSP c2 + 40 ≤ 2 ^ 64). lia.
    - exact Hnt.
    - exact Hpr.
    - exact Hcode.
    - exact Hdpl.
    - change (cpl c1 ≤ 3). lia. }
  exists c3. split; [done|]. split_and!; try reflexivity.
  - exact Hlong.
  - intros r Hr. etransitivity; [exact (getr_setr_ne RSP r _ _ (not_eq_sym Hr))|].
    exact (getr_setr_ne RSP r _ _ (not_eq_sym Hr)).
  - by apply (returned_segs _ 0x1B _ _ _ (set_pc b c2)); [| |right; left|].
  - intros a Ha. by apply Hmem.
Qed.
(** [mov ax, v] *)
Lemma mov_ax_u16 x v : 0 ≤ v < 2 ^ 16 → u16 (x - u16 x + v) = v.
Proof.
  intros Hv. unfold u16. replace (x - x `mod` 2 ^ 16 + v) with (v + (x `div` 2 ^ 16) * 2 ^ 16).
  - rewrite Z.mod_add by lia. by apply Z.mod_small.
  - pose proof (Z.div_mod x (2 ^ 16)). lia.
Qed.

Lemma mov_ax_u64 x v : is_u64 x → 0 ≤ v < 2 ^ 16 → is_u64 (x - u16 x + v).
Proof.
  unfold is_u64, u16. intros Hx Hv. pose proof (Z.div_mod x (2 ^ 16)). pose proof (Z.mod_pos_bound x (2 ^ 16)).
  assert (x `div` 2 ^ 16 < 2 ^ 48) by (apply Z.div_lt_upper_bound; lia).
  assert (0 ≤ x `div` 2 ^ 16) by (apply Z.div_pos; lia). lia.
Qed.

Lemma regs_ok_setr r v g : regs_ok g → is_u64 v → regs_ok (setr r v g).
Proof. intros Hg Hv r'. rewrite getr_setr. by case_decide. Qed.

(** The ways a call of [enter_user_mode] can go wrong are left out: the stack
    has room, and is not on top of the descriptor table. *)
Record can_leave (c : cpu) : Prop := {
  cl_long : long c = true;
  cl_cpl : cpl c = 0;
  cl_gdt : flat_gdt (ram c);
  cl_rsp : 40 ≤ greg RSP c < 2 ^ 64;
  cl_regs : regs_ok (gpr c);
  cl_stack : greg RSP c ≤ sym_gdt ∨ sym_gdt + 48 ≤ greg RSP c - 40;
  cl_nt : Z.testbit (fl c) 14 = false;
}.


(** kernel/usr/user_enter.asm, which the Makefile leaves out, does the same with
    its arguments in the registers of a call, loads the page tables too, and
    leaves the data segments to [iretq], which clears the kernel's. *)
Theorem user_enter_run c b :
  can_leave c → loaded (pc c) user_enter_asm b → segs_ok (data_segs c) →
  ∃ c', steps c c' ∧ pc c' = greg RDI c ∧ greg RSP c' = greg RSI c ∧ cpl c' = 3 ∧ fl c' = 0x202 ∧
    sel_cs c' = 0x1B ∧ sel_ss c' = 0x23 ∧ data_segs c' = user_segs (data_segs c) ∧
    page_root c' = greg RDX c ∧ long c' = false ∧ (∀ r, r ≠ RSP → greg r c' = greg r c).
Proof.
  intros Hc Hp Hsel. set (c1 := c <| page_root := greg RDX c |>).
  destruct (user_frame_run [MovCr3 RDX] RSI RDI c c1 b)
    as (c' & Hsteps & Hpc & Hrsp & Hfl & Hcs & Hss & Hlong & Hroot & Hregs & Hsegs & Hmem);
    try (by apply Hc); try done.
  - cbn [exec_all exec]. by rewrite (cl_cpl c Hc).
  - exists c'. split; [done|]. split_and!; try done. unfold cpl. by rewrite Hcs.
Qed.
End user_entry.

(** ** Witnesses *)

Definition context_image : Image :=
  let I := image_of [] in
  image_of [(0x103000, switch_context_asm); (0x102000, proc_entrypoint_asm ++ proc_return_asm);
            (0x102100, proc_entry_user_asm); (0x103400, enter_user_mode_asm RSI RDI); (0x103500, user_enter_asm)].

#[local] Existing Instance demo_link.
#[local] Existing Instance context_image.

Lemma demo_switch_loaded : ∃ b, loaded sym_switch_context switch_context_asm b.
Proof. eexists. apply load_end_loaded. vm_compute. reflexivity. Qed.

(** A call with the return address 0x104444 on the stack; the other context is a
    new process's. *)
Definition demo_ctx : cpu_context := first_context 0x105000 0x9000.
Definition demo_call : cpu :=
  demo_cpu 0x103000 0x5000 0x5100 0x8000 (st_ctx (st64 ∅ 0x8000 0x104444) 0x5100 demo_ctx).

Lemma demo_switching c o n :
  pc c = 0x103000 → long c = true → greg RDI c = o → greg RSI c = n → regs_okb (gpr c) = true → mem_wf (ram c) →
  0 ≤ o ∧ o + sizeof_cpu_context ≤ 2 ^ 64 ∧ 0 ≤ n ∧ n + sizeof_cpu_context ≤ 2 ^ 64 →
  greg RSP c + 8 ≤ o ∨ o + sizeof_cpu_context ≤ greg RSP c → switching c o n.
Proof. intros. split; try done. by apply regs_okb_ok. Qed.

Lemma demo_call_switching : switching demo_call 0x5000 0x5100.
Proof.
  apply demo_switching; try done.
  - apply mem_wf_st_ctx, mem_wf_st64, mem_wf_empty.
  - by right.
Qed.

Lemma demo_next : next_context demo_call 0x5000 0x5100 = demo_ctx.
Proof. by vm_compute. Qed.

Lemma demo_top : top demo_call = 0x104444.
Proof. by vm_compute. Qed.

(** The new process switches back at once. *)
Definition demo_back : cpu :=
  (switched demo_call demo_ctx) <| pc := 0x103000 |> <| gpr := demo_regs 0x5100 0x5000 0x9000 |>.

Lemma demo_back_switching : switching demo_back 0x5100 0x5000.
Proof.
  apply demo_switching; try done.
  - apply mem_wf_st64, mem_wf_st_ctx, (sg_mem _ _ _ demo_call_switching).
  - by right.
Qed.

Lemma switch_context_roundtrip_witness :
  steps demo_call (switched demo_call demo_ctx) ∧
  ∃ c3, steps demo_back c3 ∧ pc c3 = 0x104444 ∧ greg RSP c3 = 0x8008 ∧ greg RBX c3 = 2.
Proof.
  destruct (switch_context_roundtrip demo_switch_loaded demo_call 0x5000 0x5100 demo_back 0x5100
    demo_call_switching) as (H1 & _ & c3 & Hs & Hpc & Hsp & Hr & _).
  - rewrite demo_next. right. by vm_compute.
  - done.
  - exact demo_back_switching.
  - by right.
  - by rewrite demo_next.
  - rewrite demo_next in H1. split; [exact H1|]. exists c3. rewrite demo_top in Hpc.
    split_and!; [exact Hs|exact Hpc|exact Hsp|]. apply (Hr RBX). by left.
Defined.

Definition demo_self : cpu := demo_call <| gpr := demo_regs 0x5000 0x5000 0x8000 |>.

Lemma switch_context_self_witness : ∃ c', steps demo_self c' ∧ pc c' = 0x104444 ∧ greg RSP c' = 0x8008.
Proof.
  destruct (switch_context_self demo_switch_loaded demo_self 0x5000) as (c' & Hs & Hpc & Hsp & _).
  - apply demo_switching; try done; [apply (sg_mem _ _ _ demo_call_switching)|by right].
  - done.
  - exists c'. split; [exact Hs|]. split; [|exact Hsp]. rewrite Hpc. exact demo_top.
Defined.

Lemma demo_entry_loaded : loaded proc_entrypoint proc_entrypoint_asm 0x10200C.
Proof. apply load_end_loaded. vm_compute. reflexivity. Qed.
Lemma demo_return_loaded : loaded 0x10200C proc_return_asm 0x102014.
Proof. apply load_end_loaded. vm_compute. reflexivity. Qed.

Lemma proc_first_run_witness :
  ∃ c', steps demo_call c' ∧ pc c' = 0x105000 ∧ greg RSP c' = 0x9000 ∧ top c' = 0x10200C.
Proof.
  destruct (proc_first_run demo_switch_loaded demo_call 0x5000 0x5100 0x105000 0x9000 0x10200C 0x102014
    demo_call_switching demo_next) as [(c' & Hs & Hpc & _ & Hsp & Htop & _) _];
    [done|done|done|exact demo_entry_loaded|exact demo_return_loaded|].
  exists c'. by split_and!.
Defined.

Definition demo_leave : cpu :=
  demo_cpu 0x103400 0x400000 0x800000 0x8000
    (match result gdt_init ∅ with Some (_, m) => m | None => ∅ end).

Lemma demo_flat : flat_gdt (ram demo_leave).
Proof.
  assert (0 ≤ sym_tss) as Ht by (by vm_compute). intros i base limit access flags Hi.
  apply lookup_lt_Some in Hi as Hlt. change (length gdt_spec) with 6%nat in Hlt.
  do 6 (destruct i as [|i]; [injection Hi as <- <- <- <-; by vm_compute|]). lia.
Qed.

Lemma demo_can_leave a : can_leave (set_pc a demo_leave).
Proof. split; [done|done|exact demo_flat|by vm_compute|by apply regs_okb_ok|left; by vm_compute|done]. Qed.


Lemma user_enter_run_witness :
  ∃ c', steps (set_pc 0x103500 demo_leave) c' ∧ pc c' = 0x400000 ∧ cpl c' = 3 ∧ data_segs c' = Segs 0 0 0 0.
Proof.
  destruct (user_enter_run (set_pc 0x103500 demo_leave) 0x10351C (demo_can_leave 0x103500))
    as (c' & Hs & Hpc & _ & Hcpl & _ & _ & _ & Hd & _).
  - apply load_end_loaded. vm_compute. reflexivity.
  - unfold segs_ok, kernel_sel. cbn. tauto.
  - exists c'. by split_and!.
Defined.

Lemma proc_entry_user_run_witness :
  ∃ c', steps (demo_cpu 0x102100 0 0 0x8000 (st64 ∅ 0x104200 0x150000)) c' ∧ pc c' = 0x103400 ∧ greg RSI c' = 0.
Proof.
  destruct (proc_entry_user_run (demo_cpu 0x102100 0 0 0x8000 (st64 ∅ 0x104200 0x150000)) 0x102114 0x150000)
    as (c' & Hs & Hpc & _ & Hsi & _); [done|done| |by vm_compute|done|by vm_compute|].
  - apply load_end_loaded. vm_compute. reflexivity.
  - exists c'. split_and!; [exact Hs|exact Hpc|]. rewrite Hsi. by vm_compute.
Defined.
