(* ===== verification/Stub.v ===== *)
(** * Stub: interrupts from the instruction they stop to the C dispatcher and
    back (kernel/arch/x86_64/isr_stub.asm)

    The stubs and [isr_common] as instructions.  Entering, they build the
    [interrupt_frame_t] that [interrupt_dispatch] of file Trap reads, on the
    stack that the processor chose; leaving, they restore every register from
    it. *)

From S2P Require Import Prelude Effects Memory Types Arch Vmm Kernel Proc Trap Cpu Context.

(** The exceptions for which the processor pushes an error code itself. *)
Definition has_error_code (v : Z) : bool := bool_decide (v ∈ [8; 10; 11; 12; 13; 14; 17]).
(** The vectors that have a stub. *)
Definition isr_vector (v : Z) : Prop := 0 ≤ v < 48 ∨ v = 0x80.
#[export] Instance isr_vector_dec v : Decision (isr_vector v).
Proof. unfold isr_vector. apply _. Defined.

Definition ISR_NOERR `{Image} (v : Z) : list insn := (Op <$> [PushI 0; PushI v]) ++ [JmpA sym_isr_common].
Definition ISR_ERR `{Image} (v : Z) : list insn := (Op <$> [PushI v]) ++ [JmpA sym_isr_common].
Definition isr `{Image} (v : Z) : list insn := if has_error_code v then ISR_ERR v else ISR_NOERR v.

Definition saved_regs : list reg :=
  [RAX; RBX; RCX; RDX; RSI; RDI; RBP; R8; R9; R10; R11; R12; R13; R14; R15].
Lemma rsp_not_saved : RSP ∉ saved_regs.
Proof. apply (bool_decide_unpack _). by vm_compute. Qed.

Definition isr_enter_ops : list op :=
  (PushR <$> saved_regs) ++ [MovAx 0x10; MovSeg DS; MovSeg ES; MovRR RDI RSP].
Definition isr_leave_ops : list op := (PopR <$> rev saved_regs) ++ [AddRI RSP 16].
(** [isr_common] up to the call of the dispatcher, and what the call returns to. *)
Definition isr_common `{Image} : list insn := (Op <$> isr_enter_ops) ++ [CallA sym_interrupt_dispatch].
Definition isr_common_return : list insn := (Op <$> isr_leave_ops) ++ [Iretq].

(** Without an error code from the processor. *)
Lemma no_error_code v : has_error_code v = false → (is_Some (@None Z) ↔ has_error_code v = true).
Proof. intros ->. split; [by intros []|done]. Qed.

(** ** Frames *)

(** An [interrupt_frame_t] in memory: 22 words in the order of its fields. *)
Definition frame_words (f : interrupt_frame) : list Z :=
  [r15 f; r14 f; r13 f; r12 f; r11 f; r10 f; r9 f; r8 f; rbp f; rdi f; rsi f; rdx f; rcx f; rbx f; rax f;
   int_no f; err_code f; rip f; cs f; rflags f; rsp f; ss f].
Definition sizeof_interrupt_frame : Z := 176.
Definition frame_of_words (ws : list Z) : interrupt_frame :=
  let w := λ i, default 0 (ws !! i) in
  InterruptFrame (w 0%nat) (w 1%nat) (w 2%nat) (w 3%nat) (w 4%nat) (w 5%nat) (w 6%nat) (w 7%nat) (w 8%nat)
    (w 9%nat) (w 10%nat) (w 11%nat) (w 12%nat) (w 13%nat) (w 14%nat) (w 15%nat) (w 16%nat) (w 17%nat)
    (w 18%nat) (w 19%nat) (w 20%nat) (w 21%nat).
Definition ld_frame (m : mem) (a : Z) : interrupt_frame := frame_of_words (ld_words m a 22).

Lemma frame_of_frame_words f : frame_of_words (frame_words f) = f.
Proof. by destruct f. Qed.

Lemma frame_words_ld m a : frame_words (ld_frame m a) = ld_words m a 22.
Proof. done. Qed.

(** What the dispatcher is to see of the state that interrupt [v] stops. *)
Definition interrupted (c : cpu) (v err : Z) : interrupt_frame :=
  InterruptFrame (greg R15 c) (greg R14 c) (greg R13 c) (greg R12 c) (greg R11 c) (greg R10 c) (greg R9 c)
    (greg R8 c) (greg RBP c) (greg RDI c) (greg RSI c) (greg RDX c) (greg RCX c) (greg RBX c) (greg RAX c)
    v err (pc c) (sel_cs c) (fl c) (greg RSP c) (sel_ss c).

(** The registers a frame restores. *)
Definition frame_regs (f : interrupt_frame) : regs :=
  Regs (rax f) (rbx f) (rcx f) (rdx f) (rsi f) (rdi f) (rbp f) (rsp f) (r8 f) (r9 f) (r10 f) (r11 f)
    (r12 f) (r13 f) (r14 f) (r15 f).

Lemma frame_regs_interrupted c v err : frame_regs (interrupted c v err) = gpr c.
Proof. by destruct c as [[] ? ? ? ? ? ? ? ? ?]. Qed.

#[local] Opaque ld64 st64.

Section stub.
Context `{Link, Image}.
Implicit Types c : cpu.

(** The tables of the processor, as [gdt_init] and [idt_init] leave them. *)
Definition kernel_tables (m : mem) : Prop :=
  flat_gdt m ∧ ∀ v, isr_vector v → gate_is m v (isr_stub v) (if decide (v = 0x80) then 3 else 0).

(** The stack an interrupt is taken on, and the address of its frame. *)
Definition entry_stack c : Z := if cpl c =? 0 then greg RSP c else ld64 (ram c) (sym_tss + 4).
Definition frame_addr c : Z := 16 * (entry_stack c `div` 16) - sizeof_interrupt_frame.

(** The processor is in kernel or user mode; the frame and the word of the call
    fit below the stack pointer and off the tables. *)
Record interruptible c : Prop := {
  in_tables : kernel_tables (ram c);
  in_cpl : cpl c = 0 ∨ cpl c = 3;
  in_stack : sizeof_interrupt_frame + 24 ≤ entry_stack c < 2 ^ 64;
  in_clear : frame_addr c + sizeof_interrupt_frame ≤ sym_gdt ∨ sym_gdt + 48 ≤ frame_addr c - 8;
  in_regs : regs_ok (gpr c);
  in_words : is_u64 (pc c) ∧ is_u64 (fl c) ∧ is_u64 (sel_cs c) ∧ is_u64 (sel_ss c);
}.

(** The error code, when there is one. *)
Definition err_words (err : option Z) : list Z := match err with Some e => [e] | None => [] end.

(** What [interrupt] leaves: the words it pushes, on the new stack. *)
Definition entered (v : Z) (err : option Z) c : cpu :=
  (pushed ([sel_ss c; greg RSP c; fl c; sel_cs c; pc c] ++ err_words err)
     (set_reg RSP (16 * (entry_stack c `div` 16)) c))
  <| fl := Z.land (fl c) (Z.lnot (Z.lor RFLAGS_IF (Z.lor RFLAGS_TF (Z.lor RFLAGS_NT RFLAGS_RF)))) |>
  <| sel_cs := 0x08 |>
  <| sel_ss := if cpl c =? 0 then sel_ss c else 0 |>
  <| long := true |>
  <| pc := isr_stub v |>.

Lemma st_words_concat m a ws1 ws2 :
  st_words m a (ws1 ++ ws2) = st_words (st_words m (a + 8 * Z.of_nat (length ws1)) ws2) a ws1.
Proof.
  revert a. induction ws1 as [|w ws1 IH]; intros a; cbn [st_words app length].
  - by rewrite Z.add_0_r.
  - rewrite IH. do 3 f_equal. lia.
Qed.

Lemma pushed_app vs1 vs2 c : pushed vs2 (pushed vs1 c) = pushed (vs1 ++ vs2) c.
Proof.
  unfold pushed. destruct c as [g a f cs ss d l p e m]. unfold set_reg, greg. cbn [gpr ram setter].
  rewrite setr_setr, getr_setr_eq, rev_app_distr, st_words_concat, length_app, !length_rev.
  replace (getr RSP g - 8 * Z.of_nat (length vs1) - 8 * Z.of_nat (length vs2))
    with (getr RSP g - 8 * Z.of_nat (length vs1 + length vs2)) by lia.
  by replace (getr RSP g - 8 * Z.of_nat (length vs1 + length vs2) + 8 * Z.of_nat (length vs2))
    with (getr RSP g - 8 * Z.of_nat (length vs1)) by lia.
Qed.

Lemma foldl_push vs c :
  8 * Z.of_nat (length vs) ≤ greg RSP c < 2 ^ 64 → foldl (λ c v, push v c) c vs = pushed vs c.
Proof.
  revert c. induction vs as [|v vs IH]; intros c Hc; cbn [foldl length] in *; [by rewrite pushed_nil|].
  rewrite IH; [apply push_pushed; lia|]. rewrite greg_push_rsp; lia.
Qed.

(** The processor's part. *)
Lemma interrupt_entered c v err :
  interruptible c → isr_vector v → interrupt v err c = Some (entered v err c).
Proof.
  intros Hi Hv. destruct (in_tables c Hi) as [Hg Hid].
  destruct (Hid v Hv) as (E1 & E2 & E3 & E4 & _ & E6).
  destruct (flat_code _ Hg) as ((P & C & D & L) & _).
  unfold interrupt. cbv zeta. change (sizeof_idt_entry * v) with (16 * v).
  rewrite E3, E4, E6, E2. change GDT_KERNEL_CODE with 0x08. rewrite P, C, D, L, E1.
  change (14 =? 14) with true. change (0 =? 0) with true. cbn [andb].
  assert ((0 <=? cpl c) = true) as -> by (destruct (in_cpl c Hi) as [-> | ->]; done).
  replace (sym_tss + 4 + 8 * 0) with (sym_tss + 4) by lia. change (4 * (8 `div` 4) + 0) with 8.
  assert ((0 <? cpl c) = negb (cpl c =? 0)) as -> by (destruct (in_cpl c Hi) as [-> | ->]; done).
  pose proof (in_stack c Hi) as Hst. unfold sizeof_interrupt_frame, entry_stack in Hst.
  unfold entered, entry_stack.
  set (sp := if cpl c =? 0 then greg RSP c else ld64 (ram c) (sym_tss + 4)) in *.
  assert ((if negb (cpl c =? 0) then ld64 (ram c) (sym_tss + 4) else greg RSP c) = sp) as ->
    by (unfold sp; by destruct (cpl c =? 0)).
  set (c1 := set_reg RSP (16 * (sp `div` 16)) c).
  assert (greg RSP c1 = 16 * (sp `div` 16)) as Hsp by apply getr_setr_eq.
  pose proof (Z.div_mod sp 16). pose proof (Z.mod_pos_bound sp 16).
  rewrite <-foldl_push by (rewrite Hsp; destruct err; cbn [length err_words app]; lia).
  rewrite foldl_app. cbn [foldl].
  do 2 f_equal. destruct (cpl c =? 0), err; reflexivity.
Qed.

(** What is pushed after that: the dummy error code, the vector, the registers. *)
Definition stub_words (v : Z) (err : option Z) : list Z :=
  (match err with Some _ => [] | None => [0] end) ++ [v].

Lemma gpr_pushed vs c : gpr (pushed vs c) = setr RSP (greg RSP c - 8 * Z.of_nat (length vs)) (gpr c).
Proof. done. Qed.
Lemma ram_pushed vs c : ram (pushed vs c) = st_words (ram c) (greg RSP c - 8 * Z.of_nat (length vs)) (rev vs).
Proof. done. Qed.
Lemma greg_pushed vs c : greg RSP (pushed vs c) = greg RSP c - 8 * Z.of_nat (length vs).
Proof. apply getr_setr_eq. Qed.
Lemma greg_pushed_ne vs c r : r ≠ RSP → greg r (pushed vs c) = greg r c.
Proof. intros Hr. exact (getr_setr_ne RSP r _ _ (not_eq_sym Hr)). Qed.

(** The frame is what the pushes leave, read upwards. *)
Lemma pushed_frame c v err :
  rev ([sel_ss c; greg RSP c; fl c; sel_cs c; pc c] ++ err_words err ++ stub_words v err ++
       ((λ r, greg r c) <$> saved_regs)) = frame_words (interrupted c v (default 0 err)).
Proof. by destruct err. Qed.

Hypothesis stubs_loaded : ∀ v, isr_vector v → ∃ b, loaded (isr_stub v) (isr v) b.

(** The stub of vector [v]. *)
Lemma isr_run c v err :
  long c = true → isr_vector v → pc c = isr_stub v → (is_Some err ↔ has_error_code v = true) →
  16 ≤ greg RSP c < 2 ^ 64 →
  steps c (set_pc sym_isr_common (pushed (stub_words v err) c)).
Proof.
  intros Hl Hv Hpc He Hsp. destruct (stubs_loaded v Hv) as [b Hp]. rewrite <-Hpc in Hp. unfold isr in Hp.
  assert (Hrun : ∀ os, loaded (pc c) ((Op <$> os) ++ [JmpA sym_isr_common]) b →
    Forall (λ o, is_push o = true) os → push_val c <$> os = stub_words v err → (length os ≤ 2)%nat →
    steps c (set_pc sym_isr_common (pushed (stub_words v err) c))).
  { intros os Ho Hos Hvs Hlen. rewrite <-Hvs.
    refine (steps_block os (JmpA sym_isr_common) c (pushed (push_val c <$> os) c) _ b Hl Ho _ _).
    - apply exec_pushes; [done|lia].
    - intros a Hf. by rewrite (step_insn (set_pc a (pushed _ c)) (JmpA sym_isr_common) b Hl Hf). }
  destruct err as [e|], (has_error_code v).
  - apply (Hrun [PushI v]); [exact Hp|by repeat constructor|done|cbn; lia].
  - destruct He as [He _]. discriminate He. by exists e.
  - destruct He as [_ He]. by destruct He.
  - apply (Hrun [PushI 0; PushI v]); [exact Hp|by repeat constructor|done|cbn; lia].
Qed.

(** [isr_common] up to the dispatcher. *)
Lemma isr_common_run c b :
  long c = true → cpl c = 0 → pc c = sym_isr_common → flat_gdt (ram c) →
  loaded sym_isr_common isr_common b → 128 ≤ greg RSP c < 2 ^ 64 →
  greg RSP c ≤ sym_gdt ∨ sym_gdt + 48 ≤ greg RSP c - 128 →
  let c1 := pushed ((λ r, greg r c) <$> saved_regs) c in
  ∃ c', steps c c' ∧ pc c' = sym_interrupt_dispatch ∧ greg RDI c' = greg RSP c - 120 ∧
    greg RSP c' = greg RSP c - 128 ∧ fl c' = fl c ∧ sel_cs c' = sel_cs c ∧ sel_ss c' = sel_ss c ∧
    long c' = true ∧ page_root c' = page_root c ∧
    data_segs c' = Segs 0x10 0x10 (sel_fs (data_segs c)) (sel_gs (data_segs c)) ∧
    ram c' = st64 (ram c1) (greg RSP c - 128) b.
Proof.
  intros Hl Hcpl Hpc Hg Hp Hsp Hcl c1. rewrite <-Hpc in Hp.
  assert (exec_all (PushR <$> saved_regs) c = Some c1) as He.
  { etransitivity; [apply exec_pushes|reflexivity]; [|change (length _) with 15%nat; lia].
    apply (bool_decide_unpack _). by vm_compute. }
  set (ax := greg RAX c1 - u16 (greg RAX c1) + 0x10).
  set (c2 := set_reg RDI (greg RSP c1)
    ((set_reg RAX ax c1) <| data_segs := Segs 0x10 0x10 (sel_fs (data_segs c)) (sel_gs (data_segs c)) |>)).
  assert (Hsp1 : greg RSP c1 = greg RSP c - 120) by (exact (greg_pushed _ _)).
  assert (exec_all [MovAx 0x10; MovSeg DS; MovSeg ES; MovRR RDI RSP] c1 = Some c2) as He2.
  { assert (flat_gdt (ram c1)) as Hg1.
    { apply (flat_gdt_agree (ram c)); [|done]. intros a Ha. symmetry. unfold c1. rewrite ram_pushed.
      apply ld8_st_words_out. rewrite length_rev, length_fmap. change (length saved_regs) with 15%nat. lia. }
    destruct (flat_data_ok _ Hg1) as [Hd _].
    assert (u16 ax = 0x10) as Hax by (by apply mov_ax_u16).
    assert (∀ s x, greg RAX x = ax → ram x = ram c1 → cpl x = 0 →
      exec (MovSeg s) x = Some (x <| data_segs := setseg s 0x10 (data_segs x) |>)) as Hs.
    { intros s x Hx Hm H1. cbn [exec]. by rewrite Hx, Hax, Hm, H1, Hd. }
    change (exec_all [MovSeg DS; MovSeg ES; MovRR RDI RSP] (set_reg RAX ax c1) = Some c2).
    assert (Hr : greg RAX (set_reg RAX ax c1) = ax) by apply getr_setr_eq.
    unfold exec_all. rewrite (Hs DS) by done. rewrite (Hs ES) by done. reflexivity. }
  exists (set_pc sym_interrupt_dispatch (push b c2)). split.
  { refine (steps_block isr_enter_ops (CallA sym_interrupt_dispatch) c c2 _ b Hl Hp _ _).
    - unfold isr_enter_ops. rewrite exec_all_app, He. exact He2.
    - intros a Hf. by rewrite (step_insn (set_pc a c2) (CallA sym_interrupt_dispatch) b Hl Hf). }
  assert (Hsp2 : greg RSP c2 = greg RSP c - 120) by exact Hsp1.
  assert (Hpush : greg RSP (push b c2) = greg RSP c - 128) by (rewrite greg_push_rsp, Hsp2; lia).
  split_and!; try reflexivity.
  - exact Hpush.
  - exact Hl.
  - change (st64 (ram c1) (u64 (greg RSP c2 - 8)) b = st64 (ram c1) (greg RSP c - 128) b).
    rewrite Hsp2, u64_id by (unfold is_u64; lia). f_equal. lia.
Qed.

(** ** Into the dispatcher *)

(** The state in which the dispatcher is called for interrupt [v] of [c], with
    the return address [b]. *)
Record at_dispatcher c (v : Z) (err : option Z) (b : Z) (c1 : cpu) : Prop := {
  ad_pc : pc c1 = sym_interrupt_dispatch;
  ad_rdi : greg RDI c1 = frame_addr c;
  ad_frame : ld_frame (ram c1) (frame_addr c) = interrupted c v (default 0 err);
  ad_rsp : greg RSP c1 = frame_addr c - 8;
  ad_align : frame_addr c `mod` 16 = 0;
  ad_top : top c1 = b;
  ad_long : long c1 = true;
  ad_cs : sel_cs c1 = 0x08;
  ad_segs : data_segs c1 = Segs 0x10 0x10 (sel_fs (data_segs c)) (sel_gs (data_segs c));
  ad_flags : fl c1 = Z.land (fl c) (Z.lnot (Z.lor RFLAGS_IF (Z.lor RFLAGS_TF (Z.lor RFLAGS_NT RFLAGS_RF))));
  ad_root : page_root c1 = page_root c;
  ad_mem a : a < frame_addr c - 8 ∨ frame_addr c + sizeof_interrupt_frame ≤ a → ld8 (ram c1) a = ld8 (ram c) a;
}.

Lemma interrupted_u64 c v err :
  interruptible c → isr_vector v → is_u64 err → Forall is_u64 (frame_words (interrupted c v err)).
Proof.
  intros Hi Hv He. destruct (in_words c Hi) as (H1 & H2 & H3 & H4). pose proof (in_regs c Hi) as Hr.
  assert (is_u64 v) by (unfold isr_vector, is_u64 in *; lia).
  unfold frame_words, interrupted. cbn [r15 r14 r13 r12 r11 r10 r9 r8 rbp rdi rsi rdx rcx rbx rax int_no err_code rip cs rflags rsp ss].
  repeat (apply Forall_cons; split; [first [apply Hr|assumption]|]). constructor.
Qed.

Lemma isr_entry c v err b :
  interruptible c → isr_vector v → (is_Some err ↔ has_error_code v = true) → is_u64 (default 0 err) → is_u64 b →
  loaded sym_isr_common isr_common b →
  ∃ c0 c1, interrupt v err c = Some c0 ∧ steps c0 c1 ∧ at_dispatcher c v err b c1.
Proof.
  intros Hi Hv Herr He Hb Hp. exists (entered v err c). rewrite (interrupt_entered c v err Hi Hv).
  set (sp := 16 * (entry_stack c `div` 16)). set (cS := set_reg RSP sp c).
  pose proof (in_stack c Hi) as Hst. pose proof (in_clear c Hi) as Hcl. unfold frame_addr in Hcl. fold sp in Hcl.
  unfold sizeof_interrupt_frame in *.
  pose proof (Z.div_mod (entry_stack c) 16). pose proof (Z.mod_pos_bound (entry_stack c) 16).
  assert (Hsp : 192 ≤ sp < 2 ^ 64) by (unfold sp; lia).
  set (vs0 := [sel_ss c; greg RSP c; fl c; sel_cs c; pc c] ++ err_words err).
  set (c0 := entered v err c).
  assert (Hlen : (length vs0 + length (stub_words v err) = 7)%nat) by (unfold vs0, stub_words; by destruct err).
  assert (Hr0 : greg RSP c0 = sp - 8 * Z.of_nat (length vs0)).
  { change (greg RSP (pushed vs0 cS) = sp - 8 * Z.of_nat (length vs0)). rewrite greg_pushed.
    by f_equal. }
  pose proof (isr_run c0 v err eq_refl Hv eq_refl Herr) as Hs1.
  set (c1 := pushed (stub_words v err) c0) in Hs1. set (c1' := set_pc sym_isr_common c1) in Hs1.
  assert (Hr1 : greg RSP c1' = sp - 56).
  { change (greg RSP (pushed (stub_words v err) c0) = sp - 56). rewrite greg_pushed, Hr0. lia. }
  assert (Hm1 : ∀ a, a < sp - 56 ∨ sp ≤ a → ld8 (ram c1') a = ld8 (ram c) a).
  { intros a Ha. change (ram c1') with (ram (pushed (stub_words v err) (pushed vs0 cS))).
    rewrite pushed_app, ram_pushed. assert (greg RSP cS = sp) as -> by apply getr_setr_eq.
    apply ld8_st_words_out. rewrite length_rev, length_app, Hlen. lia. }
  destruct (isr_common_run c1' b) as (c2 & Hs2 & Hpc & Hrdi & Hrsp & Hfl & Hcs & Hss & Hlong & Hroot & Hsegs & Hram);
    try done; rewrite ?Hr1; try lia.
  { apply (flat_gdt_agree (ram c)); [|apply Hi]. intros a Ha. symmetry. apply Hm1. lia. }
  rewrite Hr1 in Hrdi, Hrsp, Hram.
  assert (Hfr : ram (pushed ((λ r, greg r c1') <$> saved_regs) c1') =
    st_words (ram c) (sp - 176) (frame_words (interrupted c v (default 0 err)))).
  { rewrite (list_fmap_ext _ (λ r, greg r c)).
    2:{ intros i r Hr. assert (r ≠ RSP) as Hne.
        { intros ->. by apply list_elem_of_lookup_2, rsp_not_saved in Hr. }
        change (greg r (pushed (stub_words v err) (pushed vs0 cS)) = greg r c).
        rewrite !greg_pushed_ne by done. by apply getr_setr_ne. }
    change (ram (pushed ((λ r, greg r c) <$> saved_regs) (pushed (stub_words v err) (pushed vs0 cS))) =
      st_words (ram c) (sp - 176) (frame_words (interrupted c v (default 0 err)))).
    rewrite !pushed_app, ram_pushed, <-pushed_frame. unfold vs0. rewrite <-!app_assoc.
    assert (greg RSP cS = sp) as -> by apply getr_setr_eq. f_equal.
    rewrite !length_app. unfold stub_words. destruct err; cbn [length err_words app]; rewrite ?length_fmap;
      change (length saved_regs) with 15%nat; lia. }
  assert (Hlenw : length (frame_words (interrupted c v (default 0 err))) = 22%nat) by done.
  exists c2. split; [done|]. split.
  { eapply steps_trans; [apply Hs1; lia|exact Hs2]. }
  assert (Hfa : frame_addr c = sp - 176) by done.
  split; rewrite ?Hfa; try done.
  - rewrite Hrdi. lia.
  - unfold ld_frame. assert (ld_words (ram c2) (sp - 176) 22 = frame_words (interrupted c v (default 0 err))) as ->.
    2:{ apply frame_of_frame_words. }
    rewrite Hram, Hfr, <-Hlenw.
    etransitivity; [|apply (ld_st_words (ram c) (sp - 176) _ (interrupted_u64 c v _ Hi Hv He))].
    apply ld_words_ext. intros x Hx. apply ld8_st64_out. lia.
  - rewrite Hrsp. lia.
  - replace (sp - 176) with (16 * (entry_stack c `div` 16 - 11)) by (unfold sp; lia).
    by rewrite Z.mul_comm, Z.mod_mul.
  - unfold top. rewrite Hrsp, Hram. by apply ld64_st64.
  - intros a Ha. unfold sizeof_interrupt_frame in Ha. rewrite Hram, ld8_st64_out by lia. rewrite Hfr.
    apply ld8_st_words_out. rewrite Hlenw. lia.
Qed.
End stub.

(** ** And back *)

(** An addition leaves the other flags alone. *)
Lemma testbit_flag i b j : 0 ≤ i → i ≠ j → Z.testbit (flag i b) j = false.
Proof. intros Hi Hj. unfold flag. destruct b; [by apply Z.pow2_bits_false|apply Z.testbit_0_l]. Qed.

Lemma add_flags_nt f x y : Z.testbit (add_flags f x y) 14 = Z.testbit f 14.
Proof.
  unfold add_flags. cbv zeta. rewrite !Z.lor_spec, Z.land_spec, !testbit_flag by lia.
  rewrite Z.lnot_spec by lia. by destruct (Z.testbit f 14).
Qed.

Section back.
Context `{Link, Image}.
Implicit Types c : cpu.

(** Popping the registers of a frame. *)
Lemma pop_frame f g v :
  setr RSP (rsp f) (setr RSP v (pop_into (rev saved_regs) (take 15 (frame_words f)) g)) = frame_regs f.
Proof. destruct f, g. reflexivity. Qed.

Lemma take_ld_words m a n k : (n ≤ k)%nat → take n (ld_words m a k) = ld_words m a n.
Proof.
  revert a k. induction n as [|n IH]; intros a [|k] Hk; cbn [take ld_words]; [done|done|lia|]. by rewrite IH by lia.
Qed.
Lemma drop_ld_words m a n k : (n ≤ k)%nat → drop n (ld_words m a k) = ld_words m (a + 8 * Z.of_nat n) (k - n).
Proof.
  revert a k. induction n as [|n IH]; intros a k Hk; cbn [drop].
  - by rewrite Z.add_0_r, Nat.sub_0_r.
  - destruct k as [|k]; [lia|]. cbn [ld_words drop]. rewrite IH by lia. f_equal; lia.
Qed.

(** The end of [isr_common] restores all that the frame [f] holds. *)
Lemma isr_exit c f b :
  long c = true → cpl c = 0 → loaded (pc c) isr_common_return b →
  0 ≤ greg RSP c → greg RSP c + sizeof_interrupt_frame < 2 ^ 64 → ld_frame (ram c) (greg RSP c) = f →
  Z.testbit (fl c) 14 = false → flat_gdt (ram c) → code_sel (cs f) → segs_ok (data_segs c) →
  ∃ c', steps c c' ∧ gpr c' = frame_regs f ∧ pc c' = rip f ∧ sel_cs c' = cs f ∧ fl c' = rflags f ∧ sel_ss c' = ss f ∧
    long c' = negb (cs f =? 0x1B) ∧ page_root c' = page_root c ∧ ram c' = ram c ∧
    data_segs c' = if cs f =? 0x08 then data_segs c else user_segs (data_segs c).
Proof.
  intros Hl Hcpl Hp Hlo Hhi Hf Hnt Hg Hcs Hsel. unfold sizeof_interrupt_frame in Hhi.
  pose proof (frame_words_ld (ram c) (greg RSP c)) as Hw. rewrite Hf in Hw.
  set (r0 := greg RSP c) in *.
  assert (∃ G, exec_all (PopR <$> rev saved_regs) c = Some (c <| gpr := setr RSP (r0 + 120) G |>) ∧
    ∀ v, setr RSP (rsp f) (setr RSP v G) = frame_regs f) as (G & He & HG).
  { exists (pop_into (rev saved_regs) (take 15 (frame_words f)) (gpr c)). split.
    - rewrite Hw, take_ld_words by lia. apply exec_pop_regs.
      + apply (bool_decide_unpack _). by vm_compute.
      + exact Hlo.
      + change (length (rev saved_regs)) with 15%nat. fold r0. lia.
    - intros v. apply pop_frame. }
  set (c1 := c <| gpr := setr RSP (r0 + 120) G |>) in He.
  assert (Hr1 : greg RSP c1 = r0 + 120) by (apply getr_setr_eq).
  set (c2 := (set_reg RSP (r0 + 136) c1) <| fl := add_flags (fl c1) (r0 + 120) 16 |>).
  assert (exec (AddRI RSP 16) c1 = Some c2) as He2.
  { cbn [exec]. rewrite Hr1. change (u64 16) with 16. rewrite u64_id by (unfold is_u64; lia).
    unfold c2. by replace (r0 + 120 + 16) with (r0 + 136) by lia. }
  assert (Hr2 : greg RSP c2 = r0 + 136) by (apply getr_setr_eq).
  assert (Htail : ld_words (ram c2) (greg RSP c2) 5 = [rip f; cs f; rflags f; rsp f; ss f]).
  { change (ram c2) with (ram c). rewrite Hr2.
    transitivity (drop 17 (frame_words f)); [|done]. rewrite Hw, drop_ld_words by lia. f_equal; lia. }
  destruct (flat_code_sel _ _ Hg Hcs) as (P & C & D & L).
  assert (E : gpr c2 = setr RSP (r0 + 136) (gpr c1) ∧ ram c2 = ram c ∧ data_segs c2 = data_segs c ∧ cpl c2 = 0 ∧
    long c2 = true ∧ page_root c2 = page_root c ∧ Z.testbit (fl c2) 14 = false).
  { split_and!; [done|done|done|exact Hcpl|exact Hl|done|].
    change (Z.testbit (add_flags (fl c) (r0 + 120) 16) 14 = false). by rewrite add_flags_nt. }
  assert (He3 : exec_all isr_leave_ops c = Some c2).
  { unfold isr_leave_ops. rewrite exec_all_app, He. cbn [exec_all]. by rewrite He2. }
  clearbody c2. destruct E as (E1 & E2 & E3 & E4 & E5 & E6 & E7).
  rewrite <-E2 in P, C, D, L.
  assert (Hiret : iretq (set_pc b c2) = Some (returned (rip f) (cs f) (rflags f) (rsp f) (ss f) (set_pc b c2))).
  { apply iretq_returns; try done.
    - change (0 ≤ greg RSP c2). lia.
    - change (greg RSP c2 + 40 ≤ 2 ^ 64). lia.
    - change (cpl c2 ≤ cs f `mod` 4). rewrite E4. by destruct Hcs as [-> | [-> | ->]]. }
  eexists. split.
  { refine (steps_block isr_leave_ops Iretq c c2 _ b Hl Hp He3 _).
    intros a Hfe. rewrite (step_insn (set_pc a c2) Iretq b E5 Hfe). cbv zeta. rewrite set_pc_set_pc. exact Hiret. }
  split_and!; [|done|done|done|done| |exact E6|exact E2|].
  - change (gpr (returned _ _ _ _ _ _)) with (setr RSP (rsp f) (gpr c2)). rewrite E1.
    change (gpr c1) with (setr RSP (r0 + 120) G). by rewrite (setr_setr RSP (r0 + 136)).
  - rewrite <-L. reflexivity.
  - rewrite (returned_segs _ _ _ _ _ (set_pc b c2) E4 (eq_ind_r flat_gdt Hg E2 : flat_gdt (ram (set_pc b c2))) Hcs).
    + change (data_segs (set_pc b c2)) with (data_segs c2). by rewrite E3.
    + change (data_segs (set_pc b c2)) with (data_segs c2). by rewrite E3.
Qed.
End back.

(** ** The whole way *)

(** What [interrupt_dispatch], called in [c1], leaves when it returns in [c2]:
    the calling convention, and the frame [f] where it was. *)
Record dispatcher_returns `{Link} (c1 c2 : cpu) (f : interrupt_frame) : Prop := {
  dr_pc : pc c2 = top c1;
  dr_rsp : greg RSP c2 = greg RSP c1 + 8;
  dr_long : long c2 = true;
  dr_cs : sel_cs c2 = sel_cs c1;
  dr_segs : data_segs c2 = data_segs c1;
  dr_nt : Z.testbit (fl c2) 14 = false;
  dr_frame : ld_frame (ram c2) (greg RDI c1) = f;
  dr_gdt : flat_gdt (ram c2);
}.

(** The dispatcher changes nothing in the frame but [rax], however long the
    process is suspended in between, and for hardware interrupts nothing at all. *)
Lemma always_true {S A} (r : run S A) : always (λ _, True) (λ _ _, True) (λ _ _, True) r.
Proof. induction r as [| | |l i j s k IH]; cbn; auto. Qed.

Lemma dispatch_keeps_frame `{Link} fuel cr2 f s :
  always (λ _, True) (λ _ _, True) (λ f' _, f' = f <| rax := rax f' |> ∧ (int_no f ≠ 0x80 → f' = f))
    (interrupt_dispatch fuel cr2 f s).
Proof.
  assert (Hf : f = f <| rax := rax f |>) by (by destruct f).
  unfold interrupt_dispatch. cbv zeta. destruct (int_no f <? 32).
  { do 3 (apply always_bind; cbn). apply always_bind. destruct (int_no f =? IDT_PAGE_FAULT); exact I. }
  destruct (int_no f =? 0x80) eqn:E; [apply Z.eqb_eq in E|apply Z.eqb_neq in E].
  { apply always_bind. eapply always_mono; [|apply always_true]. intros a s' _.
    split; [by destruct f|by intros]. }
  destruct (_ && _); [|by split].
  apply always_bind. eapply always_mono; [|apply always_true]. intros [] s' _.
  apply always_bind. eapply always_mono; [|apply always_true]. intros [] s'' _. by split.
Qed.

Section roundtrip.
Context `{Link, Image}.
Implicit Types c : cpu.

Hypothesis stubs_loaded : ∀ v, isr_vector v → ∃ b, loaded (isr_stub v) (isr v) b.
(** The return address of the call in [isr_common]. *)
Context (b b2 : Z) (b_u64 : is_u64 b).
Hypothesis common_loaded : loaded sym_isr_common isr_common b.
Hypothesis return_loaded : loaded b isr_common_return b2.

Lemma isr_resume c v err c1 c2 x :
  interruptible c → code_sel (sel_cs c) → segs_ok (data_segs c) → at_dispatcher c v err b c1 →
  dispatcher_returns c1 c2 ((interrupted c v (default 0 err)) <| rax := x |>) →
  ∃ c3, steps c2 c3 ∧ gpr c3 = setr RAX x (gpr c) ∧ pc c3 = pc c ∧ fl c3 = fl c ∧
    sel_cs c3 = sel_cs c ∧ sel_ss c3 = sel_ss c ∧ long c3 = negb (sel_cs c =? 0x1B) ∧
    page_root c3 = page_root c2 ∧ ram c3 = ram c2 ∧
    let d := Segs 0x10 0x10 (sel_fs (data_segs c)) (sel_gs (data_segs c)) in
    data_segs c3 = if sel_cs c =? 0x08 then d else user_segs d.
Proof using b_u64 return_loaded.
  intros Hi Hcs Hsel Had Hdr. pose proof (in_stack c Hi) as Hst.
  pose proof (Z.div_mod (entry_stack c) 16). pose proof (Z.mod_pos_bound (entry_stack c) 16).
  assert (Hfa : 0 ≤ frame_addr c ∧ frame_addr c + sizeof_interrupt_frame < 2 ^ 64)
    by (unfold frame_addr, sizeof_interrupt_frame in *; lia).
  assert (Hrsp : greg RSP c2 = frame_addr c) by (rewrite (dr_rsp _ _ _ Hdr), (ad_rsp _ _ _ _ _ Had); lia).
  pose proof (dr_frame _ _ _ Hdr) as Hf. rewrite (ad_rdi _ _ _ _ _ Had), <-Hrsp in Hf.
  destruct (isr_exit c2 _ b2 (dr_long _ _ _ Hdr)
    ltac:(unfold cpl; by rewrite (dr_cs _ _ _ Hdr), (ad_cs _ _ _ _ _ Had))
    ltac:(by rewrite (dr_pc _ _ _ Hdr), (ad_top _ _ _ _ _ Had))
    ltac:(lia) ltac:(lia) Hf (dr_nt _ _ _ Hdr) (dr_gdt _ _ _ Hdr) Hcs)
    as (c3 & Hs & Hg & Hpc & Hcs3 & Hfl & Hss & Hl & Hroot & Hram & Hd).
  { rewrite (dr_segs _ _ _ Hdr), (ad_segs _ _ _ _ _ Had). unfold segs_ok, kernel_sel in *. cbn. tauto. }
  exists c3. split; [done|]. split_and!; [|done..|].
  - rewrite Hg. by destruct c as [[] ? ? ? ? ? ? ? ? ?].
  - cbv zeta. rewrite Hd, (dr_segs _ _ _ Hdr), (ad_segs _ _ _ _ _ Had). done.
Qed.

(** C6: interrupts and exceptions, end to end. Whatever code interrupt [v] stops,
    the dispatcher is called on a 16-byte aligned stack, in ring 0 with
    interrupts off, with a pointer to a frame that holds all 16 registers, the
    flags, the selectors and the instruction pointer of that code, the vector
    and the error code (0 where the processor has none); memory outside the
    frame and one word below is untouched. When the dispatcher returns, by the
    calling convention, with [rax] of the frame set to [x], the code goes on
    where it was with [rax] = [x] and every other register, the flags and the
    stack as they were. *)
Theorem interrupt_roundtrip c v err :
  interruptible c → isr_vector v → (is_Some err ↔ has_error_code v = true) → is_u64 (default 0 err) →
  code_sel (sel_cs c) → segs_ok (data_segs c) →
  ∃ c0 c1, interrupt v err c = Some c0 ∧ steps c0 c1 ∧ at_dispatcher c v err b c1 ∧
    ∀ c2 x, dispatcher_returns c1 c2 ((interrupted c v (default 0 err)) <| rax := x |>) →
      ∃ c3, steps c2 c3 ∧ gpr c3 = setr RAX x (gpr c) ∧ pc c3 = pc c ∧ fl c3 = fl c ∧
        sel_cs c3 = sel_cs c ∧ sel_ss c3 = sel_ss c ∧ ram c3 = ram c2.
Proof using b_u64 common_loaded return_loaded stubs_loaded.
  intros Hi Hv Herr He Hcs Hsel.
  destruct (isr_entry stubs_loaded c v err b Hi Hv Herr He b_u64 common_loaded) as (c0 & c1 & Hint & Hs & Had).
  exists c0, c1. split_and!; [done..|]. intros c2 x Hdr.
  destruct (isr_resume c v err c1 c2 x Hi Hcs Hsel Had Hdr) as (c3 & Hs3 & Hg & Hpc & Hfl & Hc & Hss & _ & _ & Hram & _).
  by exists c3.
Qed.

(** C19: a user program cannot forge an interrupt. [int n] in ring 3 for any
    vector with a gate other than 0x80 (the timer's 0x20, say) does not reach
    that vector: the processor raises a general protection fault, and the
    dispatcher, called with the state of the program and the error code that
    names the gate, panics; no tick is counted and nothing is scheduled. *)
Theorem user_int_rejected c next n fuel cr2 s :
  interruptible c → cpl c = 3 → isr_vector n → n ≠ 0x80 →
  ∃ c0 c1, int_n n c next = Some c0 ∧ steps c0 c1 ∧ at_dispatcher c 13 (Some (8 * n + 2)) b c1 ∧
    ∃ l, interrupt_dispatch fuel cr2 (ld_frame (ram c1) (greg RDI c1)) s = Panic l "unhandled exception" s.
Proof using b_u64 common_loaded stubs_loaded.
  intros Hi Hc Hv Hn. destruct (proj2 (in_tables c Hi) n Hv) as (_ & _ & _ & _ & Hdpl & _).
  assert (int_n n c next = interrupt 13 (Some (8 * n + 2)) c) as ->.
  { unfold int_n. change (sizeof_idt_entry * n) with (16 * n). rewrite Hdpl, Hc. by rewrite decide_False. }
  destruct (isr_entry stubs_loaded c 13 (Some (8 * n + 2)) b) as (c0 & c1 & Hint & Hs & Had); try done.
  - left. lia.
  - unfold isr_vector, is_u64 in *. cbn. lia.
  - exists c0, c1. split_and!; [done..|]. rewrite (ad_rdi _ _ _ _ _ Had), (ad_frame _ _ _ _ _ Had). by eexists.
Qed.
End roundtrip.

(** ** Witnesses *)

#[local] Existing Instance demo_link.

Definition isr_vectors : list Z := seqZ 0 48 ++ [0x80].
Definition stub_image : Image :=
  let I := image_of [] in
  image_of (((λ v, (isr_stub v, isr v)) <$> isr_vectors) ++
    [(0x103100, isr_common ++ isr_common_return); (0x400000, [IntN 0x80; Syscall])]).
#[local] Existing Instance stub_image.

Lemma elem_of_isr_vectors v : isr_vector v → v ∈ isr_vectors.
Proof.
  intros Hv. unfold isr_vectors. rewrite elem_of_app, elem_of_seqZ, list_elem_of_singleton.
  unfold isr_vector in Hv. lia.
Qed.

Lemma demo_stubs_loaded v : isr_vector v → ∃ b, loaded (isr_stub v) (isr v) b.
Proof.
  intros Hv%elem_of_isr_vectors.
  assert (Forall (λ v, is_Some (load_end (isr_stub v) (isr v))) isr_vectors) as Ha
    by (apply (bool_decide_unpack _); by vm_compute).
  rewrite Forall_forall in Ha. destruct (Ha v Hv) as [b Hb]. exists b. by apply load_end_loaded.
Qed.

Lemma demo_common_loaded : loaded sym_isr_common isr_common 0x103150.
Proof. apply load_end_loaded. vm_compute. reflexivity. Qed.
Lemma demo_common_return_loaded : loaded 0x103150 isr_common_return 0x103194.
Proof. apply load_end_loaded. vm_compute. reflexivity. Qed.

(** Memory after [gdt_init], [idt_init] and [gdt_set_tss_rsp0]. *)
Definition demo_tables : mem :=
  match result (gdt_init ;; idt_init ;; gdt_set_tss_rsp0 0x9008) ∅ with Some (_, m) => m | None => ∅ end.

#[local] Instance gate_is_dec m v h d : Decision (gate_is m v h d).
Proof. unfold gate_is. cbv zeta. apply _. Defined.

Lemma demo_kernel_tables : kernel_tables demo_tables.
Proof.
  assert (Forall (λ v, gate_is demo_tables v (isr_stub v) (if decide (v = 0x80) then 3 else 0)) isr_vectors) as Ha
    by (apply (bool_decide_unpack _); by vm_compute).
  split.
  - intros i base limit access flags Hi.
    apply lookup_lt_Some in Hi as Hlt. change (length gdt_spec) with 6%nat in Hlt.
    do 6 (destruct i as [|i]; [injection Hi as <- <- <- <-; by vm_compute|]). lia.
  - intros v Hv. rewrite Forall_forall in Ha. by apply Ha, elem_of_isr_vectors.
Qed.

(** A 64-bit program in user mode at 0x400000, with memory [m]. *)
Definition user_cpu (m : mem) : cpu :=
  Cpu (demo_regs 1 0x5000 0x7FFFFFFFE000) 0x400000 0x202 0x2B 0x23 (Segs 0 0 0 0) true 0x1000 0 m.

Lemma user_cpu_interruptible m :
  kernel_tables m → ld64 m (sym_tss + 4) = 0x9008 → interruptible (user_cpu m).
Proof.
  intros Hm Hsp. assert (E : entry_stack (user_cpu m) = 0x9008) by exact Hsp. split.
  - exact Hm.
  - by right.
  - rewrite E. done.
  - unfold frame_addr. rewrite E. by left.
  - by apply regs_okb_ok.
  - done.
Qed.

Definition demo_user : cpu := user_cpu demo_tables.

Lemma demo_user_interruptible : interruptible demo_user.
Proof. apply user_cpu_interruptible; [exact demo_kernel_tables|by vm_compute]. Qed.

Lemma demo_user_segs : segs_ok (data_segs demo_user).
Proof. unfold segs_ok, kernel_sel. cbn. tauto. Qed.

Lemma interrupt_roundtrip_witness :
  ∃ c0 c1, interrupt 32 None demo_user = Some c0 ∧ steps c0 c1 ∧ at_dispatcher demo_user 32 None 0x103150 c1.
Proof.
  destruct (interrupt_roundtrip demo_stubs_loaded 0x103150 0x103194 ltac:(done) demo_common_loaded
    demo_common_return_loaded demo_user 32 None demo_user_interruptible) as (c0 & c1 & Hi & Hs & Had & _).
  - left. lia.
  - by apply no_error_code.
  - done.
  - by right; right.
  - exact demo_user_segs.
  - exists c0, c1. exact (conj Hi (conj Hs Had)).
Defined.

Lemma user_int_rejected_witness :
  ∃ c0 c1, int_n 32 demo_user (set_pc 0x400002 demo_user) = Some c0 ∧ steps c0 c1 ∧
    at_dispatcher demo_user 13 (Some 258) 0x103150 c1.
Proof.
  destruct (user_int_rejected demo_stubs_loaded 0x103150 ltac:(done) demo_common_loaded demo_user
    (set_pc 0x400002 demo_user) 32 0 0 demo_kernel demo_user_interruptible) as (c0 & c1 & Hi & Hs & Had & _).
  - done.
  - left. lia.
  - done.
  - exists c0, c1. exact (conj Hi (conj Hs Had)).
Defined.
