(* ===== verification/Console.v ===== *)
(** * Console: serial port, VGA text screen and kprintf
    (kernel/lib/serial.c and kernel/arch/x86_64/vga.c)

    The rest of the kernel prints by emitting events; [render] turns them into
    what these files do.  Port writes are events again.  The serial line is
    paced by its status register: [uart] is the sequence of values the next
    reads of it return, and a loop that polls it to the end runs out of fuel. *)

From S2P Require Import Prelude Effects.

(** ** The screen (vga.c) *)

Definition VGA_COLS : Z := 80.
Definition VGA_ROWS : Z := 25.
Definition VGA_COLOR (fg bg : Z) : Z := u8 (Z.lor (Z.shiftl bg 4) fg).
Definition VGA_ENTRY (c attr : Z) : Z := u16 (Z.lor (Z.shiftl attr 8) (u8 c)).
Definition VGA_BLACK : Z := 0.
Definition VGA_LGRAY : Z := 7.

(** The 16-bit cells at [VGA_ADDR], by index, and the static variables. *)
Record vga := Vga { cells : gmap Z Z; vga_row : Z; vga_col : Z; vga_attr : Z }.
#[export] Instance eta_vga : Eta vga := λ s, Vga (cells s) (vga_row s) (vga_col s) (vga_attr s).
#[export] Instance vga_inhabited : Inhabited vga := populate (Vga ∅ 0 0 0).

(** [VGA_ADDR[i]] *)
Definition cell (s : vga) (i : Z) : Z := default 0 (cells s !! i).
Definition set_cell (i v : Z) (s : vga) : vga := s <| cells := <[i := v]> (cells s) |>.

Definition vga_update_cursor (row col : Z) : M vga unit :=
  let pos := u16 (row * VGA_COLS + col) in
  outb 0x3D4 0x0F ;;
  outb 0x3D5 (u8 (Z.land pos 0xFF)) ;;
  outb 0x3D4 0x0E ;;
  outb 0x3D5 (u8 (Z.land (Z.shiftr pos 8) 0xFF)).

Definition vga_clear : M vga unit :=
  blank ← gets (λ s, VGA_ENTRY 32 (vga_attr s)) ;
  for_each (seqZ 0 (VGA_COLS * VGA_ROWS)) (λ i, modify (set_cell i blank)) ;;
  modify (λ s, s <| vga_row := 0 |> <| vga_col := 0 |>) ;;
  vga_update_cursor 0 0.

Definition vga_init : M vga unit :=
  modify (λ s, s <| vga_attr := VGA_COLOR VGA_LGRAY VGA_BLACK |>) ;;
  vga_clear.

Definition vga_scroll : M vga unit :=
  for_each (seqZ 1 (VGA_ROWS - 1)) (λ r,
    for_each (seqZ 0 VGA_COLS) (λ c,
      modify (λ s, set_cell ((r - 1) * VGA_COLS + c) (cell s (r * VGA_COLS + c)) s))) ;;
  blank ← gets (λ s, VGA_ENTRY 32 (vga_attr s)) ;
  for_each (seqZ 0 VGA_COLS) (λ c, modify (set_cell ((VGA_ROWS - 1) * VGA_COLS + c) blank)) ;;
  modify (λ s, s <| vga_row := VGA_ROWS - 1 |>).

(** A [char] is the byte that represents it. *)
Definition vga_putc (c : Z) : M vga unit :=
  (if c =? 10 then
     modify (λ s, s <| vga_col := 0 |>) ;;
     modify (λ s, s <| vga_row := vga_row s + 1 |>)
   else if c =? 13 then modify (λ s, s <| vga_col := 0 |>)
   else if c =? 9 then modify (λ s, s <| vga_col := Z.land (vga_col s + 8) (Z.lnot 7) |>)
   else if c =? 8 then
     s ← get ;
     if 0 <? vga_col s then modify (λ s, s <| vga_col := vga_col s - 1 |>) else mret tt
   else
     modify (λ s, set_cell (vga_row s * VGA_COLS + vga_col s) (VGA_ENTRY c (vga_attr s)) s) ;;
     modify (λ s, s <| vga_col := vga_col s + 1 |>) ;;
     s ← get ;
     if VGA_COLS <=? vga_col s then
       modify (λ s, s <| vga_col := 0 |>) ;;
       modify (λ s, s <| vga_row := vga_row s + 1 |>)
     else mret tt) ;;
  s ← get ;
  (if VGA_ROWS <=? vga_row s then vga_scroll else mret tt) ;;
  s ← get ;
  vga_update_cursor (vga_row s) (vga_col s).

Definition vga_puts (s : list Z) : M vga unit := for_each s vga_putc.

(** ** The serial port (serial.c) *)

Definition COM1 : Z := 0x3F8.

Record console := ConsoleState { c_vga : vga; uart : list Z }.
#[export] Instance eta_console : Eta console := λ s, ConsoleState (c_vga s) (uart s).

#[export] Program Instance lens_console_vga : Lens console vga := {|
  view := c_vga;
  put v s := s <| c_vga := v |>;
|}.
Solve Obligations with (by intros []).

Definition serial_init : M console unit :=
  outb (COM1 + 1) 0x00 ;;
  outb (COM1 + 3) 0x80 ;;
  outb (COM1 + 0) 0x03 ;;
  outb (COM1 + 1) 0x00 ;;
  outb (COM1 + 3) 0x03 ;;
  outb (COM1 + 2) 0xC7 ;;
  outb (COM1 + 4) 0x0B.

(** [(inb(COM1 + 5) & 0x20) != 0] for the value [b] read. *)
Definition thr_empty (b : Z) : bool := negb (Z.land b 0x20 =? 0).
#[global] Arguments thr_empty : simpl never.

Definition serial_ready : M console bool :=
  s ← get ;
  match uart s with
  | [] => no_fuel
  | b :: l => modify (λ s, s <| uart := l |>) ;; mret (thr_empty b)
  end.

(** [while (!serial_ready());] *)
Fixpoint serial_wait (fuel : nat) : M console unit :=
  match fuel with
  | O => no_fuel
  | S fuel => r ← serial_ready ; if (r : bool) then mret tt else serial_wait fuel
  end.

(** No more polls than values that will be read. *)
Definition poll : M console unit := s ← get ; serial_wait (S (length (uart s))).

Definition serial_putc (c : Z) : M console unit :=
  poll ;;
  outb COM1 (u8 c) ;;
  (if c =? 10 then poll ;; outb COM1 13 else mret tt).

Definition serial_puts (s : list Z) : M console unit := for_each s serial_putc.

(** ** kprintf (serial.c) *)

Definition kputc (c : Z) : M console unit := serial_putc c ;; lift (vga_putc c).

Definition digits : list Z := [48; 49; 50; 51; 52; 53; 54; 55; 56; 57; 97; 98; 99; 100; 101; 102].

(** [while (n) { buf[i++] = digits[n % base]; n /= base; }]: the result is
    [buf[0..i)].  The fuel is the size of [buf]. *)
Fixpoint digit_loop (fuel : nat) (n base : Z) (buf : list Z) : option (list Z) :=
  match fuel with
  | O => if n =? 0 then Some buf else None
  | S fuel =>
      if n =? 0 then Some buf
      else digit_loop fuel (n `div` base) base (buf ++ [digits !!! Z.to_nat (n `mod` base)])
  end.

Definition print_uint (n base width pad : Z) : M console unit :=
  match (if n =? 0 then Some [48] else digit_loop 64 n base []) with
  | None => no_fuel
  | Some buf =>
      for_each (seqZ (Z.of_nat (length buf)) (width - Z.of_nat (length buf))) (λ _, kputc pad) ;;
      for_each (rev buf) kputc
  end.

Definition print_int (n : Z) : M console unit :=
  if n <? 0 then kputc 45 ;; print_uint (u64 (s64 (- n))) 10 0 32
  else print_uint (u64 n) 10 0 32.

Definition kputs (s : option string) : M console unit :=
  for_each (bytes_of (default "(null)" s)) kputc.

(** [va_arg]: the next word, or string.  A call that passes too few arguments
    would read whatever follows them; here it reads 0. *)
Definition arg_word (ap : list karg) : Z := match ap with KInt n :: _ => n | _ => 0 end.
Definition arg_str (ap : list karg) : option string := match ap with KStr s :: _ => s | _ => None end.

(** [while ( *fmt >= '0' && *fmt <= '9') { width = width*10 + ( *fmt - '0'); fmt++; }] *)
Fixpoint scan_width (fmt : list Z) (width : Z) : Z * list Z :=
  match fmt with
  | c :: fmt' => if (48 <=? c) && (c <=? 57) then scan_width fmt' (s32 (width * 10 + (c - 48))) else (width, fmt)
  | [] => (width, [])
  end.

(** [if ( *fmt == 'l') { fmt++; if ( *fmt == 'l') fmt++; }] *)
Definition skip_long (fmt : list Z) : list Z :=
  match fmt with
  | 108 :: 108 :: fmt => fmt
  | 108 :: fmt => fmt
  | fmt => fmt
  end.

(** What follows a [%]: padding character, width, conversion character and the
    rest of the format; [None] when the string ends first, where the C code
    would read past its terminator. *)
Definition scan_spec (fmt : list Z) : option (Z * Z * Z * list Z) :=
  let '(pad, fmt) := match fmt with 48 :: fmt => (48, fmt) | _ => (32, fmt) end in
  let '(width, fmt) := scan_width fmt 0 in
  match skip_long fmt with
  | [] => None
  | c :: fmt => Some (pad, width, c, fmt)
  end.

(** The conversions of the [switch]; the result is the arguments that are left. *)
Definition convert (pad width c : Z) (ap : list karg) : M console (list karg) :=
  if c =? 100 then print_int (s64 (arg_word ap)) ;; mret (tail ap)
  else if c =? 117 then print_uint (u64 (arg_word ap)) 10 width pad ;; mret (tail ap)
  else if c =? 120 then print_uint (u64 (arg_word ap)) 16 width pad ;; mret (tail ap)
  else if c =? 112 then
    kputs (Some "0x") ;; print_uint (u64 (arg_word ap)) 16 16 48 ;; mret (tail ap)
  else if c =? 115 then kputs (arg_str ap) ;; mret (tail ap)
  else if c =? 99 then kputc (u8 (arg_word ap)) ;; mret (tail ap)
  else if c =? 37 then kputc 37 ;; mret ap
  else kputc 37 ;; kputc c ;; mret ap.

Fixpoint kprintf_loop (fuel : nat) (fmt : list Z) (ap : list karg) : M console unit :=
  match fuel with
  | O => no_fuel
  | S fuel =>
      match fmt with
      | [] => mret tt
      | c :: fmt =>
          if negb (c =? 37) then kputc c ;; kprintf_loop fuel fmt ap
          else
            match scan_spec fmt with
            | None => no_fuel
            | Some (pad, width, c, fmt) =>
                ap ← convert pad width c ap ;
                kprintf_loop fuel fmt ap
            end
      end
  end.

(** Every round consumes a character of the format. *)
Definition kprintf (fmt : string) (ap : list karg) : M console unit :=
  kprintf_loop (S (String.length fmt)) (bytes_of fmt) ap.

(** What the events of the rest of the kernel do to the console. *)
Definition render (l : list event) : M console unit :=
  for_each l (λ e,
    match e with
    | EvPrintf fmt ap => kprintf fmt ap
    | EvPutc c => kputc c
    | EvOutb _ _ | EvInstr _ => mret tt
    end).

(** ** Code that returns and sends nothing on the serial line *)

(** The bytes sent on the line, from the events of a run. *)
Definition sent (l : list event) : list Z :=
  omap (λ e, match e with EvOutb p v => if p =? COM1 then Some v else None | _ => None end) l.

Lemma sent_app l1 l2 : sent (l1 ++ l2) = sent l1 ++ sent l2.
Proof. apply omap_app. Qed.

Definition silent {S A} (m : M S A) : Prop :=
  ∀ s, ∃ l a s', m s = Done l a s' ∧ sent l = [].

Section silent.
Context {S : Type}.

Lemma silent_bind {A B} (m : M S A) (f : A → M S B) : silent m → (∀ a, silent (f a)) → silent (m ≫= f).
Proof.
  intros Hm Hf s. destruct (Hm s) as (l & a & s' & E & Hl). destruct (Hf a s') as (l' & b & s2 & E' & Hl').
  exists (l ++ l'), b, s2. unfold mbind, M_bind. rewrite E. cbn [bind_run]. rewrite E'. cbn [prepend].
  by rewrite sent_app, Hl, Hl'.
Qed.
Lemma silent_ret {A} (a : A) : silent (S:=S) (mret a).
Proof. intros s. by eexists _, _, _. Qed.
Lemma silent_get : silent (S:=S) get.
Proof. intros s. by eexists _, _, _. Qed.
Lemma silent_gets {A} (f : S → A) : silent (gets f).
Proof. intros s. by eexists _, _, _. Qed.
Lemma silent_modify (f : S → S) : silent (modify f).
Proof. intros s. by eexists _, _, _. Qed.
Lemma silent_outb p v : p ≠ COM1 → silent (S:=S) (outb p v).
Proof. intros Hp s. eexists _, _, _. split; [done|]. cbn. by destruct (Z.eqb_spec p COM1). Qed.
Lemma silent_for_each {A} (l : list A) (f : A → M S unit) : (∀ x, silent (f x)) → silent (for_each l f).
Proof. intros Hf. induction l as [|x l IH]; [apply silent_ret|]. apply silent_bind; auto. Qed.
End silent.

Create HintDb silent.
#[export] Hint Resolve silent_ret silent_get silent_gets silent_modify silent_for_each : silent.
Ltac solve_silent :=
  repeat match goal with
  | |- ∀ _, _ => intro
  | |- silent (if ?x then _ else _) => destruct x
  | |- silent (for_each _ _) => apply silent_for_each
  | |- silent (outb _ _) => apply silent_outb; done
  | |- silent _ => solve [auto with silent nocore] || apply silent_bind
  end.

Lemma silent_cursor row col : silent (vga_update_cursor row col).
Proof. unfold vga_update_cursor. cbv zeta. solve_silent. Qed.
Lemma silent_scroll : silent vga_scroll.
Proof. unfold vga_scroll. solve_silent. Qed.
#[export] Hint Resolve silent_cursor silent_scroll : silent.
Lemma silent_vga_putc c : silent (vga_putc c).
Proof. unfold vga_putc. solve_silent. Qed.
#[export] Hint Resolve silent_vga_putc : silent.
Lemma silent_vga_puts s : silent (vga_puts s).
Proof. unfold vga_puts. solve_silent. Qed.

(** What a silent computation does to the state. *)
Lemma silent_run {S A} (m : M S A) s :
  silent m → ∃ l a, m s = Done l a (final (m s)) ∧ result m s = Some (a, final (m s)) ∧ sent l = [].
Proof. intros Hm. destruct (Hm s) as (l & a & s' & E & Hl). exists l, a. unfold result. by rewrite E. Qed.

Lemma silent_final_bind {S A B} (m : M S A) (f : A → M S B) s a :
  silent m → result m s = Some (a, final (m s)) → silent (f a) → final ((m ≫= f) s) = final (f a (final (m s))).
Proof.
  intros Hm Hr Hf. destruct (silent_run m s Hm) as (l & a' & E & E2 & _).
  rewrite E2 in Hr. injection Hr as ->. unfold mbind, M_bind. rewrite E. cbn [bind_run final].
  by destruct (f a (final (m s))).
Qed.

Lemma vga_puts_cons c s v : final (vga_puts (c :: s) v) = final (vga_puts s (final (vga_putc c v))).
Proof.
  destruct (silent_run (vga_putc c) v (silent_vga_putc c)) as (l & [] & _ & Hr & _).
  exact (silent_final_bind (vga_putc c) (λ _, vga_puts s) v tt (silent_vga_putc c) Hr (silent_vga_puts s)).
Qed.

Lemma vga_puts_app s1 s2 v : final (vga_puts (s1 ++ s2) v) = final (vga_puts s2 (final (vga_puts s1 v))).
Proof.
  revert v. induction s1 as [|c s1 IH]; intros v; [done|]. cbn [app]. by rewrite !vga_puts_cons, IH.
Qed.

(** ** What is printed

    [prints m out]: with a line that becomes ready often enough, [m] returns,
    having sent the characters [out] and put them on the screen. *)

(** A newline is sent as a newline and a carriage return. *)
Definition serial_bytes (c : Z) : list Z := if c =? 10 then [u8 c; 13] else [u8 c].
Definition line (out : list Z) : list Z := mjoin (serial_bytes <$> out).

(** How often the line will be found ready. *)
Fixpoint ready (l : list Z) : nat :=
  match l with [] => O | b :: l => if thr_empty b then S (ready l) else ready l end.

Definition prints (m : M console unit) (out : list Z) : Prop :=
  ∀ s, (2 * length out ≤ ready (uart s))%nat →
    ∃ l s', m s = Done l tt s' ∧ sent l = line out ∧
      c_vga s' = final (vga_puts out (c_vga s)) ∧
      (ready (uart s) ≤ ready (uart s') + 2 * length out)%nat.

Lemma line_app o1 o2 : line (o1 ++ o2) = line o1 ++ line o2.
Proof. unfold line. by rewrite fmap_app, join_app. Qed.

Lemma prints_nil : prints (mret tt) [].
Proof. intros s _. exists [], s. split_and!; [done..|lia]. Qed.

Lemma prints_app m1 m2 o1 o2 : prints m1 o1 → prints m2 o2 → prints (m1 ;; m2) (o1 ++ o2).
Proof.
  intros H1 H2 s Hr. rewrite length_app in Hr.
  destruct (H1 s) as (l1 & s1 & E1 & Hs1 & Hv1 & Hr1); [lia|].
  destruct (H2 s1) as (l2 & s2 & E2 & Hs2 & Hv2 & Hr2); [lia|].
  exists (l1 ++ l2), s2. split_and!.
  - unfold mbind, M_bind. rewrite E1. cbn [bind_run]. by rewrite E2.
  - by rewrite sent_app, line_app, Hs1, Hs2.
  - by rewrite vga_puts_app, Hv2, Hv1.
  - rewrite length_app. lia.
Qed.

Lemma prints_for_each {A} (xs : list A) (f : A → M console unit) (out : A → list Z) :
  (∀ x, prints (f x) (out x)) → prints (for_each xs f) (mjoin (out <$> xs)).
Proof.
  intros Hf. induction xs as [|x xs IH]; [apply prints_nil|]. cbn. by apply prints_app.
Qed.

Lemma serial_wait_cons fuel v b l :
  serial_wait (S fuel) (ConsoleState v (b :: l)) =
    if thr_empty b then Done [] tt (ConsoleState v l) else serial_wait fuel (ConsoleState v l).
Proof.
  cbn [serial_wait]. unfold mbind, M_bind.
  change (serial_ready (ConsoleState v (b :: l))) with (Done [] (thr_empty b) (ConsoleState v l)).
  cbn [bind_run]. destruct (thr_empty b); [done|]. by destruct (serial_wait fuel (ConsoleState v l)).
Qed.

(** Polling skips the values that are not ready. *)
Lemma serial_wait_run fuel v bs r rest :
  Forall (λ b, thr_empty b = false) bs → thr_empty r = true → (length bs < fuel)%nat →
  serial_wait fuel (ConsoleState v (bs ++ r :: rest)) = Done [] tt (ConsoleState v rest).
Proof.
  revert fuel. induction bs as [|b bs IH]; intros [|fuel] Hbs Hr Hf; [cbn in Hf; lia| |cbn in Hf; lia|].
  - cbn [app]. by rewrite serial_wait_cons, Hr.
  - apply Forall_cons in Hbs as [Hb Hbs]. cbn [app]. rewrite serial_wait_cons, Hb.
    apply IH; [done..|]. cbn in Hf. lia.
Qed.

(** With nothing ready, it goes on until the values end. *)
Lemma serial_wait_stuck fuel v bs :
  Forall (λ b, thr_empty b = false) bs → ∃ bs', serial_wait fuel (ConsoleState v bs) = OutOfFuel [] (ConsoleState v bs').
Proof.
  revert fuel. induction bs as [|b bs IH]; intros [|fuel] Hbs.
  1-3: by eexists. apply Forall_cons in Hbs as [Hb Hbs]. rewrite serial_wait_cons, Hb. by apply IH.
Qed.

(** The first ready value. *)
Lemma ready_split l :
  (1 ≤ ready l)%nat →
  ∃ bs r rest, l = bs ++ r :: rest ∧ Forall (λ b, thr_empty b = false) bs ∧ thr_empty r = true ∧
    ready l = S (ready rest).
Proof.
  induction l as [|b l IH]; cbn [ready]; [lia|]. destruct (thr_empty b) eqn:Hb.
  - intros _. by exists [], b, l.
  - intros Hl. destruct (IH Hl) as (bs & r & rest & -> & Hbs & Hr & Hn). exists (b :: bs), r, rest.
    split_and!; [done|by constructor|done|done].
Qed.

Lemma poll_ready s :
  (1 ≤ ready (uart s))%nat →
  ∃ rest, poll s = Done [] tt (s <| uart := rest |>) ∧ ready (uart s) = S (ready rest).
Proof.
  destruct s as [v l]. intros Hr. destruct (ready_split l Hr) as (bs & r & rest & Hl & Hbs & Hrr & Hn).
  exists rest. split; [|done]. unfold poll, mbind, M_bind, get. cbn [bind_run prepend app uart].
  rewrite Hl at 1. cbn [uart] in Hl. subst l.
  rewrite serial_wait_run; [done|done|done|]. rewrite length_app. cbn. lia.
Qed.

Lemma prints_kputc c : prints (kputc c) [c].
Proof.
  intros s Hr. cbn [length] in Hr. destruct (poll_ready s) as (r1 & E1 & Hn1); [lia|].
  destruct (silent_run (vga_putc c) (c_vga s) (silent_vga_putc c)) as (lv & [] & Ev & _ & Hlv).
  assert (Hv : final (vga_puts [c] (c_vga s)) = final (vga_putc c (c_vga s))) by (by rewrite vga_puts_cons).
  assert (∃ l s1, serial_putc c s = Done l tt s1 ∧ sent l = line [c] ∧ c_vga s1 = c_vga s ∧
            (ready (uart s) ≤ ready (uart s1) + 2)%nat) as (l & s1 & Es & Hl & Hc & Hr1).
  { unfold serial_putc, mbind, M_bind. rewrite E1. cbn [bind_run outb emit prepend app].
    unfold line, serial_bytes. cbn [fmap list_fmap mjoin list_join]. destruct (c =? 10).
    - destruct (poll_ready (s <| uart := r1 |>)) as (r2 & E2 & Hn2); [cbn; lia|]. rewrite E2.
      cbn [bind_run prepend app outb emit]. eexists _, _. split_and!; [reflexivity|done|done|]. cbn in *. lia.
    - eexists _, _. split_and!; [reflexivity|done|done|]. cbn in *. lia. }
  exists (l ++ lv), (s1 <| c_vga := final (vga_putc c (c_vga s)) |>).
  split_and!; [|by rewrite sent_app, Hlv, app_nil_r|by rewrite Hv|done].
  unfold kputc, mbind, M_bind. rewrite Es. cbn [bind_run]. unfold lift. cbn [view lens_console_vga].
  rewrite Hc, Ev. done.
Qed.

Lemma prints_each {A} (xs : list A) (g : A → Z) : prints (for_each xs (λ x, kputc (g x))) (g <$> xs).
Proof.
  pose proof (prints_for_each xs (λ x, kputc (g x)) (λ x, [g x]) (λ x, prints_kputc (g x))) as Hp.
  assert (mjoin ((λ x, [g x]) <$> xs) = g <$> xs) as <-; [|done].
  clear. induction xs as [|x xs IH]; [done|]. cbn. by f_equal.
Qed.

Lemma prints_chars xs : prints (for_each xs kputc) xs.
Proof. pose proof (prints_each xs id) as Hp. by rewrite list_fmap_id in Hp. Qed.

(** ** Numbers *)

Definition digit_value (c : Z) : Z := if c <? 97 then c - 48 else c - 87.
(** Reading a numeral. *)
Definition parse (base : Z) (ds : list Z) : Z := foldl (λ v c, v * base + digit_value c) 0 ds.

Lemma digits_value d : 0 ≤ d < 16 → digit_value (digits !!! Z.to_nat d) = d ∧ (digits !!! Z.to_nat d = 48 ↔ d = 0).
Proof.
  intros Hd.
  assert (Forall (λ d, digit_value (digits !!! Z.to_nat d) = d ∧ (digits !!! Z.to_nat d = 48 ↔ d = 0)) (seqZ 0 16)) as Ha.
  { cbn. repeat constructor; try discriminate; vm_compute; congruence. }
  rewrite Forall_forall in Ha. apply Ha, elem_of_seqZ. lia.
Qed.

Lemma parse_snoc base ds c : parse base (ds ++ [c]) = parse base ds * base + digit_value c.
Proof. unfold parse. by rewrite foldl_app. Qed.

(** The buffer holds the digits of [n], the last one first. *)
Lemma digit_loop_spec fuel n base buf :
  2 ≤ base ≤ 16 → 0 ≤ n < base ^ Z.of_nat fuel →
  ∃ ds, digit_loop fuel n base buf = Some (buf ++ ds) ∧ parse base (rev ds) = n ∧
    (length ds ≤ fuel)%nat ∧ (n = 0 → ds = []) ∧ (0 < n → ∃ d ds', rev ds = d :: ds' ∧ d ≠ 48).
Proof.
  intros Hb. revert n buf. induction fuel as [|fuel IH]; intros n buf Hn.
  { change (base ^ Z.of_nat 0) with 1 in Hn. assert (n = 0) as -> by lia.
    exists []. rewrite app_nil_r. split_and!; [done|done|done|done|lia]. }
  cbn [digit_loop]. destruct (Z.eqb_spec n 0) as [->|Hn0].
  { exists []. rewrite app_nil_r. split_and!; [done|done|cbn; lia|done|lia]. }
  pose proof (Z.div_mod n base). pose proof (Z.mod_pos_bound n base).
  destruct (digits_value (n `mod` base)) as [Hv H48]; [lia|].
  rewrite Nat2Z.inj_succ, Z.pow_succ_r in Hn by lia.
  assert (0 ≤ n `div` base) by (apply Z.div_pos; lia).
  destruct (IH (n `div` base) (buf ++ [digits !!! Z.to_nat (n `mod` base)])) as (ds & -> & Hp & Hl & Hnil & Hz).
  { split; [done|]. apply Z.div_lt_upper_bound; lia. }
  exists (digits !!! Z.to_nat (n `mod` base) :: ds). split_and!.
  - by rewrite <-app_assoc.
  - cbn [rev]. rewrite parse_snoc, Hp, Hv. lia.
  - cbn. lia.
  - done.
  - intros Hpos. cbn [rev]. destruct (decide (n `div` base = 0)) as [Hd|Hd].
    + rewrite (Hnil Hd). eexists _, []. split; [done|]. rewrite H48. lia.
    + destruct Hz as (d & ds' & -> & Hne); [lia|]. by exists d, (ds' ++ [digits !!! Z.to_nat (n `mod` base)]).
Qed.

(** The numeral of [n], padded on the left to [width]. *)
Definition uint_digits (n base : Z) : list Z :=
  if n =? 0 then [48] else rev (default [] (digit_loop 64 n base [])).
Definition uint_chars (n base width pad : Z) : list Z :=
  let ds := uint_digits n base in
  replicate (Z.to_nat (width - Z.of_nat (length ds))) pad ++ ds.
Definition int_chars (n : Z) : list Z :=
  if n <? 0 then 45 :: uint_chars (- n) 10 0 32 else uint_chars n 10 0 32.

Lemma fits_buffer n base : 2 ≤ base → is_u64 n → 0 ≤ n < base ^ Z.of_nat 64.
Proof.
  intros Hb [H0 Hn]. split; [done|]. eapply Z.lt_le_trans; [exact Hn|].
  change (Z.of_nat 64) with 64. apply Z.pow_le_mono_l. lia.
Qed.

Lemma uint_digits_spec n base :
  2 ≤ base ≤ 16 → is_u64 n →
  parse base (uint_digits n base) = n ∧ (1 ≤ length (uint_digits n base) ≤ 64)%nat ∧
  (0 < n → ∃ d ds, uint_digits n base = d :: ds ∧ d ≠ 48).
Proof.
  intros Hb Hn. unfold uint_digits. destruct (Z.eqb_spec n 0) as [->|Hn0].
  { split_and!; [done|cbn; lia|cbn; lia|lia]. }
  destruct (digit_loop_spec 64 n base [] Hb) as (ds & -> & Hp & Hl & _ & Hz); [by apply fits_buffer; [lia|]|].
  unfold is_u64 in Hn. destruct Hz as (d & ds' & E & Hd); [lia|]. cbn [default app from_option id]. rewrite length_rev.
  assert (length ds = length (rev ds)) as Hr by (by rewrite length_rev). rewrite E in Hr. cbn in Hr.
  split_and!; [done|lia|lia|]. intros _. by exists d, ds'.
Qed.

Lemma const_fmap {A B} (l : list A) (x : B) : (λ _, x) <$> l = replicate (length l) x.
Proof. induction l as [|a l IH]; [done|]. cbn. by f_equal. Qed.

Lemma prints_uint n base width pad :
  2 ≤ base ≤ 16 → is_u64 n → prints (print_uint n base width pad) (uint_chars n base width pad).
Proof.
  intros Hb Hn. unfold print_uint, uint_chars, uint_digits.
  assert (∃ buf, (if n =? 0 then Some [48] else digit_loop 64 n base []) = Some buf ∧
    (if n =? 0 then [48] else rev (default [] (digit_loop 64 n base []))) = rev buf) as (buf & -> & ->).
  { destruct (n =? 0); [by exists [48]|].
    destruct (digit_loop_spec 64 n base [] Hb) as (ds & -> & _); [by apply fits_buffer; [lia|]|]. by exists ds. }
  apply prints_app; [|apply prints_chars]. rewrite length_rev.
  set (k := width - Z.of_nat (length buf)).
  pose proof (prints_each (seqZ (Z.of_nat (length buf)) k) (λ _, pad)) as Hp.
  by rewrite const_fmap, length_seqZ in Hp.
Qed.

Lemma u64_s64 x : u64 (s64 x) = u64 x.
Proof. unfold u64, s64. rewrite Zminus_mod_idemp_l. f_equal. lia. Qed.

Lemma s64_range x : - 2 ^ 63 ≤ s64 x < 2 ^ 63.
Proof. unfold s64. pose proof (Z.mod_pos_bound (x + 2 ^ 63) (2 ^ 64)). lia. Qed.

Lemma prints_int n : - 2 ^ 63 ≤ n < 2 ^ 63 → prints (print_int n) (int_chars n).
Proof.
  intros Hn. unfold print_int, int_chars. destruct (Z.ltb_spec n 0).
  - rewrite u64_s64, u64_id by (unfold is_u64; lia). change (45 :: ?l) with ([45] ++ l).
    apply prints_app; [apply prints_kputc|]. apply prints_uint; [lia|unfold is_u64; lia].
  - rewrite u64_id by (unfold is_u64; lia). apply prints_uint; [lia|unfold is_u64; lia].
Qed.

(** ** What a format prints

    The specification of [kprintf] in two passes: the format is cut into
    literal characters and conversions, and the conversions take the arguments
    one after the other. *)

Inductive piece :=
  | Lit (c : Z)
  | Conv (pad width c : Z).

Fixpoint pieces_loop (fuel : nat) (fmt : list Z) : option (list piece) :=
  match fuel with
  | O => None
  | S fuel =>
      match fmt with
      | [] => Some []
      | c :: fmt =>
          if c =? 37 then
            match scan_spec fmt with
            | Some (pad, width, c, fmt) => cons (Conv pad width c) <$> pieces_loop fuel fmt
            | None => None
            end
          else cons (Lit c) <$> pieces_loop fuel fmt
      end
  end.

Definition pieces (fmt : string) : option (list piece) := pieces_loop (S (String.length fmt)) (bytes_of fmt).

(** The text of a conversion, and whether it takes an argument. *)
Definition conv_text (pad width c : Z) (ap : list karg) : list Z :=
  let n := u64 (arg_word ap) in
  if c =? 100 then int_chars (s64 n)
  else if c =? 117 then uint_chars n 10 width pad
  else if c =? 120 then uint_chars n 16 width pad
  else if c =? 112 then [48; 120] ++ uint_chars n 16 16 48
  else if c =? 115 then bytes_of (default "(null)" (arg_str ap))
  else if c =? 99 then [u8 (arg_word ap)]
  else if c =? 37 then [37]
  else [37; c].
Definition takes_arg (c : Z) : bool := bool_decide (c ∈ [100; 117; 120; 112; 115; 99]).

Fixpoint expand (ps : list piece) (ap : list karg) : list Z :=
  match ps with
  | [] => []
  | Lit c :: ps => c :: expand ps ap
  | Conv pad width c :: ps =>
      conv_text pad width c ap ++ expand ps (if takes_arg c then tail ap else ap)
  end.

Definition format (fmt : string) (ap : list karg) : option (list Z) := (λ ps, expand ps ap) <$> pieces fmt.

(** The same for code that returns a value. *)
Definition shows {A} (m : M console A) (out : list Z) (a : A) : Prop :=
  ∀ s, (2 * length out ≤ ready (uart s))%nat →
    ∃ l s', m s = Done l a s' ∧ sent l = line out ∧
      c_vga s' = final (vga_puts out (c_vga s)) ∧
      (ready (uart s) ≤ ready (uart s') + 2 * length out)%nat.

Lemma shows_bind {A B} (m1 : M console A) (f : A → M console B) o1 o2 a b :
  shows m1 o1 a → shows (f a) o2 b → shows (m1 ≫= f) (o1 ++ o2) b.
Proof.
  intros H1 H2 s Hr. rewrite length_app in Hr.
  destruct (H1 s) as (l1 & s1 & E1 & Hs1 & Hv1 & Hr1); [lia|].
  destruct (H2 s1) as (l2 & s2 & E2 & Hs2 & Hv2 & Hr2); [lia|].
  exists (l1 ++ l2), s2. split_and!.
  - unfold mbind, M_bind. rewrite E1. cbn [bind_run]. by rewrite E2.
  - by rewrite sent_app, line_app, Hs1, Hs2.
  - by rewrite vga_puts_app, Hv2, Hv1.
  - rewrite length_app. lia.
Qed.

Lemma shows_ret {A} (a : A) : shows (mret a) [] a.
Proof. intros s _. exists [], s. split_and!; [done..|lia]. Qed.

Lemma shows_then {A} (m : M console unit) out (a : A) : prints m out → shows (m ;; mret a) out a.
Proof. intros Hm. rewrite <-(app_nil_r out). apply (shows_bind m _ out [] tt); [exact Hm|apply shows_ret]. Qed.

Lemma shows_convert pad width c ap :
  shows (convert pad width c ap) (conv_text pad width c ap) (if takes_arg c then tail ap else ap).
Proof.
  pose proof (u64_range (arg_word ap)) as Hw.
  assert (s64 (arg_word ap) = s64 (u64 (arg_word ap))) as Hs.
  { unfold s64, u64. by rewrite Zplus_mod_idemp_l. }
  unfold convert, conv_text, takes_arg. cbv zeta.
  repeat match goal with
  | |- context [c =? ?k] => destruct (Z.eqb_spec c k) as [->|?]; [|]
  end; cbn [bool_decide decide_rel].
  - apply shows_then. rewrite Hs. apply prints_int, s64_range.
  - apply shows_then, prints_uint; [lia|done].
  - apply shows_then, prints_uint; [lia|done].
  - eapply shows_bind; [exact (prints_chars [48; 120])|]. apply shows_then, prints_uint; [lia|done].
  - apply shows_then, prints_chars.
  - apply shows_then, prints_kputc.
  - apply shows_then, prints_kputc.
  - rewrite bool_decide_false by set_solver.
    apply (shows_bind _ _ [37] [c] tt); [exact (prints_kputc 37)|]. apply shows_then, prints_kputc.
Qed.

Lemma prints_loop fuel fmt ap ps :
  pieces_loop fuel fmt = Some ps → prints (kprintf_loop fuel fmt ap) (expand ps ap).
Proof.
  revert fmt ap ps. induction fuel as [|fuel IH]; intros fmt ap ps Hps; [done|].
  cbn [pieces_loop kprintf_loop] in *. destruct fmt as [|c fmt]; [injection Hps as <-; apply prints_nil|].
  destruct (c =? 37); cbn [negb].
  - destruct (scan_spec fmt) as [[[[pad width] d] rest]|]; [|done].
    apply fmap_Some in Hps as (ps' & Hps' & ->). cbn [expand].
    apply (shows_bind _ _ _ _ _ tt (shows_convert pad width d ap)). exact (IH _ _ _ Hps').
  - apply fmap_Some in Hps as (ps' & Hps' & ->). cbn [expand].
    apply (prints_app (kputc c) (kprintf_loop fuel fmt ap) [c]); [apply prints_kputc|by apply IH].
Qed.

(** A conversion is shorter than what it was scanned from. *)
Lemma scan_spec_shorter fmt pad width c rest :
  scan_spec fmt = Some (pad, width, c, rest) → (length rest < length fmt)%nat.
Proof.
  assert (Hw : ∀ l w, (length (scan_width l w).2 ≤ length l)%nat).
  { induction l as [|x l IH]; intros w; [done|]. cbn. case_match; [|done]. specialize (IH (s32 (w * 10 + (x - 48)))). lia. }
  assert (Hl : ∀ l, (length (skip_long l) ≤ length l)%nat).
  { intros l. unfold skip_long. repeat case_match; cbn; lia. }
  unfold scan_spec. intros Hs.
  destruct (match fmt with 48 :: fmt => (48, fmt) | _ => (32, fmt) end) as [p l1] eqn:E1.
  assert (length l1 ≤ length fmt)%nat.
  { revert E1. repeat case_match; intros; simplify_eq; cbn; lia. }
  pose proof (Hw l1 0) as H2. destruct (scan_width l1 0) as [w l2]. cbn in H2.
  pose proof (Hl l2). destruct (skip_long l2) as [|x l3] eqn:E3; [done|]. simplify_eq. cbn in *. lia.
Qed.

(** The fuel is enough: more of it gives the same pieces. *)
Lemma pieces_fuel f1 f2 fmt :
  (length fmt < f1)%nat → (length fmt < f2)%nat → pieces_loop f1 fmt = pieces_loop f2 fmt.
Proof.
  revert f2 fmt. induction f1 as [|f1 IH]; intros [|f2] fmt H1 H2; try lia.
  cbn [pieces_loop]. destruct fmt as [|c fmt]; [done|]. cbn in H1, H2. destruct (c =? 37).
  - destruct (scan_spec fmt) as [[[[pad width] d] rest]|] eqn:E; [|done]. apply scan_spec_shorter in E.
    by rewrite (IH f2 rest) by lia.
  - by rewrite (IH f2 fmt) by lia.
Qed.

(** ** The screen, cell by cell *)

(** A loop whose body is a function of the state. *)
Lemma result_for_each_fold {S A} (g : A → S → S) (f : A → M S unit) (l : list A) (s : S) :
  (∀ x s, result (f x) s = Some (tt, g x s)) → result (for_each l f) s = Some (tt, foldl (λ s x, g x s) s l).
Proof.
  intros Hf. revert s. induction l as [|x l IH]; intros s; [done|]. by rewrite result_for_each_cons, Hf, IH.
Qed.

Lemma final_result {S A} (m : M S A) s a s' : result m s = Some (a, s') → final (m s) = s'.
Proof. unfold result. by destruct (m s); intros; simplify_eq. Qed.

Lemma cell_set v i x j : cell (set_cell i x v) j = if decide (i = j) then x else cell v j.
Proof.
  unfold cell, set_cell. cbn. case_decide; [subst; by rewrite lookup_insert_eq|by rewrite lookup_insert_ne].
Qed.

(** The cursor and the colours stay. *)
Definition same_cursor (v v' : vga) : Prop :=
  vga_row v' = vga_row v ∧ vga_col v' = vga_col v ∧ vga_attr v' = vga_attr v.

(** [n] cells from [d] on copied from [80] cells later. *)
Definition copy_row (r : Z) (v : vga) : vga :=
  foldl (λ v c, set_cell ((r - 1) * VGA_COLS + c) (cell v (r * VGA_COLS + c)) v) v (seqZ 0 VGA_COLS).

Lemma copy_cells r n v :
  (n ≤ 80)%nat →
  let v' := foldl (λ v c, set_cell ((r - 1) * VGA_COLS + c) (cell v (r * VGA_COLS + c)) v) v (seqZ 0 (Z.of_nat n)) in
  same_cursor v v' ∧
  ∀ i, cell v' i = if decide ((r - 1) * 80 ≤ i < (r - 1) * 80 + Z.of_nat n) then cell v (i + 80) else cell v i.
Proof.
  unfold VGA_COLS. induction n as [|n IH]; intros Hn.
  { cbn. split; [done|]. intros i. by rewrite decide_False by lia. }
  rewrite seqZ_S, foldl_app. destruct IH as [Hs Hi]; [lia|]. cbn zeta in *. cbn [foldl].
  split; [exact Hs|]. intros i. rewrite cell_set, !Hi. case_decide as E.
  - subst i. rewrite decide_False by lia. rewrite decide_True by lia. f_equal. lia.
  - destruct (decide ((r - 1) * 80 ≤ i < (r - 1) * 80 + Z.of_nat n)).
    + by rewrite decide_True by lia.
    + by rewrite decide_False by lia.
Qed.

Lemma copy_row_spec r v :
  same_cursor v (copy_row r v) ∧
  ∀ i, cell (copy_row r v) i = if decide ((r - 1) * 80 ≤ i < r * 80) then cell v (i + 80) else cell v i.
Proof.
  destruct (copy_cells r 80 v) as [H1 H2]; [lia|]. split; [exact H1|]. intros i. unfold copy_row.
  change (seqZ 0 VGA_COLS) with (seqZ 0 (Z.of_nat 80)). rewrite H2. by apply decide_ext; lia.
Qed.

Lemma copy_rows n v :
  (n ≤ 24)%nat →
  let v' := foldl (λ v r, copy_row r v) v (seqZ 1 (Z.of_nat n)) in
  same_cursor v v' ∧ ∀ i, cell v' i = if decide (0 ≤ i < Z.of_nat n * 80) then cell v (i + 80) else cell v i.
Proof.
  induction n as [|n IH]; intros Hn.
  { cbn. split; [done|]. intros i. by rewrite decide_False by lia. }
  rewrite seqZ_S, foldl_app. destruct IH as [(Ha & Hb & Hc) Hi]; [lia|]. cbn zeta in *. cbn [foldl].
  destruct (copy_row_spec (1 + Z.of_nat n) (foldl (λ v r, copy_row r v) v (seqZ 1 (Z.of_nat n)))) as [(Ha' & Hb' & Hc') Hi'].
  split; [split_and!; congruence|]. intros i. rewrite Hi', !Hi.
  destruct (decide ((1 + Z.of_nat n - 1) * 80 ≤ i < (1 + Z.of_nat n) * 80)).
  - rewrite decide_False by lia. by rewrite decide_True by lia.
  - apply decide_ext. lia.
Qed.

Lemma blank_cells n b v :
  let v' := foldl (λ v c, set_cell ((VGA_ROWS - 1) * VGA_COLS + c) b v) v (seqZ 0 (Z.of_nat n)) in
  same_cursor v v' ∧ ∀ i, cell v' i = if decide (1920 ≤ i < 1920 + Z.of_nat n) then b else cell v i.
Proof.
  induction n as [|n IH].
  { cbn. split; [done|]. intros i. by rewrite decide_False by lia. }
  rewrite seqZ_S, foldl_app. destruct IH as [Hs Hi]. cbn zeta in *. cbn [foldl].
  split; [exact Hs|]. intros i. rewrite cell_set, Hi. unfold VGA_ROWS, VGA_COLS.
  destruct (decide ((25 - 1) * 80 + (0 + Z.of_nat n) = i)).
  - by rewrite decide_True by lia.
  - apply decide_ext. lia.
Qed.

(** [vga_scroll] moves every row up by one and blanks the last. *)
Definition scrolled (v v' : vga) : Prop :=
  vga_row v' = 24 ∧ vga_col v' = vga_col v ∧ vga_attr v' = vga_attr v ∧
  ∀ i, cell v' i = if decide (0 ≤ i < 1920) then cell v (i + 80)
                   else if decide (1920 ≤ i < 2000) then VGA_ENTRY 32 (vga_attr v) else cell v i.

Lemma vga_scroll_run v :
  result vga_scroll v =
    let v1 := foldl (λ v r, copy_row r v) v (seqZ 1 (VGA_ROWS - 1)) in
    let v2 := foldl (λ v c, set_cell ((VGA_ROWS - 1) * VGA_COLS + c) (VGA_ENTRY 32 (vga_attr v1)) v) v1
      (seqZ 0 VGA_COLS) in
    Some (tt, v2 <| vga_row := VGA_ROWS - 1 |>).
Proof.
  unfold vga_scroll. generalize (seqZ 1 (VGA_ROWS - 1)). intros rows.
  rewrite result_bind, (result_for_each_fold copy_row).
  2:{ intros r s. unfold copy_row. generalize (seqZ 0 VGA_COLS). intros l.
      exact (result_for_each_modify l (λ c s, set_cell ((r - 1) * VGA_COLS + c) (cell s (r * VGA_COLS + c)) s) s). }
  generalize (foldl (λ v r, copy_row r v) v rows). intros v1. generalize (seqZ 0 VGA_COLS). intros l.
  rewrite result_bind, result_gets, result_bind, result_for_each_modify. reflexivity.
Qed.

Lemma vga_scroll_spec v : ∃ v', result vga_scroll v = Some (tt, v') ∧ scrolled v v'.
Proof.
  rewrite vga_scroll_run. cbn zeta.
  assert (VGA_ROWS - 1 = Z.of_nat 24) as Hr by done. assert (VGA_COLS = Z.of_nat 80) as Hcols by done.
  destruct (copy_rows 24 v) as [(Ha & Hb & Hc) Hi]; [lia|]. rewrite <-Hr in Ha, Hb, Hc, Hi.
  revert Ha Hb Hc Hi. generalize (foldl (λ v r, copy_row r v) v (seqZ 1 (VGA_ROWS - 1))).
  intros v1 Ha Hb Hc Hi.
  destruct (blank_cells 80 (VGA_ENTRY 32 (vga_attr v1)) v1) as [(Ha' & Hb' & Hc') Hi']. rewrite <-Hcols in Ha', Hb', Hc', Hi'.
  revert Ha' Hb' Hc' Hi'.
  generalize (foldl (λ v c, set_cell ((VGA_ROWS - 1) * VGA_COLS + c) (VGA_ENTRY 32 (vga_attr v1)) v) v1
      (seqZ 0 VGA_COLS)). intros v2 Ha' Hb' Hc' Hi'.
  exists (v2 <| vga_row := VGA_ROWS - 1 |>). split; [done|].
  split_and!; [done|cbn; congruence|cbn; congruence|]. intros i.
  change (cell (v2 <| vga_row := VGA_ROWS - 1 |>) i) with (cell v2 i). rewrite Hi', Hc, Hi.
  unfold VGA_ROWS, VGA_COLS. repeat case_decide; done || lia.
Qed.

(** Where [vga_putc] puts the character and the cursor, before it scrolls. *)
Definition place (c : Z) (v : vga) : vga :=
  if c =? 10 then v <| vga_col := 0 |> <| vga_row := vga_row v + 1 |>
  else if c =? 13 then v <| vga_col := 0 |>
  else if c =? 9 then v <| vga_col := Z.land (vga_col v + 8) (Z.lnot 7) |>
  else if c =? 8 then if 0 <? vga_col v then v <| vga_col := vga_col v - 1 |> else v
  else
    let v := set_cell (vga_row v * VGA_COLS + vga_col v) (VGA_ENTRY c (vga_attr v)) v in
    let v := v <| vga_col := vga_col v + 1 |> in
    if VGA_COLS <=? vga_col v then v <| vga_col := 0 |> <| vga_row := vga_row v + 1 |> else v.

Lemma vga_putc_run c v :
  ∃ v', result (vga_putc c) v = Some (tt, v') ∧ final (vga_putc c v) = v' ∧
    if VGA_ROWS <=? vga_row (place c v) then scrolled (place c v) v' else v' = place c v.
Proof.
  assert (∀ v1, ∃ v', result (s ← get ; (if VGA_ROWS <=? vga_row s then vga_scroll else mret tt) ;;
      s ← get ; vga_update_cursor (vga_row s) (vga_col s)) v1 = Some (tt, v') ∧
    if VGA_ROWS <=? vga_row v1 then scrolled v1 v' else v' = v1) as Hend.
  { intros v1. destruct (vga_scroll_spec v1) as (v2 & E & H2). rewrite result_bind, result_get.
    destruct (VGA_ROWS <=? vga_row v1).
    - exists v2. split; [|done]. by rewrite result_bind, E.
    - exists v1. by split. }
  assert (∀ (m : M vga unit), result m v = Some (tt, place c v) →
    ∃ v', result (m ;; s ← get ; (if VGA_ROWS <=? vga_row s then vga_scroll else mret tt) ;;
      s ← get ; vga_update_cursor (vga_row s) (vga_col s)) v = Some (tt, v') ∧
    if VGA_ROWS <=? vga_row (place c v) then scrolled (place c v) v' else v' = place c v) as Hm.
  { intros m Em. destruct (Hend (place c v)) as (v' & E & H'). exists v'. split; [|done]. by rewrite result_bind, Em. }
  destruct (Hm (if c =? 10 then
     modify (λ s, s <| vga_col := 0 |>) ;;
     modify (λ s, s <| vga_row := vga_row s + 1 |>)
   else if c =? 13 then modify (λ s, s <| vga_col := 0 |>)
   else if c =? 9 then modify (λ s, s <| vga_col := Z.land (vga_col s + 8) (Z.lnot 7) |>)
   else if c =? 8 then
     s ← get ;
     if 0 <? vga_col s then modify (λ s, s <| vga_col := vga_col s - 1 |>) else mret tt
   else
     modify (λ s, set_cell (vga_row s * VGA_COLS + vga_col s) (VGA_ENTRY c (vga_attr s)) s) ;;
     modify (λ s, s <| vga_col := vga_col s + 1 |>) ;;
     s ← get ;
     if VGA_COLS <=? vga_col s then
       modify (λ s, s <| vga_col := 0 |>) ;;
       modify (λ s, s <| vga_row := vga_row s + 1 |>)
     else mret tt)) as (v' & E & Hv').
  { unfold place. destruct (c =? 10); [done|]. destruct (c =? 13); [done|]. destruct (c =? 9); [done|].
    destruct (c =? 8); [rewrite result_bind, result_get; by destruct (0 <? vga_col v)|].
    rewrite result_bind, result_modify, result_bind, result_modify, result_bind, result_get. cbv zeta.
    by destruct (VGA_COLS <=? _). }
  exists v'. split_and!; [exact E|exact (final_result _ _ _ _ E)|exact Hv'].
Qed.

(** Tab-free text. *)
Definition on_screen (v : vga) : Prop := 0 ≤ vga_row v < 25 ∧ 0 ≤ vga_col v < 80.

Lemma place_on_screen c v :
  on_screen v → c ≠ 9 →
  0 ≤ vga_row (place c v) ≤ 25 ∧ 0 ≤ vga_col (place c v) < 80 ∧
  ∀ i, i < 0 ∨ 2000 ≤ i → cell (place c v) i = cell v i.
Proof.
  intros [Hr Hc] Ht. unfold place, VGA_COLS. destruct (c =? 10); [cbn; split_and!; done || lia|].
  destruct (c =? 13); [cbn; split_and!; done || lia|]. destruct (Z.eqb_spec c 9); [done|].
  destruct (c =? 8). { destruct (Z.ltb_spec 0 (vga_col v)); cbn; split_and!; done || lia. }
  cbn zeta. set (v1 := set_cell _ _ v).
  assert (∀ i, i < 0 ∨ 2000 ≤ i → cell v1 i = cell v i) as Hcell.
  { intros i Hi. unfold v1. rewrite cell_set, decide_False; [done|]. lia. }
  change (vga_col (v1 <| vga_col := vga_col v1 + 1 |>)) with (vga_col v + 1).
  destruct (Z.leb_spec 80 (vga_col v + 1)); cbn; split_and!; try lia; exact Hcell.
Qed.

Lemma putc_on_screen c v :
  on_screen v → c ≠ 9 →
  let v' := final (vga_putc c v) in
  on_screen v' ∧ ∀ i, i < 0 ∨ 2000 ≤ i → cell v' i = cell v i.
Proof.
  intros Hv Ht. destruct (place_on_screen c v Hv Ht) as (Hr & Hc & Hi).
  destruct (vga_putc_run c v) as (v' & _ & -> & H'). cbn zeta. unfold VGA_ROWS in H'.
  destruct (Z.leb_spec 25 (vga_row (place c v))).
  - destruct H' as (H1 & H2 & _ & H4). split; [unfold on_screen; lia|]. intros i Hout.
    rewrite H4, !decide_False by lia. by apply Hi.
  - subst v'. split; [unfold on_screen; lia|exact Hi].
Qed.

(** ** Theorems *)

(** Printable text. [vga_putc] of a character that is not a control
    character puts it, with the current colours, at the cursor and moves the
    cursor one cell on; past the last cell of the screen every row moves up by
    one, the last row becomes blank and the cursor is at its start. *)
Theorem vga_putc_text v c :
  on_screen v → c ∉ [8; 9; 10; 13] →
  let pos := vga_row v * 80 + vga_col v in
  let put i := if decide (i = pos) then VGA_ENTRY c (vga_attr v) else cell v i in
  ∃ v', result (vga_putc c) v = Some (tt, v') ∧ on_screen v' ∧
    if decide (pos + 1 < 2000) then
      vga_row v' * 80 + vga_col v' = pos + 1 ∧ ∀ i, cell v' i = put i
    else
      vga_row v' = 24 ∧ vga_col v' = 0 ∧
      (∀ i, 0 ≤ i < 1920 → cell v' i = put (i + 80)) ∧
      (∀ i, 1920 ≤ i < 2000 → cell v' i = VGA_ENTRY 32 (vga_attr v)).
Proof.
  intros Hv Hc pos put.
  assert (c ≠ 8 ∧ c ≠ 9 ∧ c ≠ 10 ∧ c ≠ 13) as (H8 & H9 & H10 & H13) by set_solver.
  destruct (putc_on_screen c v Hv H9) as [Hon _]. destruct Hv as [Hrow Hcol].
  destruct (vga_putc_run c v) as (v' & E & Hf & H'). rewrite Hf in Hon. exists v'. split_and!; [exact E|exact Hon|].
  assert (Hp : ∀ i, cell (place c v) i = put i).
  { intros i. unfold place, put. rewrite !(proj2 (Z.eqb_neq _ _)) by done. cbn zeta.
    set (v1 := set_cell _ _ v).
    assert (cell v1 i = if decide (i = pos) then VGA_ENTRY c (vga_attr v) else cell v i) as <-.
    { unfold v1. rewrite cell_set. apply decide_ext. unfold pos, VGA_COLS. lia. }
    by destruct (VGA_COLS <=? _). }
  assert (vga_attr (place c v) = vga_attr v ∧
    (vga_row (place c v), vga_col (place c v)) =
      if decide (vga_col v = 79) then (vga_row v + 1, 0) else (vga_row v, vga_col v + 1)) as [Ha Hrc].
  { unfold place. rewrite !(proj2 (Z.eqb_neq _ _)) by done. cbn zeta.
    set (v1 := set_cell _ _ v). change (vga_col (v1 <| vga_col := vga_col v1 + 1 |>)) with (vga_col v + 1).
    unfold VGA_COLS. destruct (Z.leb_spec 80 (vga_col v + 1)); (split; [done|]).
    - rewrite decide_True by lia. done.
    - rewrite decide_False by lia. done. }
  unfold VGA_ROWS in H'. destruct (decide (pos + 1 < 2000)) as [Hlt|Hlt].
  - assert (vga_row (place c v) < 25) as Hr by (case_decide; injection Hrc; unfold pos in *; lia).
    destruct (Z.leb_spec 25 (vga_row (place c v))); [lia|]. rewrite H'.
    split; [|exact Hp]. case_decide; injection Hrc as -> ->; unfold pos; lia.
  - assert (vga_row (place c v) = 25 ∧ vga_col (place c v) = 0) as [Hr Hcz].
    { case_decide; injection Hrc; unfold pos in *; lia. }
    rewrite Hr in H'. cbn in H'. destruct H' as (H1 & H2 & H3 & H4).
    split_and!; [done|congruence| |].
    + intros i Hi. by rewrite H4, decide_True, Hp by lia.
    + intros i Hi. by rewrite H4, decide_False, decide_True, Ha by lia.
Qed.

(** Bounds. Text without tabs never makes [vga_puts] write outside the 2000
    cells of the screen or leave the cursor outside it, whatever the other
    characters are. *)
Theorem vga_puts_bounds v s :
  on_screen v → 9 ∉ s →
  ∃ v', result (vga_puts s) v = Some (tt, v') ∧ on_screen v' ∧
    ∀ i, i < 0 ∨ 2000 ≤ i → cell v' i = cell v i.
Proof.
  intros Hv Hs. destruct (silent_run (vga_puts s) v (silent_vga_puts s)) as (l & [] & _ & E & _).
  exists (final (vga_puts s v)). split; [exact E|]. clear E. revert v Hv Hs.
  induction s as [|c s IH]; intros v Hv Hs; [done|].
  rewrite vga_puts_cons. destruct (putc_on_screen c v Hv) as [H1 H2]; [set_solver|].
  destruct (IH (final (vga_putc c v)) H1) as [H3 H4]; [set_solver|].
  split; [done|]. intros i Hi. by rewrite H4, H2.
Qed.

(** Tabs are not bounded by the line: each moves the cursor to the next
    multiple of eight without wrapping, so [n] tabs and a letter on an empty
    screen write cell [8 * n], outside the screen as soon as [n] is 250. *)
Theorem vga_tabs_escape n :
  0 ≤ n →
  let v := Vga ∅ 0 0 7 in
  cell (final (vga_puts (replicate (Z.to_nat n) 9 ++ [65]) v)) (8 * n) = VGA_ENTRY 65 7 ∧
  cell v (8 * n) ≠ VGA_ENTRY 65 7.
Proof.
  intros Hn v. split; [|done].
  assert (Htab : ∀ k w, 0 ≤ k → vga_row w = 0 → vga_col w = 8 * k →
    final (vga_putc 9 w) = w <| vga_col := 8 * (k + 1) |>).
  { intros k w Hk Hw Hc. destruct (vga_putc_run 9 w) as (w' & _ & -> & H').
    assert (place 9 w = w <| vga_col := 8 * (k + 1) |>) as Hp.
    { unfold place. cbn [Z.eqb Pos.eqb].
      assert (Z.land (vga_col w + 8) (Z.lnot 7) = 8 * (k + 1)) as ->; [|done].
      change (Z.lnot 7) with (Z.lnot (Z.ones 3)).
      rewrite Hc, <-Z.ldiff_land, Z.ldiff_ones_r, Z.shiftr_div_pow2, Z.shiftl_mul_pow2 by lia.
      change (2 ^ 3) with 8. replace (8 * k + 8) with ((k + 1) * 8) by lia. rewrite Z.div_mul by lia. lia. }
    rewrite Hp in H'. unfold VGA_ROWS in H'. destruct (Z.leb_spec 25 (vga_row (w <| vga_col := 8 * (k + 1) |>))) as [Hle|];
      [cbn in Hle; lia|exact H']. }
  assert (Htabs : ∀ m k w, 0 ≤ k → vga_row w = 0 → vga_attr w = 7 → vga_col w = 8 * k →
    let w' := final (vga_puts (replicate m 9) w) in
    vga_row w' = 0 ∧ vga_attr w' = 7 ∧ vga_col w' = 8 * (k + Z.of_nat m)).
  { induction m as [|m IH]; intros k w Hk Hw Ha Hc; [cbn; split_and!; [done|done|lia]|].
    cbn [replicate]. rewrite vga_puts_cons, (Htab k w) by done.
    destruct (IH (k + 1) (w <| vga_col := 8 * (k + 1) |>)) as (H1 & H2 & H3); [lia|done..|].
    cbn zeta. split_and!; [done|done|]. rewrite H3. lia. }
  rewrite vga_puts_app, vga_puts_cons. destruct (Htabs (Z.to_nat n) 0 v) as (H1 & H2 & H3); [done..|].
  revert H1 H2 H3. generalize (final (vga_puts (replicate (Z.to_nat n) 9) v)). intros w H1 H2 H3.
  destruct (vga_putc_run 65 w) as (w' & _ & -> & H'). change (final (vga_puts [] w')) with w'.
  assert (cell (place 65 w) (8 * n) = VGA_ENTRY 65 7 ∧ 0 ≤ vga_row (place 65 w) < 2) as [Hp Hr].
  { unfold place. cbn [Z.eqb Pos.eqb]. cbn zeta. rewrite H1, H2. unfold VGA_COLS.
    set (v1 := set_cell _ _ w).
    assert (cell v1 (8 * n) = VGA_ENTRY 65 7) as Hv1.
    { unfold v1. by rewrite cell_set, decide_True by lia. }
    destruct (80 <=? _); (split; [exact Hv1|]); cbn; lia. }
  unfold VGA_ROWS in H'. destruct (Z.leb_spec 25 (vga_row (place 65 w))); [lia|]. by subst w'.
Qed.


(** Numerals. [print_uint] returns without overrunning its 64-byte buffer
    and prints padding followed by a numeral of at least one digit, without
    leading zeros, that reads back as the number in the base it was given. *)
Theorem print_uint_roundtrip n base width pad s :
  2 ≤ base ≤ 16 → is_u64 n → (2 * Z.to_nat (Z.max width 64) ≤ ready (uart s))%nat →
  ∃ l s' ds, print_uint n base width pad s = Done l tt s' ∧
    sent l = line (replicate (Z.to_nat (width - Z.of_nat (length ds))) pad ++ ds) ∧
    (1 ≤ length ds ≤ 64)%nat ∧ parse base ds = n ∧
    (∀ d ds', ds = d :: ds' → d = 48 → n = 0).
Proof.
  intros Hb Hn Hr. destruct (uint_digits_spec n base Hb Hn) as (Hp & Hl & Hz).
  destruct (prints_uint n base width pad Hb Hn s) as (l & s' & E & Hs & _).
  { unfold uint_chars. rewrite length_app, length_replicate. lia. }
  exists l, s', (uint_digits n base). split_and!; [done|done|lia|lia|done|].
  intros d ds' Hd ->. destruct (decide (0 < n)) as [Hpos|]; [|unfold is_u64 in Hn; lia].
  destruct (Hz Hpos) as (d' & ds2 & E2 & Hne). congruence.
Qed.

(** An [int] printed with [%d] comes out as its 32-bit pattern: for every
    negative one the text is the numeral of the number plus 2^32, without a
    sign. *)
Theorem kprintf_d_int n :
  - 2 ^ 31 ≤ n < 2 ^ 31 →
  ∃ out, format "%d" [kint n] = Some out ∧ parse 10 out = (if n <? 0 then n + 2 ^ 32 else n) ∧ 45 ∉ out.
Proof.
  intros Hn. exists (int_chars (u32 n)). pose proof (u32_range n) as Hu. unfold is_u32 in Hu.
  assert (u32 n = if n <? 0 then n + 2 ^ 32 else n) as Hv.
  { destruct (Z.ltb_spec n 0); [|by rewrite u32_id by (unfold is_u32; lia)].
    rewrite <-(u32_id (n + 2 ^ 32)) by (unfold is_u32; lia). unfold u32.
    rewrite <-(Z.mod_add n 1 (2 ^ 32)) by lia. by rewrite Z.mul_1_l. }
  assert (Hd : is_u64 (u32 n)) by (unfold is_u64; lia).
  assert (Hic : int_chars (u32 n) = uint_digits (u32 n) 10).
  { unfold int_chars. destruct (Z.ltb_spec (u32 n) 0); [lia|]. unfold uint_chars. by rewrite Z2Nat.nonpos by lia. }
  destruct (uint_digits_spec (u32 n) 10) as (Hp & _); [lia|done|]. split_and!.
  - unfold format. change (pieces "%d") with (Some [Conv 32 0 100]). cbn [fmap option_fmap option_map expand].
    rewrite app_nil_r. unfold conv_text, kint, arg_word. cbn [Z.eqb Pos.eqb]. do 2 f_equal.
    rewrite u64_id by done. unfold s64. rewrite Z.mod_small; lia.
  - by rewrite Hic, Hp.
  - rewrite Hic. unfold uint_digits. destruct (u32 n =? 0); [set_solver|].
    rewrite list_elem_of_In, <-in_rev, <-list_elem_of_In.
    assert (Hdig : ∀ fuel m buf, 45 ∉ buf → 45 ∉ default [] (digit_loop fuel m 10 buf)).
    { induction fuel as [|fuel IH]; intros m buf Hb; cbn [digit_loop]; destruct (m =? 0);
        [exact Hb|set_solver|exact Hb|]. apply IH. rewrite not_elem_of_app. split; [exact Hb|].
      rewrite list_elem_of_singleton. pose proof (Z.mod_pos_bound m 10).
      destruct (digits_value (m `mod` 10)) as [Hval _]; [lia|]. intros E. rewrite <-E in Hval. cbn in Hval. lia. }
    apply Hdig. set_solver.
Qed.

(** ** Witnesses *)

Definition demo_console : console := ConsoleState (Vga ∅ 0 0 7) (replicate 200 0x60).

Lemma vga_putc_text_witness :
  ∃ v', result (vga_putc 65) (Vga ∅ 24 79 7) = Some (tt, v') ∧ on_screen v' ∧
    vga_row v' = 24 ∧ vga_col v' = 0 ∧
    (∀ i, 0 ≤ i < 1920 → cell v' i = if decide (i + 80 = 1999) then VGA_ENTRY 65 7 else cell (Vga ∅ 24 79 7) (i + 80)) ∧
    (∀ i, 1920 ≤ i < 2000 → cell v' i = VGA_ENTRY 32 7).
Proof.
  apply (vga_putc_text (Vga ∅ 24 79 7) 65); [unfold on_screen; cbn; lia|].
  apply (bool_decide_unpack (65 ∉ [8; 9; 10; 13])). reflexivity.
Defined.

Lemma vga_puts_bounds_witness :
  ∃ v', result (vga_puts [65; 10; 8; 66]) (Vga ∅ 24 79 7) = Some (tt, v') ∧ on_screen v' ∧
    ∀ i, i < 0 ∨ 2000 ≤ i → cell v' i = cell (Vga ∅ 24 79 7) i.
Proof.
  apply (vga_puts_bounds (Vga ∅ 24 79 7) [65; 10; 8; 66]); [unfold on_screen; cbn; lia|].
  apply (bool_decide_unpack (9 ∉ [65; 10; 8; 66])). reflexivity.
Defined.

Lemma vga_tabs_escape_witness :
  cell (final (vga_puts (replicate (Z.to_nat 250) 9 ++ [65]) (Vga ∅ 0 0 7))) (8 * 250) = VGA_ENTRY 65 7 ∧
  cell (Vga ∅ 0 0 7) (8 * 250) ≠ VGA_ENTRY 65 7.
Proof. apply (vga_tabs_escape 250). lia. Defined.


Lemma print_uint_roundtrip_witness :
  ∃ l s' ds, print_uint 4096 16 16 48 demo_console = Done l tt s' ∧
    sent l = line (replicate (Z.to_nat (16 - Z.of_nat (length ds))) 48 ++ ds) ∧
    (1 ≤ length ds ≤ 64)%nat ∧ parse 16 ds = 4096 ∧ (∀ d ds', ds = d :: ds' → d = 48 → 4096 = 0).
Proof.
  apply (print_uint_roundtrip 4096 16 16 48 demo_console); [lia|unfold is_u64; lia|].
  apply (bool_decide_unpack (_ ≤ _)%nat). reflexivity.
Defined.

Lemma kprintf_d_int_witness :
  ∃ out, format "%d" [kint (-1)] = Some out ∧ parse 10 out = 4294967295 ∧ 45 ∉ out.
Proof. apply (kprintf_d_int (-1)). lia. Defined.
