(* ===== verification/Initrd.v ===== *)
(** * Initrd: the cpio archive of initial files (kernel/initrd.c)

    The archive lies in memory; parsing it fills a table with the addresses of
    names and contents.  The specification is the archive format: a list of
    files is laid out in bytes by [archive], and [initrd_init] finds in memory
    what was laid out. *)

From S2P Require Import Prelude Effects Memory Types.

(** Sizes and offsets of the packed [cpio_newc_header_t]. *)
Definition sizeof_cpio_newc_header : Z := 110.
Definition off_filesize : Z := 54.
Definition off_namesize : Z := 94.

Definition INITRD_MAX_FILES : Z := 128.

Record initrd_file := InitrdFile {
  f_name : Z;
  f_size : Z;
  f_data : Z;
}.
#[export] Instance eta_initrd_file : Eta initrd_file := λ f, InitrdFile (f_name f) (f_size f) (f_data f).

(** The memory, and the first [initrd_file_count] entries of [initrd_files]. *)
Record initrd := Initrd {
  i_mem : mem;
  initrd_files : list initrd_file;
}.
#[export] Instance eta_initrd : Eta initrd := λ s, Initrd (i_mem s) (initrd_files s).

Definition initrd_file_count (s : initrd) : Z := Z.of_nat (length (initrd_files s)).

(** [memcmp_simple(a, b, n)] with [b] a literal of [n] characters. *)
Fixpoint memcmp_simple (m : mem) (a : Z) (b : list Z) : Z :=
  match b with
  | [] => 0
  | c :: b => if negb (ld8 m a =? c) then ld8 m a - c else memcmp_simple m (a + 1) b
  end.

(** [strcmp_simple(a, b)] with [b] a string in the kernel's image. *)
Fixpoint strcmp_simple (m : mem) (a : Z) (b : list Z) : Z :=
  match b with
  | [] => ld8 m a
  | c :: b' =>
      if negb (ld8 m a =? 0) && negb (c =? 0) && (ld8 m a =? c)
      then strcmp_simple m (a + 1) b'
      else ld8 m a - c
  end.

(** The value of one digit, and one round of the loop. *)
Definition hex_digit (c : Z) : Z :=
  if (48 <=? c) && (c <=? 57) then c - 48
  else if (97 <=? c) && (c <=? 102) then c - 97 + 10
  else if (65 <=? c) && (c <=? 70) then c - 65 + 10
  else 0.
Definition hex_step (v c : Z) : Z := Z.lor (u32 (Z.shiftl v 4)) (hex_digit c).

Definition hex8_to_u32 (m : mem) (s : Z) : Z := foldl hex_step 0 (ld_bytes m s 8).

Definition align4 (x : Z) : Z := Z.land (u32 (x + 3)) (not32 3).
Definition align4_ptr (x : Z) : Z := Z.land (u64 (x + 3)) (not64 3).

Definition cpio_magic : list Z := [48; 55; 48; 55; 48; 49].
Definition trailer_name : list Z := [84; 82; 65; 73; 76; 69; 82; 33; 33; 33].

(** The characters of the magic number, compared one by one. *)
Definition bad_magic (m : mem) (h : Z) : bool :=
  negb (ld8 m h =? 48) || negb (ld8 m (h + 1) =? 55) ||
  negb (ld8 m (h + 2) =? 48) || negb (ld8 m (h + 3) =? 55) ||
  negb (ld8 m (h + 4) =? 48) || negb (ld8 m (h + 5) =? 49).

(** [while (p + sizeof(cpio_newc_header_t) <= end)] *)
Fixpoint initrd_loop (fuel : nat) (p end_ : Z) : M initrd unit :=
  if negb (u64 (p + sizeof_cpio_newc_header) <=? end_) then mret tt else
  match fuel with
  | O => no_fuel
  | S fuel =>
      s ← get ;
      let m := i_mem s in
      let h := p in
      if bad_magic m h then kprintf ("[INITRD] invalid magic" +:+ nl) [] else
      let namesize := hex8_to_u32 m (h + off_namesize) in
      let filesize := hex8_to_u32 m (h + off_filesize) in
      let p := u64 (p + sizeof_cpio_newc_header) in
      let name := p in
      if (namesize =? 11) && (memcmp_simple m name trailer_name =? 0) then mret tt else
      let p := u64 (p + namesize) in
      let p := align4_ptr p in
      let file_data := p in
      let p := u64 (p + filesize) in
      let p := align4_ptr p in
      if end_ <? p then mret tt else
      (if initrd_file_count s <? INITRD_MAX_FILES then
         modify (λ s, s <| initrd_files := initrd_files s ++ [InitrdFile name filesize file_data] |>)
       else mret tt) ;;
      initrd_loop fuel p end_
  end.

(** Every round goes on by a header at least. *)
Definition initrd_fuel (start end_ : Z) : nat := S (Z.to_nat ((end_ - start) `div` sizeof_cpio_newc_header)).

Definition initrd_init (start end_ : Z) : M initrd unit :=
  modify (λ s, s <| initrd_files := [] |>) ;;
  kprintf ("[INITRD] dump @%p (first 32 bytes):" +:+ nl) [KInt start] ;;
  for_each (seqZ 0 32) (λ i,
    s ← get ;
    kprintf "%02x " [kint (ld8 (i_mem s) (start + i))]) ;;
  kprintf nl [] ;;
  initrd_loop (initrd_fuel start end_) start end_ ;;
  s ← get ;
  kprintf ("[INITRD] files=%d" +:+ nl) [kint (initrd_file_count s)].

(** The result is a pointer into the table. *)
Definition initrd_find (name : list Z) : M initrd (option nat) :=
  s ← get ;
  mret (fst <$> list_find (λ f, strcmp_simple (i_mem s) (f_name f) name = 0) (initrd_files s)).

Definition initrd_read (f : option initrd_file) (off buf len : Z) : M initrd Z :=
  match f with
  | None => mret 0
  | Some f =>
      if f_size f <=? off then mret 0 else
      let len := if f_size f <? u64 (off + len) then f_size f - off else len in
      let src := f_data f + off in
      for_each (seqZ 0 len) (λ i,
        modify (λ s, s <| i_mem := st8 (i_mem s) (buf + i) (ld8 (i_mem s) (src + i)) |>)) ;;
      mret len
  end.

(** The characters of a string in memory, as [%s] prints them. *)
Fixpoint str_at (fuel : nat) (m : mem) (a : Z) : string :=
  match fuel with
  | O => ""
  | S fuel =>
      if ld8 m a =? 0 then ""
      else String (Ascii.ascii_of_N (Z.to_N (ld8 m a))) (str_at fuel m (a + 1))
  end.

(** [fuel] bounds the length of the names. *)
Definition initrd_list (fuel : nat) : M initrd unit :=
  s ← get ;
  for_each (initrd_files s) (λ f,
    kprintf ("[INITRD] %s (%u bytes)" +:+ nl) [KStr (Some (str_at fuel (i_mem s) (f_name f))); kint (f_size f)]).

(** ** Bytes in memory *)

Definition holds (m : mem) (a : Z) (bs : list Z) : Prop := ld_bytes m a (length bs) = bs.

Lemma ld_bytes_app m a n k : ld_bytes m a (n + k) = ld_bytes m a n ++ ld_bytes m (a + Z.of_nat n) k.
Proof.
  revert a. induction n as [|n IH]; intros a; [by rewrite Z.add_0_r|]. cbn. rewrite IH. do 3 f_equal. lia.
Qed.

Lemma holds_app m a x y : holds m a (x ++ y) ↔ holds m a x ∧ holds m (a + Z.of_nat (length x)) y.
Proof.
  unfold holds. rewrite length_app, ld_bytes_app. split.
  - intros E. apply app_inj_1 in E; [done|]. apply length_ld_bytes.
  - by intros [-> ->].
Qed.

Lemma holds_cons m a c y : holds m a (c :: y) ↔ ld8 m a = c ∧ holds m (a + 1) y.
Proof. unfold holds. cbn. split; [by intros [= -> ->]|by intros [-> ->]]. Qed.

(** ** Numbers *)

(** [printf("%08X")] for [n = 8]. *)
Definition hex_char (d : Z) : Z := if d <? 10 then 48 + d else 55 + d.
Fixpoint hex_chars (n : nat) (v : Z) : list Z :=
  match n with
  | O => []
  | S n => hex_chars n (v `div` 16) ++ [hex_char (v `mod` 16)]
  end.

Lemma length_hex_chars n v : length (hex_chars n v) = n.
Proof. revert v. induction n as [|n IH]; intros v; [done|]. cbn. rewrite length_app, IH. cbn. lia. Qed.

Lemma hex_digit_char d : 0 ≤ d < 16 → hex_digit (hex_char d) = d.
Proof.
  intros Hd. assert (Forall (λ d, hex_digit (hex_char d) = d) (seqZ 0 16)) as Ha by (repeat constructor).
  rewrite Forall_forall in Ha. apply Ha, elem_of_seqZ. lia.
Qed.

Lemma lor_nibble x d : 0 ≤ x < 2 ^ 28 → 0 ≤ d < 16 → Z.lor (u32 (Z.shiftl x 4)) d = x * 16 + d.
Proof.
  intros Hx Hd. rewrite Z.shiftl_mul_pow2 by lia. rewrite u32_id by (unfold is_u32; lia).
  change (2 ^ 4) with 16.
  assert (Z.land (x * 16) d = 0) as H0.
  { apply Z.bits_inj'. intros i Hi. rewrite Z.land_spec, Z.testbit_0_l.
    destruct (decide (i < 4)).
    - change 16 with (2 ^ 4). by rewrite Z.mul_pow2_bits_low.
    - rewrite (testbit_above d 4) by lia. apply andb_false_r. }
  by rewrite <-Z.lxor_lor, <-Z.add_nocarry_lxor.
Qed.

(** Decoding is the inverse of encoding. *)
Lemma hex_roundtrip n v :
  (n ≤ 8)%nat → 0 ≤ v < 16 ^ Z.of_nat n → foldl hex_step 0 (hex_chars n v) = v.
Proof.
  revert v. induction n as [|n IH]; intros v Hn Hv.
  { change (16 ^ Z.of_nat 0) with 1 in Hv. cbn. lia. }
  cbn [hex_chars]. rewrite foldl_app. cbn [foldl]. rewrite Nat2Z.inj_succ, Z.pow_succ_r in Hv by lia.
  pose proof (Z.div_mod v 16). pose proof (Z.mod_pos_bound v 16).
  assert (0 ≤ v `div` 16 < 16 ^ Z.of_nat n) as Hd.
  { split; [apply Z.div_pos; lia|apply Z.div_lt_upper_bound; lia]. }
  rewrite (IH (v `div` 16)) by (done || lia). unfold hex_step. rewrite hex_digit_char by lia.
  rewrite lor_nibble; [lia| |lia]. split; [lia|].
  assert (16 ^ Z.of_nat n ≤ 16 ^ 7) by (apply Z.pow_le_mono_r; lia). change (2 ^ 28) with (16 ^ 7). lia.
Qed.

Lemma hex_step_range v c : is_u32 (hex_step v c).
Proof.
  unfold hex_step, is_u32. apply lor_below; [apply u32_range|]. unfold hex_digit. repeat case_match; lia.
Qed.

Lemma hex8_range m s : is_u32 (hex8_to_u32 m s).
Proof. unfold hex8_to_u32. cbn [ld_bytes foldl]. apply hex_step_range. Qed.

(** ** Strings *)

Definition char (c : Z) : Prop := 0 < c < 256.

Lemma strcmp_simple_spec m a x name :
  holds m a (x ++ [0]) → Forall char x → Forall char name → strcmp_simple m a name = 0 ↔ name = x.
Proof.
  revert a x. induction name as [|c name IH]; intros a x Hm Hx Hn; cbn [strcmp_simple].
  - destruct x as [|d x]; cbn [app] in Hm; apply holds_cons in Hm as [-> _]; [done|].
    apply Forall_cons in Hx as [Hd _]. unfold char in Hd. split; [lia|done].
  - apply Forall_cons in Hn as [Hc Hn]. unfold char in Hc.
    rewrite (proj2 (Z.eqb_neq c 0)) by lia. destruct x as [|d x]; cbn [app] in Hm; apply holds_cons in Hm as [-> Hm].
    + cbn [Z.eqb negb andb]. split; [lia|done].
    + apply Forall_cons in Hx as [Hd Hx]. unfold char in Hd. rewrite (proj2 (Z.eqb_neq d 0)) by lia.
      cbn [negb andb]. destruct (Z.eqb_spec d c) as [->|Hne].
      * rewrite (IH (a + 1) x Hm Hx Hn). split; [by intros ->|by intros [= ->]].
      * split; [lia|]. intros [= -> ->]. done.
Qed.

Lemma memcmp_simple_spec m a x b :
  holds m a x → length x = length b → memcmp_simple m a b = 0 ↔ b = x.
Proof.
  revert a x. induction b as [|c b IH]; intros a [|d x] Hm Hl; cbn [memcmp_simple]; try done.
  apply holds_cons in Hm as [-> Hm]. destruct (Z.eqb_spec d c) as [->|Hne]; cbn [negb].
  - rewrite (IH (a + 1) x Hm) by (cbn in Hl; lia). split; [by intros ->|by intros [= ->]].
  - split; [lia|]. intros [= -> ->]. done.
Qed.

(** ** The archive format *)

Record cpio_file := CpioFile {
  c_name : list Z;
  c_data : list Z;
  c_meta : list Z;    (** inode to modification time *)
  c_dev : list Z;     (** device numbers *)
  c_check : list Z;
}.

Definition padding (n : nat) : list Z := replicate (Z.to_nat ((- Z.of_nat n) `mod` 4)) 0.

Definition header_bytes (f : cpio_file) : list Z :=
  cpio_magic ++ c_meta f ++ hex_chars 8 (Z.of_nat (length (c_data f))) ++ c_dev f ++
  hex_chars 8 (Z.of_nat (length (c_name f)) + 1) ++ c_check f.

(** Header and name, and the contents, each padded to a multiple of four. *)
Definition head_bytes (f : cpio_file) : list Z :=
  let h := header_bytes f ++ c_name f ++ [0] in h ++ padding (length h).
Definition entry_bytes (f : cpio_file) : list Z :=
  head_bytes f ++ c_data f ++ padding (length (c_data f)).


Definition archive (fs : list cpio_file) (last : cpio_file) : list Z :=
  mjoin (entry_bytes <$> fs) ++ head_bytes last.

Record cpio_file_ok (f : cpio_file) : Prop := {
  cf_name : Forall char (c_name f);
  cf_name_len : Z.of_nat (length (c_name f)) + 1 < 2 ^ 32;
  cf_data_len : Z.of_nat (length (c_data f)) < 2 ^ 32;
  cf_meta : length (c_meta f) = 48%nat;
  cf_dev : length (c_dev f) = 32%nat;
  cf_check : length (c_check f) = 8%nat;
}.

(** The table entry of a file whose archive entry is at [p]. *)
Definition entry_at (p : Z) (f : cpio_file) : initrd_file :=
  InitrdFile (p + sizeof_cpio_newc_header) (Z.of_nat (length (c_data f))) (p + Z.of_nat (length (head_bytes f))).

Fixpoint entries_at (p : Z) (fs : list cpio_file) : list initrd_file :=
  match fs with
  | [] => []
  | f :: fs => entry_at p f :: entries_at (p + Z.of_nat (length (entry_bytes f))) fs
  end.

Lemma length_padding n : (Z.of_nat n + Z.of_nat (length (padding n))) `mod` 4 = 0 ∧ (length (padding n) < 4)%nat.
Proof.
  unfold padding. rewrite length_replicate. pose proof (Z.mod_pos_bound (- Z.of_nat n) 4).
  split; [|lia]. rewrite Z2Nat.id by lia. rewrite Zplus_mod_idemp_r, Z.add_opp_diag_r. done.
Qed.

(** Rounding an address up is skipping the padding. *)
Lemma align4_ptr_padding p n :
  0 ≤ p → p `mod` 4 = 0 → p + Z.of_nat n + 3 < 2 ^ 64 →
  align4_ptr (p + Z.of_nat n) = p + Z.of_nat n + Z.of_nat (length (padding n)).
Proof.
  intros Hp Hp4 Hlt. unfold align4_ptr. rewrite u64_id by (unfold is_u64; lia).
  change 3 with (2 ^ 2 - 1) at 2. rewrite land_not64_ones by (unfold is_u64; lia). change (2 ^ 2) with 4.
  destruct (length_padding n) as [Hm Hl]. rewrite Nat2Z.inj_lt in Hl.
  pose proof (Z.div_mod (p + Z.of_nat n + 3) 4). pose proof (Z.mod_pos_bound (p + Z.of_nat n + 3) 4).
  pose proof (Z.div_mod p 4). pose proof (Z.div_mod (Z.of_nat n + Z.of_nat (length (padding n))) 4). lia.
Qed.

Lemma align4_ptr_bounds x : 0 ≤ x → x + 3 < 2 ^ 64 → x ≤ align4_ptr x < x + 4.
Proof.
  intros Hx Hlt. unfold align4_ptr. rewrite u64_id by (unfold is_u64; lia).
  change 3 with (2 ^ 2 - 1) at 2 4. rewrite land_not64_ones by (unfold is_u64; lia). change (2 ^ 2) with 4.
  pose proof (Z.div_mod (x + 3) 4). pose proof (Z.mod_pos_bound (x + 3) 4). lia.
Qed.

Section header.
Context (m : mem) (p : Z) (f : cpio_file).
Hypothesis (Hf : cpio_file_ok f) (Hm : holds m p (head_bytes f)).

Lemma length_header : length (header_bytes f) = 110%nat.
Proof.
  destruct Hf. unfold header_bytes. rewrite !length_app, !length_hex_chars. cbn [length cpio_magic]. lia.
Qed.

Lemma length_head :
  Z.of_nat (length (head_bytes f)) =
    111 + Z.of_nat (length (c_name f)) + Z.of_nat (length (padding (111 + length (c_name f)))).
Proof.
  unfold head_bytes. cbv zeta. rewrite !length_app, length_header. cbn [length].
  replace (110 + (length (c_name f) + 1))%nat with (111 + length (c_name f))%nat by lia. lia.
Qed.

(** What the parser reads from a header. *)
Lemma header_reads :
  bad_magic m p = false ∧
  hex8_to_u32 m (p + off_filesize) = Z.of_nat (length (c_data f)) ∧
  hex8_to_u32 m (p + off_namesize) = Z.of_nat (length (c_name f)) + 1 ∧
  holds m (p + sizeof_cpio_newc_header) (c_name f ++ [0]).
Proof.
  destruct Hf as [Hn Hnl Hdl Hmeta Hdev Hck].
  pose proof Hm as H1. unfold head_bytes in H1. cbv zeta in H1.
  apply holds_app in H1 as [H1 _]. apply holds_app in H1 as [H1 Hname]. rewrite length_header in Hname.
  unfold header_bytes in H1.
  apply holds_app in H1 as [Hmagic H1]. apply holds_app in H1 as [_ H1]. apply holds_app in H1 as [Hfs H1].
  apply holds_app in H1 as [_ H1]. apply holds_app in H1 as [Hns _].
  rewrite Hmeta, Hdev, !length_hex_chars in *. cbn [length cpio_magic] in *.
  split_and!.
  - unfold cpio_magic in Hmagic. rewrite !holds_cons in Hmagic.
    replace (p + 1 + 1) with (p + 2) in Hmagic by lia. replace (p + 2 + 1) with (p + 3) in Hmagic by lia.
    replace (p + 3 + 1) with (p + 4) in Hmagic by lia. replace (p + 4 + 1) with (p + 5) in Hmagic by lia.
    destruct Hmagic as (E0 & E1 & E2 & E3 & E4 & E5 & _). unfold bad_magic. by rewrite E0, E1, E2, E3, E4, E5.
  - unfold hex8_to_u32, off_filesize. unfold holds in Hfs. rewrite length_hex_chars in Hfs.
    replace (p + 54) with (p + Z.of_nat 6 + Z.of_nat 48) by lia. rewrite Hfs. apply hex_roundtrip; [lia|].
    change (16 ^ Z.of_nat 8) with (2 ^ 32). lia.
  - unfold hex8_to_u32, off_namesize. unfold holds in Hns. rewrite length_hex_chars in Hns.
    replace (p + 94) with (p + Z.of_nat 6 + Z.of_nat 48 + Z.of_nat 8 + Z.of_nat 32) by lia.
    rewrite Hns. apply hex_roundtrip; [lia|]. change (16 ^ Z.of_nat 8) with (2 ^ 32). lia.
  - exact Hname.
Qed.
End header.

(** ** Parsing *)

Definition add_file (e : initrd_file) (s : initrd) : initrd :=
  if initrd_file_count s <? INITRD_MAX_FILES
  then s <| initrd_files := initrd_files s ++ [e] |> else s.

(** One round, for any memory. *)
Lemma loop_unfold fuel p end_ s :
  u64 (p + sizeof_cpio_newc_header) ≤ end_ →
  result (initrd_loop (S fuel) p end_) s =
    let m := i_mem s in
    if bad_magic m p then Some (tt, s) else
    let namesize := hex8_to_u32 m (p + off_namesize) in
    let filesize := hex8_to_u32 m (p + off_filesize) in
    let name := u64 (p + sizeof_cpio_newc_header) in
    if (namesize =? 11) && (memcmp_simple m name trailer_name =? 0) then Some (tt, s) else
    let data := align4_ptr (u64 (name + namesize)) in
    let next := align4_ptr (u64 (data + filesize)) in
    if end_ <? next then Some (tt, s) else
    result (initrd_loop fuel next end_) (add_file (InitrdFile name filesize data) s).
Proof.
  intros Hp. cbn [initrd_loop]. rewrite (proj2 (Z.leb_le _ _) Hp). cbn [negb]. rewrite result_bind, result_get.
  cbv zeta. destruct (bad_magic _ _); [done|]. destruct (_ && _); [done|]. destruct (_ <? _); [done|].
  rewrite result_bind. unfold add_file. by destruct (_ <? _).
Qed.

Lemma loop_entry fuel p end_ f s :
  cpio_file_ok f → c_name f ≠ trailer_name → holds (i_mem s) p (entry_bytes f) →
  0 ≤ p → p `mod` 4 = 0 → p + Z.of_nat (length (entry_bytes f)) ≤ end_ → end_ < 2 ^ 63 →
  result (initrd_loop (S fuel) p end_) s =
  result (initrd_loop fuel (p + Z.of_nat (length (entry_bytes f))) end_) (add_file (entry_at p f) s).
Proof.
  intros Hf Htr Hm Hp Hp4 Hend Hmax. unfold entry_bytes in Hm. apply holds_app in Hm as [Hh _].
  destruct (header_reads _ p f Hf Hh) as (Hmagic & Hfs & Hns & Hname).
  pose proof (length_head f Hf) as Hlh. pose proof (cf_name_len f Hf). pose proof (cf_data_len f Hf).
  assert (Hle : length (entry_bytes f) = (length (head_bytes f) + (length (c_data f) + length (padding (length (c_data f)))))%nat).
  { unfold entry_bytes. by rewrite !length_app. }
  rewrite Hle in Hend |- *. unfold sizeof_cpio_newc_header in *.
  rewrite loop_unfold by (unfold sizeof_cpio_newc_header; rewrite u64_id; [lia|unfold is_u64; lia]).
  cbv zeta. unfold sizeof_cpio_newc_header. rewrite Hmagic, Hfs, Hns.
  rewrite (u64_id (p + 110)) by (unfold is_u64; lia).
  assert ((Z.of_nat (length (c_name f)) + 1 =? 11) && (memcmp_simple (i_mem s) (p + 110) trailer_name =? 0) = false) as ->.
  { destruct (Z.eqb_spec (Z.of_nat (length (c_name f)) + 1) 11); [|done]. apply holds_app in Hname as [Hname _].
    cbn [andb]. apply Z.eqb_neq. rewrite (memcmp_simple_spec _ _ (c_name f)); [congruence|exact Hname|cbn; lia]. }
  assert (align4_ptr (u64 (p + 110 + (Z.of_nat (length (c_name f)) + 1))) = p + Z.of_nat (length (head_bytes f))) as ->.
  { rewrite Hlh, u64_id by (unfold is_u64; lia).
    replace (p + 110 + (Z.of_nat (length (c_name f)) + 1)) with (p + Z.of_nat (111 + length (c_name f))) by lia.
    rewrite align4_ptr_padding by lia. lia. }
  assert (align4_ptr (u64 (p + Z.of_nat (length (head_bytes f)) + Z.of_nat (length (c_data f)))) =
    p + Z.of_nat (length (head_bytes f) + (length (c_data f) + length (padding (length (c_data f)))))) as ->.
  { rewrite u64_id by (unfold is_u64; lia).
    assert ((p + Z.of_nat (length (head_bytes f))) `mod` 4 = 0).
    { destruct (length_padding (111 + length (c_name f))) as [Hpm _]. rewrite Hlh.
      rewrite Z.add_mod, Hp4 by lia. rewrite Nat2Z.inj_add in Hpm. change (Z.of_nat 111) with 111 in Hpm. by rewrite Hpm. }
    rewrite align4_ptr_padding by lia. lia. }
  rewrite (proj2 (Z.ltb_ge _ _)) by lia. done.
Qed.

Lemma loop_trailer fuel p end_ f s :
  cpio_file_ok f → c_name f = trailer_name → holds (i_mem s) p (head_bytes f) →
  0 ≤ p → p + 110 ≤ end_ → end_ < 2 ^ 63 →
  result (initrd_loop (S fuel) p end_) s = Some (tt, s).
Proof.
  intros Hf Htr Hh Hp Hend Hmax. destruct (header_reads _ p f Hf Hh) as (Hmagic & _ & Hns & Hname).
  rewrite loop_unfold by (unfold sizeof_cpio_newc_header; rewrite u64_id; [lia|unfold is_u64; lia]).
  cbv zeta. rewrite Hmagic, Hns, Htr. change (Z.of_nat (length trailer_name) + 1) with 11.
  apply holds_app in Hname as [Hname _]. rewrite Htr in Hname.
  rewrite u64_id by (unfold is_u64, sizeof_cpio_newc_header; lia).
  rewrite (proj2 (memcmp_simple_spec _ _ _ trailer_name Hname eq_refl) eq_refl). done.
Qed.

(** At most [INITRD_MAX_FILES] entries are kept. *)
Definition add_files (es : list initrd_file) (s : initrd) : initrd := foldl (λ s e, add_file e s) s es.

Lemma add_files_spec es s :
  (length (initrd_files s) ≤ 128)%nat →
  i_mem (add_files es s) = i_mem s ∧ initrd_files (add_files es s) = take 128 (initrd_files s ++ es).
Proof.
  revert s. induction es as [|e es IH]; intros s Hs.
  { cbn. rewrite app_nil_r, take_ge by done. done. }
  cbn [add_files foldl]. unfold add_file at 2 4, initrd_file_count, INITRD_MAX_FILES.
  destruct (Z.ltb_spec (Z.of_nat (length (initrd_files s))) 128).
  - fold (add_files es (s <| initrd_files := initrd_files s ++ [e] |>)).
    destruct (IH (s <| initrd_files := initrd_files s ++ [e] |>)) as [-> ->].
    { cbn. rewrite length_app. cbn. lia. }
    cbn. split; [done|]. by rewrite <-app_assoc.
  - fold (add_files es s). destruct (IH s Hs) as [-> ->]. split; [done|].
    assert (length (initrd_files s) = 128%nat) as Hl by lia.
    by rewrite !take_app_le by lia.
Qed.

Lemma loop_archive fs last fuel p end_ s :
  Forall cpio_file_ok fs → Forall (λ f, c_name f ≠ trailer_name) fs →
  cpio_file_ok last → c_name last = trailer_name →
  holds (i_mem s) p (archive fs last) → 0 ≤ p → p `mod` 4 = 0 →
  p + Z.of_nat (length (archive fs last)) ≤ end_ → end_ < 2 ^ 63 → (length fs < fuel)%nat →
  result (initrd_loop fuel p end_) s = Some (tt, add_files (entries_at p fs) s).
Proof.
  intros Hfs Htr Hl Hlt. revert fuel p s. induction fs as [|f fs IH]; intros [|fuel] p s Hm Hp Hp4 Hend Hmax Hfuel;
    try (cbn in Hfuel; lia).
  - unfold archive in *. cbn [fmap list_fmap mjoin list_join app] in *.
    pose proof (length_head last Hl) as Hlh. apply (loop_trailer _ _ _ last); [done..|lia|done].
  - apply Forall_cons in Hfs as [Hf Hfs]. apply Forall_cons in Htr as [Htf Htr].
    assert (Har : archive (f :: fs) last = entry_bytes f ++ archive fs last).
    { unfold archive. cbn. by rewrite <-app_assoc. }
    rewrite Har, length_app in Hend. rewrite Har in Hm. apply holds_app in Hm as [Hmf Hm].
    rewrite (loop_entry fuel p end_ f s) by (done || lia). cbn [entries_at add_files foldl].
    apply (IH Hfs Htr); [|lia| |lia|done|cbn in Hfuel; lia].
    + unfold add_file. by destruct (_ <? _).
    + pose proof (length_head f Hf) as Hlh. destruct (length_padding (111 + length (c_name f))) as [H1 _].
      destruct (length_padding (length (c_data f))) as [H2 _].
      unfold entry_bytes. rewrite !length_app, !Nat2Z.inj_add, Hlh.
      pose proof (Z.div_mod p 4). rewrite Nat2Z.inj_add in H1. change (Z.of_nat 111) with 111 in H1.
      revert H1 H2. generalize (Z.of_nat (length (c_name f))) (Z.of_nat (length (padding (111 + length (c_name f)))))
        (Z.of_nat (length (c_data f))) (Z.of_nat (length (padding (length (c_data f))))). intros a b c d H1 H2.
      replace (p + (111 + a + b + (c + d))) with (p + (111 + a + b) + (c + d)) by lia.
      rewrite Z.add_mod, H2, (Z.add_mod p), Hp4, H1 by lia. done.
Qed.

(** The entry leads to the name and the contents of the file. *)
Definition leads_to (m : mem) (e : initrd_file) (f : cpio_file) : Prop :=
  (∀ name, Forall char name → strcmp_simple m (f_name e) name = 0 ↔ name = c_name f) ∧
  f_size e = Z.of_nat (length (c_data f)) ∧ holds m (f_data e) (c_data f).

Lemma entries_lead m fs rest p :
  Forall cpio_file_ok fs → holds m p (mjoin (entry_bytes <$> fs) ++ rest) →
  Forall2 (leads_to m) (entries_at p fs) fs.
Proof.
  intros Hfs. revert p. induction Hfs as [|f fs Hf Hfs IH]; intros p Hm; [constructor|].
  change (mjoin (entry_bytes <$> f :: fs)) with (entry_bytes f ++ mjoin (entry_bytes <$> fs)) in Hm.
  rewrite <-app_assoc in Hm. apply holds_app in Hm as [Hmf Hm]. constructor; [|by apply IH].
  unfold entry_bytes in Hmf. apply holds_app in Hmf as [Hh Hd]. apply holds_app in Hd as [Hd _].
  destruct (header_reads m p f Hf Hh) as (_ & _ & _ & Hname). split_and!; [|done|exact Hd].
  intros name Hn. apply strcmp_simple_spec; [exact Hname|apply Hf|done].
Qed.

Lemma length_entries_at p fs : length (entries_at p fs) = length fs.
Proof. revert p. induction fs as [|f fs IH]; intros p; [done|]. cbn. by rewrite IH. Qed.

(** [initrd_init] is its loop, on an empty table. *)
Lemma initrd_init_run start end_ s :
  result (initrd_init start end_) s =
  result (initrd_loop (initrd_fuel start end_) start end_) (s <| initrd_files := [] |>).
Proof.
  unfold initrd_init. rewrite result_bind, result_modify, result_bind, result_kprintf, result_bind.
  assert (∀ l (t : initrd), result (for_each l (λ i, s ← get ; kprintf "%02x " [kint (ld8 (i_mem s) (start + i))])) t = Some (tt, t)) as ->.
  { induction l as [|i l IH]; intros t; [done|]. by rewrite result_for_each_cons, result_bind, result_get, result_kprintf, IH. }
  rewrite result_bind, result_kprintf, result_bind.
  destruct (result (initrd_loop _ _ _) _) as [[[] s']|]; [|done]. by rewrite result_bind, result_get, result_kprintf.
Qed.

Lemma archive_fuel fs last start end_ :
  Forall cpio_file_ok fs → start + Z.of_nat (length (archive fs last)) ≤ end_ →
  (length fs < initrd_fuel start end_)%nat.
Proof.
  intros Hfs Hend.
  assert (110 * Z.of_nat (length fs) ≤ Z.of_nat (length (archive fs last))) as Hlen.
  { unfold archive. rewrite length_app. clear Hend. induction Hfs as [|f fs Hf Hfs IH]; [cbn; lia|].
    assert (110 ≤ Z.of_nat (length (entry_bytes f))) as He.
    { pose proof (length_head f Hf). unfold entry_bytes. rewrite length_app. lia. }
    change (mjoin (entry_bytes <$> f :: fs)) with (entry_bytes f ++ mjoin (entry_bytes <$> fs)).
    rewrite length_app. cbn [length]. lia. }
  unfold initrd_fuel, sizeof_cpio_newc_header.
  assert (Z.of_nat (length fs) ≤ (end_ - start) `div` 110) by (apply Z.div_le_lower_bound; lia). lia.
Qed.

Section archive.
Context (s : initrd) (fs : list cpio_file) (last : cpio_file) (start end_ : Z).

(** An archive at a word boundary, inside the range that is parsed. *)
Record archive_at : Prop := {
  aa_files : Forall cpio_file_ok fs;
  aa_names : Forall (λ f, c_name f ≠ trailer_name) fs;
  aa_last : cpio_file_ok last ∧ c_name last = trailer_name;
  aa_holds : holds (i_mem s) start (archive fs last);
  aa_start : 0 ≤ start ∧ start `mod` 4 = 0;
  aa_end : start + Z.of_nat (length (archive fs last)) ≤ end_ < 2 ^ 63;
}.

Lemma initrd_init_files :
  archive_at →
  ∃ s', result (initrd_init start end_) s = Some (tt, s') ∧ i_mem s' = i_mem s ∧
    Forall2 (leads_to (i_mem s)) (initrd_files s') (take 128 fs).
Proof.
  intros [Hfs Hn [Hl Hlt] Hm [Hs Hs4] [He Hmax]]. rewrite initrd_init_run.
  rewrite (loop_archive fs last) by (done || by eapply archive_fuel).
  destruct (add_files_spec (entries_at start fs) (s <| initrd_files := [] |>)) as [H1 H2]; [cbn; lia|].
  eexists. split; [done|]. rewrite H1, H2. split; [done|]. cbn [app initrd_files setter].
  apply Forall2_take. eapply entries_lead; [done|exact Hm].
Qed.
End archive.

Lemma list_find_forall2 {A B} (P : A → Prop) (Q : B → Prop) `{∀ x, Decision (P x), ∀ x, Decision (Q x)} (R : A → B → Prop) l k :
  Forall2 R l k → (∀ x y, R x y → P x ↔ Q y) → fst <$> list_find P l = fst <$> list_find Q k.
Proof.
  intros Hl HR. induction Hl as [|x y l k Hxy Hl IH]; [done|]. cbn. apply HR in Hxy.
  destruct (decide (P x)), (decide (Q y)); [done|tauto|tauto|].
  destruct (list_find P l) as [[]|], (list_find Q k) as [[]|]; cbn in *; congruence.
Qed.

(** ** Theorems *)

(** C16: round trip. Parsing an archive that lies in memory fills the table, in
    order, with its files (the first 128 of them): each entry points to the name
    of its file, as [strcmp_simple] reads it, and to its contents. *)
Theorem initrd_init_roundtrip s fs last start end_ :
  archive_at s fs last start end_ →
  ∃ s', result (initrd_init start end_) s = Some (tt, s') ∧ i_mem s' = i_mem s ∧
    length (initrd_files s') = Nat.min 128 (length fs) ∧
    ∀ i e, initrd_files s' !! i = Some e →
      ∃ f, fs !! i = Some f ∧
        (∀ name, Forall char name → strcmp_simple (i_mem s) (f_name e) name = 0 ↔ name = c_name f) ∧
        ld_bytes (i_mem s) (f_data e) (Z.to_nat (f_size e)) = c_data f.
Proof.
  intros Ha. destruct (initrd_init_files _ _ _ _ _ Ha) as (s' & E & Hm & Hall). exists s'. split_and!; [done|done| |].
  - rewrite (Forall2_length _ _ _ Hall). apply length_take.
  - intros i e He. destruct (Forall2_lookup_l _ _ _ _ _ Hall He) as (f & Hf & Hname & Hsize & Hd).
    rewrite lookup_take_Some in Hf. exists f. split_and!; [tauto|done|]. rewrite Hsize, Nat2Z.id. exact Hd.
Qed.

(** [initrd_find] on the table that [initrd_init] built is the search for
    the first file of that name in the archive; it fails exactly when there is
    none. *)
Theorem initrd_find_refines s fs last start end_ name :
  archive_at s fs last start end_ → Forall char name →
  ∃ s', result (initrd_init start end_ ;; initrd_find name) s =
    Some (fst <$> list_find (λ f, c_name f = name) (take 128 fs), s').
Proof.
  intros Ha Hn. destruct (initrd_init_files _ _ _ _ _ Ha) as (s' & E & Hm & Hall). exists s'.
  rewrite result_bind, E. unfold initrd_find. rewrite result_bind, result_get, result_ret. do 2 f_equal. rewrite Hm.
  apply (list_find_forall2 _ _ _ _ _ Hall). intros e f (Hname & _). rewrite (Hname name Hn). split; congruence.
Qed.

(** The entries whose file lies between [start] and [end_]. *)
Definition inside (start end_ : Z) (e : initrd_file) : Prop :=
  start < f_name e ≤ f_data e ∧ 0 ≤ f_size e ∧ f_data e + f_size e ≤ end_.

Lemma loop_safe start fuel p end_ s :
  start ≤ p → 0 ≤ start → end_ < 2 ^ 63 → p < end_ + 2 ^ 34 → end_ - p < 110 * Z.of_nat fuel →
  (length (initrd_files s) ≤ 128)%nat → Forall (inside start end_) (initrd_files s) →
  ∃ s', result (initrd_loop fuel p end_) s = Some (tt, s') ∧ i_mem s' = i_mem s ∧
    (length (initrd_files s') ≤ 128)%nat ∧ Forall (inside start end_) (initrd_files s').
Proof.
  intros Hsp Hs Hmax Hp. revert p s Hsp Hp. induction fuel as [|fuel IH]; intros p s Hsp Hp Hfuel Hlen Hall.
  - cbn [initrd_loop]. unfold sizeof_cpio_newc_header. rewrite u64_id by (unfold is_u64; lia).
    rewrite (proj2 (Z.leb_gt _ _)) by lia. by exists s.
  - destruct (decide (p + 110 ≤ end_)) as [Hle|Hgt].
    2:{ cbn [initrd_loop]. unfold sizeof_cpio_newc_header. rewrite u64_id by (unfold is_u64; lia).
        rewrite (proj2 (Z.leb_gt _ _)) by lia. by exists s. }
    pose proof (hex8_range (i_mem s) (p + off_namesize)) as Hns. pose proof (hex8_range (i_mem s) (p + off_filesize)) as Hfs.
    unfold is_u32 in *. unfold sizeof_cpio_newc_header in *.
    rewrite loop_unfold by (unfold sizeof_cpio_newc_header; rewrite u64_id; [lia|unfold is_u64; lia]).
    cbv zeta. unfold sizeof_cpio_newc_header. rewrite (u64_id (p + 110)) by (unfold is_u64; lia).
    destruct (bad_magic _ _); [by exists s|]. destruct (_ && _); [by exists s|].
    rewrite (u64_id (p + 110 + _)) by (unfold is_u64; lia).
    pose proof (align4_ptr_bounds (p + 110 + hex8_to_u32 (i_mem s) (p + off_namesize))) as Hdata.
    set (data := align4_ptr _) in *. rewrite (u64_id (data + _)) by (unfold is_u64; lia).
    pose proof (align4_ptr_bounds (data + hex8_to_u32 (i_mem s) (p + off_filesize))) as Hnext.
    set (next := align4_ptr (data + _)) in *.
    destruct (Z.ltb_spec end_ next); [by exists s|].
    set (e := InitrdFile _ _ _).
    destruct (IH next (add_file e s)) as (s' & E & Hm & Hl' & Hall'); [lia|lia|lia|..].
    { unfold add_file, initrd_file_count, INITRD_MAX_FILES. destruct (Z.ltb_spec (Z.of_nat (length (initrd_files s))) 128); [|done].
      cbn. rewrite length_app. cbn. lia. }
    { unfold add_file. destruct (_ <? _); [|done]. cbn. apply Forall_app. split; [done|].
      apply Forall_singleton. unfold inside, e. cbn [f_name f_size f_data]. lia. }
    exists s'. split_and!; [done| |done|done]. rewrite Hm. unfold add_file. by destruct (_ <? _).
Qed.

Lemma initrd_init_any s start end_ :
  0 ≤ start → start < end_ + 2 ^ 34 → end_ < 2 ^ 63 →
  ∃ s', result (initrd_init start end_) s = Some (tt, s') ∧ i_mem s' = i_mem s ∧
    (length (initrd_files s') ≤ 128)%nat ∧ Forall (inside start end_) (initrd_files s').
Proof.
  intros Hs Hse Hmax. rewrite initrd_init_run.
  change (i_mem s) with (i_mem (s <| initrd_files := [] |>)).
  apply (loop_safe start _ start end_ (s <| initrd_files := [] |>)); [lia|lia|lia|lia| |cbn; lia|constructor].
  unfold initrd_fuel, sizeof_cpio_newc_header. rewrite Nat2Z.inj_succ.
  pose proof (Z.div_mod (end_ - start) 110). pose proof (Z.mod_pos_bound (end_ - start) 110). lia.
Qed.

(** C36: safety on any input. Whatever bytes the range holds, [initrd_init]
    returns, keeps at most 128 entries, and every entry's contents lie inside
    the range it was given. *)
Theorem initrd_init_safe s start end_ :
  0 ≤ start → start < end_ + 2 ^ 34 → end_ < 2 ^ 63 →
  ∃ s', result (initrd_init start end_) s = Some (tt, s') ∧ i_mem s' = i_mem s ∧
    (length (initrd_files s') ≤ 128)%nat ∧ Forall (inside start end_) (initrd_files s').
Proof. apply initrd_init_any. Qed.

(** [initrd_read] copies the part of the file that [off] and [len] select,
    cut off at its end, and returns its length; nothing else in memory changes.
    The addition [off + len] must not wrap. *)
Theorem initrd_read_spec s f off buf len :
  0 ≤ off → 0 ≤ len → off + len < 2 ^ 64 → mem_wf (i_mem s) →
  buf + len ≤ f_data f ∨ f_data f + f_size f ≤ buf →
  let n := Z.max 0 (Z.min len (f_size f - off)) in
  ∃ s', result (initrd_read (Some f) off buf len) s = Some (n, s') ∧ initrd_files s' = initrd_files s ∧
    ld_bytes (i_mem s') buf (Z.to_nat n) = ld_bytes (i_mem s) (f_data f + off) (Z.to_nat n) ∧
    ∀ a, a < buf ∨ buf + n ≤ a → ld8 (i_mem s') a = ld8 (i_mem s) a.
Proof.
  intros Ho Hl Hw Hwf Hdis n. unfold initrd_read. destruct (Z.leb_spec (f_size f) off) as [Hsz|Hsz].
  { exists s. assert (n = 0) as -> by lia. by split_and!. }
  rewrite (u64_id (off + len)) by (unfold is_u64; lia).
  assert ((if f_size f <? off + len then f_size f - off else len) = n) as ->.
  { destruct (Z.ltb_spec (f_size f) (off + len)); lia. }
  rewrite result_bind.
  rewrite (result_for_each_modify (seqZ 0 n) (λ i s, s <| i_mem := st8 (i_mem s) (buf + i) (ld8 (i_mem s) (f_data f + off + i)) |>)).
  set (cp := λ (s : initrd) i, s <| i_mem := st8 (i_mem s) (buf + i) (ld8 (i_mem s) (f_data f + off + i)) |>).
  assert (Hc : ∀ k, Z.of_nat k ≤ n → let s' := foldl cp s (seqZ 0 (Z.of_nat k)) in
    initrd_files s' = initrd_files s ∧
    ∀ a, ld8 (i_mem s') a = if decide (buf ≤ a < buf + Z.of_nat k) then ld8 (i_mem s) (f_data f + off + (a - buf))
                            else ld8 (i_mem s) a).
  { induction k as [|k IH]; intros Hk.
    { split; [done|]. intros a. by rewrite decide_False by lia. }
    rewrite seqZ_S, foldl_app. destruct IH as [H1 H2]; [lia|]. cbn [foldl]. cbn zeta in *.
    set (s1 := foldl cp s (seqZ 0 (Z.of_nat k))) in *. split; [exact H1|]. intros a.
    change (ld8 (st8 (i_mem s1) (buf + (0 + Z.of_nat k)) (ld8 (i_mem s1) (f_data f + off + (0 + Z.of_nat k)))) a =
      if decide (buf ≤ a < buf + Z.of_nat (S k)) then ld8 (i_mem s) (f_data f + off + (a - buf)) else ld8 (i_mem s) a).
    destruct (decide (a = buf + (0 + Z.of_nat k))) as [->|Hne].
    - rewrite ld8_st8, H2, decide_False, decide_True by lia. rewrite u8_id by apply Hwf. f_equal. lia.
    - rewrite ld8_st8_ne, H2 by done. apply decide_ext. lia. }
  destruct (Hc (Z.to_nat n)) as [H1 H2]; [lia|]. rewrite Z2Nat.id in H1, H2 by lia.
  exists (foldl cp s (seqZ 0 n)). split_and!; [done|done| |].
  - apply (list_eq_same_length _ _ (Z.to_nat n)); [apply length_ld_bytes..|].
    intros i x y Hi. rewrite !lookup_ld_bytes by done. intros [= <-] [= <-].
    rewrite H2, decide_True by lia. f_equal. lia.
  - intros a Ha. by rewrite H2, decide_False by lia.
Qed.

(** ** Witnesses *)

Definition demo_file (name data : list Z) : cpio_file :=
  CpioFile name data (replicate 48 48) (replicate 32 48) (replicate 8 48).
Definition demo_files : list cpio_file :=
  [demo_file [97] [1; 2; 3]; demo_file [98; 105; 110; 47; 115; 104] [127; 69; 76; 70; 2]].
Definition demo_last : cpio_file := demo_file trailer_name [].
Definition demo_initrd : initrd := Initrd (st_bytes ∅ 0x1000 (archive demo_files demo_last)) [].

Lemma demo_file_ok f : f ∈ [demo_last] ++ demo_files → cpio_file_ok f.
Proof.
  intros Hf. repeat (apply elem_of_cons in Hf as [->|Hf]; [split; [|done..]; repeat constructor|]); by apply elem_of_nil in Hf.
Qed.

Lemma demo_archive : archive_at demo_initrd demo_files demo_last 0x1000 0x2000.
Proof.
  split.
  - apply Forall_forall. intros f Hf. apply demo_file_ok. by apply elem_of_app; right.
  - repeat constructor; discriminate.
  - split; [|done]. apply demo_file_ok. by left.
  - unfold holds. vm_compute. reflexivity.
  - done.
  - apply (bool_decide_unpack (_ ≤ _ < _)). vm_compute. reflexivity.
Qed.

Lemma initrd_init_roundtrip_witness :
  ∃ s', result (initrd_init 0x1000 0x2000) demo_initrd = Some (tt, s') ∧ i_mem s' = i_mem demo_initrd ∧
    length (initrd_files s') = 2%nat ∧
    ∀ i e, initrd_files s' !! i = Some e →
      ∃ f, demo_files !! i = Some f ∧
        (∀ name, Forall char name → strcmp_simple (i_mem demo_initrd) (f_name e) name = 0 ↔ name = c_name f) ∧
        ld_bytes (i_mem demo_initrd) (f_data e) (Z.to_nat (f_size e)) = c_data f.
Proof. exact (initrd_init_roundtrip demo_initrd demo_files demo_last 0x1000 0x2000 demo_archive). Defined.

Lemma initrd_find_refines_witness :
  ∃ s', result (initrd_init 0x1000 0x2000 ;; initrd_find [98; 105; 110; 47; 115; 104]) demo_initrd = Some (Some 1%nat, s').
Proof.
  apply (initrd_find_refines demo_initrd demo_files demo_last 0x1000 0x2000 [98; 105; 110; 47; 115; 104] demo_archive).
  repeat constructor.
Defined.

Lemma initrd_init_safe_witness :
  ∃ s', result (initrd_init 0x1000 0x1100) demo_initrd = Some (tt, s') ∧ i_mem s' = i_mem demo_initrd ∧
    (length (initrd_files s') ≤ 128)%nat ∧ Forall (inside 0x1000 0x1100) (initrd_files s').
Proof. apply (initrd_init_safe demo_initrd 0x1000 0x1100); lia. Defined.

Lemma initrd_read_spec_witness :
  ∃ s', result (initrd_read (Some (InitrdFile 0x10EE 5 0x10F8)) 1 0x3000 100) demo_initrd = Some (4, s') ∧
    initrd_files s' = [] ∧
    ld_bytes (i_mem s') 0x3000 4 = ld_bytes (i_mem demo_initrd) 0x10F9 4 ∧
    ∀ a, a < 0x3000 ∨ 0x3000 + 4 ≤ a → ld8 (i_mem s') a = ld8 (i_mem demo_initrd) a.
Proof.
  apply (initrd_read_spec demo_initrd (InitrdFile 0x10EE 5 0x10F8) 1 0x3000 100); [lia|lia|lia| |right; cbn; lia].
  apply mem_wf_st_bytes, mem_wf_empty.
Defined.
