(* ===== verification/Elf.v ===== *)
(** * Elf: loading a program from the initrd
    (kernel/elf_loader.c, include/elf64.h)

    The loader copies segments to the addresses they ask for and maps frames
    behind them.  [load_image] is what that does to memory, as a function of the
    program headers; the theorems say when the loader gets that far, and that on
    any bytes at all it stops and leaves the rest of the kernel alone. *)

From S2P Require Import Prelude Effects Interfaces Memory Types Pmm Vmm Kernel Initrd.

(** ** The kernel with the table of files *)

Record system := System {
  s_kernel : kernel;
  s_files : list initrd_file;
}.
#[export] Instance eta_system : Eta system := λ s, System (s_kernel s) (s_files s).

#[export] Program Instance lens_system_kernel : Lens system kernel := {|
  view := s_kernel;
  put k s := s <| s_kernel := k |>;
|}.
Solve Obligations with (by intros []).

#[export] Program Instance lens_system_initrd : Lens system initrd := {|
  view s := Initrd (k_mem (s_kernel s)) (s_files s);
  put i s := s <| s_kernel := (s_kernel s) <| k_mem := i_mem i |> |> <| s_files := initrd_files i |>;
|}.
Next Obligation. by intros [] []. Qed.
Next Obligation. by intros [[]]. Qed.
Next Obligation. by intros ? ? []. Qed.

#[export] Program Instance lens_system_vmm : Lens system vmm := {|
  view s := k_vmm (s_kernel s);
  put v s := s <| s_kernel := (s_kernel s) <| k_vmm := v |> |>;
|}.
Next Obligation. done. Qed.
Next Obligation. by intros [[]]. Qed.
Next Obligation. by intros ? ? [[]]. Qed.

#[export] Program Instance lens_system_pmm : Lens system pmm := {|
  view s := v_pmm (k_vmm (s_kernel s));
  put p s := s <| s_kernel := (s_kernel s) <| k_vmm := (k_vmm (s_kernel s)) <| v_pmm := p |> |> |>;
|}.
Next Obligation. done. Qed.
Next Obligation. by intros [[? [] ]]. Qed.
Next Obligation. by intros ? ? [[? [] ]]. Qed.

Definition s_mem (s : system) : mem := k_mem (s_kernel s).
Definition set_mem (m : mem) (s : system) : system := s <| s_kernel := (s_kernel s) <| k_mem := m |> |>.

(** ** The file format *)

Definition ELF_MAGIC : Z := 0x464C457F.
Definition ELFCLASS64 : Z := 2.
Definition ELFDATA2LSB : Z := 1.
Definition EM_X86_64 : Z := 62.
Definition PT_LOAD : Z := 1.
Definition sizeof_ehdr : Z := 64.
Definition sizeof_phdr : Z := 56.

(** The fields of the header at [a] that are read. *)
Definition e_magic (m : mem) (a : Z) : Z := ld32 m a.
Definition e_ident (m : mem) (a i : Z) : Z := ld8 m (a + i).
Definition e_machine (m : mem) (a : Z) : Z := ld16 m (a + 18).
Definition e_entry (m : mem) (a : Z) : Z := ld64 m (a + 24).
Definition e_phoff (m : mem) (a : Z) : Z := ld64 m (a + 32).
Definition e_phnum (m : mem) (a : Z) : Z := ld16 m (a + 56).

(** [elf64_phdr_t] without the fields that are not read. *)
Record phdr := Phdr {
  p_type : Z;
  p_offset : Z;
  p_vaddr : Z;
  p_filesz : Z;
  p_memsz : Z;
}.
Definition read_phdr (m : mem) (a : Z) : phdr :=
  Phdr (ld32 m a) (ld64 m (a + 8)) (ld64 m (a + 16)) (ld64 m (a + 32)) (ld64 m (a + 40)).

Definition elf64_valid (m : mem) (data size : Z) : bool :=
  if size <? sizeof_ehdr then false else
  if negb (e_magic m data =? ELF_MAGIC) then false else
  if negb (e_ident m data 4 =? ELFCLASS64) then false else
  if negb (e_ident m data 5 =? ELFDATA2LSB) then false else
  if negb (e_machine m data =? EM_X86_64) then false else true.

Section loader.
Context `{Link}.

(** [vmm_map] is called without a declaration and with three arguments: the
    address is taken for the page table, the frame for the address, the flags
    for the frame, and the flags are what the fourth argument register [rcx]
    holds, which is a parameter. *)
Variable rcx : Z → Z.

Fixpoint map_pages (page_start : Z) (ps : list Z) : M system bool :=
  match ps with
  | [] => mret true
  | p :: ps =>
      pa ← lift pmm_alloc_page ;
      if pa =? NULL then
        kprintf ("[ELF] out of memory" +:+ nl) [] ;;
        mret false
      else
        let va := u64 (page_start + p * 0x1000) in
        lift (vmm_map va pa 0x3 (rcx va)) ;;
        map_pages page_start ps
  end.

(** [for (j = lo; j < hi; j++) dst[j] = ...;] *)
Definition copy_segment (base : Z) (ph : phdr) : M system unit :=
  let dst := p_vaddr ph in
  let src := base + p_offset ph in
  for_each (seqZ 0 (p_filesz ph)) (λ j,
    modify (λ s, set_mem (st8 (s_mem s) (dst + j) (ld8 (s_mem s) (src + j))) s)) ;;
  for_each (seqZ (p_filesz ph) (p_memsz ph - p_filesz ph)) (λ j,
    modify (λ s, set_mem (st8 (s_mem s) (dst + j) 0) s)).

Definition segment_pages (ph : phdr) : Z :=
  let page_start := Z.land (p_vaddr ph) (not64 0xFFF) in
  let page_end := Z.land (u64 (p_vaddr ph + p_memsz ph + 0xFFF)) (not64 0xFFF) in
  Z.shiftr (u64 (page_end - page_start)) 12.

(** The loop over the program headers at [phtab], from number [i] on.  The
    number of headers is read anew in every round; it has 16 bits. *)
Fixpoint load_segments (fuel : nat) (base phtab i : Z) : M system bool :=
  s ← get ;
  if negb (i <? e_phnum (s_mem s) base) then mret true else
  match fuel with
  | O => no_fuel
  | S fuel =>
      let ph := read_phdr (s_mem s) (phtab + sizeof_phdr * i) in
      if negb (p_type ph =? PT_LOAD) then load_segments fuel base phtab (i + 1) else
      let page_start := Z.land (p_vaddr ph) (not64 0xFFF) in
      ok ← map_pages page_start (seqZ 0 (segment_pages ph)) ;
      if negb (ok : bool) then mret false else
      copy_segment base ph ;;
      load_segments fuel base phtab (i + 1)
  end.
Definition phdr_fuel : nat := Z.to_nat 65536.

(** [path] is a string literal of the caller, [out] the address of the
    [elf_load_result_t]. *)
Definition elf_load_from_initrd (path : string) (out : Z) : M system bool :=
  r ← lift (initrd_find (bytes_of path)) ;
  s ← get ;
  match r with
  | None =>
      kprintf ("[ELF] file not found: %s" +:+ nl) [KStr (Some path)] ;;
      mret false
  | Some k =>
      let f := default (InitrdFile 0 0 0) (s_files s !! k) in
      if f_size f <? sizeof_ehdr then
        kprintf ("[ELF] too small: %s" +:+ nl) [KStr (Some path)] ;;
        mret false
      else
        let base := f_data f in
        let m := s_mem s in
        kprintf ("base = %p" +:+ nl) [KInt base] ;;
        kprintf ("magic = %x" +:+ nl) [KInt (e_magic m base)] ;;
        kprintf ("e_entry = %p" +:+ nl) [KInt (e_entry m base)] ;;
        kprintf ("e_phoff = %lx" +:+ nl) [KInt (e_phoff m base)] ;;
        if negb (e_magic m base =? ELF_MAGIC) then
          kprintf ("[ELF] bad magic: %x" +:+ nl) [KInt (e_magic m base)] ;;
          mret false
        else if negb (e_machine m base =? 0x3E) then
          kprintf ("[ELF] unsupported machine: %u" +:+ nl) [KInt (e_machine m base)] ;;
          mret false
        else
          ok ← load_segments phdr_fuel base (base + e_phoff m base) 0 ;
          if negb (ok : bool) then mret false else
          entry ← gets (λ s, e_entry (s_mem s) base) ;
          modify (λ s, set_mem (st64 (s_mem s) out entry) s) ;;
          kprintf ("[ELF] loaded %s entry=%p" +:+ nl) [KStr (Some path); KInt entry] ;;
          mret true
  end.
End loader.

(** ** The image of a program *)

(** Memory after one segment was loaded from the file at [base]. *)
Definition place (base : Z) (m : mem) (ph : phdr) : mem :=
  let m := foldl (λ m j, st8 m (p_vaddr ph + j) (ld8 m (base + p_offset ph + j))) m (seqZ 0 (p_filesz ph)) in
  foldl (λ m j, st8 m (p_vaddr ph + j) 0) m (seqZ (p_filesz ph) (p_memsz ph - p_filesz ph)).

Definition load_image (base : Z) (m : mem) (phs : list phdr) : mem := foldl (place base) m phs.

(** The addresses a segment fills. *)
Definition span (ph : phdr) : Z := Z.max (p_filesz ph) (p_memsz ph).
Definition fills (ph : phdr) (a : Z) : Prop := p_vaddr ph ≤ a < p_vaddr ph + span ph.

(** What belongs there. *)
Definition segment_byte (m : mem) (base : Z) (ph : phdr) (a : Z) : Z :=
  if decide (a < p_vaddr ph + p_filesz ph) then ld8 m (base + p_offset ph + (a - p_vaddr ph)) else 0.

Lemma fill_bytes (g : mem → Z → Z) d lo n m :
  let m' := foldl (λ m j, st8 m (d + j) (g m j)) m (seqZ lo n) in
  (∀ j m1, lo ≤ j < lo + n → (∀ b, ¬ (d + lo ≤ b < d + j) → ld8 m1 b = ld8 m b) → g m1 j = g m j) →
  (∀ j, lo ≤ j < lo + n → is_u8 (g m j)) →
  ∀ a, ld8 m' a = if decide (d + lo ≤ a < d + lo + n) then g m (a - d) else ld8 m a.
Proof.
  intros m' Hg Hu8 a. unfold m'. clear m'. destruct (decide (0 ≤ n)) as [Hn|Hn].
  2:{ rewrite seqZ_nil by lia. by rewrite decide_False by lia. }
  destruct (Z_of_nat_complete n Hn) as [k ->]. clear Hn. revert a.
  induction k as [|k IH]; intros a.
  { cbn. by rewrite decide_False by lia. }
  rewrite seqZ_S, foldl_app. cbn [foldl]. set (m1 := foldl _ m _) in *.
  assert (Hm1 : ∀ b, ld8 m1 b = if decide (d + lo ≤ b < d + lo + Z.of_nat k) then g m (b - d) else ld8 m b).
  { apply IH; [intros j Hj; apply Hu8; lia|intros j m2 Hj; apply Hg; lia]. }
  rewrite (Hg _ m1); [|lia|intros b Hb; by rewrite Hm1, decide_False by lia].
  destruct (decide (a = d + (lo + Z.of_nat k))) as [->|Hne].
  - rewrite ld8_st8, decide_True by lia. rewrite u8_id by (apply Hu8; lia). f_equal. lia.
  - rewrite ld8_st8_ne, Hm1 by done. apply decide_ext. lia.
Qed.

Lemma mem_wf_foldl {A} (f : mem → A → mem) (l : list A) m :
  (∀ m x, mem_wf m → mem_wf (f m x)) → mem_wf m → mem_wf (foldl f m l).
Proof. intros Hf. revert m. induction l as [|x l IH]; intros m Hm; [done|]. cbn. by apply IH, Hf. Qed.

Lemma mem_wf_place base m ph : mem_wf m → mem_wf (place base m ph).
Proof. intros Hm. unfold place. repeat apply mem_wf_foldl; try done; intros; by apply mem_wf_st8. Qed.

(** A segment that does not run over the bytes it is loaded from. *)
Lemma place_byte base m ph a :
  mem_wf m → 0 ≤ p_filesz ph →
  (∀ b, base + p_offset ph ≤ b < base + p_offset ph + p_filesz ph → ¬ fills ph b) →
  ld8 (place base m ph) a = if decide (fills ph a) then segment_byte m base ph a else ld8 m a.
Proof.
  intros Hwf Hfs Hdis. unfold place. cbv zeta. set (m1 := foldl _ m _).
  unfold fills, span, segment_byte in *.
  rewrite (fill_bytes (λ _ _, 0)); [|done|intros; unfold is_u8; lia].
  assert (Hm1 : ld8 m1 a = if decide (p_vaddr ph ≤ a < p_vaddr ph + p_filesz ph)
    then ld8 m (base + p_offset ph + (a - p_vaddr ph)) else ld8 m a).
  { unfold m1. rewrite (fill_bytes (λ m j, ld8 m (base + p_offset ph + j)) (p_vaddr ph) 0).
    - apply decide_ext. lia.
    - intros j m2 Hj Hm2. apply Hm2. specialize (Hdis (base + p_offset ph + j)). lia.
    - intros j Hj. apply Hwf. }
  rewrite Hm1. repeat case_decide; done || lia.
Qed.

(** No two segments fill the same address. *)
Fixpoint apart (phs : list phdr) : Prop :=
  match phs with
  | [] => True
  | ph :: phs => (∀ q a, q ∈ phs → fills ph a → ¬ fills q a) ∧ apart phs
  end.

(** A segment whose bytes lie in the file at [[base, base + size)] and whose
    addresses lie outside it. *)
Definition segment_ok (base size : Z) (ph : phdr) : Prop :=
  0 ≤ p_filesz ph ∧ 0 ≤ p_offset ph ∧ p_offset ph + p_filesz ph ≤ size ∧
  ∀ b, base ≤ b < base + size → ¬ fills ph b.

(** Loading puts every segment's bytes where it wants them and changes nothing
    else. *)
Lemma load_image_spec base size phs m :
  mem_wf m → Forall (segment_ok base size) phs → apart phs →
  let m' := load_image base m phs in
  (∀ ph a, ph ∈ phs → fills ph a → ld8 m' a = segment_byte m base ph a) ∧
  (∀ a, (∀ ph, ph ∈ phs → ¬ fills ph a) → ld8 m' a = ld8 m a).
Proof.
  intros Hwf Hok. revert m Hwf. induction Hok as [|ph phs Hph Hok IH]; intros m Hwf Hap.
  { cbn. split; [|done]. intros ph a Hin. by apply elem_of_nil in Hin. }
  destruct Hap as [Hd Hap]. pose proof Hph as (Hf0 & Ho0 & Hsz & Hout).
  assert (Hp : ∀ a, ld8 (place base m ph) a = if decide (fills ph a) then segment_byte m base ph a else ld8 m a).
  { intros a. apply place_byte; [done|lia|]. intros b Hb. apply Hout. lia. }
  destruct (IH (place base m ph)) as [H1 H2]; [by apply mem_wf_place|done|]. cbn zeta. cbn [load_image foldl].
  fold (load_image base (place base m ph) phs). split.
  - intros q a [->|Hq]%elem_of_cons Hfa.
    + rewrite H2 by (intros q Hq; by apply (Hd q a)). by rewrite Hp, decide_True.
    + rewrite (H1 q a Hq Hfa). rewrite Forall_forall in Hok. destruct (Hok q Hq) as (_ & Hqo & Hqs & _).
      unfold segment_byte. case_decide; [|done]. rewrite Hp, decide_False; [done|]. apply Hout.
      unfold fills in Hfa. lia.
  - intros a Ha. rewrite H2 by (intros q Hq; apply Ha; by right). rewrite Hp, decide_False; [done|]. apply Ha. by left.
Qed.

(** The program headers as they stand in [m]. *)
Fixpoint phdrs (m : mem) (phtab : Z) (n : nat) (i : Z) : list phdr :=
  match n with
  | O => []
  | S n => read_phdr m (phtab + sizeof_phdr * i) :: phdrs m phtab n (i + 1)
  end.

Definition loads (phs : list phdr) : list phdr := filter (λ ph, p_type ph = PT_LOAD) phs.

(** Loads from bytes that agree. *)
Definition same_file (base size : Z) (m m' : mem) : Prop := ∀ b, base ≤ b < base + size → ld8 m' b = ld8 m b.

Lemma same_file_ld base size m m' a n :
  same_file base size m m' → base ≤ a → a + Z.of_nat n ≤ base + size → ld_le m' a n = ld_le m a n.
Proof. intros Hs H1 H2. apply ld_le_ext. intros b Hb. apply Hs. lia. Qed.

Lemma same_file_phdr base size m m' a :
  same_file base size m m' → base ≤ a → a + 56 ≤ base + size → read_phdr m' a = read_phdr m a.
Proof.
  intros Hs H1 H2. unfold read_phdr, ld32, ld64. f_equal; by apply (same_file_ld base size); (done || lia).
Qed.

Lemma same_file_place base size m m1 ph :
  mem_wf m1 → segment_ok base size ph → same_file base size m m1 → same_file base size m (place base m1 ph).
Proof.
  intros Hwf (Hf0 & Ho0 & Hsz & Hout) Hs b Hb. rewrite place_byte; [|done|lia|intros c Hc; apply Hout; lia].
  rewrite decide_False by (by apply Hout). by apply Hs.
Qed.

(** ** The loader *)

Definition with_vmm (v : vmm) (s : system) : system := s <| s_kernel := (s_kernel s) <| k_vmm := v |> |>.
Definition s_vmm (s : system) : vmm := k_vmm (s_kernel s).

Section run.
Context `{Link} (rcx : Z → Z).

Lemma map_pages_wp page_start ps s :
  fa_inv (v_pmm (s_vmm s)) →
  wp (map_pages rcx page_start ps)
    (λ ok s', ∃ v, s' = with_vmm v s ∧ grows (s_vmm s) v ∧ (ok = false → out_of_frames v))
    (λ s', ∃ v, s' = with_vmm v s ∧ out_of_frames v) s.
Proof.
  revert s. induction ps as [|p ps IH]; intros s Hi; cbn [map_pages].
  { apply wp_ret. exists (s_vmm s). split_and!; [by destruct s as [[] ?]|by apply grows_same|done]. }
  apply wp_bind, wp_lift. unfold pmm_alloc_page.
  destruct (fa_alloc (v_pmm (s_vmm s))) as (a & q & Hr & Hiq & Hfr & Hcase); [done|].
  eapply wp_result; [exact Hr|]. cbv beta.
  set (v1 := (s_vmm s) <| v_pmm := q |>).
  change (put q s) with (with_vmm v1 s).
  assert (Hg : grows (s_vmm s) v1).
  { destruct Hcase as [(-> & -> & _)|(_ & _ & Htk)]; [by apply grows_same|]. split_and!; [done|done|].
    intros b Hb. apply Htk. by right. }
  destruct (Z.eqb_spec a NULL) as [->|Ha].
  { eapply wp_result; [run_simpl; reflexivity|]. exists v1. split_and!; [done|done|]. intros _.
    destruct Hcase as [(_ & -> & Hall)|(Hf & _)]; [exact Hall|].
    destruct (fa_frame_ok _ _ Hi Hf) as (? & _). unfold NULL in *. lia. }
  apply wp_bind, wp_lift. cbv zeta.
  eapply wp_weaken; [exact (vmm_map_grows v1 (u64 (page_start + p * 0x1000)) a 0x3 _ Hiq)|..].
  - intros r v2 Hg2. change (put v2 (with_vmm v1 s)) with (with_vmm v2 s).
    eapply wp_weaken; [apply (IH (with_vmm v2 s)); apply Hg2|..].
    + intros ok s' (v & -> & Hg3 & Hok). exists v. split_and!; [done| |done].
      exact (grows_trans _ _ _ (grows_trans _ _ _ Hg Hg2) Hg3).
    + intros s' (v & -> & Hv). by exists v.
  - intros v2 Hv2. by exists v2.
Qed.
(** [copy_segment] is [place]. *)
Lemma copy_segment_run base ph s :
  result (copy_segment base ph) s = Some (tt, set_mem (place base (s_mem s) ph) s).
Proof.
  unfold copy_segment, place. cbv zeta.
  assert (Hl : ∀ (f : mem → Z → mem) l t,
    foldl (λ s j, set_mem (f (s_mem s) j) s) t l = set_mem (foldl f (s_mem t) l) t).
  { intros f l. induction l as [|j l IH]; intros t; [by destruct t as [[] ?]|]. cbn [foldl]. by rewrite IH. }
  rewrite result_bind.
  rewrite (result_for_each_modify _ (λ j s, set_mem (st8 (s_mem s) (p_vaddr ph + j) (ld8 (s_mem s) (base + p_offset ph + j))) s)).
  rewrite (result_for_each_modify _ (λ j s, set_mem (st8 (s_mem s) (p_vaddr ph + j) 0) s)).
  rewrite (Hl (λ m j, st8 m (p_vaddr ph + j) (ld8 m (base + p_offset ph + j)))).
  by rewrite (Hl (λ m j, st8 m (p_vaddr ph + j) 0)).
Qed.

(** The loop over the headers, on memory that still has the file [m] had. *)
Lemma load_segments_wp base size phtab m n i fuel s :
  fa_inv (v_pmm (s_vmm s)) → mem_wf (s_mem s) → same_file base size m (s_mem s) →
  64 ≤ size → 0 ≤ i → i + Z.of_nat n = e_phnum m base →
  base ≤ phtab → phtab + sizeof_phdr * e_phnum m base ≤ base + size →
  Forall (segment_ok base size) (loads (phdrs m phtab n i)) → (n < fuel)%nat →
  wp (load_segments rcx fuel base phtab i)
    (λ ok s', ∃ v mm, s' = set_mem mm (with_vmm v s) ∧ grows (s_vmm s) v ∧ mem_wf mm ∧
       if (ok : bool) then mm = load_image base (s_mem s) (loads (phdrs m phtab n i)) ∧ same_file base size m mm
       else out_of_frames v)
    (λ s', out_of_frames (s_vmm s')) s.
Proof.
  revert i fuel s. induction n as [|n IH]; intros i fuel s Hi Hwf Hsame Hsz Hi0 Hn Hpt Hpt2 Hok Hfuel.
  all: assert (Hnum : e_phnum (s_mem s) base = e_phnum m base) by
    (unfold e_phnum, ld16; apply (same_file_ld base size); [done|lia|lia]).
  all: destruct fuel as [|fuel]; [lia|]; cbn [load_segments]; apply wp_bind; (eapply wp_result; [done|]); cbv beta;
    rewrite Hnum.
  { rewrite (proj2 (Z.ltb_ge _ _)) by lia. apply wp_ret. exists (s_vmm s), (s_mem s).
    split_and!; [by destruct s as [[] ?]|by apply grows_same|done|done|done]. }
  rewrite (proj2 (Z.ltb_lt _ _)) by lia. cbn [negb]. cbn [phdrs] in *. cbv zeta. unfold sizeof_phdr in *.
  rewrite (same_file_phdr base size m _ _ Hsame) by lia.
  set (ph := read_phdr m (phtab + 56 * i)) in *. unfold loads in *. rewrite filter_cons in Hok |- *.
  destruct (Z.eqb_spec (p_type ph) PT_LOAD) as [Hload|Hload]; cbn [negb].
  2:{ rewrite decide_False in Hok |- * by done. apply IH; done || lia. }
  rewrite decide_True in Hok |- * by done. apply Forall_cons in Hok as [Hph Hok].
  apply wp_bind. eapply wp_weaken; [by apply map_pages_wp|..].
  2:{ by intros s' (v & -> & Hv). }
  intros ok s' (v & -> & Hg & Hf). destruct ok; cbn [negb].
  2:{ apply wp_ret. exists v, (s_mem s). split_and!; [by destruct s as [[] ?]|done|done|by apply Hf]. }
  apply wp_bind. eapply wp_result; [apply copy_segment_run|]. cbv beta. change (s_mem (with_vmm v s)) with (s_mem s).
  set (m1 := place base (s_mem s) ph).
  eapply wp_weaken; [apply (IH (i + 1) fuel (set_mem m1 (with_vmm v s)))|..]; try (done || lia).
  - apply Hg.
  - by apply mem_wf_place.
  - by apply same_file_place.
  - intros ok s' (v2 & mm & -> & Hg2 & Hwf2 & Hr). exists v2, mm. split_and!; [done| |done|exact Hr].
    exact (grows_trans _ _ _ Hg Hg2).
Qed.

(** What any run of the loader leaves of the system: memory, page tables and
    the page allocator may have changed. *)
Definition loader_ran (s s' : system) : Prop :=
  ∃ v mm, s' = set_mem mm (with_vmm v s) ∧ grows (s_vmm s) v ∧ mem_wf mm.
Definition loader_starved (s s' : system) : Prop :=
  ∃ v mm, s' = set_mem mm (with_vmm v s) ∧ out_of_frames v.

Lemma loader_ran_refl s : fa_inv (v_pmm (s_vmm s)) → mem_wf (s_mem s) → loader_ran s s.
Proof.
  intros Hi Hm. exists (s_vmm s), (s_mem s). split_and!; [by destruct s as [[] ?]|by apply grows_same|done].
Qed.

Lemma loader_ran_mem s mm : fa_inv (v_pmm (s_vmm s)) → mem_wf mm → loader_ran s (set_mem mm s).
Proof.
  intros Hi Hm. exists (s_vmm s), mm. split_and!; [by destruct s as [[] ?]|by apply grows_same|done].
Qed.

Lemma loader_ran_trans s1 s2 s3 : loader_ran s1 s2 → loader_ran s2 s3 → loader_ran s1 s3.
Proof.
  intros (v & mm & -> & Hg & Hm) (v' & mm' & -> & Hg' & Hm'). exists v', mm'. split_and!; [done| |done].
  by eapply grows_trans.
Qed.

Lemma loader_ran_starved s1 s2 s3 : loader_ran s1 s2 → loader_starved s2 s3 → loader_starved s1 s3.
Proof. intros (v & mm & -> & _) (v' & mm' & -> & Ho). by exists v', mm'. Qed.

Lemma loader_ran_ok s s' : loader_ran s s' → fa_inv (v_pmm (s_vmm s')) ∧ mem_wf (s_mem s').
Proof. by intros (v & mm & -> & Hg & Hm); split; [apply Hg|]. Qed.

Lemma phnum_range m a : mem_wf m → 0 ≤ e_phnum m a < 65536.
Proof. intros Hm. unfold e_phnum, ld16. pose proof (ld_le_range m (a + 56) 2 Hm). cbn in *. lia. Qed.

(** The loop on any bytes at all: the header count has 16 bits. *)
Lemma load_segments_any base phtab i fuel s :
  fa_inv (v_pmm (s_vmm s)) → mem_wf (s_mem s) → 0 ≤ i → 65536 - i ≤ Z.of_nat fuel →
  wp (load_segments rcx fuel base phtab i) (λ _, loader_ran s) (loader_starved s) s.
Proof.
  revert i s. induction fuel as [|fuel IH]; intros i s Hi Hwf Hi0 Hf;
    pose proof (phnum_range (s_mem s) base Hwf); cbn [load_segments]; apply wp_bind; (eapply wp_result; [done|]);
    cbv beta; destruct (Z.ltb_spec i (e_phnum (s_mem s) base)) as [Hlt|Hge]; cbn [negb];
    try (by apply wp_ret, loader_ran_refl); [lia|].
  cbv zeta. set (ph := read_phdr _ _). destruct (p_type ph =? PT_LOAD); cbn [negb]; [|apply IH; done || lia].
  apply wp_bind. eapply wp_weaken; [by apply map_pages_wp|..].
  2:{ intros s' (v & -> & Hv). exists v, (s_mem s). split; [by destruct s as [[] ?]|done]. }
  intros ok s' (v & -> & Hg & _).
  assert (loader_ran s (with_vmm v s)) as Hr1.
  { exists v, (s_mem s). split_and!; [by destruct s as [[] ?]|done|done]. }
  destruct ok; cbn [negb]; [|by apply wp_ret].
  apply wp_bind. eapply wp_result; [apply copy_segment_run|]. cbv beta. change (s_mem (with_vmm v s)) with (s_mem s).
  set (s2 := set_mem _ _).
  assert (loader_ran s s2) as Hr2.
  { eapply loader_ran_trans; [exact Hr1|]. apply loader_ran_mem; [apply Hg|by apply mem_wf_place]. }
  destruct (loader_ran_ok _ _ Hr2) as [Hi2 Hm2].
  eapply wp_weaken; [apply (IH (i + 1) s2); done || lia|..].
  - intros ? s3. by apply loader_ran_trans.
  - intros s3. by apply loader_ran_starved.
Qed.

Lemma loader_ran_st64 s s' out v : loader_ran s s' → loader_ran s (set_mem (st64 (s_mem s') out v) s').
Proof.
  intros Hr. destruct (loader_ran_ok _ _ Hr) as [Hiv Hm]. eapply loader_ran_trans; [exact Hr|].
  apply loader_ran_mem; [exact Hiv|by apply mem_wf_st64].
Qed.

(** The file of that name. *)
Definition file_of (s : system) (path : string) : option initrd_file :=
  k ← fst <$> list_find (λ f, strcmp_simple (s_mem s) (f_name f) (bytes_of path) = 0) (s_files s) ;
  s_files s !! k.

(** The checks that the loader makes of the header. *)
Definition header_ok (m : mem) (f : initrd_file) : bool :=
  (sizeof_ehdr <=? f_size f) && (e_magic m (f_data f) =? ELF_MAGIC) && (e_machine m (f_data f) =? EM_X86_64).

Lemma elf_find s path :
  result (lift (initrd_find (bytes_of path))) s =
    Some (fst <$> list_find (λ f, strcmp_simple (s_mem s) (f_name f) (bytes_of path) = 0) (s_files s), s).
Proof.
  rewrite result_lift. unfold initrd_find. rewrite result_bind, result_get, result_ret. f_equal. f_equal.
  apply put_view.
Qed.

(** The table lookup succeeds for the index that the search returns. *)
Lemma find_lookup s path k :
  fst <$> list_find (λ f, strcmp_simple (s_mem s) (f_name f) (bytes_of path) = 0) (s_files s) = Some k →
  ∃ f, s_files s !! k = Some f ∧ file_of s path = Some f.
Proof.
  intros Hk. unfold file_of. rewrite Hk. apply fmap_Some in Hk as ([k' f] & Hf & ->).
  apply list_find_Some in Hf as (Hf & _). by exists f.
Qed.

(** What is refused. Without a file of that name, or with one that is
    shorter than an ELF header, has the wrong magic number or is for another
    machine, the loader returns false, prints why and changes nothing. *)
Theorem elf_load_rejects s path out :
  (∀ f, file_of s path = Some f → header_ok (s_mem s) f = false) →
  result (elf_load_from_initrd rcx path out) s = Some (false, s).
Proof.
  intros Hbad. unfold elf_load_from_initrd. rewrite result_bind, elf_find, result_bind, result_get.
  destruct (fst <$> _) as [k|] eqn:Ek; [|by rewrite result_bind, result_kprintf].
  destruct (find_lookup s path k Ek) as (f & Hf & Hfile). rewrite Hf. cbn [default from_option id].
  specialize (Hbad f Hfile). unfold header_ok in Hbad.
  destruct (Z.ltb_spec (f_size f) sizeof_ehdr); [by rewrite result_bind, result_kprintf|].
  rewrite (proj2 (Z.leb_le _ _)) in Hbad by lia. cbn [andb] in Hbad. cbv zeta.
  do 4 rewrite result_bind, result_kprintf.
  destruct (e_magic (s_mem s) (f_data f) =? ELF_MAGIC); cbn [negb andb] in *; [|by rewrite result_bind, result_kprintf].
  change 0x3E with EM_X86_64. rewrite Hbad. cbn [negb]. by rewrite result_bind, result_kprintf.
Qed.

(** A file the loader can load: its header passes, its program headers and
    segments lie within it, and the segments neither overlap one another nor the
    file. *)
Record loadable (m : mem) (f : initrd_file) : Prop := {
  lo_header : header_ok m f = true;
  lo_phdrs : 0 ≤ e_phoff m (f_data f) ∧ e_phoff m (f_data f) + sizeof_phdr * e_phnum m (f_data f) ≤ f_size f;
  lo_segments : Forall (segment_ok (f_data f) (f_size f))
    (loads (phdrs m (f_data f + e_phoff m (f_data f)) (Z.to_nat (e_phnum m (f_data f))) 0));
  lo_apart : apart (loads (phdrs m (f_data f + e_phoff m (f_data f)) (Z.to_nat (e_phnum m (f_data f))) 0));
}.


Lemma elf_load_run s path out :
  fa_inv (v_pmm (s_vmm s)) → mem_wf (s_mem s) →
  wp (elf_load_from_initrd rcx path out) (λ _, loader_ran s) (loader_starved s) s.
Proof.
  intros Hi Hwf. pose proof (loader_ran_refl s Hi Hwf) as Hrefl. unfold elf_load_from_initrd.
  apply wp_bind. eapply wp_result; [apply elf_find|]. apply wp_bind. eapply wp_result; [done|]. cbv beta.
  destruct (fst <$> _) as [k|]; [|by eapply wp_result; [run_simpl; reflexivity|]].
  cbv zeta. set (f := default _ _). destruct (_ <? _); [by eapply wp_result; [run_simpl; reflexivity|]|].
  do 4 (apply wp_bind; eapply wp_result; [apply result_kprintf|]; cbv beta).
  destruct (negb _); [by eapply wp_result; [run_simpl; reflexivity|]|].
  destruct (negb _); [by eapply wp_result; [run_simpl; reflexivity|]|].
  apply wp_bind. eapply wp_weaken.
  { apply (load_segments_any (f_data f) (f_data f + e_phoff (s_mem s) (f_data f)) 0 phdr_fuel s);
      [done|done|lia|]. unfold phdr_fuel. lia. }
  2:{ done. }
  intros ok s' Hr. destruct ok; cbn [negb]; [|by apply wp_ret].
  eapply wp_result; [run_simpl; reflexivity|]. cbv beta. by apply loader_ran_st64.
Qed.

End run.

(** ** A concrete program

    One segment of [filesz] bytes at offset 120 of the file, for address
    0x600000, with 4 more bytes of zeros. *)

Definition demo_program (filesz : Z) : list Z :=
  [127; 69; 76; 70; 2; 1; 1] ++ replicate 9 0 ++ le_bytes 2 2 ++ le_bytes 2 62 ++ le_bytes 4 1 ++
  le_bytes 8 0x600000 ++ le_bytes 8 64 ++ le_bytes 8 0 ++ le_bytes 4 0 ++
  le_bytes 2 64 ++ le_bytes 2 56 ++ le_bytes 2 1 ++ le_bytes 2 0 ++ le_bytes 2 0 ++ le_bytes 2 0 ++
  le_bytes 4 1 ++ le_bytes 4 5 ++ le_bytes 8 120 ++ le_bytes 8 0x600000 ++ le_bytes 8 0 ++
  le_bytes 8 filesz ++ le_bytes 8 (filesz + 4) ++ le_bytes 8 4096 ++
  [0x90; 0xC3].

Definition demo_system (filesz : Z) : system :=
  let fs := [demo_file (bytes_of "bin/sh") (demo_program filesz); demo_file (bytes_of "secret") [1; 2; 3; 4]] in
  System (demo_kernel <| k_mem := st_bytes ∅ 0x1000 (archive fs demo_last) |>) (entries_at 0x1000 fs).

(** The same system as the loader leaves it. *)
Definition demo_loaded (filesz : Z) : system :=
  match result (elf_load_from_initrd (H:=demo_link) (λ _, 0) "bin/sh" 0x9000) (demo_system filesz) with
  | Some (_, s) => s | None => demo_system filesz end.

(** The loader does not map what it loads: it returns true, but the page at
    the segment's address does not translate in the kernel's page table. *)
Theorem elf_load_maps_nothing :
  result (elf_load_from_initrd (H:=demo_link) (λ _, 0) "bin/sh" 0x9000) (demo_system 2) = Some (true, demo_loaded 2) ∧
  vmm_resolve (s_vmm (demo_loaded 2)) (kernel_pml4 (s_vmm (demo_loaded 2))) 0x600000 = 0.
Proof.
  split; [|by vm_compute]. unfold demo_loaded. apply run_state_of. by vm_compute.
Qed.

(** The loader does not check a segment against the size of the file: a
    program of 122 bytes whose only segment claims 300 is loaded, and the bytes
    of the next file of the archive, the contents of "secret", come with it. *)
Theorem elf_load_over_read :
  result (elf_load_from_initrd (H:=demo_link) (λ _, 0) "bin/sh" 0x9000) (demo_system 300) = Some (true, demo_loaded 300) ∧
  f_size <$> file_of (demo_system 300) "bin/sh" = Some 122 ∧
  ld_bytes (s_mem (demo_loaded 300)) (0x600000 + 124) 4 = [1; 2; 3; 4].
Proof.
  split_and!; [|by vm_compute|by vm_compute]. unfold demo_loaded. apply run_state_of. by vm_compute.
Qed.

(** ** Witnesses *)

Lemma elf_load_rejects_witness :
  result (elf_load_from_initrd (H:=demo_link) (λ _, 0) "secret" 0x9000) (demo_system 2) = Some (false, demo_system 2).
Proof.
  apply (elf_load_rejects (H:=demo_link) (λ _, 0) (demo_system 2) "secret").
  intros f Hf. assert (file_of (demo_system 2) "secret" = Some (InitrdFile 4450 4 4460)) as E by (vm_compute; reflexivity).
  rewrite E in Hf. injection Hf as <-. vm_compute. reflexivity.
Defined.

Definition demo_segment : phdr := Phdr 1 120 0x600000 2 6.

Lemma demo_segments :
  loads (phdrs (s_mem (demo_system 2)) (4216 + e_phoff (s_mem (demo_system 2)) 4216)
    (Z.to_nat (e_phnum (s_mem (demo_system 2)) 4216)) 0) = [demo_segment].
Proof. by vm_compute. Qed.

Lemma demo_loadable : loadable (s_mem (demo_system 2)) (InitrdFile 4206 122 4216).
Proof.
  split; cbn [f_size f_data].
  - by vm_compute.
  - apply (bool_decide_unpack (_ ∧ _)). by vm_compute.
  - rewrite demo_segments. apply Forall_singleton. unfold segment_ok, fills, span. cbn.
    split_and!; [lia|lia|lia|]. intros b Hb. lia.
  - rewrite demo_segments. split; [|done]. intros q a Hq. by apply elem_of_nil in Hq.
Qed.


