(* ===== verification/Boot.v ===== *)
(** * Boot: bringing the kernel up (kernel/main.c, kernel/proc/user_trampoline.c)

    [kernel_main] composes every other component: it walks the boot loader's
    memory map, hands a region to the page allocator, builds the page tables,
    the process table and the file table, and starts the first processes.  The
    theorems say what it makes of the memory map and that it ends in a state
    from which the invariants of the other files hold for ever. *)

From S2P Require Import Prelude Console Effects Interfaces Memory Types Pmm Heap Vmm Arch Kernel Proc Ipc Trap Initrd Elf.

(** ** The machine: the kernel with its files, and the console *)

Record machine := Machine { m_sys : system; m_con : console }.
#[export] Instance eta_machine : Eta machine := λ s, Machine (m_sys s) (m_con s).

#[export] Program Instance lens_machine_system : Lens machine system := {|
  view := m_sys;
  put x s := s <| m_sys := x |>;
|}.
Solve Obligations with (by intros []).

#[export] Program Instance lens_machine_console : Lens machine console := {|
  view := m_con;
  put x s := s <| m_con := x |>;
|}.
Solve Obligations with (by intros []).

Definition m_kernel (s : machine) : kernel := s_kernel (m_sys s).

(** A function of a kernel component, run on the machine. *)
Definition in_kernel {A} (m : M kernel A) : M machine A := lift (T:=machine) (S:=system) (lift m).

(** ** The boot information *)

Definition MULTIBOOT2_BOOTLOADER_MAGIC : Z := 0x36D76289.
Definition MULTIBOOT2_TAG_TYPE_MODULE : Z := 3.

(** [mb2_info_t], [mb2_tag_t], [mb2_tag_mmap_t], [mb2_mmap_entry_t] and
    [struct multiboot_tag_module], all packed. *)
Definition total_size (m : mem) (info : Z) : Z := ld32 m info.
Definition tag_type (m : mem) (p : Z) : Z := ld32 m p.
Definition tag_size (m : mem) (p : Z) : Z := ld32 m (p + 4).
Definition entry_size (m : mem) (mm : Z) : Z := ld32 m (mm + 8).
Definition base_addr (m : mem) (e : Z) : Z := ld64 m e.
Definition length_ (m : mem) (e : Z) : Z := ld64 m (e + 8).
Definition entry_type (m : mem) (e : Z) : Z := ld32 m (e + 16).
Definition mod_start (m : mem) (p : Z) : Z := ld32 m (p + 8).
Definition mod_end (m : mem) (p : Z) : Z := ld32 m (p + 12).
Definition sizeof_mb2_tag_mmap : Z := 16.

(** The loop over the entries from [e] to [ee]; the best region so far is
    [best].  The entry size is read anew in every round. *)
Fixpoint parse_entries (fuel : nat) (mm e ee : Z) (best : Z * Z) : M mem (Z * Z) :=
  if negb (e <? ee) then mret best else
  match fuel with
  | O => no_fuel
  | S fuel =>
      m ← get ;
      kprintf ("[MMAP] base=%p len=%luMB type=%d" +:+ nl)
        [KInt (base_addr m e); KInt (length_ m e `div` (1024 * 1024)); kint (entry_type m e)] ;;
      let best := if (entry_type m e =? 1) && (best.2 <? length_ m e)
                  then (base_addr m e, length_ m e) else best in
      parse_entries fuel mm (u64 (e + entry_size m mm)) ee best
  end.

Fixpoint parse_tags (fuel : nat) (p end_ : Z) (best : Z * Z) : M mem (Z * Z) :=
  if negb (p <? end_) then mret best else
  match fuel with
  | O => no_fuel
  | S fuel' =>
      m ← get ;
      if tag_type m p =? 0 then mret best else
      best ← (if tag_type m p =? 6 then
                parse_entries fuel p (u64 (p + sizeof_mb2_tag_mmap)) (u64 (p + tag_size m p)) best
              else mret best) ;
      parse_tags fuel' (u64 (p + ALIGN_UP32 (tag_size m p) 8)) end_ best
  end.

Definition parse_mmap (fuel : nat) (info : Z) : M mem (Z * Z) :=
  let best := (0x100000, 32 * 1024 * 1024) in
  if info =? NULL then mret best else
  m ← get ;
  if total_size m info <? 8 then mret best else
  parse_tags fuel (u64 (info + 8)) (u64 (info + total_size m info)) best.

(** [if (mem_base < 0x200000) ...] of [kernel_main]. *)
Definition skip_kernel (region : Z * Z) : Z * Z :=
  let '(mem_base, mem_size) := region in
  if mem_base <? 0x200000 then
    let skip := u64 (0x200000 - mem_base) in
    if skip <? mem_size then (u64 (mem_base + skip), u64 (mem_size - skip))
    else (0x200000, 16 * 1024 * 1024)
  else (mem_base, mem_size).

(** The search for the first module, which is taken for the initrd.  There is
    no bound but the closing tag. *)
Fixpoint find_module (fuel : nat) (tag : Z) : M mem (Z * Z) :=
  match fuel with
  | O => no_fuel
  | S fuel =>
      m ← get ;
      if tag_type m tag =? 0 then mret (NULL, NULL) else
      if tag_type m tag =? MULTIBOOT2_TAG_TYPE_MODULE then
        kprintf ("[INITRD] module start=%p end=%p size=%u" +:+ nl)
          [KInt (mod_start m tag); KInt (mod_end m tag); kint (mod_end m tag - mod_start m tag)] ;;
        mret (mod_start m tag, mod_end m tag)
      else find_module fuel (u64 (tag + ALIGN_UP32 (tag_size m tag) 8))
  end.

(** What [kernel_main] depends on besides [Link]: linker symbols, the addresses
    of its local [elf] and of [proc_idle], the page tables the processor runs
    on, and the address of a process slot, which is only printed. *)
Class BootLink := {
  initrd_start : Z;
  initrd_end : Z;
  elf_local : Z;
  proc_idle_addr : Z;
  boot_cr3 : Z;
  proc_addr : nat → Z;
}.

Section boot.
Context `{Link} `{BootLink} (rcx : Z → Z).

(** ** The kernel's own processes *)

Definition own_pid : M kernel Z :=
  gets (λ s, pid (proc s (default 0%nat (current_proc s)))).

Fixpoint hello_loop (fuel : nat) (n : Z) : M kernel unit :=
  match fuel with
  | O => no_fuel
  | S fuel =>
      t ← gets ticks ;
      kprintf ("[proc_hello] tick=%lu count=%d" +:+ nl) [KInt t; kint n] ;;
      proc_sleep 1000 ;;
      if 5 <=? n + 1 then mret tt else hello_loop fuel (n + 1)
  end.

(** Five rounds. *)
Definition proc_hello : M kernel unit :=
  n ← own_pid ;
  kprintf ("[proc_hello] pid=%d started" +:+ nl) [kint n] ;;
  hello_loop 5 0 ;;
  kprintf ("[proc_hello] done" +:+ nl) [].

Definition hello_msg : list Z := bytes_of "hello from sender" ++ [0].

(** [msg] is the address of the local array. *)
Definition proc_sender (msg : Z) : M kernel unit :=
  n ← own_pid ;
  kprintf ("[proc_sender] pid=%d started" +:+ nl) [kint n] ;;
  for_each (seqZ 0 3) (λ i,
    proc_sleep 500 ;;
    modify (λ s, s <| k_mem := st_bytes (k_mem s) msg hello_msg |>) ;;
    ipc_send 2 0x100 msg (Z.of_nat (length hello_msg)) ;;
    kprintf ("[proc_sender] sent msg %d" +:+ nl) [kint i]).

(** [while (1)] *)
Fixpoint proc_idle (fuel : nat) : M kernel unit :=
  match fuel with
  | O => no_fuel
  | S fuel => instruction Hlt ;; proc_yield ;; proc_idle fuel
  end.

(** ** kernel_main *)

Definition banner : M machine unit :=
  kprintf ("====================================" +:+ nl) [] ;;
  kprintf ("  MicroKernel x86_64 (C)" +:+ nl) [] ;;
  kprintf ("====================================" +:+ nl) [].

Definition check_magic (magic : Z) : M machine unit :=
  if negb (magic =? MULTIBOOT2_BOOTLOADER_MAGIC) then
    kprintf ("[WARN] bad multiboot magic: 0x%x (expected 0x%x)" +:+ nl)
      [kint magic; kint MULTIBOOT2_BOOTLOADER_MAGIC]
  else kprintf ("[BOOT] Multiboot2 OK" +:+ nl) [].

(** Devices and memory, up to [syscall_init]. *)
Definition init_machine (fuel : nat) (magic mb_info : Z) : M machine unit :=
  lift serial_init ;;
  lift (T:=machine) (S:=console) (lift vga_init) ;;
  banner ;;
  check_magic magic ;;
  in_kernel (lift gdt_init) ;;
  in_kernel (lift idt_init) ;;
  pic_init ;;
  pit_init ;;
  found ← in_kernel (lift (parse_mmap fuel mb_info)) ;
  let '(mem_base, mem_size) := skip_kernel found in
  in_kernel (lift (pmm_init mem_base mem_size)) ;;
  in_kernel (lift (vmm_init boot_cr3)) ;;
  in_kernel syscall_init.

(** The file table. *)
Definition init_files (fuel : nat) (mb_info : Z) : M machine unit :=
  kprintf ("[INITRD] start=%p end=%p size=%u" +:+ nl)
    [KInt initrd_start; KInt initrd_end; kint (initrd_end - initrd_start)] ;;
  module ← in_kernel (lift (find_module fuel (u64 (mb_info + 8)))) ;
  let '(mod_start, mod_end) := module in
  (if mod_start =? NULL then kprintf ("[INITRD] no module found" +:+ nl) [] else mret tt) ;;
  lift (T:=machine) (S:=system) (lift (initrd_init mod_start mod_end)) ;;
  lift (T:=machine) (S:=system) (lift (initrd_list fuel)).

(** The shell.  [proc_create_elf] is called without a declaration, with the
    8-byte structure [elf] where it expects its address: it takes the contents,
    which are the entry point, for the address. *)
Definition start_shell : M machine unit :=
  ok ← lift (elf_load_from_initrd rcx "bin/sh" elf_local) ;
  if (ok : bool) then
    entry ← gets (λ s, ld64 (k_mem (m_kernel s)) elf_local) ;
    kprintf ("[ELF] loaded bin/sh entry=%p" +:+ nl) [KInt entry] ;;
    shell ← in_kernel (proc_create_elf "sh" entry) ;
    n ← gets (λ s, match shell with Some p => pid (proc (m_kernel s) p) | None => -1 end) ;
    kprintf ("[ELF] created shell proc=%p pid=%d" +:+ nl)
      [KInt (match shell with Some p => proc_addr p | None => NULL end); kint n] ;;
    match shell with
    | None => panic "failed to create shell process"
    | Some _ => mret tt
    end
  else kprintf ("[KERN] failed to load shell" +:+ nl) [].

(** Processes, and the hand-over to the scheduler. *)
Definition start_processes : M machine unit :=
  idle ← in_kernel (proc_create "idle" proc_idle_addr false) ;
  match idle with
  | None => panic "failed to create idle process"
  | Some idle =>
      start_shell ;;
      kprintf ("[KERN] starting scheduler..." +:+ nl) [] ;;
      in_kernel (modify (λ s, s <| current_proc := Some idle |>)) ;;
      in_kernel (modify (upd_proc idle (λ p, p <| state := PROC_RUNNING |>))) ;;
      in_kernel sti ;;
      kprintf ("[KERN] entering idle loop" +:+ nl) []
  end.

(** [kernel_main] up to its last loop. *)
Definition kernel_start (fuel : nat) (magic mb_info : Z) : M machine unit :=
  init_machine fuel magic mb_info ;;
  in_kernel proc_init ;;
  init_files fuel mb_info ;;
  start_processes.

(** [while (1)], a status line every five seconds. *)
Fixpoint idle_loop (fuel : nat) (last_stat : Z) : M kernel unit :=
  match fuel with
  | O => no_fuel
  | S fuel =>
      instruction Hlt ;;
      s ← get ;
      if 5 * PIT_HZ <=? u64 (ticks s - last_stat) then
        n ← lift pmm_free_count ;
        kprintf ("[KERN] ticks=%lu free_pages=%lu" +:+ nl) [KInt (ticks s); KInt n] ;;
        idle_loop fuel (ticks s)
      else idle_loop fuel last_stat
  end.

Definition kernel_main (fuel : nat) (magic mb_info : Z) : M machine unit :=
  kernel_start fuel magic mb_info ;;
  in_kernel (idle_loop fuel 0).
End boot.

(** ** The way to user mode *)

(** The frame [iretq] pops, and the selector in the data segment registers. *)
Record user_frame := UserFrame { uf_data : Z; uf_ss : Z; uf_rsp : Z; uf_rflags : Z; uf_cs : Z; uf_rip : Z }.

(** [cr3] is not used. *)
Definition enter_user_mode (rip rsp cr3 : Z) : user_frame := UserFrame 0x23 0x23 rsp 0x202 0x1B rip.

(** The call for the process [p]. *)
Definition user_trampoline (p : process) : user_frame := enter_user_mode (user_rip p) (user_sp p) (cr3 p).

(** ** The memory map

    The tags the boot loader leaves, as data, and what it means for memory to
    hold them. *)

Record region := Region { r_base : Z; r_len : Z; r_type : Z }.

Inductive tag :=
  | TMmap (step : Z) (rs : list region)
  | TModule (start end_ : Z)
  | TOther (ty : Z).

Fixpoint entries_at (m : mem) (e step : Z) (rs : list region) : Prop :=
  match rs with
  | [] => True
  | r :: rs => (base_addr m e = r_base r ∧ length_ m e = r_len r ∧ entry_type m e = r_type r) ∧
               entries_at m (e + step) step rs
  end.

Definition tag_at (m : mem) (p : Z) (t : tag) : Prop :=
  match t with
  | TMmap step rs => tag_type m p = 6 ∧ entry_size m p = step ∧ 24 ≤ step ∧
      tag_size m p = sizeof_mb2_tag_mmap + step * Z.of_nat (length rs) ∧
      entries_at m (p + sizeof_mb2_tag_mmap) step rs
  | TModule s e => tag_type m p = MULTIBOOT2_TAG_TYPE_MODULE ∧ mod_start m p = s ∧ mod_end m p = e ∧
      16 ≤ tag_size m p
  | TOther ty => tag_type m p = ty ∧ ty ≠ 0 ∧ ty ≠ 6 ∧ ty ≠ MULTIBOOT2_TAG_TYPE_MODULE
  end.

(** From one tag to the next, 8-aligned. *)
Definition tag_stride (m : mem) (p : Z) : Z := 8 * ((tag_size m p + 7) `div` 8).

(** The tags from [p] on, closed by a tag of type 0 below [end_]. *)
Fixpoint tags_at (m : mem) (p end_ : Z) (ts : list tag) : Prop :=
  p + 8 ≤ end_ ∧
  match ts with
  | [] => tag_type m p = 0
  | t :: ts => tag_at m p t ∧ 8 ≤ tag_size m p < 2 ^ 32 - 8 ∧ p + tag_stride m p ≤ end_ ∧
               tags_at m (p + tag_stride m p) end_ ts
  end.

Record boot_info (m : mem) (info : Z) (ts : list tag) : Prop := {
  bi_info : 0 < info;
  bi_end : info + total_size m info < 2 ^ 64;
  bi_size : 8 ≤ total_size m info;
  bi_tags : tags_at m (info + 8) (info + total_size m info) ts;
}.

Definition regions (t : tag) : list region := match t with TMmap _ rs => rs | _ => [] end.
Definition memory_map (ts : list tag) : list region := ts ≫= regions.
Definition available (r : region) : Prop := r_type r = 1.

Definition is_module (t : tag) : bool := match t with TModule _ _ => true | _ => false end.
Definition first_module (ts : list tag) : Z * Z :=
  match list_find (λ t, is_module t = true) ts with
  | Some (_, TModule s e) => (s, e)
  | _ => (NULL, NULL)
  end.

(** The larger of [best] and [r]. *)
Definition better (best : Z * Z) (r : region) : Z * Z :=
  if decide (available r ∧ best.2 < r_len r) then (r_base r, r_len r) else best.
Definition largest (best : Z * Z) (rs : list region) : Z * Z := foldl better best rs.

Section mmap.
Implicit Types m : mem.

Lemma ALIGN_UP32_stride x : 0 ≤ x < 2 ^ 32 - 8 → ALIGN_UP32 x 8 = 8 * ((x + 7) `div` 8).
Proof.
  intros Hx. unfold ALIGN_UP32. replace (x + 8 - 1) with (x + 7) by lia. rewrite u32_id by (unfold is_u32; lia).
  change (not32 (8 - 1)) with (Z.shiftl (Z.ones 29) 3).
  apply Z.bits_inj'. intros i Hi. rewrite Z.land_spec, Z.shiftl_spec by done.
  replace (8 * ((x + 7) `div` 8)) with (Z.shiftl (Z.shiftr (x + 7) 3) 3)
    by (rewrite Z.shiftl_mul_pow2, Z.shiftr_div_pow2 by lia; change (2 ^ 3) with 8; lia).
  rewrite Z.shiftl_spec by done. destruct (decide (i < 3)).
  { rewrite !(Z.testbit_neg_r _ (i - 3)) by lia. apply andb_false_r. }
  rewrite Z.shiftr_spec by lia. replace (i - 3 + 3) with i by lia.
  destruct (decide (i < 32)); [rewrite Z.ones_spec_low by lia; apply andb_true_r|].
  by rewrite (testbit_above (x + 7) 32) by lia.
Qed.

Lemma tag_stride_bounds m p : 8 ≤ tag_size m p → 8 ≤ tag_stride m p ∧ tag_size m p ≤ tag_stride m p.
Proof. intros H. unfold tag_stride. pose proof (Z.div_mod (tag_size m p + 7) 8). pose proof (Z.mod_pos_bound (tag_size m p + 7) 8). lia. Qed.

Lemma parse_entries_run m fuel mm e step rs best :
  (length rs ≤ fuel)%nat → entry_size m mm = step → 0 < step → 0 ≤ e → e + step * Z.of_nat (length rs) < 2 ^ 64 →
  entries_at m e step rs →
  result (parse_entries fuel mm e (e + step * Z.of_nat (length rs)) best) m = Some (largest best rs, m).
Proof.
  intros Hf Hst Hpos. revert fuel e best Hf. induction rs as [|r rs IH]; intros fuel e best Hf He Hlt Hrs.
  { destruct fuel; cbn [parse_entries length]; replace (e + step * Z.of_nat 0) with e by lia; by rewrite Z.ltb_irrefl. }
  destruct fuel as [|fuel]; [cbn in Hf; lia|]. destruct Hrs as [(E1 & E2 & E3) Hrs]. cbn [length] in *.
  set (ee := e + step * Z.of_nat (S (length rs))) in *.
  cbn [parse_entries]. assert ((e <? ee) = true) as -> by (apply Z.ltb_lt; lia). cbn [negb].
  run_simpl. rewrite E1, E2, E3, Hst, (u64_id (e + step)) by (unfold is_u64; lia).
  replace ee with (e + step + step * Z.of_nat (length rs)) by lia.
  replace (if (r_type r =? 1) && (best.2 <? r_len r) then (r_base r, r_len r) else best) with (better best r).
  - apply IH; [lia|lia|lia|done].
  - unfold better, available. destruct (Z.eqb_spec (r_type r) 1), (Z.ltb_spec best.2 (r_len r)); cbn [andb];
      by rewrite ?decide_True, ?decide_False by (done || lia || tauto).
Qed.

Lemma parse_tags_run m fuel p end_ ts best :
  (length ts + length (memory_map ts) < fuel)%nat → 0 ≤ p → end_ < 2 ^ 64 → tags_at m p end_ ts →
  result (parse_tags fuel p end_ best) m = Some (largest best (memory_map ts), m).
Proof.
  intros Hf Hp He. revert fuel p best Hf Hp. induction ts as [|t ts IH]; intros fuel p best Hf Hp [Hlt Ht];
    (destruct fuel as [|fuel]; [lia|]); cbn [parse_tags]; rewrite (proj2 (Z.ltb_lt p end_)) by lia; cbn [negb]; run_simpl.
  { by rewrite Ht. }
  destruct Ht as (Ht & Hsz & Hnext & Hts). pose proof (tag_stride_bounds m p ltac:(lia)).
  assert ((tag_type m p =? 0) = false) as Hty.
  { apply Z.eqb_neq. destruct t; destruct Ht as (Hx & ?); rewrite Hx; [done|done|tauto]. }
  rewrite Hty. change (memory_map (t :: ts)) with (regions t ++ memory_map ts) in *. cbn [length] in Hf. rewrite length_app in Hf.
  unfold largest. rewrite foldl_app. fold (largest best (regions t)).
  assert (result (if tag_type m p =? 6 then parse_entries (S fuel) p (u64 (p + sizeof_mb2_tag_mmap)) (u64 (p + tag_size m p)) best
      else mret best) m = Some (largest best (regions t), m)) as Hr.
  { destruct t as [step rs|s e|ty].
    - destruct Ht as (-> & Hst & Hpos & Hs & Hrs). cbn [regions] in *. rewrite Hs. unfold sizeof_mb2_tag_mmap in *.
      rewrite !u64_id by (unfold is_u64; lia). rewrite Z.add_assoc. apply parse_entries_run; try done; lia.
    - by destruct Ht as (-> & _).
    - destruct Ht as (-> & _ & Hn & _). by apply Z.eqb_neq in Hn as ->. }
  etransitivity; [apply result_bind|]. rewrite Hr. cbv beta iota. rewrite ALIGN_UP32_stride by lia. fold (tag_stride m p).
  rewrite u64_id by (unfold is_u64; lia). apply IH; [lia|lia|done].
Qed.

Lemma largest_spec best rs :
  let '(b, n) := largest best rs in
  best.2 ≤ n ∧ (∀ r, r ∈ rs → available r → r_len r ≤ n) ∧
  ((b, n) = best ∨ ∃ r, r ∈ rs ∧ available r ∧ (b, n) = (r_base r, r_len r) ∧ best.2 < n).
Proof.
  revert best. induction rs as [|r rs IH]; intros best.
  { destruct best as [b0 n0]. cbn. split_and!; [lia|set_solver|by left]. }
  cbn [largest foldl]. fold (largest (better best r) rs). specialize (IH (better best r)).
  destruct (largest (better best r) rs) as [b n]. destruct IH as (H1 & H2 & H3).
  unfold better in *. case_decide as Hd; cbn [snd] in *.
  - split_and!; [lia| |].
    + intros r' [->|Hr']%elem_of_cons Ha; [lia|by apply H2].
    + right. destruct H3 as [[= -> ->]|(r' & Hr' & Ha & Heq & Hlt)].
      * exists r. split_and!; [set_solver|tauto|done|lia].
      * exists r'. split_and!; [set_solver|done|done|lia].
  - split_and!; [done| |].
    + intros r' [->|Hr']%elem_of_cons Ha; [|by apply H2]. destruct (decide (best.2 < r_len r)); [tauto|lia].
    + destruct H3 as [?|(r' & Hr' & ?)]; [by left|right; exists r'; split; [set_solver|done]].
Qed.

Lemma parse_mmap_run m fuel info ts :
  boot_info m info ts → (length ts + length (memory_map ts) < fuel)%nat →
  result (parse_mmap fuel info) m = Some (largest (0x100000, 32 * 1024 * 1024) (memory_map ts), m).
Proof.
  intros [Hi He Hs Ht] Hf. unfold parse_mmap. cbv zeta.
  rewrite (proj2 (Z.eqb_neq info NULL)) by (unfold NULL; lia). run_simpl.
  rewrite (proj2 (Z.ltb_ge _ _)) by done. rewrite !u64_id by (unfold is_u64; lia).
  apply parse_tags_run; [done|lia|done|done].
Qed.
End mmap.

(** ** Any boot information, well formed or not *)

Section any_map.
Implicit Types m : mem.

(** A region that may be chosen: at least as large as the default. *)
Definition candidate (r : Z * Z) : Prop := is_u64 r.1 ∧ is_u64 r.2 ∧ 32 * 1024 * 1024 ≤ r.2.

Lemma parse_entries_any m fuel mm e ee best r m' :
  mem_wf m → candidate best → result (parse_entries fuel mm e ee best) m = Some (r, m') → m' = m ∧ candidate r.
Proof.
  intros Hm. revert e best. induction fuel as [|fuel IH]; intros e best Hb; cbn [parse_entries].
  { destruct (negb _); run_simpl; by intros [= -> ->]. }
  destruct (negb _); run_simpl; [by intros [= -> ->]|]. apply IH.
  destruct (_ && _) eqn:E; [|done]. apply andb_prop in E as [_ E]. apply Z.ltb_lt in E. destruct Hb as (_ & _ & Hb).
  split_and!; [by apply ld64_range|by apply ld64_range|cbn; lia].
Qed.

Lemma parse_tags_any m fuel p end_ best r m' :
  mem_wf m → candidate best → result (parse_tags fuel p end_ best) m = Some (r, m') → m' = m ∧ candidate r.
Proof.
  intros Hm. revert p best. induction fuel as [|fuel IH]; intros p best Hb; cbn [parse_tags].
  { destruct (negb _); run_simpl; by intros [= -> ->]. }
  destruct (negb _); run_simpl; [by intros [= -> ->]|].
  destruct (tag_type m p =? 0); [by intros [= -> ->]|]. rewrite result_bind.
  destruct (tag_type m p =? 6); [|apply IH; done].
  destruct (result (parse_entries _ _ _ _ _) m) as [[r1 m1]|] eqn:E; [|done].
  apply parse_entries_any in E as [-> Hr1]; [|done..]. by apply IH.
Qed.

Lemma parse_mmap_any m fuel info r m' :
  mem_wf m → result (parse_mmap fuel info) m = Some (r, m') → m' = m ∧ candidate r.
Proof.
  intros Hm. assert (candidate (0x100000, 32 * 1024 * 1024)) as Hd by (by unfold candidate, is_u64).
  unfold parse_mmap. cbv zeta. destruct (info =? NULL); [by intros [= <- <-]|]. run_simpl.
  destruct (_ <? 8); [by intros [= <- <-]|]. by apply parse_tags_any.
Qed.

Lemma skip_kernel_spec b n :
  candidate (b, n) →
  let '(b', n') := skip_kernel (b, n) in
  b' = Z.max b 0x200000 ∧ b' + n' = b + n.
Proof.
  intros (Hb & Hn & Hl). cbn [fst snd] in *. unfold skip_kernel.
  destruct (b <? 0x200000) eqn:E; [apply Z.ltb_lt in E|apply Z.ltb_ge in E; split; lia].
  unfold is_u64 in *. rewrite (u64_id (0x200000 - b)) by (unfold is_u64; lia).
  rewrite (proj2 (Z.ltb_lt _ _)) by lia. rewrite !u64_id by (unfold is_u64; lia). split; lia.
Qed.
End any_map.

(** ** Theorems about the boot information *)

Section info_theorems.
Implicit Types m : mem.

Lemma find_module_run m fuel p end_ ts :
  tags_at m p end_ ts → 0 ≤ p → end_ < 2 ^ 64 → (length ts < fuel)%nat →
  result (find_module fuel p) m = Some (first_module ts, m).
Proof.
  intros Ht Hp He Hf. revert p fuel Ht Hp Hf.
  induction ts as [|t ts IH]; intros p fuel [Hlt Ht] Hp Hf; (destruct fuel as [|fuel]; [cbn in Hf; lia|]);
    cbn [find_module]; run_simpl.
  { by rewrite Ht. }
  cbn [length] in Hf. destruct Ht as (Ht & Hsz & Hnext & Hts). pose proof (tag_stride_bounds m p ltac:(lia)).
  assert (tag_type m p ≠ MULTIBOOT2_TAG_TYPE_MODULE → tag_type m p ≠ 0 →
    result (if tag_type m p =? 0 then mret (NULL, NULL) else
      if tag_type m p =? MULTIBOOT2_TAG_TYPE_MODULE then
        kprintf ("[INITRD] module start=%p end=%p size=%u" +:+ nl)
          [KInt (mod_start m p); KInt (mod_end m p); kint (mod_end m p - mod_start m p)] ;;
        mret (mod_start m p, mod_end m p)
      else find_module fuel (u64 (p + ALIGN_UP32 (tag_size m p) 8))) m =
    Some (first_module ts, m)) as Hskip.
  { intros H1 H2. apply Z.eqb_neq in H1, H2. rewrite H1, H2, ALIGN_UP32_stride by lia. fold (tag_stride m p).
    rewrite u64_id by (unfold is_u64; lia). apply IH; [done|lia|lia]. }
  assert (∀ t', is_module t' = false → first_module (t' :: ts) = first_module ts) as Hfm.
  { intros t' Hn. unfold first_module. cbn [list_find]. rewrite decide_False by (by rewrite Hn).
    by destruct (list_find _ ts) as [[]|]. }
  destruct t as [step rs|s e|ty].
  - destruct Ht as (Hty & _). rewrite Hfm by done. apply Hskip; by rewrite Hty.
  - by destruct Ht as (-> & <- & <- & _).
  - destruct Ht as (<- & ? & ? & ?). rewrite Hfm by done. by apply Hskip.
Qed.

(** C28: [parse_mmap] of main.c on a well-formed boot information returns, with
    enough fuel for its tags and entries, the largest available region of the
    memory map, as long as it is larger than the default of 32 MiB at 1 MiB,
    and that default otherwise; it writes nothing. *)
Theorem parse_mmap_largest m fuel info ts :
  boot_info m info ts → (length ts + length (memory_map ts) < fuel)%nat →
  ∃ b n, result (parse_mmap fuel info) m = Some ((b, n), m) ∧
    (∀ r, r ∈ memory_map ts → available r → r_len r ≤ n) ∧
    ((b, n) = (0x100000, 32 * 1024 * 1024) ∨
     ∃ r, r ∈ memory_map ts ∧ available r ∧ (b, n) = (r_base r, r_len r) ∧ 32 * 1024 * 1024 < n).
Proof.
  intros Hi Hf. rewrite (parse_mmap_run m fuel info ts Hi Hf).
  pose proof (largest_spec (0x100000, 32 * 1024 * 1024) (memory_map ts)) as Hl.
  destruct (largest _ _) as [b n]. exists b, n. naive_solver.
Qed.


(** The search for the initrd takes the first module of the boot
    information, or none; it needs one round per tag. *)
Theorem find_module_first m fuel p end_ ts :
  tags_at m p end_ ts → 0 ≤ p → end_ < 2 ^ 64 → (length ts < fuel)%nat →
  result (find_module fuel p) m = Some (first_module ts, m).
Proof. apply find_module_run. Qed.

(** A first tag of size 0 and a type other than 0 is never left: no amount
    of fuel makes [parse_mmap] return, which is to say it does not terminate. *)
Theorem parse_mmap_diverges m fuel info :
  0 < info → info + total_size m info < 2 ^ 64 → 24 ≤ total_size m info →
  tag_size m (info + 8) = 0 → tag_type m (info + 8) ≠ 0 →
  result (parse_mmap fuel info) m = None.
Proof.
  intros Hi He Hs Hz Ht. unfold parse_mmap. cbv zeta.
  rewrite (proj2 (Z.eqb_neq info NULL)) by (unfold NULL; lia). run_simpl.
  rewrite (proj2 (Z.ltb_ge _ _)) by lia. rewrite !u64_id by (unfold is_u64; lia).
  generalize (0x100000, 32 * 1024 * 1024). induction fuel as [|fuel IH]; intros best; cbn [parse_tags];
    rewrite (proj2 (Z.ltb_lt _ _)) by lia; cbn [negb]; [done|]. run_simpl.
  apply Z.eqb_neq in Ht. rewrite Ht. etransitivity; [apply result_bind|]. rewrite Hz.
  assert (∀ fuel best, result (parse_entries (S fuel) (info + 8) (u64 (info + 8 + sizeof_mb2_tag_mmap)) (u64 (info + 8 + 0)) best) m = Some (best, m)) as Hent.
  { intros f b. cbn [parse_entries]. rewrite (proj2 (Z.ltb_ge _ _)); [done|].
    unfold sizeof_mb2_tag_mmap. rewrite u64_id by (unfold is_u64; lia).
    rewrite u64_id by (unfold is_u64; lia). lia. }
  destruct (tag_type m (info + 8) =? 6); [rewrite Hent|]; cbv beta iota.
  all: change (ALIGN_UP32 0 8) with 0; rewrite Z.add_0_r, u64_id by (unfold is_u64; lia); apply IH.
Qed.
End info_theorems.

(** ** From reset to the idle loop *)

(** The memory of a machine after the descriptor tables were written. *)
Section tables.
Context `{Link}.
Implicit Types m : mem.

Lemma wp_modify {S} (f : S → S) (Q : unit → S → Prop) E s : Q tt (f s) → wp (modify f) Q E s.
Proof. done. Qed.

(** Stores keep memory a memory of bytes. *)
Ltac wf_stores :=
  repeat match goal with
  | |- wp (_ ≫= _) _ _ _ => apply wp_bind
  | |- wp (modify _) _ _ _ => apply wp_modify; cbv beta
  end; auto 20 using mem_wf_st_le, mem_wf_st8, mem_wf_st_bytes.

Lemma set_entry_wf i base limit access gran m :
  mem_wf m → wp (set_entry i base limit access gran) (λ _, mem_wf) (λ _, False) m.
Proof. intros Hm. unfold set_entry, st16. cbv zeta. wf_stores. Qed.

Lemma set_gate_wf num handler ist dpl m :
  mem_wf m → wp (set_gate num handler ist dpl) (λ _, mem_wf) (λ _, False) m.
Proof. intros Hm. unfold set_gate, st16, st32. cbv zeta. wf_stores. Qed.

Lemma gdt_init_wf m : mem_wf m → wp gdt_init (λ _, mem_wf) (λ _, False) m.
Proof.
  intros Hm. unfold gdt_init. cbv zeta. generalize (tss_descriptor sym_tss (u32 (sizeof_tss - 1))) as bs. intros bs.
  do 6 (apply wp_bind; eapply wp_mono; [|by apply set_entry_wf]; clear m Hm; intros ? m Hm; cbv beta).
  apply wp_bind, wp_modify. cbv beta. do 3 (apply wp_bind; eapply wp_result; [apply result_instruction|]; cbv beta).
  eapply wp_result; [apply result_kprintf|]. by apply mem_wf_st_bytes.
Qed.

Lemma idt_init_wf m : mem_wf m → wp idt_init (λ _, mem_wf) (λ _, False) m.
Proof.
  intros Hm. unfold idt_init. apply wp_bind. eapply wp_mono; [|apply (wp_for_each mem_wf); [|exact Hm]].
  2:{ intros x s Hs. case_match; [by apply set_gate_wf|by apply wp_ret]. }
  clear m Hm. intros ? m Hm. cbv beta. apply wp_bind.
  eapply (wp_mono _ (λ _, mem_wf)); [|case_match; [by apply set_gate_wf|by apply wp_ret]].
  clear m Hm. intros ? m Hm. cbv beta. apply wp_bind. eapply wp_result; [apply result_instruction|]. cbv beta.
  eapply wp_result; [apply result_kprintf|]. exact Hm.
Qed.

(** Bytes the tables do not occupy. *)
Definition outside_tables (a : Z) : Prop :=
  (a < sym_gdt ∨ sym_gdt + 64 ≤ a) ∧ (a < sym_idt ∨ sym_idt + 4096 ≤ a).
Definition same_outside m m' : Prop := ∀ a, outside_tables a → ld8 m' a = ld8 m a.

Lemma gdt_init_done m : 0 ≤ sym_tss → mem_wf m → ∃ m', result gdt_init m = Some (tt, m') ∧ mem_wf m' ∧ same_outside m m'.
Proof.
  intros Ht Hm. destruct (gdt_init_run m Ht) as (m' & E & _ & _ & Ho).
  destruct (wp_elim _ _ _ _ (gdt_init_wf m Hm)) as (? & m'' & E' & Hm'); [by intros ? []|]. simplify_eq.
  exists m'. split_and!; [done..|]. intros a [Ha _]. by apply Ho.
Qed.

Lemma idt_init_done m : mem_wf m → ∃ m', result idt_init m = Some (tt, m') ∧ mem_wf m' ∧ same_outside m m'.
Proof.
  intros Hm. destruct (idt_init_run m) as (m' & E & _ & Ho).
  destruct (wp_elim _ _ _ _ (idt_init_wf m Hm)) as (? & m'' & E' & Hm'); [by intros ? []|]. simplify_eq.
  exists m'. split_and!; [done..|]. intros a [_ Ha]. apply Ho. intros v [Hv _]. unfold gate_addr. lia.
Qed.
End tables.

(** The boot information in two memories that agree on it. *)
Section same_info.
Implicit Types m : mem.

Lemma entries_at_same base size m m' e step rs :
  same_file base size m m' → base ≤ e → 24 ≤ step → e + step * Z.of_nat (length rs) ≤ base + size →
  entries_at m e step rs → entries_at m' e step rs.
Proof.
  intros Hs He Hst. revert e He. induction rs as [|r rs IH]; intros e He Hlen Hrs; [done|]. destruct Hrs as [(E1 & E2 & E3) Hrs].
  cbn [length] in Hlen. split; [|apply IH; [lia|lia|done]]. unfold base_addr, length_, entry_type, ld64, ld32 in *.
  rewrite !(same_file_ld base size m m') by (done || lia). done.
Qed.

Lemma tags_at_same base size m m' p ts :
  same_file base size m m' → base ≤ p → tags_at m p (base + size) ts → tags_at m' p (base + size) ts.
Proof.
  intros Hs. revert p. induction ts as [|t ts IH]; intros p Hp [Hlt Ht];
    assert (tag_type m' p = tag_type m p) as Ety by (unfold tag_type, ld32; apply (same_file_ld base size); done || lia);
    assert (tag_size m' p = tag_size m p) as Esz by (unfold tag_size, ld32; apply (same_file_ld base size); done || lia);
    (split; [done|]); [by rewrite Ety|].
  destruct Ht as (Ht & Hsz & Hnext & Hts). pose proof (tag_stride_bounds m p ltac:(lia)).
  assert (tag_stride m' p = tag_stride m p) as Estr by (unfold tag_stride; by rewrite Esz).
  rewrite Esz, Estr. split_and!; [|lia|lia|done|apply IH; [lia|done]].
  destruct t as [step rs|s e|ty]; cbn [tag_at] in *; rewrite Ety; [| |done].
  - destruct Ht as (Ht & Hes & Hst & Hlen & Hrs). rewrite Esz. unfold sizeof_mb2_tag_mmap, entry_size, ld32 in *.
    rewrite (same_file_ld base size m m') by (done || lia). split_and!; [done..|].
    apply (entries_at_same base size m); [done|lia|done|lia|done].
  - destruct Ht as (Ht & Hms & Hme & H16). rewrite Esz. unfold mod_start, mod_end, ld32 in *.
    rewrite !(same_file_ld base size m m') by (done || lia). done.
Qed.

Lemma boot_info_same m m' info ts :
  boot_info m info ts → same_file info (total_size m info) m m' → boot_info m' info ts.
Proof.
  intros [Hi He Hs Ht] Hsame.
  assert (total_size m' info = total_size m info) as Esz
    by (unfold total_size, ld32 in *; apply (same_file_ld info (ld_le m info 4)); done || lia).
  split; rewrite ?Esz; [done..|]. apply (tags_at_same _ _ m); [done|lia|done].
Qed.
End same_info.

(** ** The steps of [kernel_start] *)

(** The kernel's static storage, whatever memory and page tables hold. *)
Definition fresh_kernel (mm : mem) (v : vmm) : kernel := (kernel_zero v) <| k_mem := mm |>.

Definition starved (k : kernel) : Prop := out_of_frames (k_vmm k).

Section steps.
Context `{Link} `{BootLink} (rcx : Z → Z).

(** One kernel component on the machine. *)
Definition with_kernel (k : kernel) (s : machine) : machine :=
  s <| m_sys := (m_sys s) <| s_kernel := k |> |>.

Lemma wp_in_kernel {A} (m : M kernel A) (Q : A → machine → Prop) (E : machine → Prop) s :
  wp m (λ a k, Q a (with_kernel k s)) (λ k, E (with_kernel k s)) (m_kernel s) → wp (in_kernel m) Q E s.
Proof. intros Hm. unfold in_kernel. by apply wp_lift, wp_lift. Qed.

Lemma m_kernel_with k s : m_kernel (with_kernel k s) = k.
Proof. done. Qed.

Lemma fresh_slot mm v i : slot i → proc (fresh_kernel mm v) i = process_zero.
Proof. intros Hi. unfold proc. apply lookup_total_replicate_2. exact Hi. Qed.

Lemma fresh_unused mm v i : slot i → ¬ used (fresh_kernel mm v) i.
Proof. intros Hi. unfold used. rewrite fresh_slot by done. cbn. tauto. Qed.

Lemma fresh_inv mm v : kernel_inv (fresh_kernel mm v).
Proof.
  split.
  - split; [apply length_replicate|done| | | |cbn; lia].
    + intros i Hi. by rewrite fresh_slot.
    + intros i Hi Hu. by destruct (fresh_unused mm v i Hi).
    + intros i j Hi _ Hu. by destruct (fresh_unused mm v i Hi).
  - exists (λ _, []). split; try done.
    + intros i Hi. by rewrite fresh_slot.
    + intros i Hi. by rewrite fresh_slot.
    + intros i Hi. by rewrite fresh_slot.
    + intros m Hm. unfold pool_used. rewrite (lookup_total_replicate_2 _ false m Hm : msg_used (fresh_kernel mm v) !!! m = false). split; [done|]. intros (i & _ & Hx). by apply elem_of_nil in Hx.
    + intros i m Hx. by apply elem_of_nil in Hx.
    + intros i. apply NoDup_nil_2.
    + intros i j m Hx. by apply elem_of_nil in Hx.
    + intros m Hm. unfold msg. rewrite (lookup_total_replicate_2 _ message_zero m Hm : msg_pool (fresh_kernel mm v) !!! m = message_zero). split; [apply length_replicate|done].
Qed.

Lemma foldl_upd_proc f l s :
  foldl (λ s i, upd_proc i f s) s l = s <| proc_table := foldl (λ t i, alter f i t) (proc_table s) l |>.
Proof. revert s. induction l as [|i l IH]; intros s; [by destruct s|]. cbn [foldl]. by rewrite IH. Qed.

Lemma proc_init_fresh mm v : result proc_init (fresh_kernel mm v) = Some (tt, fresh_kernel mm v).
Proof.
  unfold proc_init. rewrite result_bind, (result_for_each_modify _ (λ i, upd_proc i _)), foldl_upd_proc, result_kprintf.
  reflexivity.
Qed.

(** [vmm_init] on whatever tables the processor runs on. *)
Lemma vmm_map_page_grows s0 s root va pa fl :
  grows s0 s → wp (vmm_map_page root va pa fl) (λ _, grows s0) out_of_frames s.
Proof.
  intros Hg. unfold vmm_map_page. apply wp_bind. eapply wp_mono; [|apply vmm_map_grows, Hg].
  intros ? s' Hg'. apply wp_ret. by eapply grows_trans.
Qed.

Lemma vmm_init_grows s cr3 :
  fa_inv (v_pmm s) → wp (vmm_init cr3) (λ _, grows s) out_of_frames s.
Proof.
  intros Hi. unfold vmm_init. apply wp_bind, wp_modify. cbv beta.
  do 4 (apply wp_bind; eapply wp_result; [done|]; cbv beta). cbv zeta.
  match goal with |- wp _ _ _ ?x => assert (grows s x) as Hg by (by apply grows_same); revert Hg; generalize x end.
  intros s1 Hg. generalize (kernel_pml4 s1). intros root.
  apply wp_bind. eapply wp_mono; [|apply (wp_for_each (grows s)); [|exact Hg]].
  2:{ intros va s2. apply vmm_map_page_grows. }
  clear s1 Hg. intros ? s1 Hg. cbv beta. apply wp_bind.
  eapply wp_mono; [|apply (wp_for_each (grows s)); [|exact Hg]].
  { intros ? s2 Hg2. eapply wp_result; [apply result_instruction|]. exact Hg2. }
  clear s1 Hg. intros va s1 Hg. apply wp_bind. unfold pmm_alloc_page.
  destruct (lift_pmm_alloc s1) as (pg & p & Hr & Hg1 & Hc); [apply Hg|]. eapply wp_result; [exact Hr|]. cbv beta.
  apply wp_bind. destruct Hc as [[-> Ho]|(Ha & _)]; [exact Ho|]. apply Z.eqb_neq in Ha. change NULL with 0. rewrite Ha.
  apply wp_ret. apply vmm_map_page_grows. by eapply grows_trans.
Qed.

(** What the first phase needs of the boot loader and the link: the boot
    information is in place, apart from the descriptor tables, and the memory it
    reports ends below [2^52]. *)
Record boot_ready (mm : mem) (info : Z) (ts : list tag) : Prop := {
  br_info : boot_info mm info ts;
  br_wf : mem_wf mm;
  br_apart a : info ≤ a < info + total_size mm info → outside_tables a;
  br_map r : r ∈ memory_map ts → available r → 0 ≤ r_base r ∧ r_base r + r_len r ≤ 2 ^ 52;
}.

Lemma boot_ready_same mm mm' info ts :
  boot_ready mm info ts → mem_wf mm' → same_outside mm mm' → boot_ready mm' info ts.
Proof.
  intros [Hi Hwf Ha Hm] Hwf' Hs.
  assert (same_file info (total_size mm info) mm mm') as Hsame by (intros a Hx; by apply Hs, Ha).
  assert (total_size mm' info = total_size mm info) as Esz.
  { pose proof (bi_size _ _ _ Hi). unfold total_size, ld32 in *. apply (same_file_ld info (ld_le mm info 4)); done || lia. }
  split; [by eapply boot_info_same|done| |done]. by rewrite Esz.
Qed.

(** The region that is chosen is managed without wrapping around. *)
Lemma boot_region_fits mm info ts fuel :
  boot_ready mm info ts → (length ts + length (memory_map ts) < fuel)%nat →
  ∃ r, result (parse_mmap fuel info) mm = Some (r, mm) ∧
    let '(b, n) := skip_kernel r in 0x200000 ≤ b ∧ 0 ≤ n ∧ b + n ≤ 2 ^ 52.
Proof.
  intros [Hi Hwf Ha Hm] Hf. pose proof (parse_mmap_run mm fuel info ts Hi Hf) as Hr. eexists. split; [exact Hr|].
  destruct (parse_mmap_any _ _ _ _ _ Hwf Hr) as [_ Hc].
  pose proof (largest_spec (0x100000, 32 * 1024 * 1024) (memory_map ts)) as Hl.
  destruct (largest _ _) as [b n]. pose proof (skip_kernel_spec b n Hc) as Hs.
  destruct (skip_kernel (b, n)) as [b' n']. destruct Hs as [-> Hs], Hl as (Hle & _ & Hcase). cbn [snd] in Hle.
  assert (0 ≤ b ∧ b + n ≤ 2 ^ 52) as [Hb0 Hb].
  { destruct Hcase as [[= -> ->]|(r & Hin & Hav & [= -> ->] & _)]; [lia|by apply Hm]. }
  lia.
Qed.

(** Devices do not touch the kernel's state. *)
Lemma wp_console {A B} (m : M console A) (f : A → M machine B) Q E s :
  (∃ a c, result m (m_con s) = Some (a, c)) → (∀ a s', m_kernel s' = m_kernel s → wp (f a) Q E s') →
  wp (lift m ≫= f) Q E s.
Proof.
  intros (a & c & Hr) Hf. apply wp_bind, wp_lift. eapply wp_result; [exact Hr|]. by apply Hf.
Qed.

Lemma wp_quiet {A B} (m : M machine A) (f : A → M machine B) Q E s :
  (∃ a, result m s = Some (a, s)) → (∀ a, wp (f a) Q E s) → wp (m ≫= f) Q E s.
Proof. intros (a & Hr) Hf. apply wp_bind. eapply wp_result; [exact Hr|]. apply Hf. Qed.

(** A step of a kernel component whose result is known. *)
Lemma wp_kernel_step {T A B} `{Lens kernel T} (m : M T A) (f : A → M machine B) Q E s a t :
  result m (view (m_kernel s)) = Some (a, t) →
  wp (f a) Q E (with_kernel (put t (m_kernel s)) s) → wp (in_kernel (lift m) ≫= f) Q E s.
Proof.
  intros Hr Hf. apply wp_bind, wp_in_kernel, wp_lift. eapply wp_result; [exact Hr|]. exact Hf.
Qed.

Definition is_fresh (P : mem → vmm → Prop) (s : machine) : Prop :=
  ∃ mm v, m_kernel s = fresh_kernel mm v ∧ P mm v.

Lemma init_machine_wp s info ts fuel magic :
  0 ≤ sym_tss → (length ts + length (memory_map ts) < fuel)%nat →
  is_fresh (λ mm v, boot_ready mm info ts ∧ v_pmm v = pmm_zero) s →
  wp (init_machine fuel magic info) (λ _, is_fresh (λ mm v, boot_ready mm info ts ∧ fa_inv (v_pmm v)))
    (λ s', starved (m_kernel s')) s.
Proof.
  intros Ht Hf (mm & v & Hk & Hb & Hp). unfold init_machine.
  apply wp_console; [eexists _, _; unfold serial_init; run_simpl; reflexivity|]. intros _ s1 Hk1. rewrite Hk in Hk1. clear s Hk.
  apply wp_console; [eexists _, _; unfold vga_init, vga_clear, vga_update_cursor; run_simpl; reflexivity|]. intros _ s2 Hk2. rewrite Hk1 in Hk2. clear s1 Hk1.
  apply wp_quiet; [eexists; unfold banner; run_simpl; reflexivity|]. intros _.
  apply wp_quiet; [eexists; unfold check_magic; destruct (negb _); run_simpl; reflexivity|]. intros _.
  destruct (gdt_init_done mm Ht) as (m1 & E1 & Hm1 & Ho1); [apply Hb|].
  eapply wp_kernel_step; [rewrite Hk2; exact E1|]. cbv beta. rewrite Hk2.
  change (put m1 (fresh_kernel mm v)) with (fresh_kernel m1 v).
  assert (boot_ready m1 info ts) as Hb1 by (by eapply boot_ready_same).
  destruct (idt_init_done m1 Hm1) as (m2 & E2 & Hm2 & Ho2).
  eapply wp_kernel_step; [rewrite m_kernel_with; exact E2|]. cbv beta. rewrite m_kernel_with.
  change (put m2 (fresh_kernel m1 v)) with (fresh_kernel m2 v).
  assert (boot_ready m2 info ts) as Hb2 by (by eapply boot_ready_same).
  set (s3 := with_kernel (fresh_kernel m2 v) _). assert (m_kernel s3 = fresh_kernel m2 v) as Hk3 by done. clearbody s3.
  apply wp_quiet; [eexists; unfold pic_init, io_wait; run_simpl; reflexivity|]. intros _.
  apply wp_quiet; [eexists; unfold pit_init; run_simpl; reflexivity|]. intros _.
  destruct (boot_region_fits m2 info ts fuel Hb2 Hf) as (r & Er & Hr).
  eapply wp_kernel_step; [rewrite Hk3; exact Er|]. cbv beta. rewrite Hk3.
  change (put m2 (fresh_kernel m2 v)) with (fresh_kernel m2 v).
  destruct (skip_kernel r) as [b n]. destruct Hr as (Hb200 & Hn & Hbn).
  destruct (pmm_init_fresh pmm_zero b n) as (q & Eq & Hwf & _ & Hbase & _);
    [exact bitmap_ok_zero|unfold is_u64; lia|done|lia|].
  eapply wp_kernel_step; [rewrite m_kernel_with; cbn [view lens_kernel_pmm]; rewrite <-Hp in Eq; exact Eq|].
  cbv beta. rewrite m_kernel_with. change (put q (fresh_kernel m2 v)) with (fresh_kernel m2 (v <| v_pmm := q |>)).
  assert (fa_inv q) as Hq.
  { split; [done|]. rewrite Hbase. destruct (PAGE_ALIGN_spec b) as [Hal _]; [unfold is_u64; lia|lia|lia]. }
  apply wp_bind, wp_in_kernel, wp_lift. rewrite m_kernel_with. cbn [view lens_kernel_vmm].
  eapply wp_weaken; [apply (vmm_init_grows (v <| v_pmm := q |>)); exact Hq|..].
  2:{ intros v' Hv'. exact Hv'. }
  intros _ v' (Hv' & _). apply wp_in_kernel. eapply wp_result; [apply result_kprintf|].
  exists m2, v'. by split_and!.
Qed.

Lemma find_module_any m fuel p r m' :
  mem_wf m → result (find_module fuel p) m = Some (r, m') → m' = m ∧ 0 ≤ r.1 < 2 ^ 32 ∧ 0 ≤ r.2 < 2 ^ 32.
Proof.
  intros Hm. revert p. induction fuel as [|fuel IH]; intros p; cbn [find_module]; run_simpl; [done|].
  destruct (tag_type m p =? 0); [by intros [= <- <-]|].
  destruct (_ =? MULTIBOOT2_TAG_TYPE_MODULE); [|apply IH]. rewrite result_bind, result_kprintf, result_ret.
  intros [= <- <-]. pose proof (ld_le_range m (p + 8) 4 Hm). pose proof (ld_le_range m (p + 12) 4 Hm).
  unfold mod_start, mod_end, ld32. cbn [fst snd]. change (2 ^ (8 * Z.of_nat 4)) with (2 ^ 32) in *. split_and!; [done|lia..].
Qed.

Lemma init_files_wp s info ts fuel P E :
  (length ts < fuel)%nat → (∀ mm v, P mm v → boot_info mm info ts ∧ mem_wf mm) →
  is_fresh P s → wp (init_files fuel info) (λ _, is_fresh P) E s.
Proof.
  intros Hf HP (mm & v & Hk & Hp). destruct (HP mm v Hp) as [[Hi He Hsz Ht] Hwf]. unfold init_files.
  apply wp_quiet; [by eexists|]. intros _.
  rewrite u64_id by (unfold is_u64; lia).
  pose proof (find_module_run mm fuel (info + 8) (info + total_size mm info) ts Ht ltac:(lia) He Hf) as Hr.
  destruct (find_module_any _ _ _ _ _ Hwf Hr) as (_ & H1 & H2).
  eapply wp_kernel_step; [rewrite Hk; exact Hr|]. cbv beta. rewrite Hk.
  change (put mm (fresh_kernel mm v)) with (fresh_kernel mm v).
  destruct (first_module ts) as [st en]. cbn [fst snd] in *.
  set (s1 := with_kernel _ _). assert (m_kernel s1 = fresh_kernel mm v) as Hk1 by done. clearbody s1.
  apply wp_quiet; [eexists; destruct (st =? NULL); run_simpl; reflexivity|]. intros _.
  set (i0 := Initrd (k_mem (m_kernel s1)) (s_files (m_sys s1))).
  destruct (initrd_init_any i0 st en) as (i1 & Ei & Hmem & _); [lia..|].
  apply wp_bind, wp_lift, wp_lift. eapply wp_result; [exact Ei|]. cbv beta.
  set (s2 := put _ s1).
  assert (m_kernel s2 = fresh_kernel mm v) as Hk2.
  { unfold s2, m_kernel. cbn [put view lens_machine_system lens_system_initrd m_sys s_kernel setter]. rewrite Hmem.
    unfold i0. cbn [i_mem]. rewrite Hk1. unfold m_kernel in Hk1. by rewrite Hk1. }
  clearbody s2. apply wp_lift, wp_lift. unfold initrd_list.
  apply wp_bind. eapply wp_result; [done|]. cbv beta.
  apply (wp_for_each (λ i, is_fresh P (put (put i (view s2)) s2))).
  - intros f i Hfr. eapply wp_result; [apply result_kprintf|]. exact Hfr.
  - rewrite !put_view. by exists mm, v.
Qed.

(** ** The first processes *)

(** A part of the state that a function leaves alone. *)
Definition keeps {S X A} (f : S → X) (m : M S A) : Prop := ∀ s a s', result m s = Some (a, s') → f s' = f s.

Lemma keeps_bind {S X A B} (f : S → X) (m : M S A) (g : A → M S B) :
  keeps f m → (∀ a, keeps f (g a)) → keeps f (m ≫= g).
Proof.
  intros Hm Hg s b s'. rewrite result_bind. destruct (result m s) as [[a s1]|] eqn:E; [|done].
  intros Hr. rewrite (Hg _ _ _ _ Hr). by eapply Hm.
Qed.
Lemma keeps_ret {S X A} (f : S → X) (a : A) : keeps f (mret a).
Proof. intros s b s'. rewrite result_ret. by intros [= _ ->]. Qed.
Lemma keeps_modify {S X} (f : S → X) g : (∀ s, f (g s) = f s) → keeps f (modify g).
Proof. intros Hg s b s'. rewrite result_modify. by intros [= _ <-]. Qed.
Lemma keeps_gets {S X A} (f : S → X) (g : S → A) : keeps f (gets g).
Proof. intros s b s'. rewrite result_gets. by intros [= _ <-]. Qed.
Lemma keeps_kprintf {S X} (f : S → X) fmt args : keeps f (kprintf fmt args).
Proof. intros s b s'. rewrite result_kprintf. by intros [= _ <-]. Qed.
Lemma keeps_lift {T S X A} `{Lens T S} (f : T → X) (m : M S A) : (∀ s t, f (put s t) = f t) → keeps f (lift m).
Proof.
  intros Hf t a t'. rewrite result_lift. destruct (result m (view t)) as [[b s]|]; [|done]. by intros [= _ <-].
Qed.

Definition env (k : kernel) : vmm * mem * bool := (k_vmm k, k_mem k, k_if k).

Lemma proc_create_env nm start user : keeps env (proc_create nm start user).
Proof.
  unfold proc_create, alloc_proc, alloc_pid. apply keeps_bind; [apply keeps_gets|]. intros [p|].
  2:{ apply keeps_bind; [apply keeps_kprintf|]. intros _. apply keeps_ret. }
  apply keeps_bind; [by apply keeps_lift|]. intros kst. destruct (kst =? NULL).
  { apply keeps_bind; [apply keeps_kprintf|]. intros _. apply keeps_ret. }
  cbv zeta.
  repeat first [apply keeps_ret | apply keeps_bind | apply keeps_gets | apply keeps_kprintf
    | by apply keeps_lift | by apply keeps_modify | intro].
Qed.

Record idle_ready (k : kernel) : Prop := {
  ir_inv : kernel_inv k;
  ir_frames : fa_inv (v_pmm (k_vmm k));
  ir_mem : mem_wf (k_mem k);
  ir_cur : current_proc k = None;
  ir_next : next_pid k ≤ 3;
  ir_idle : state (proc k 0) = PROC_READY ∧ pid (proc k 0) = 1;
}.

Lemma create_idle mm v :
  fa_inv (v_pmm v) → mem_wf mm →
  ∃ k, result (proc_create "idle" proc_idle_addr false) (fresh_kernel mm v) = Some (Some 0%nat, k) ∧
    idle_ready k ∧ next_pid k = 2 ∧ ∀ j, slot j → j ≠ 0%nat → ¬ used k j.
Proof.
  intros Hi Hm. pose proof (kmalloc_result heap_zero [] KSTACK_SIZE heap_zero_rel ltac:(by vm_compute)) as Hk. cbv zeta in Hk.
  change (first_fit _ []) with (@None block) in Hk.
  assert ((heap_ptr heap_zero + sizeof_heap_block + ALIGN_UP KSTACK_SIZE 16 <=? KHEAP_START + KHEAP_SIZE) = true) as Hfit
    by (by vm_compute).
  rewrite Hfit in Hk.
  pose proof (proc_create_cases (fresh_kernel mm v) "idle" proc_idle_addr false _ _ (si_len _ (proj1 (fresh_inv mm v)))
    ltac:(by vm_compute) Hk) as Hc.
  change (find_proc (λ p, state p = PROC_UNUSED) (fresh_kernel mm v)) with (Some 0%nat) in Hc. cbv iota in Hc.
  rewrite decide_False in Hc by (by vm_compute). destruct Hc as (k & Hr & Hnew & _).
  exists k. split; [exact Hr|]. pose proof (proc_create_env _ _ _ _ _ _ Hr) as Henv. injection Henv as Ev Em _.
  assert (slot 0) as Hs0 by (unfold slot, PROC_MAX; lia).
  split_and!; [split| |].
  - apply (new_process_inv (fresh_kernel mm v) k 0); [apply fresh_inv|done|by apply fresh_unused|done|done].
  - by rewrite Ev.
  - by rewrite Em.
  - apply Hnew.
  - rewrite (np_next _ _ _ Hnew). by vm_compute.
  - split; [apply Hnew|by rewrite (np_pid _ _ _ Hnew)].
  - apply Hnew.
  - intros j Hj Hne. unfold used. rewrite (np_other _ _ _ Hnew) by done. by apply fresh_unused.
Qed.

(** The page allocator is sane, and the memory of C pointers is [mm]. *)
Definition frames_ok (mm : mem) (k : kernel) : Prop := fa_inv (v_pmm (k_vmm k)) ∧ k_mem k = mm.

Lemma frames_alloc mm k :
  frames_ok mm k →
  wp (S:=kernel) (lift pmm_alloc_page) (λ a k', frames_ok mm k' ∧ (a = NULL → starved k')) starved k.
Proof.
  intros [Hi Hm]. apply wp_lift. unfold pmm_alloc_page. cbn [view lens_kernel_pmm].
  destruct (fa_alloc (v_pmm (k_vmm k)) Hi) as (a & q & Hr & Hi' & Hf & Hc).
  eapply wp_result; [exact Hr|]. split; [done|]. intros ->.
  destruct Hc as [(_ & -> & Hall)|(Hfa & _)]; [exact Hall|].
  destruct (fa_frame_ok _ _ Hi Hfa) as (? & _). unfold NULL in *. lia.
Qed.

Lemma frames_map mm k root va pa fl :
  frames_ok mm k → wp (S:=kernel) (lift (vmm_map root va pa fl)) (λ _, frames_ok mm) starved k.
Proof.
  intros [Hi Hm]. apply wp_lift. eapply wp_weaken; [apply (vmm_map_grows (k_vmm k)); exact Hi|..].
  - intros ? v [Hv _]. by split.
  - intros v Hv. exact Hv.
Qed.

Lemma wp_frames_modify {B} mm k g (f : unit → M kernel B) Q E :
  frames_ok mm k → (∀ k, frames_ok mm k → frames_ok mm (g k)) →
  (∀ k, frames_ok mm k → wp (f tt) Q E k) → wp (modify g ≫= f) Q E k.
Proof. intros Hk Hg Hf. apply wp_bind, wp_modify. by apply Hf, Hg. Qed.

Lemma wp_frames_gets {A B} mm k (g : kernel → A) (f : A → M kernel B) Q E :
  frames_ok mm k → (∀ a k, frames_ok mm k → wp (f a) Q E k) → wp (gets g ≫= f) Q E k.
Proof. intros Hk Hf. apply wp_bind. eapply wp_result; [apply result_gets|]. by apply Hf. Qed.

Lemma wp_frames_kprintf {B} mm k fmt args (f : unit → M kernel B) Q E :
  frames_ok mm k → (∀ k, frames_ok mm k → wp (f tt) Q E k) → wp (kprintf fmt args ≫= f) Q E k.
Proof. intros Hk Hf. apply wp_bind. eapply wp_result; [apply result_kprintf|]. by apply Hf. Qed.

Lemma wp_frames_alloc {B} mm k (f : Z → M kernel B) Q :
  frames_ok mm k → (∀ a k, frames_ok mm k → (a = NULL → starved k) → wp (f a) Q starved k) →
  wp (lift pmm_alloc_page ≫= f) Q starved k.
Proof.
  intros Hk Hf. apply wp_bind. eapply wp_mono; [|by apply frames_alloc]. intros a k' [Hk' Ha]. by apply Hf.
Qed.

Lemma wp_frames_check {B} (a : Z) msg k (f : unit → M kernel B) Q :
  (a = NULL → starved k) → wp (f tt) Q starved k →
  wp ((if a =? NULL then panic msg else mret tt) ≫= f) Q starved k.
Proof.
  intros Ha Hf. apply wp_bind. destruct (Z.eqb_spec a NULL) as [E|_]; [exact (Ha E)|by apply wp_ret].
Qed.

Lemma proc_create_elf_frames nm elf mm k :
  length (proc_table k) = PROC_MAX → frames_ok mm k →
  wp (proc_create_elf nm elf) (λ r k', frames_ok mm k' ∧ (r = None → ∀ i, slot i → used k i)) starved k.
Proof.
  intros Hl Hk. unfold proc_create_elf. apply wp_bind. pose proof (result_alloc_proc_slot k) as Hr.
  destruct (find_proc _ k) as [p|] eqn:Ef; (eapply wp_result; [exact Hr|]).
  2:{ apply wp_ret. split; [done|]. intros _ i Hi Hu. by apply (find_proc_none _ k Hl Ef i Hi). }
  cbv beta. clear Hr. set (Q := λ (r : option nat) k', _ ∧ _).
  assert (∀ k', frames_ok mm k' → Q (Some p) k') as HQ by (intros k' Hk'; by split). clearbody Q.
  assert (frames_ok mm (upd_proc p (λ p, p <| state := PROC_READY |>) (upd_proc p (λ _, process_zero) k))) as Hk1 by done.
  revert Hk1. generalize (upd_proc p (λ p, p <| state := PROC_READY |>) (upd_proc p (λ _, process_zero) k)). clear k Hl Hk Ef.
  intros k Hk. cbv zeta.
  unfold alloc_pid. apply wp_bind. apply (wp_frames_gets mm); [done|]. clear k Hk. intros n k Hk.
  apply (wp_frames_modify mm); [done|done|]. clear k Hk. intros k Hk. apply wp_ret.
  apply (wp_frames_modify mm); [done|done|]. clear k Hk. intros k Hk.
  apply (wp_frames_alloc mm); [done|]. clear k Hk. intros pa k Hk Hs. apply wp_frames_check; [done|]. clear Hs.
  unfold vmm_memory. do 1 (apply (wp_frames_modify mm); [done|done|]; clear k Hk; intros k Hk).
  apply (wp_frames_gets mm); [done|]. clear k Hk. intros kp k Hk.
  do 2 (apply (wp_frames_modify mm); [done|done|]; clear k Hk; intros k Hk).
  apply wp_bind. eapply wp_mono; [|apply (wp_for_each (frames_ok mm)); [|exact Hk]].
  2:{ clear k Hk. intros addr k Hk. apply (wp_frames_alloc mm); [done|]. clear k Hk. intros pg k Hk _.
      apply (wp_frames_gets mm); [done|]. clear k Hk. intros t k Hk. apply wp_bind.
      eapply wp_mono; [|by apply frames_map]. intros ? k' Hk'. by apply wp_ret. }
  clear k Hk. intros ? k Hk. cbv beta.
  apply (wp_frames_gets mm); [done|]. clear k Hk. intros en k Hk.
  apply (wp_frames_modify mm); [done|done|]. clear k Hk. intros k Hk.
  do 3 (apply (wp_frames_kprintf mm); [done|]; clear k Hk; intros k Hk).
  unfold alloc_kernel_stack_for_proc. apply wp_bind.
  apply (wp_frames_alloc mm); [done|]. clear k Hk. intros st k Hk Hs. apply wp_frames_check; [done|]. clear Hs. apply wp_ret.
  do 2 (apply (wp_frames_modify mm); [done|done|]; clear k Hk; intros k Hk).
  apply wp_ret. by apply HQ.
Qed.

Lemma idle_ready_data k k' :
  idle_ready k → same_data k k' → fa_inv (v_pmm (k_vmm k')) → mem_wf (k_mem k') → idle_ready k'.
Proof.
  intros [Hi _ _ Hc Hn Hp] Hd Hf Hm. pose proof Hd as (Ht & Hc' & Hn' & _).
  split; [by eapply kernel_inv_data|done|done|by rewrite Hc'|by rewrite Hn'|]. unfold proc in *. by rewrite Ht.
Qed.

Lemma start_shell_wp s :
  idle_ready (m_kernel s) → next_pid (m_kernel s) = 2 → (∀ j, slot j → j ≠ 0%nat → ¬ used (m_kernel s) j) →
  wp (start_shell rcx) (λ _ s', idle_ready (m_kernel s')) (λ s', starved (m_kernel s')) s.
Proof.
  intros Hr Hn Hfree. unfold start_shell. apply wp_bind, wp_lift.
  eapply wp_weaken; [apply (elf_load_run rcx (m_sys s)); [apply (ir_frames _ Hr)|apply (ir_mem _ Hr)]|..].
  2:{ intros ? (v & mm & -> & Ho). exact Ho. }
  intros ok ? (v & mm & -> & Hg & Hm).
  set (s1 := put _ s). set (k1 := (m_kernel s) <| k_vmm := v |> <| k_mem := mm |>).
  assert (m_kernel s1 = k1) as Hk1 by done.
  assert (idle_ready k1) as Hr1 by (apply (idle_ready_data (m_kernel s)); [done|done|apply Hg|done]).
  assert (next_pid k1 = 2) as Hn1 by done.
  assert (¬ used k1 1) as Hu1 by (apply (Hfree 1%nat); [unfold slot, PROC_MAX; lia|done]).
  clearbody s1 k1. clear s Hr Hn Hfree Hg Hm. destruct ok.
  2:{ eapply wp_result; [apply result_kprintf|]. by rewrite Hk1. }
  apply wp_quiet; [by eexists|]. intros entry. apply wp_quiet; [by eexists|]. intros _.
  apply wp_bind, wp_in_kernel. rewrite Hk1.
  pose proof (wp_always _ _ _ _ _ _ k1
    (proc_create_elf_frames "sh" entry (k_mem k1) k1 (si_len _ (proj1 (ir_inv _ Hr1))) (conj (ir_frames _ Hr1) eq_refl))
    (always_proc_create_elf k1 "sh" entry (ir_inv _ Hr1) ltac:(lia))) as Hw.
  eapply wp_weaken; [exact Hw|..].
  2:{ intros k [Hst _]. exact Hst. }
  intros r k [[[Hf Hm] Hfull] Hd]. cbv beta.
  destruct r as [p|]; [|destruct (Hu1 (Hfull eq_refl 1%nat ltac:(unfold slot, PROC_MAX; lia)))].
  destruct Hd as (Hnu & He & _).
  assert (idle_ready k) as Hrk.
  { destruct (ir_idle _ Hr1) as [H1 H2]. assert (0%nat ≠ p) as Hp0.
    { intros <-. apply Hnu. unfold used. by rewrite H1. }
    split; [apply (ep_inv _ _ _ _ He)|done|by rewrite Hm; apply (ir_mem _ Hr1)|by rewrite (ep_current _ _ _ _ He); apply (ir_cur _ Hr1)|
      by rewrite (ep_next _ _ _ _ He), Hn1|by rewrite (ep_other _ _ _ _ He)]. }
  apply wp_quiet; [by eexists|]. intros n. apply wp_quiet; [by eexists|]. intros _. by apply wp_ret.
Qed.

(** The idle process takes the CPU. *)
Lemma hand_over k :
  idle_ready k →
  let k' := upd_proc 0 (λ p, p <| state := PROC_RUNNING |>) (k <| current_proc := Some 0%nat |>) in
  kernel_inv k' ∧ resumed 0 k' ∧ pid (proc k' 0) = 1.
Proof.
  intros Hr k'. pose proof (ir_inv _ Hr) as [Hs [q Hq]]. destruct (ir_idle _ Hr) as [H1 H2].
  assert (slot 0) as Hs0 by (unfold slot, PROC_MAX; lia).
  set (k1 := k <| current_proc := Some 0%nat |>).
  assert (kernel_inv k1) as Hi1.
  { split; [|exists q; by apply (queues_ok_ext k)]. split; try apply Hs.
    - intros c [= <-]. split; [done|]. change (state (proc k 0) ≠ PROC_UNUSED). by rewrite H1.
    - intros i Hi Hrun. pose proof (si_run _ Hs i Hi Hrun) as Hc. by rewrite (ir_cur _ Hr) in Hc. }
  assert ((0 < length (proc_table k1))%nat) as Hlen by (rewrite (si_len _ (proj1 Hi1)); exact Hs0).
  split_and!.
  - apply kernel_inv_upd; [done|done|]. cbv zeta. split_and!; [done..| |done]. split; [done|]. intros Hx.
    assert (state (proc k 0) = PROC_UNUSED) as Hx' by exact Hx. congruence.
  - split; [done|]. unfold k'. fold k1. by rewrite (proc_upd_eq k1 0).
  - unfold k'. fold k1. by rewrite (proc_upd_eq k1 0).
Qed.

Lemma start_processes_wp s :
  is_fresh (λ mm v, mem_wf mm ∧ fa_inv (v_pmm v)) s →
  wp (start_processes rcx)
    (λ _ s', kernel_inv (m_kernel s') ∧ resumed 0 (m_kernel s') ∧ pid (proc (m_kernel s') 0) = 1 ∧ k_if (m_kernel s') = true)
    (λ s', starved (m_kernel s')) s.
Proof.
  intros (mm & v & Hk & Hm & Hi). unfold start_processes.
  destruct (create_idle mm v Hi Hm) as (k & Hr & Hid & Hn & Hfree).
  apply wp_bind, wp_in_kernel. rewrite Hk. eapply wp_result; [exact Hr|]. cbv beta iota.
  apply wp_bind. eapply wp_mono; [|by apply start_shell_wp]. clear s k Hk Hr Hid Hn Hfree. intros ? s Hid. cbv beta.
  apply wp_quiet; [by eexists|]. intros _.
  apply wp_bind, wp_in_kernel, wp_modify. set (k1 := _ <| current_proc := _ |>).
  apply wp_bind, wp_in_kernel, wp_modify. rewrite m_kernel_with. set (k2 := upd_proc _ _ k1).
  destruct (hand_over (m_kernel s) Hid) as (H1 & H2 & H3). fold k1 in H1, H2, H3. fold k2 in H1, H2, H3.
  apply wp_bind, wp_in_kernel. rewrite m_kernel_with. unfold sti.
  apply wp_bind. eapply wp_result; [apply result_instruction|]. apply wp_modify.
  eapply wp_result; [apply result_kprintf|]. rewrite m_kernel_with. split_and!.
  - by apply (kernel_inv_same k2).
  - exact H2.
  - exact H3.
  - reflexivity.
Qed.

Lemma kernel_start_run s info ts fuel magic :
  0 ≤ sym_tss → (length ts + length (memory_map ts) < fuel)%nat →
  is_fresh (λ mm v, boot_ready mm info ts ∧ v_pmm v = pmm_zero) s →
  wp (kernel_start rcx fuel magic info)
    (λ _ s', kernel_inv (m_kernel s') ∧ resumed 0 (m_kernel s') ∧ pid (proc (m_kernel s') 0) = 1 ∧
       k_if (m_kernel s') = true ∧
       ∀ c, rtc step (OutOfKernel (m_kernel s') (λ _, None)) c → kernel_inv (state_of c))
    (λ s', starved (m_kernel s')) s.
Proof.
  intros Ht Hf Hs. unfold kernel_start. apply wp_bind.
  eapply wp_mono; [|exact (init_machine_wp s info ts fuel magic Ht Hf Hs)]. clear s Hs. intros ? s (mm & v & Hk & Hb & Hi).
  apply wp_bind, wp_in_kernel. rewrite Hk. eapply wp_result; [apply proc_init_fresh|]. cbv beta.
  set (s1 := with_kernel _ s). assert (is_fresh (λ mm v, boot_ready mm info ts ∧ fa_inv (v_pmm v)) s1) as Hs1 by (by exists mm, v).
  clearbody s1. apply wp_bind. eapply wp_mono; [|eapply (init_files_wp s1 info ts fuel); [lia| |exact Hs1]].
  2:{ intros mm' v' [[] _]. done. }
  intros ? s2 (mm2 & v2 & Hk2 & Hb2 & Hi2). cbv beta.
  eapply wp_mono; [|apply start_processes_wp; exists mm2, v2; split_and!; [done|apply Hb2|done]].
  cbv beta. intros ? s3 (H1 & H2 & H3 & H4). split_and!; [exact H1|exact H2|exact H3|exact H4|]. intros c. by apply reachable_ok.
Qed.

End steps.

(** ** Entering user mode *)

(** What the processor finds behind a code selector: the privilege level of the
    descriptor and whether it is a 64-bit one. *)
Definition code_dpl `{Link} (m : mem) (sel : Z) : Z := (seg_access m (sym_gdt + 8 * (sel `div` 8)) `div` 32) `mod` 4.
Definition code_64bit `{Link} (m : mem) (sel : Z) : bool := Z.testbit (seg_flags m (sym_gdt + 8 * (sel `div` 8))) 1.

(** A user process starts in 32-bit mode. The code selector that
    [enter_user_mode] pushes names, in the table [gdt_init] builds, the
    descriptor that is there for SYSRET only, a ring-3 code segment without the
    64-bit flag; the 64-bit one is behind selector 0x2B. The stack pointer
    [user_trampoline] passes is the field [user_sp]. *)
Theorem user_entry_32bit `{Link} m p :
  0 ≤ sym_tss →
  ∃ m', result gdt_init m = Some (tt, m') ∧
    let f := user_trampoline p in
    code_dpl m' (uf_cs f) = 3 ∧ code_64bit m' (uf_cs f) = false ∧
    code_dpl m' 0x2B = 3 ∧ code_64bit m' 0x2B = true ∧
    uf_rip f = user_rip p ∧ uf_rsp f = user_sp p.
Proof.
  intros Ht. destruct (gdt_init_run m Ht) as (m' & E & Hg & _). exists m'. split; [done|].
  destruct (seg_of_bytes _ _ _ _ _ _ (Hg 3%nat _ _ _ _ eq_refl)) as (_ & _ & A3 & F3); [done..|].
  destruct (seg_of_bytes _ _ _ _ _ _ (Hg 5%nat _ _ _ _ eq_refl)) as (_ & _ & A5 & F5); [done..|].
  cbv zeta. unfold code_dpl, code_64bit, user_trampoline, enter_user_mode. cbn [uf_cs uf_rip uf_rsp].
  change (8 * (0x1B `div` 8)) with (8 * Z.of_nat 3). change (8 * (0x2B `div` 8)) with (8 * Z.of_nat 5).
  rewrite A3, F3, A5, F5. by split_and!.
Qed.

(** ** Witnesses: 64 MiB of memory from 1 MiB on, and a module *)

Definition demo_info : list Z :=
  le_bytes 4 72 ++ le_bytes 4 0 ++
  le_bytes 4 6 ++ le_bytes 4 40 ++ le_bytes 4 24 ++ le_bytes 4 0 ++
  le_bytes 8 0x100000 ++ le_bytes 8 0x4000000 ++ le_bytes 4 1 ++ le_bytes 4 0 ++
  le_bytes 4 3 ++ le_bytes 4 16 ++ le_bytes 4 0x800000 ++ le_bytes 4 0x800100 ++
  le_bytes 4 0 ++ le_bytes 4 8.
Definition demo_mem : mem := st_bytes ∅ 0x9000 demo_info.
Definition demo_tags : list tag := [TMmap 24 [Region 0x100000 0x4000000 1]; TModule 0x800000 0x800100].

Lemma demo_mem_wf : mem_wf demo_mem.
Proof. apply mem_wf_st_bytes, mem_wf_empty. Qed.

Lemma demo_boot_info : boot_info demo_mem 0x9000 demo_tags.
Proof. split; vm_compute; by intuition congruence. Qed.

Lemma parse_mmap_largest_witness :
  boot_info demo_mem 0x9000 demo_tags ∧
  result (parse_mmap 10 0x9000) demo_mem = Some ((0x100000, 0x4000000), demo_mem).
Proof.
  split; [exact demo_boot_info|].
  destruct (parse_mmap_largest demo_mem 10 0x9000 demo_tags demo_boot_info) as (b & n & Hr & Hmax & Hc); [cbn; lia|].
  rewrite Hr. assert (0x4000000 ≤ n) as Hn by (apply (Hmax (Region 0x100000 0x4000000 1)); [by left|done]).
  destruct Hc as [[= -> ->]|(r & Hin & _ & [= -> ->] & _)]; [lia|].
  apply list_elem_of_singleton in Hin as ->. done.
Defined.


Lemma find_module_first_witness :
  result (find_module 10 0x9008) demo_mem = Some ((0x800000, 0x800100), demo_mem).
Proof.
  apply (find_module_first demo_mem 10 0x9008 (0x9000 + total_size demo_mem 0x9000) demo_tags).
  - exact (bi_tags _ _ _ demo_boot_info).
  - lia.
  - by vm_compute.
  - cbn. lia.
Defined.

(** A first tag of type 1 and size 0. *)
Definition stuck_mem : mem := st_bytes ∅ 0x9000 (le_bytes 4 72 ++ le_bytes 4 0 ++ le_bytes 4 1 ++ le_bytes 4 0).

Lemma parse_mmap_diverges_witness : result (parse_mmap 1000 0x9000) stuck_mem = None.
Proof. apply parse_mmap_diverges; by vm_compute. Defined.

Definition demo_boot_link : BootLink := {|
  initrd_start := 0x130000; initrd_end := 0x130000; elf_local := 0x13F000; proc_idle_addr := 0x103000;
  boot_cr3 := 0x1000; proc_addr i := 0x150000 + 0x200 * Z.of_nat i;
|}.

Definition demo_machine : machine :=
  Machine (System (fresh_kernel demo_mem (Vmm ∅ pmm_zero 0 0)) []) (ConsoleState (Vga ∅ 0 0 0) []).

Lemma demo_ready : boot_ready (H:=demo_link) demo_mem 0x9000 demo_tags.
Proof.
  split; [exact demo_boot_info|exact demo_mem_wf| |].
  - intros a Ha. assert (total_size demo_mem 0x9000 = 72) as E by (by vm_compute). rewrite E in Ha.
    split; left; cbn; lia.
  - intros r Hr _. apply list_elem_of_singleton in Hr as ->. by vm_compute.
Qed.

Lemma demo_fresh : let H := demo_link in
  is_fresh (λ mm v, boot_ready mm 0x9000 demo_tags ∧ v_pmm v = pmm_zero) demo_machine.
Proof. cbv zeta. exists demo_mem, (Vmm ∅ pmm_zero 0 0). split; [done|]. split; [exact demo_ready|done]. Qed.


Lemma user_entry_32bit_witness :
  let H := demo_link in
  ∃ m', result gdt_init ∅ = Some (tt, m') ∧ code_64bit m' (uf_cs (user_trampoline process_zero)) = false.
Proof.
  cbv zeta. destruct (user_entry_32bit (H:=demo_link) ∅ process_zero) as (m' & E & _ & H2 & _); [by vm_compute|].
  by exists m'.
Defined.
