(* ===== verification/Layout.v ===== *)
(** * Layout: the types of the C code and where their fields are
    (include/types.h, kernel.h, elf.h, elf64.h, initrd.h, multiboot2.h,
    boot_info.h, syscall_num.h, arch/x86_64.h, and the types of main.c,
    initrd.c, vmm.c and unix_gokan.h)

    The other files read and write structures at numeric offsets, as the
    assembly of the kernel does.  Here are the declarations and the layout the
    C compiler gives them (System V ABI); the theorems say that the layout keeps
    fields apart and aligned, and that the numbers agree with it. *)

From S2P Require Import Prelude Effects Memory Types Arch Heap Kernel Proc Ipc Trap Elf Boot Initrd Cpu Context Stub.

(** ** Types and their layout *)

#[warnings="-register-all"]
Inductive ctype :=
  | CInt (n : Z)                                   (** a scalar of [n] bytes *)
  | CPtr
  | CArr (t : ctype) (n : Z)
  | CStruct (packed : bool) (fs : list (string * ctype)).

(** The next multiple of [a]. *)
Definition round_up (o a : Z) : Z := a * ((o + a - 1) `div` a).

Fixpoint alignof (t : ctype) : Z :=
  match t with
  | CInt n => n
  | CPtr => 8
  | CArr t _ => alignof t
  | CStruct true _ => 1
  | CStruct false fs => foldr (λ f a, Z.max (alignof f.2) a) 1 fs
  end.

(** Where a field of type [t] goes when the structure is filled up to [o]. *)
Definition field_start (packed : bool) (o : Z) (t : ctype) : Z :=
  if packed then o else round_up o (alignof t).

Fixpoint sizeof (t : ctype) : Z :=
  match t with
  | CInt n => n
  | CPtr => 8
  | CArr t n => n * sizeof t
  | CStruct pk fs => round_up (foldl (λ o f, field_start pk o f.2 + sizeof f.2) 0 fs) (alignof t)
  end.

Record field := Field { f_name : string; f_off : Z; f_type : ctype }.

Fixpoint place (pk : bool) (o : Z) (fs : list (string * ctype)) : list field :=
  match fs with
  | [] => []
  | (n, t) :: fs =>
      let a := field_start pk o t in
      Field n a t :: place pk (a + sizeof t) fs
  end.

Definition fields (t : ctype) : list field :=
  match t with CStruct pk fs => place pk 0 fs | _ => [] end.

(** The field called [n]. *)
Definition field_of (t : ctype) (n : string) : option field :=
  snd <$> list_find (λ f, f_name f = n) (fields t).
Definition offsetof (t : ctype) (n : string) : Z := from_option f_off (-1) (field_of t n).

(** The value of a scalar field of the structure at [a]. *)
Definition ld_field (m : mem) (a : Z) (t : ctype) (n : string) : Z :=
  match field_of t n with
  | Some f => ld_le m (a + f_off f) (Z.to_nat (sizeof (f_type f)))
  | None => -1
  end.

(** Types that C has: scalars of 1, 2, 4 or 8 bytes. *)
Fixpoint ctype_ok (t : ctype) : bool :=
  match t with
  | CInt n => bool_decide (n ∈ [1; 2; 4; 8])
  | CPtr => true
  | CArr t n => (0 <=? n) && ctype_ok t
  | CStruct _ fs => forallb (λ f, ctype_ok f.2) fs
  end.

(** ** Every layout keeps fields apart *)

(** Induction that reaches the fields of a structure. *)
Lemma ctype_ind' (P : ctype → Prop) :
  (∀ n, P (CInt n)) → P CPtr → (∀ t n, P t → P (CArr t n)) →
  (∀ pk fs, Forall (λ f, P f.2) fs → P (CStruct pk fs)) → ∀ t, P t.
Proof.
  intros Hi Hp Ha Hs. fix IH 1. intros [n| |t n|pk fs].
  - apply Hi.
  - apply Hp.
  - apply Ha, IH.
  - apply Hs. revert fs. fix IHl 1. intros [|[s t] fs]; constructor; [apply IH|apply IHl].
Qed.

Definition pow2 (a : Z) : Prop := a ∈ [1; 2; 4; 8].

Lemma pow2_max a b : pow2 a → pow2 b → pow2 (Z.max a b) ∧ (a | Z.max a b) ∧ (b | Z.max a b).
Proof.
  unfold pow2. rewrite !elem_of_cons, !elem_of_nil. intros Ha Hb.
  destruct Ha as [->|[->|[->|[->|[]]]]], Hb as [->|[->|[->|[->|[]]]]]; cbn;
    (split; [lia|split; apply Z.mod_divide; done]).
Qed.

Lemma pow2_pos a : pow2 a → 0 < a.
Proof. unfold pow2. rewrite !elem_of_cons, elem_of_nil. lia. Qed.

Lemma round_up_spec o a : 0 < a → o ≤ round_up o a < o + a ∧ (a | round_up o a).
Proof.
  intros Ha. unfold round_up. pose proof (Z.div_mod (o + a - 1) a). pose proof (Z.mod_pos_bound (o + a - 1) a).
  split; [lia|]. apply Z.divide_factor_l.
Qed.

Lemma alignof_pow2 t : ctype_ok t = true → pow2 (alignof t).
Proof.
  induction t as [n| |t n IH|[] fs IH] using ctype_ind'; cbn [ctype_ok alignof]; intros Hok.
  - by apply bool_decide_eq_true in Hok.
  - by apply (bool_decide_unpack _).
  - apply IH. by apply andb_prop in Hok as [_ ?].
  - by apply (bool_decide_unpack _).
  - induction IH as [|[s t] fs Ht _ IH]; cbn in *; [by apply (bool_decide_unpack _)|].
    apply andb_prop in Hok as [H1 H2]. apply pow2_max; auto.
Qed.

(** The alignment of a structure covers that of its fields. *)
Lemma alignof_field fs f :
  ctype_ok (CStruct false fs) = true → f ∈ fs → (alignof f.2 | alignof (CStruct false fs)).
Proof.
  induction fs as [|[s t] fs IH]; cbn [ctype_ok forallb alignof foldr]; intros Hok Hf; [by apply elem_of_nil in Hf|].
  apply andb_prop in Hok as [H1 H2].
  destruct (pow2_max (alignof t) (alignof (CStruct false fs))) as (_ & Hl & Hr); [by apply alignof_pow2..|].
  apply elem_of_cons in Hf as [->|Hf]; [exact Hl|]. transitivity (alignof (CStruct false fs)); [|exact Hr]. by apply IH.
Qed.

Lemma field_start_ge pk o t : ctype_ok t = true → o ≤ field_start pk o t ∧ (pk = false → (alignof t | field_start pk o t)).
Proof.
  intros Ht. unfold field_start. destruct pk; [lia|].
  destruct (round_up_spec o (alignof t)) as [H1 H2]; [by apply pow2_pos, alignof_pow2|]. split; [lia|done].
Qed.

(** The end of the last field. *)
Definition struct_end (pk : bool) (o : Z) (fs : list (string * ctype)) : Z :=
  foldl (λ o f, field_start pk o f.2 + sizeof f.2) o fs.

Lemma sizeof_nonneg t : ctype_ok t = true → 0 ≤ sizeof t.
Proof.
  induction t as [n| |t n IH|pk fs IH] using ctype_ind'; cbn [ctype_ok sizeof]; intros Hok.
  - apply bool_decide_eq_true in Hok. apply pow2_pos in Hok. lia.
  - done.
  - apply andb_prop in Hok as [H1 H2]. specialize (IH H2). lia.
  - assert (∀ o, 0 ≤ o → 0 ≤ foldl (λ o f, field_start pk o f.2 + sizeof f.2) o fs) as He.
    { induction IH as [|[s t] fs Ht _ IH]; cbn [foldl]; [done|]. cbn in Hok. apply andb_prop in Hok as [H1 H2].
      intros o Ho. apply IH; [done|]. specialize (Ht H1). cbn [snd] in *. pose proof (field_start_ge pk o t H1). lia. }
    specialize (He 0 ltac:(lia)). pose proof (alignof_pow2 (CStruct pk fs) Hok) as Ha%pow2_pos.
    pose proof (round_up_spec (foldl (λ o f, field_start pk o f.2 + sizeof f.2) 0 fs) _ Ha). lia.
Qed.

(** Elements of an array keep the alignment of the first. *)
Lemma sizeof_aligned t : ctype_ok t = true → (alignof t | sizeof t).
Proof.
  induction t as [n| |t n IH|pk fs IH] using ctype_ind'; cbn [ctype_ok]; intros Hok.
  - by exists 1; cbn; lia.
  - by exists 1.
  - apply andb_prop in Hok as [_ H2]. cbn. by apply Z.divide_mul_r, IH.
  - pose proof (alignof_pow2 (CStruct pk fs) Hok) as Ha%pow2_pos. by apply round_up_spec.
Qed.

Lemma struct_end_ge pk o fs : ctype_ok (CStruct pk fs) = true → o ≤ struct_end pk o fs.
Proof.
  revert o. induction fs as [|[s t] fs IH]; intros o Hok; cbn [struct_end foldl]; [unfold struct_end; cbn; lia|].
  cbn in Hok. apply andb_prop in Hok as [H1 H2]. specialize (IH (field_start pk o t + sizeof t) H2).
  unfold struct_end in *. cbn [foldl snd]. pose proof (field_start_ge pk o t H1). pose proof (sizeof_nonneg t H1). lia.
Qed.

(** Each field lies behind [o] and before the end, and those after it behind it. *)
Lemma place_spec pk o fs i f :
  ctype_ok (CStruct pk fs) = true → place pk o fs !! i = Some f →
  o ≤ f_off f ∧ f_off f + sizeof (f_type f) ≤ struct_end pk o fs ∧ 0 ≤ sizeof (f_type f) ∧
  fs !! i = Some (f_name f, f_type f) ∧ (pk = false → (alignof (f_type f) | f_off f)) ∧
  ∀ j g, (i < j)%nat → place pk o fs !! j = Some g → f_off f + sizeof (f_type f) ≤ f_off g.
Proof.
  revert o i f. induction fs as [|[s t] fs IH]; intros o i f Hok Hf; [done|].
  cbn in Hok. apply andb_prop in Hok as [H1 H2]. cbn [place] in *.
  destruct (field_start_ge pk o t H1) as [Hge Hal]. pose proof (sizeof_nonneg t H1) as Hsz.
  change (struct_end pk o ((s, t) :: fs)) with (struct_end pk (field_start pk o t + sizeof t) fs).
  destruct i as [|i].
  - injection Hf as <-. cbn [f_off f_type f_name]. split_and!; [done| |done|done|done|].
    + by apply struct_end_ge.
    + intros [|j] g Hj Hg; [lia|]. apply (IH (field_start pk o t + sizeof t) j g H2 Hg).
  - destruct (IH (field_start pk o t + sizeof t) i f H2 Hf) as (G1 & G2 & G3 & G4 & G5 & G6).
    split_and!; [lia|done|done|done|done|]. intros [|j] g Hj Hg; [lia|]. apply (G6 j g); [lia|exact Hg].
Qed.

(** ** The declarations *)

(** include/types.h *)
Definition uint8_t : ctype := CInt 1.
Definition uint16_t : ctype := CInt 2.
Definition uint32_t : ctype := CInt 4.
Definition uint64_t : ctype := CInt 8.
Definition size_t : ctype := uint64_t.
Definition pid_t : ctype := CInt 4.
Definition char_t : ctype := CInt 1.
Definition int_t : ctype := CInt 4.
Definition bool_t : ctype := int_t.

Definition struct : list (string * ctype) → ctype := CStruct false.
Definition packed_struct : list (string * ctype) → ctype := CStruct true.
(** [t a, b, c;] *)
Definition each (t : ctype) (ns : list string) : list (string * ctype) := (λ n, (n, t)) <$> ns.

(** include/kernel.h *)
Definition gdt_entry_t : ctype := packed_struct
  [("limit_low", uint16_t); ("base_low", uint16_t); ("base_mid", uint8_t); ("access", uint8_t);
   ("granularity", uint8_t); ("base_high", uint8_t)].
Definition tss_t : ctype := packed_struct
  [("reserved0", uint32_t); ("rsp", CArr uint64_t 3); ("reserved1", uint64_t); ("ist", CArr uint64_t 7);
   ("reserved2", uint64_t); ("reserved3", uint16_t); ("iomap_base", uint16_t)].
Definition gdt_tss_entry_t : ctype := packed_struct
  [("limit_low", uint16_t); ("base_low", uint16_t); ("base_mid1", uint8_t); ("access", uint8_t);
   ("flags", uint8_t); ("base_mid2", uint8_t); ("base_high", uint32_t); ("reserved", uint32_t)].
Definition idt_entry_t : ctype := packed_struct
  [("offset_low", uint16_t); ("selector", uint16_t); ("ist", uint8_t); ("type_attr", uint8_t);
   ("offset_mid", uint16_t); ("offset_high", uint32_t); ("reserved", uint32_t)].
Definition interrupt_frame_t : ctype := packed_struct (each uint64_t
  ["r15"; "r14"; "r13"; "r12"; "r11"; "r10"; "r9"; "r8"; "rbp"; "rdi"; "rsi"; "rdx"; "rcx"; "rbx"; "rax";
   "int_no"; "err_code"; "rip"; "cs"; "rflags"; "rsp"; "ss"]).
Definition fd_entry_t : ctype := struct [("open", bool_t); ("offset", uint32_t); ("file", CPtr)].
Definition trapframe64 : ctype := struct (each uint64_t
  ["r15"; "r14"; "r13"; "r12"; "r11"; "r10"; "r9"; "r8"; "rsi"; "rdi"; "rbp"; "rdx"; "rcx"; "rbx"; "rax";
   "rip"; "cs"; "rflags"; "rsp"; "ss"]).
Definition cpu_context_t : ctype := struct (each uint64_t ["r15"; "r14"; "r13"; "r12"; "rbx"; "rbp"; "rip"; "rsp"]).
Definition process_t : ctype := struct
  [("pid", pid_t); ("ppid", pid_t); ("state", int_t); ("exit_code", int_t); ("user_mode", bool_t);
   ("pml4", CPtr); ("context", cpu_context_t); ("kernel_rsp", uint64_t); ("sleep_ticks", uint64_t);
   ("wait_pid", pid_t); ("msg_queue", CPtr); ("msg_tail", CPtr); ("msg_count", uint32_t);
   ("fds", CArr fd_entry_t (Z.of_nat MAX_FDS)); ("kstack", CPtr); ("brk", uint64_t); ("tf", CPtr); ("name", CArr char_t 16);
   ("cr3", uint64_t); ("is_user", bool_t); ("started", bool_t);
   ("user_rip", uint64_t); ("user_rsp", uint64_t); ("user_sp", uint64_t)].
Definition ipc_message_t : ctype := struct
  [("from", pid_t); ("type", uint32_t); ("len", uint32_t); ("data", CArr uint8_t IPC_MSG_MAX); ("next", CPtr)].
Definition cpu_local_t : ctype := struct (each uint64_t ["kernel_rsp"; "user_rsp_save"]).

(** include/arch/x86_64.h; [idtr_t] is the same *)
Definition gdtr_t : ctype := packed_struct [("limit", uint16_t); ("base", uint64_t)].

(** include/elf64.h ([Elf64_Ehdr], [Elf64_Phdr]) and include/elf.h, the same
    fields without [packed]. *)
Definition ehdr_fields : list (string * ctype) :=
  [("e_ident", CArr uint8_t 16); ("e_type", uint16_t); ("e_machine", uint16_t); ("e_version", uint32_t);
   ("e_entry", uint64_t); ("e_phoff", uint64_t); ("e_shoff", uint64_t); ("e_flags", uint32_t);
   ("e_ehsize", uint16_t); ("e_phentsize", uint16_t); ("e_phnum", uint16_t); ("e_shentsize", uint16_t);
   ("e_shnum", uint16_t); ("e_shstrndx", uint16_t)].
Definition phdr_fields : list (string * ctype) :=
  [("p_type", uint32_t); ("p_flags", uint32_t); ("p_offset", uint64_t); ("p_vaddr", uint64_t);
   ("p_paddr", uint64_t); ("p_filesz", uint64_t); ("p_memsz", uint64_t); ("p_align", uint64_t)].
Definition Elf64_Ehdr : ctype := packed_struct ehdr_fields.
Definition Elf64_Phdr : ctype := packed_struct phdr_fields.
Definition elf64_ehdr_t : ctype := struct ehdr_fields.
Definition elf64_phdr_t : ctype := struct phdr_fields.

(** include/initrd.h and kernel/initrd.c *)
Definition initrd_file_t : ctype := struct [("name", CPtr); ("size", uint32_t); ("data", CPtr)].
Definition cpio_newc_header_t : ctype := struct (("c_magic", CArr char_t 6) :: each (CArr char_t 8)
  ["c_ino"; "c_mode"; "c_uid"; "c_gid"; "c_nlink"; "c_mtime"; "c_filesize"; "c_devmajor"; "c_devminor";
   "c_rdevmajor"; "c_rdevminor"; "c_namesize"; "c_check"]).

(** kernel/main.c and include/multiboot2.h *)
Definition mb2_info_t : ctype := packed_struct (each uint32_t ["total_size"; "reserved"]).
Definition mb2_tag_t : ctype := packed_struct (each uint32_t ["type"; "size"]).
Definition mb2_tag_mmap_t : ctype := packed_struct (each uint32_t ["type"; "size"; "entry_size"; "entry_version"]).
Definition mb2_mmap_entry_t : ctype := packed_struct
  [("base_addr", uint64_t); ("length", uint64_t); ("type", uint32_t); ("reserved", uint32_t)].
Definition multiboot_tag : ctype := struct (each uint32_t ["type"; "size"]).
Definition multiboot_tag_module : ctype := struct
  (each uint32_t ["type"; "size"; "mod_start"; "mod_end"] ++ [("cmdline", CArr char_t 0)]).

(** kernel/mm/vmm.c *)
Definition heap_block_t : ctype := struct [("size", size_t); ("free", bool_t); ("next", CPtr)].

(** include/boot_info.h *)
Definition boot_mmap_entry_t : ctype := struct
  [("base", uint64_t); ("length", uint64_t); ("type", uint32_t); ("_pad", uint32_t)].
Definition boot_info_t : ctype := struct
  [("magic", uint32_t); ("mmap", CPtr); ("mmap_count", uint32_t); ("_pad0", uint32_t); ("fb_addr", uint64_t);
   ("fb_width", uint32_t); ("fb_height", uint32_t); ("fb_pitch", uint32_t); ("fb_bpp", uint32_t);
   ("fb_format", int_t); ("_pad1", uint32_t); ("initrd_start", uint64_t); ("initrd_size", uint64_t);
   ("cmdline", CArr char_t 256); ("rsdp_addr", uint64_t)].

(** include/syscall_num.h and unix_gokan.h *)
Definition dirent_t : ctype := struct [("name", CArr char_t 64); ("size", uint32_t); ("type", uint32_t)].

Definition declared : list ctype :=
  [gdt_entry_t; tss_t; gdt_tss_entry_t; idt_entry_t; interrupt_frame_t; fd_entry_t; trapframe64; cpu_context_t;
   process_t; ipc_message_t; cpu_local_t; gdtr_t; Elf64_Ehdr; Elf64_Phdr; elf64_ehdr_t; elf64_phdr_t;
   initrd_file_t; cpio_newc_header_t; mb2_info_t; mb2_tag_t; mb2_tag_mmap_t; mb2_mmap_entry_t; multiboot_tag;
   multiboot_tag_module; heap_block_t; boot_mmap_entry_t; boot_info_t; dirent_t].

(** ** Properties *)

Definition is_packed (t : ctype) : bool := match t with CStruct true _ => true | _ => false end.

(** The members of a structure stay inside it, in the order of declaration and
    apart, so that a write of one is never seen in another. *)
Record laid_out (t : ctype) : Prop := {
  lo_names : NoDup (f_name <$> fields t);
  lo_inside i f : fields t !! i = Some f → 0 ≤ f_off f ∧ f_off f + sizeof (f_type f) ≤ sizeof t;
  lo_apart i j f g : (i < j)%nat → fields t !! i = Some f → fields t !! j = Some g →
    f_off f + sizeof (f_type f) ≤ f_off g;
  lo_aligned i f : is_packed t = false → fields t !! i = Some f →
    (alignof (f_type f) | f_off f) ∧ (alignof (f_type f) | alignof t);
  lo_array : (alignof t | sizeof t);
}.

Lemma struct_laid_out pk fs :
  ctype_ok (CStruct pk fs) = true → NoDup (f_name <$> fields (CStruct pk fs)) → laid_out (CStruct pk fs).
Proof.
  intros Hok Hnd. pose proof (alignof_pow2 _ Hok) as Ha%pow2_pos.
  pose proof (round_up_spec (struct_end pk 0 fs) _ Ha) as [Hr _]. split; [done|..].
  - intros i f Hf. destruct (place_spec _ _ _ _ _ Hok Hf) as (H1 & H2 & _).
    change (sizeof (CStruct pk fs)) with (round_up (struct_end pk 0 fs) (alignof (CStruct pk fs))). lia.
  - intros i j f g Hij Hf Hg. destruct (place_spec _ _ _ _ _ Hok Hf) as (_ & _ & _ & _ & _ & H6). by eapply H6.
  - intros i f Hp Hf. destruct pk; [done|]. destruct (place_spec _ _ _ _ _ Hok Hf) as (_ & _ & _ & H4 & H5 & _).
    split; [by apply H5|]. apply list_elem_of_lookup_2 in H4.
    apply (alignof_field fs (f_name f, f_type f) Hok H4).
  - by apply sizeof_aligned.
Qed.

(** Every structure the sources declare is laid out soundly: names are
    distinct, members are inside, disjoint, in order, and (unless packed) each at
    a multiple of its alignment, which divides that of the structure; and the
    size is a multiple of the alignment, so the elements of an array (the
    process table, the file table of a process) are as well. *)
Theorem declarations_laid_out : Forall laid_out declared.
Proof.
  assert (Forall (λ t, (∃ pk fs, t = CStruct pk fs) ∧ ctype_ok t = true ∧
    bool_decide (NoDup (f_name <$> fields t)) = true) declared) as Hd.
  { repeat (apply Forall_cons; split; [split; [by do 2 eexists|by vm_compute]|]). by apply Forall_nil. }
  eapply Forall_impl; [exact Hd|]. intros t ((pk & fs & ->) & Hok & Hn%bool_decide_eq_true).
  by apply struct_laid_out.
Qed.

(** *** The numbers of the other files *)

Section agreement.
Context `{Link, Image}.
Implicit Types (m : mem) (a : Z).

(** A context, a frame and the header of a block as C reads them. *)
Definition context_at m a : cpu_context :=
  let f := ld_field m a cpu_context_t in
  CpuContext (f "r15") (f "r14") (f "r13") (f "r12") (f "rbx") (f "rbp") (f "rip") (f "rsp").
Definition frame_at m a : interrupt_frame :=
  let f := ld_field m a interrupt_frame_t in
  InterruptFrame (f "r15") (f "r14") (f "r13") (f "r12") (f "r11") (f "r10") (f "r9") (f "r8") (f "rbp") (f "rdi")
    (f "rsi") (f "rdx") (f "rcx") (f "rbx") (f "rax") (f "int_no") (f "err_code") (f "rip") (f "cs") (f "rflags")
    (f "rsp") (f "ss").
Definition phdr_at m a : phdr :=
  let f := ld_field m a elf64_phdr_t in
  Phdr (f "p_type") (f "p_offset") (f "p_vaddr") (f "p_filesz") (f "p_memsz").

(** Word [i] of an array of 64-bit integers. *)
Definition elem64 (t : ctype) (n : string) (i : Z) : Z := offsetof t n + sizeof uint64_t * i.

Lemma ld_field_at m a t n o k :
  (λ f, (f_off f, Z.to_nat (sizeof (f_type f)))) <$> field_of t n = Some (o, k) → ld_field m a t n = ld_le m (a + o) k.
Proof. unfold ld_field. destruct (field_of t n) as [f|]; [|done]. by intros [= <- <-]. Qed.

(** Replace named fields by their offset and size. *)
Ltac ld_fields :=
  unfold context_at, frame_at, phdr_at; cbv zeta;
  repeat match goal with
  | |- context [ld_field ?m ?a ?t ?n] =>
      let o := eval vm_compute in (offsetof t n) in
      let k := eval vm_compute in (from_option (λ f, Z.to_nat (sizeof (f_type f))) O (field_of t n)) in
      rewrite (ld_field_at m a t n o k) by (vm_compute; reflexivity)
  end.
(** Two structures read at the same offsets. *)
Ltac same_reads := f_equal; try (unfold id, ld64, ld32, ld16; f_equal; lia).

(** C18: the assembly and the processor find the fields of the C structures. The
    context that [switch_context] saves and restores and the frame that the
    interrupt stubs build are read by C field by field; proc_entry_user.asm's
    three offsets are those of [user_rip], [user_sp] and [cr3]; the stack pointer
    that [gdt_set_tss_rsp0] stores is [rsp[0]], where the processor looks for it;
    and the descriptors decode from their fields. *)
Theorem assembly_offsets m a :
  (ctx_at m a = context_at m a ∧ sizeof_cpu_context = sizeof cpu_context_t) ∧
  (ld_frame m a = frame_at m a ∧ sizeof_interrupt_frame = sizeof interrupt_frame_t) ∧
  (USER_RIP_OFFSET = offsetof process_t "user_rip" ∧ USER_SP_OFFSET = offsetof process_t "user_sp" ∧
   CR3_OFFSET = offsetof process_t "cr3") ∧
  (∀ rsp0, result (gdt_set_tss_rsp0 rsp0) m = Some (tt, st64 m (sym_tss + elem64 tss_t "rsp" 0) rsp0)) ∧
  (let g := ld_field m a gdt_entry_t in
   seg_limit m a = g "limit_low" + 2 ^ 16 * (g "granularity" `mod` 16) ∧
   seg_base m a = g "base_low" + 2 ^ 16 * g "base_mid" + 2 ^ 24 * g "base_high" ∧
   seg_access m a = g "access" ∧ seg_flags m a = g "granularity" `div` 16) ∧
  (let g := ld_field m a gdt_tss_entry_t in
   sys_base m a = g "base_low" + 2 ^ 16 * g "base_mid1" + 2 ^ 24 * g "base_mid2" + 2 ^ 32 * g "base_high") ∧
  (let g := ld_field m a idt_entry_t in
   gate_offset m a = g "offset_low" + 2 ^ 16 * g "offset_mid" + 2 ^ 32 * g "offset_high" ∧
   gate_selector m a = g "selector" ∧ gate_ist m a = g "ist" `mod` 8 ∧
   gate_dpl m a = (g "type_attr" `div` 32) `mod` 4) ∧
  sizeof_gdt_entry = sizeof gdt_entry_t ∧ sizeof_gdt_tss_entry = sizeof gdt_tss_entry_t ∧
  sizeof_tss = sizeof tss_t ∧ sizeof_idt_entry = sizeof idt_entry_t.
Proof.
  assert (E1 : ∀ b, ld8 m b = ld_le m b 1) by (intros b; cbn [ld_le]; lia).
  split; [|split; [|split; [|split; [|split; [|split; [|split]]]]]].
  - split; [|vm_compute; reflexivity]. ld_fields. unfold ctx_at. same_reads.
  - split; [|vm_compute; reflexivity]. ld_fields.
    unfold ld_frame, frame_of_words. cbn [ld_words lookup list_lookup default]. same_reads.
  - split_and!; vm_compute; reflexivity.
  - intros rsp0. assert (elem64 tss_t "rsp" 0 = 4) as -> by (vm_compute; reflexivity). reflexivity.
  - ld_fields. unfold seg_limit, seg_base, seg_access, seg_flags. by rewrite !E1, !Z.add_0_r.
  - ld_fields. unfold sys_base, seg_base. by rewrite !E1.
  - ld_fields. unfold gate_offset, gate_selector, gate_ist, gate_dpl. by rewrite !E1, !Z.add_0_r.
  - split_and!; vm_compute; reflexivity.
Qed.

(** The C code is modelled at the offsets of its own declarations: the ELF
    header (which packed elf64.h and unpacked elf.h lay out alike) and program
    headers, the tags of the boot information, the block headers of the heap,
    the digits of a cpio header, and the message that [ipc_recv] copies out. *)
Theorem field_offsets m a :
  (let f := ld_field m a elf64_ehdr_t in
   e_machine m a = f "e_machine" ∧ e_entry m a = f "e_entry" ∧ e_phoff m a = f "e_phoff" ∧
   e_phnum m a = f "e_phnum" ∧ sizeof_ehdr = sizeof elf64_ehdr_t ∧
   fields Elf64_Ehdr = fields elf64_ehdr_t ∧ fields Elf64_Phdr = fields elf64_phdr_t) ∧
  (read_phdr m a = phdr_at m a ∧ sizeof_phdr = sizeof elf64_phdr_t) ∧
  (total_size m a = ld_field m a mb2_info_t "total_size" ∧
   tag_type m a = ld_field m a mb2_tag_t "type" ∧ tag_size m a = ld_field m a mb2_tag_t "size" ∧
   entry_size m a = ld_field m a mb2_tag_mmap_t "entry_size" ∧ sizeof_mb2_tag_mmap = sizeof mb2_tag_mmap_t ∧
   (let f := ld_field m a mb2_mmap_entry_t in
    base_addr m a = f "base_addr" ∧ length_ m a = f "length" ∧ entry_type m a = f "type") ∧
   mod_start m a = ld_field m a multiboot_tag_module "mod_start" ∧
   mod_end m a = ld_field m a multiboot_tag_module "mod_end") ∧
  (∀ h, let f := ld_field (h_mem h) a heap_block_t in
   blk_size h a = f "size" ∧ blk_free h a = f "free" ∧ blk_next h a = f "next" ∧
   sizeof_heap_block = sizeof heap_block_t) ∧
  (off_filesize = offsetof cpio_newc_header_t "c_filesize" ∧
   off_namesize = offsetof cpio_newc_header_t "c_namesize" ∧
   sizeof_cpio_newc_header = sizeof cpio_newc_header_t) ∧
  (let f := ld_field m a ipc_message_t in
   read_letter m a = Letter (f "from") (f "type") (f "len")
     (ld_bytes m (a + offsetof ipc_message_t "data") (Z.to_nat (f "len")))).
Proof.
  split; [|split; [|split; [|split; [|split]]]].
  - ld_fields. unfold e_machine, e_entry, e_phoff, e_phnum.
    split_and!; [done..| |vm_compute; reflexivity|vm_compute; reflexivity]. vm_compute. reflexivity.
  - split; [|vm_compute; reflexivity]. ld_fields. unfold read_phdr. same_reads.
  - ld_fields. unfold total_size, tag_type, tag_size, entry_size, base_addr, length_, entry_type, mod_start, mod_end.
    rewrite !Z.add_0_r. split_and!; try done.
  - intros h. ld_fields. unfold blk_size, blk_free, blk_next. rewrite !Z.add_0_r. split_and!; done.
  - split_and!; vm_compute; reflexivity.
  - ld_fields. assert (offsetof ipc_message_t "data" = 12) as -> by (vm_compute; reflexivity).
    unfold read_letter. same_reads.
Qed.
End agreement.

(** proc_entry.asm names an offset for [user_sp] as well, [PROC_USER_SP_OFFSET],
    in an instruction that is commented out: it lies inside [context]. *)
Theorem proc_entry_offset_stale :
  offsetof process_t "user_sp" = 472 ∧
  offsetof process_t "context" < 0x48 < offsetof process_t "context" + sizeof cpu_context_t.
Proof. by vm_compute. Qed.

(** [PROC_MAX] slots of 480 bytes. *)
Example sizeof_process : sizeof process_t = 480 ∧ sizeof (CArr process_t 64) = 30720.
Proof. by vm_compute. Qed.
