(* ===== verification/User.v ===== *)
(** * User: user programs and the way they call the kernel
    (src/sh.c, src/unix_gokan.h)

    Both programs reach the kernel through one inline assembly instruction; they
    are written over a [trap] that stands for it, a function on the registers.
    unix_gokan.h uses [int $0x80], which is put together here from the machine
    code of file Stub and the dispatcher of file Trap; sh.c is a Linux program
    and uses [syscall], which this kernel does not enable. *)

From S2P Require Import Prelude Effects Memory Types Arch Kernel Proc Trap Cpu Context Stub Boot.

(** A string literal of the program, at address [a], in memory. *)
Definition literal_at (m : mem) (a : Z) (s : string) : Prop :=
  ld_bytes m a (length (bytes_of s)) = bytes_of s.

(** ** The programs

    [regs0] are the registers the compiled code has at the instruction, but for
    the operands. *)

Module Sh.
Section sh.
Context {S : Type} (trap : regs → M S regs) (regs0 : regs).

Definition SYS_write : Z := 1.
Definition SYS_exit : Z := 60.

Definition syscall3 (num arg1 arg2 arg3 : Z) : M S Z :=
  g ← trap (setr RDX (u64 arg3) (setr RSI (u64 arg2) (setr RDI (u64 arg1) (setr RAX (u64 num) regs0)))) ;
  mret (s64 (getr RAX g)).

Definition write (fd buf count : Z) : M S unit := syscall3 SYS_write fd buf count ;; mret tt.
Definition exit (status : Z) : M S unit := syscall3 SYS_exit status 0 0 ;; mret tt.

(** The literals are at [hello] and [dot]. *)
Context (hello dot : Z).

(** [for (;;) ...]; the waiting loop has no effect. *)
Fixpoint start_loop (fuel : nat) : M S unit :=
  match fuel with
  | O => no_fuel
  | Datatypes.S fuel => write 1 dot 1 ;; start_loop fuel
  end.

(** The call of [exit] after the loop is never reached. *)
Definition _start (fuel : nat) : M S unit := write 1 hello 25 ;; start_loop fuel.
End sh.

Definition hello_text : string := "[user sh] hello from ELF" +:+ nl.
Definition dot_text : string := ".".
End Sh.

Module Gokan.
Section gokan.
Context {S : Type} (trap : regs → M S regs) (regs0 : regs).

Definition SYS_EXIT : Z := 1.
Definition SYS_READ : Z := 3.
Definition SYS_WRITE : Z := 4.
Definition SYS_OPEN : Z := 5.
Definition SYS_CLOSE : Z := 6.
Definition SYS_LSEEK : Z := 19.
Definition SYS_GETPID : Z := 20.
Definition SYS_GETPPID : Z := 64.
Definition SYS_YIELD : Z := 24.
Definition SYS_SLEEP : Z := 162.
Definition SYS_IPC_SEND : Z := 200.
Definition SYS_IPC_RECV : Z := 201.
Definition SYS_SPAWN : Z := 250.
Definition SYS_WAITPID : Z := 251.
Definition SYS_GETDENTS : Z := 252.
Definition SYS_SBRK : Z := 253.

(** An [int] operand is passed in a 32-bit register. *)
Definition write (fd buf len : Z) : M S Z :=
  g ← trap (setr RDX (u64 len) (setr RSI (u64 buf) (setr RDI (u32 fd) (setr RAX SYS_WRITE regs0)))) ;
  mret (s64 (getr RAX g)).

(** What follows the instruction is unreachable. *)
Definition exit (code : Z) : M S unit :=
  trap (setr RDI (u32 code) (setr RAX SYS_EXIT regs0)) ;;
  no_fuel.
End gokan.
End Gokan.

(** The two headers agree on every number, and no two calls share one. *)
Definition header_numbers : list Z :=
  [SYS_EXIT; SYS_READ; SYS_WRITE; SYS_OPEN; SYS_CLOSE; SYS_LSEEK; SYS_GETPID; SYS_GETPPID; SYS_YIELD; SYS_SLEEP;
   SYS_IPC_SEND; SYS_IPC_RECV; SYS_SPAWN; SYS_WAITPID; SYS_GETDENTS; SYS_SBRK].
Definition gokan_numbers : list Z :=
  [Gokan.SYS_EXIT; Gokan.SYS_READ; Gokan.SYS_WRITE; Gokan.SYS_OPEN; Gokan.SYS_CLOSE; Gokan.SYS_LSEEK; Gokan.SYS_GETPID;
   Gokan.SYS_GETPPID; Gokan.SYS_YIELD; Gokan.SYS_SLEEP; Gokan.SYS_IPC_SEND; Gokan.SYS_IPC_RECV; Gokan.SYS_SPAWN;
   Gokan.SYS_WAITPID; Gokan.SYS_GETDENTS; Gokan.SYS_SBRK].

Lemma numbers_agree : gokan_numbers = header_numbers ∧ NoDup header_numbers.
Proof. split; [done|]. by apply (bool_decide_unpack _). Qed.

(** Half of them have no code in the kernel: every one of these calls prints a
    line and fails, whatever its arguments. *)
Definition unserved : list Z := filter (λ n, n ∉ syscalls) header_numbers.

Lemma unserved_calls `{Link} n fuel a1 a2 a3 a4 a5 s : n ∈ unserved →
  n ∈ [SYS_READ; SYS_OPEN; SYS_CLOSE; SYS_LSEEK; SYS_SPAWN; SYS_WAITPID; SYS_GETDENTS; SYS_SBRK] ∧
  syscall_handler fuel n a1 a2 a3 a4 a5 s =
    Done [EvPrintf ("[SYSCALL] unknown syscall %lu" +:+ nl) [KInt n]] (2 ^ 64 - ENOSYS) s.
Proof.
  intros Hn. assert (unserved = [SYS_READ; SYS_OPEN; SYS_CLOSE; SYS_LSEEK; SYS_SPAWN; SYS_WAITPID; SYS_GETDENTS; SYS_SBRK])
    as E by (by vm_compute).
  rewrite E in Hn. split; [exact Hn|]. by repeat (apply elem_of_cons in Hn as [->|Hn]; [reflexivity|]); apply elem_of_nil in Hn.
Qed.


(** ** The instructions

    [c] is the state of the program at the instruction, [next] the address of
    the one after it. *)

Section traps.
Context `{Link, Image}.
Implicit Types (c : cpu) (s : kernel).

(** [int $0x80]: the frame goes to the dispatcher, the registers come back from it. *)
Definition int80 (fuel : nat) (cr2 : Z) c (next : Z) (g : regs) : M kernel regs :=
  f ← interrupt_dispatch fuel cr2 (interrupted (c <| gpr := g |> <| pc := next |>) 0x80 0) ;
  mret (frame_regs f).

(** [syscall] with EFER.SCE clear: an invalid opcode, at the instruction itself. *)
Definition syscall_ud (fuel : nat) (cr2 : Z) c (g : regs) : M kernel regs :=
  f ← interrupt_dispatch fuel cr2 (interrupted (c <| gpr := g |>) 6 0) ;
  mret (frame_regs f).

Hypothesis stubs_loaded : ∀ v, isr_vector v → ∃ b, loaded (isr_stub v) (isr v) b.
Context (b b2 : Z) (b_u64 : is_u64 b).
Hypothesis common_loaded : loaded sym_isr_common isr_common b.
Hypothesis return_loaded : loaded b isr_common_return b2.

(** A program in user mode, about to enter the kernel. *)
Record in_user c : Prop := {
  iu_int : interruptible c;
  iu_cs : sel_cs c = 0x1B ∨ sel_cs c = 0x2B;
  iu_segs : segs_ok (data_segs c);
}.

Lemma in_user_pc c a : is_u64 a → in_user c → in_user (set_pc a c).
Proof.
  intros Ha [Hi Hc Hs]. split; [|done|done]. destruct Hi as [H1 H2 H3 H4 H5 (_ & H6 & H7 & H8)].
  by split.
Qed.

(** The machine does what [int80] says. *)
Lemma int80_runs c a fuel cr2 s l g' s' :
  in_user c → is_u64 a → int80 fuel cr2 c a (gpr c) s = Done l g' s' →
  ∃ c0 c1, int_n 0x80 c (set_pc a c) = Some c0 ∧ steps c0 c1 ∧ at_dispatcher (set_pc a c) 0x80 None b c1 ∧
    ∃ f', interrupt_dispatch fuel cr2 (ld_frame (ram c1) (greg RDI c1)) s = Done l f' s' ∧
      ∀ c2, dispatcher_returns c1 c2 f' →
        ∃ c3, steps c2 c3 ∧ gpr c3 = g' ∧ pc c3 = a ∧ fl c3 = fl c ∧ sel_cs c3 = sel_cs c ∧
          sel_ss c3 = sel_ss c ∧ ram c3 = ram c2 ∧
          data_segs c3 = user_segs (Segs 0x10 0x10 (sel_fs (data_segs c)) (sel_gs (data_segs c))).
Proof using b_u64 common_loaded return_loaded stubs_loaded.
  intros Hu Ha Hr. pose proof (in_user_pc c a Ha Hu) as [Hi Hcs Hsel].
  set (n := set_pc a c) in *.
  destruct (isr_entry stubs_loaded n 0x80 None b Hi ltac:(by right) (no_error_code 0x80 eq_refl) ltac:(done) b_u64
    common_loaded) as (c0 & c1 & Hint & Hs & Had).
  exists c0, c1. split.
  { unfold int_n. change (sizeof_idt_entry * 0x80) with (16 * 0x80).
    destruct (proj2 (in_tables n Hi) 0x80 ltac:(by right)) as (_ & _ & _ & _ & Hdpl & _).
    change (ram c) with (ram n). rewrite Hdpl. change (cpl c) with (cpl n). unfold cpl.
    by destruct Hcs as [-> | ->]. }
  split; [done|]. split; [done|].
  rewrite (ad_rdi _ _ _ _ _ Had), (ad_frame _ _ _ _ _ Had). 
  assert (Hn : c <| gpr := gpr c |> <| pc := a |> = n) by (by destruct c).
  unfold int80 in Hr. rewrite Hn in Hr. unfold mbind, M_bind in Hr.
  pose proof (dispatch_keeps_frame fuel cr2 (interrupted n 0x80 0) s) as Hk. change (default 0 None) with 0.
  destruct (interrupt_dispatch fuel cr2 (interrupted n 0x80 0) s) as [l1 f1 s1| | |]; try done.
  cbn in Hr. rewrite app_nil_r in Hr. injection Hr as -> <- ->. exists f1. split; [done|].
  cbn in Hk. destruct Hk as [Hk _]. intros c2 Hdr. rewrite Hk in Hdr.
  destruct (isr_resume b b2 b_u64 return_loaded n 0x80 None c1 c2 (rax f1) Hi
    ltac:(by right) Hsel Had Hdr) as (c3 & Hs3 & Hg & Hpc & Hfl & Hc3 & Hss & _ & _ & Hram & Hd).
  exists c3. split; [done|]. split; [|split; [done|]].
  - rewrite Hg, Hk. unfold n. clear. by destruct c as [[] ? ? ? ? ? ? ? ? ?].
  - split_and!; [done..|]. rewrite Hd. by destruct Hcs as [-> | ->].
Qed.
End traps.

(** ** unix_gokan.h *)

Section gokan.
Context `{Link, Image}.
Implicit Types (c : cpu) (s : kernel).

(** The registers at the instruction of [Gokan.write]. *)
Definition write_regs (g : regs) (fd buf len : Z) : regs :=
  setr RDX (u64 len) (setr RSI (u64 buf) (setr RDI (u32 fd) (setr RAX SYS_WRITE g))).

(** What the kernel prints for it. *)
Definition write_events s (fd buf len : Z) : list event :=
  EvPrintf ("[SYSCALL] SYS_WRITE" +:+ nl) [] ::
  if decide (s32 fd = 1 ∨ s32 fd = 2) then map (λ i, EvPutc (ld8 (k_mem s) (u64 (buf + i)))) (seqZ 0 len) else [].
Definition write_result (fd len : Z) : Z := if decide (s32 fd = 1 ∨ s32 fd = 2) then len else 2 ^ 64 - 9.

Lemma int80_write_regs c a fuel cr2 g fd buf len s :
  - 2 ^ 31 ≤ fd < 2 ^ 31 → is_u64 buf → is_u64 len →
  int80 fuel cr2 c a (write_regs g fd buf len) s =
    Done (write_events s fd buf len) (setr RAX (write_result fd len) (write_regs g fd buf len)) s.
Proof.
  intros Hfd Hbuf Hlen. unfold int80, mbind, M_bind.
  rewrite int80_write_run by (by destruct g).
  set (f := interrupted _ 0x80 0).
  assert (rdi f = u32 fd) as -> by (by destruct g). assert (rsi f = buf) as -> by (destruct g; by apply u64_id).
  assert (rdx f = len) as -> by (destruct g; by apply u64_id).
  assert (s32 (u32 fd) = s32 fd) as ->.
  { unfold s32, u32. by rewrite Zplus_mod_idemp_l. }
  unfold write_events, write_result. case_decide; cbn [bind_run]; unfold mret, M_ret; cbn [prepend];
    rewrite app_nil_r; (by destruct g).
Qed.
End gokan.

(** ** The programs on this kernel *)

Section programs.
Context `{Link, Image}.
Implicit Types (c : cpu) (s : kernel).

Hypothesis stubs_loaded : ∀ v, isr_vector v → ∃ b, loaded (isr_stub v) (isr v) b.
Context (b b2 : Z) (b_u64 : is_u64 b).
Hypothesis common_loaded : loaded sym_isr_common isr_common b.
Hypothesis return_loaded : loaded b isr_common_return b2.


(** C27: sh.c does not run on this kernel. Its [syscall] instruction is invalid as
    long as EFER.SCE is clear: the processor raises exception 6 at the
    instruction, and the dispatcher panics. The program panics the kernel with
    its first [write], before it prints anything, however long it is run. *)
Theorem sh_start_panics c a regs0 hello dot fuel cr2 n s :
  in_user c → long c = true → fetch (pc c) = Some (Syscall, a) → Z.testbit (efer c) 0 = false →
  (∃ c0 c1, step c = Some c0 ∧ steps c0 c1 ∧ at_dispatcher c 6 None b c1 ∧
     ∃ l, interrupt_dispatch fuel cr2 (ld_frame (ram c1) (greg RDI c1)) s = Panic l "unhandled exception" s) ∧
  ∃ l, Sh._start (syscall_ud fuel cr2 c) regs0 hello dot n s = Panic l "unhandled exception" s ∧
       ∀ x, EvPutc x ∉ l.
Proof using b_u64 common_loaded stubs_loaded.
  intros [Hi Hcs Hsel] Hl Hf Hsce. split.
  - destruct (isr_entry stubs_loaded c 6 None b Hi ltac:(by left) (no_error_code 6 eq_refl) ltac:(done) b_u64
      common_loaded) as (c0 & c1 & Hint & Hs & Had).
    exists c0, c1. rewrite (step_insn c _ _ Hl Hf), Hsce. split; [done|]. split; [done|]. split; [done|].
    rewrite (ad_rdi _ _ _ _ _ Had), (ad_frame _ _ _ _ _ Had). by eexists.
  - eexists. split; [reflexivity|]. clear. intros x. cbn.
    intros Hx. repeat (apply elem_of_cons in Hx as [?|Hx]; [done|]). by apply elem_of_nil in Hx.
Qed.

(** Nor would it with the other instruction. Its number for [write] is this
    kernel's [SYS_EXIT]: if its calls went through [int 0x80], the first [write]
    would end the process with the file descriptor as exit code. *)
Theorem sh_write_is_exit c regs0 fd buf len fuel cr2 s :
  - 2 ^ 31 ≤ fd < 2 ^ 31 →
  gpr c = setr RDX (u64 len) (setr RSI (u64 buf) (setr RDI (u64 fd) (setr RAX (u64 Sh.SYS_write) regs0))) →
  let f := interrupted c 0x80 0 in
  interrupt_dispatch fuel cr2 f s = (ret ← (proc_exit fd ;; mret 0) ; mret (f <| rax := ret |>)) s.
Proof.
  intros Hfd Hg f. rewrite dispatch_int80 by done.
  assert (rax f = SYS_EXIT) as -> by (unfold f, interrupted, greg; cbn [rax]; rewrite Hg; by destruct regs0).
  assert (rdi f = u64 fd) as -> by (unfold f, interrupted, greg; cbn [rdi]; rewrite Hg; by destruct regs0).
  unfold syscall_handler. cbn [Z.eqb Pos.eqb SYS_EXIT].
  assert (s32 (u64 fd) = fd) as ->; [|done].
  unfold s32, u64. rewrite <-(Zplus_mod_idemp_l (fd `mod` 2 ^ 64)).
  rewrite Z.mod_mod_divide by (by exists (2 ^ 32)).
  rewrite Zplus_mod_idemp_l, Z.mod_small; lia.
Qed.
End programs.

(** ** sh.c on the system it was written for

    What the program relies on: number 1 prints the [rdx] bytes at [rsi]. *)
Definition writes_bytes (trap : regs → M mem regs) : Prop :=
  ∀ g m, getr RAX g = Sh.SYS_write →
    ∃ g', trap g m = Done (map EvPutc (ld_bytes m (getr RSI g) (Z.to_nat (getr RDX g)))) g' m.

Section posix.
Context (trap : regs → M mem regs) (trap_ok : writes_bytes trap).

Lemma sh_write_text m regs0 buf txt :
  literal_at m buf txt → is_u64 buf → is_u64 (Z.of_nat (length (bytes_of txt))) →
  Sh.write trap regs0 1 buf (Z.of_nat (length (bytes_of txt))) m = Done (map EvPutc (bytes_of txt)) tt m.
Proof using trap_ok.
  intros Ht Hb Hlen. unfold Sh.write, Sh.syscall3. set (g := setr RDX _ _).
  destruct (trap_ok g m) as [g' Hg]; [by destruct regs0|].
  assert (getr RDX g = Z.of_nat (length (bytes_of txt))) as E1 by (destruct regs0; by apply u64_id).
  assert (getr RSI g = buf) as E2 by (destruct regs0; by apply u64_id).
  rewrite E1, E2, Nat2Z.id, Ht in Hg. unfold mbind, M_bind. rewrite Hg. cbn. by rewrite !app_nil_r.
Qed.

(** What sh.c is meant to do, on a kernel with its calling convention: it
    prints its greeting, all 25 bytes of it, and then one dot per iteration of
    its loop, for ever. *)
Theorem sh_start_prints m regs0 hello dot n :
  literal_at m hello Sh.hello_text → literal_at m dot Sh.dot_text → is_u64 hello → is_u64 dot →
  Sh._start trap regs0 hello dot n m =
    OutOfFuel (map EvPutc (bytes_of Sh.hello_text ++ replicate n 46)) m.
Proof using trap_ok.
  intros Hh Hd H1 H2.
  pose proof (sh_write_text m regs0 dot Sh.dot_text Hd H2 ltac:(done)) as Hdot.
  change (Z.of_nat (length (bytes_of Sh.dot_text))) with 1 in Hdot.
  change (map EvPutc (bytes_of Sh.dot_text)) with [EvPutc 46] in Hdot.
  assert (Hloop : Sh.start_loop trap regs0 dot n m = OutOfFuel (map EvPutc (replicate n 46)) m).
  { clear Hh. induction n as [|n IH]; [done|]. cbn [Sh.start_loop replicate map].
    unfold mbind, M_bind in *. rewrite Hdot. cbn [bind_run]. by rewrite IH. }
  unfold Sh._start. pose proof (sh_write_text m regs0 hello Sh.hello_text Hh H1 ltac:(done)) as Hhello.
  change (Z.of_nat (length (bytes_of Sh.hello_text))) with 25 in Hhello.
  unfold mbind, M_bind in *. rewrite Hhello. cbn [bind_run]. rewrite Hloop. cbn [prepend]. by rewrite map_app.
Qed.
End posix.

(** ** Witnesses *)

#[local] Existing Instance demo_link.
#[local] Existing Instance stub_image.

Lemma in_user_gpr `{Link, Image} (c : cpu) g : cpl c = 3 → regs_ok g → in_user c → in_user (c <| gpr := g |>).
Proof.
  intros Hc Hg [[H1 H2 H3 H4 H5 H6] Hcs Hs].
  assert (Hst : entry_stack (c <| gpr := g |>) = entry_stack c) by (unfold entry_stack; by change (cpl (c <| gpr := g |>)) with (cpl c); rewrite Hc).
  split; [|done|done]. split; try done.
  - by rewrite Hst.
  - unfold frame_addr in *. by rewrite Hst.
Qed.

Lemma demo_in_user : in_user demo_user.
Proof. split; [exact demo_user_interruptible|by right|exact demo_user_segs]. Qed.

(** [write(1, 0x5000, 3)] at the [int $0x80] of the image. *)
Definition demo_writer : cpu := demo_user <| gpr := write_regs (gpr demo_user) 1 0x5000 3 |>.

Lemma demo_writer_in_user : in_user demo_writer.
Proof. apply in_user_gpr; [done|by apply regs_okb_ok|exact demo_in_user]. Qed.

Lemma demo_writer_at : long demo_writer = true ∧ fetch (pc demo_writer) = Some (IntN 0x80, 0x400004) ∧
  gpr demo_writer = write_regs (gpr demo_user) 1 0x5000 3.
Proof. split; [reflexivity|]. split; [vm_compute; reflexivity|reflexivity]. Qed.


(** The [syscall] of the image. *)
Definition demo_linux : cpu := set_pc 0x400004 demo_user.

Lemma demo_linux_at : long demo_linux = true ∧ fetch (pc demo_linux) = Some (Syscall, 0x400008) ∧
  Z.testbit (efer demo_linux) 0 = false.
Proof. split; [reflexivity|]. split; [vm_compute; reflexivity|reflexivity]. Qed.

Lemma sh_start_panics_witness :
  ∃ l, Sh._start (syscall_ud 0 0 demo_linux) (gpr demo_user) 0x5000 0x6000 9 demo_kernel =
         Panic l "unhandled exception" demo_kernel ∧ ∀ x, EvPutc x ∉ l.
Proof.
  assert (Hb : is_u64 0x103150 ∧ is_u64 0x400004) by done. destruct Hb as [Hb Ha].
  pose proof (in_user_pc demo_user 0x400004 Ha demo_in_user : in_user demo_linux) as Hu.
  destruct demo_linux_at as (Hl & Hf & He).
  revert Hl Hf He Hu. generalize demo_linux. intros c Hl Hf He Hu.
  exact (proj2 (sh_start_panics demo_stubs_loaded 0x103150 Hb demo_common_loaded
    c 0x400008 (gpr demo_user) 0x5000 0x6000 0 0 9 demo_kernel Hu Hl Hf He)).
Defined.

(** A kernel that serves sh.c. *)
Definition demo_trap (g : regs) : M mem regs := λ m,
  Done (if getr RAX g =? Sh.SYS_write then map EvPutc (ld_bytes m (getr RSI g) (Z.to_nat (getr RDX g))) else [])
    (setr RAX (getr RDX g) g) m.

Lemma demo_trap_ok : writes_bytes demo_trap.
Proof. intros g m Hg. unfold demo_trap. rewrite Hg. by eexists. Qed.

Definition demo_literals : mem :=
  st_bytes (st_bytes ∅ 0x5000 (bytes_of Sh.hello_text)) 0x6000 (bytes_of Sh.dot_text).

Lemma sh_start_prints_witness :
  Sh._start demo_trap (gpr demo_user) 0x5000 0x6000 2 demo_literals =
    OutOfFuel (map EvPutc (bytes_of (Sh.hello_text +:+ ".."))) demo_literals.
Proof.
  apply (sh_start_prints demo_trap demo_trap_ok); [by vm_compute|by vm_compute|done|done].
Defined.
