(* ===== verification/Start.v ===== *)
(** * Start: from the boot loader to the kernel's C code (boot/boot.asm)

    The loader enters [_start] in 32-bit protected mode without paging.  The
    code checks the processor, builds page tables for the first 2 MiB, enters
    64-bit mode and calls [kernel_main].  It is written here as it is executed:
    one operation per instruction on the registers, the control registers and
    memory.  Arithmetic flags are not recorded; each conditional jump is taken
    on the comparison before it.  Without an interrupt table a fault resets the
    machine ([fault]). *)

From S2P Require Import Prelude Effects Memory Types Interfaces Arch Pmm Vmm Kernel Proc Trap Cpu Elf Boot.

(** ** The image and the processor *)

(** The parts of the image the code refers to: section .bss starts with the
    stack, section .data with the segment table; [ret_of n] is the address after
    the n-th call. *)
Class StartImage := {
  stack_bottom : Z;
  gdt64 : Z;
  ret_of : Z → Z;
}.

(** The processor: [cpuid leaf] is (eax, ebx, ecx, edx), [popf_mask] the flags
    that [popfd] can change.  Bit 21 is one of them if there is a [cpuid]. *)
Class Processor := {
  cpuid : Z → Z * Z * Z * Z;
  popf_mask : Z;
}.

Section image.
Context `{StartImage}.

(** Section .bss. *)
Definition stack_top : Z := stack_bottom + 32768.
Definition pml4_table : Z := 4096 * ((stack_top + 4095) `div` 4096).
Definition pdp_table : Z := pml4_table + 4096.
Definition pd_table : Z := pdp_table + 4096.
Definition pt_table : Z := pd_table + 4096.

(** Section .data: three descriptors, and the operand of [lgdt]. *)
Definition gdt64_words : list Z :=
  [0;
   Z.lor (Z.lor (Z.shiftl 1 43) (Z.shiftl 1 44)) (Z.lor (Z.shiftl 1 47) (Z.shiftl 1 53));
   Z.lor (Z.lor (Z.shiftl 1 44) (Z.shiftl 1 47)) (Z.shiftl 1 41)].
Definition gdt64_end : Z := gdt64 + 24.
Definition gdt64_ptr : Z := gdt64_end.

Definition gdt64_bytes : list Z := gdt64_words ≫= le_bytes 8.

(** What the loader puts there. *)
Definition data_loaded (m : mem) : Prop :=
  ld_bytes m gdt64 24 = gdt64_bytes ∧ ld16 m gdt64_ptr = gdt64_end - gdt64 - 1 ∧ ld32 m (gdt64_ptr + 2) = gdt64.
End image.

(** ** The machine state *)

Record start := Start {
  eax : Z; ebx : Z; ecx : Z; edx : Z; esi : Z; edi : Z; esp : Z;
  eflags : Z;
  cr0 : Z; cr3 : Z; cr4 : Z;
  msr_efer : Z;
  gdtr : Z * Z;                 (** limit and base *)
  code_sel : Z; stack_sel : Z; selectors : segs;
  s_ram : mem;
}.
#[export] Instance eta_start : Eta start := λ s,
  Start (eax s) (ebx s) (ecx s) (edx s) (esi s) (edi s) (esp s) (eflags s) (cr0 s) (cr3 s) (cr4 s)
    (msr_efer s) (gdtr s) (code_sel s) (stack_sel s) (selectors s) (s_ram s).

Definition CR0_PE : Z := 0.
Definition CR0_PG : Z := 31.
Definition CR4_PAE : Z := 5.
Definition EFER_LMA : Z := BIT 10.

Definition fault {A} : M start A := λ s, Panic [] "fault" s.

(** ** Instructions *)

Definition set_eax (f : start → Z) : M start unit := modify (λ s, s <| eax := f s |>).
Definition set_ecx (f : start → Z) : M start unit := modify (λ s, s <| ecx := f s |>).
Definition store32 (a : start → Z) : M start unit := modify (λ s, s <| s_ram := st32 (s_ram s) (u32 (a s)) (eax s) |>).

Definition push32 (v : Z) : M start unit :=
  modify (λ s, let sp := u32 (esp s - 4) in s <| esp := sp |> <| s_ram := st32 (s_ram s) sp v |>).
Definition pop32 : M start Z := λ s,
  Done [] (ld32 (s_ram s) (esp s)) (s <| esp := u32 (esp s + 4) |>).

(** A call of a routine that ends in [ret]. *)
Definition call32 (ret : Z) (f : M start unit) : M start unit :=
  push32 ret ;; f ;; pop32 ;; mret tt.

(** The VM and RF flags are pushed as 0. *)
Definition pushfd : M start unit := f ← gets eflags ; push32 (Z.land f 0x00FCFFFF).
Definition popfd `{Processor} : M start unit :=
  v ← pop32 ;
  modify (λ s, s <| eflags := Z.lor (Z.land (eflags s) (Z.lnot popf_mask)) (Z.land v popf_mask) |>).

Definition do_cpuid `{Processor} : M start unit :=
  modify (λ s, let '(a, b, c, d) := cpuid (eax s) in s <| eax := a |> <| ebx := b |> <| ecx := c |> <| edx := d |>).

(** [mul ecx]: the product in edx:eax. *)
Definition mul_ecx : M start unit :=
  modify (λ s, let p := eax s * ecx s in s <| eax := u32 p |> <| edx := u32 (p `div` 2 ^ 32) |>).

(** EFER is the only register of its kind that is used. *)
Definition rdmsr : M start unit :=
  s ← get ;
  if ecx s =? MSR_EFER then
    modify (λ s, s <| eax := u32 (msr_efer s) |> <| edx := u32 (msr_efer s `div` 2 ^ 32) |>)
  else fault.
Definition wrmsr : M start unit :=
  s ← get ;
  if ecx s =? MSR_EFER then modify (λ s, s <| msr_efer := Z.lor (Z.shiftl (edx s) 32) (eax s) |>) else fault.

(** [mov cr0, eax]: paging needs protected mode, and with EFER.LME set PAE; the
    processor then activates long mode. *)
Definition mov_cr0 : M start unit :=
  s ← get ;
  let v := eax s in
  if Z.testbit v CR0_PG && negb (Z.testbit v CR0_PE) then fault else
  let lme := Z.testbit (msr_efer s) 8 in
  if Z.testbit v CR0_PG && lme && negb (Z.testbit (cr4 s) CR4_PAE) then fault else
  modify (λ s, s <| cr0 := v |>
                 <| msr_efer := if Z.testbit v CR0_PG && lme then Z.lor (msr_efer s) EFER_LMA else msr_efer s |>).

(** The descriptor of a selector in the table of GDTR, if it is inside. *)
Definition selected (s : start) (sel : Z) : option Z :=
  if 8 * (sel `div` 8) + 7 <=? (gdtr s).1 then Some ((gdtr s).2 + 8 * (sel `div` 8)) else None.

(** A far jump to 64-bit code of privilege level 0. *)
Definition jmp_far (sel : Z) : M start unit :=
  s ← get ;
  match selected s sel with
  | Some d =>
      let acc := seg_access (s_ram s) d in
      if Z.testbit acc 7 && Z.testbit acc 4 && Z.testbit acc 3 && ((acc `div` 32) `mod` 4 =? 0) &&
         (Z.land (seg_flags (s_ram s) d) 6 =? 2) && Z.testbit (msr_efer s) 10
      then modify (λ s, s <| code_sel := sel |>) else fault
  | None => fault
  end.

(** [mov ds, ax] and so on: a present, writable data segment. *)
Definition load_sel (set : Z → start → start) : M start unit :=
  s ← get ;
  let sel := u16 (eax s) in
  match selected s sel with
  | Some d =>
      let acc := seg_access (s_ram s) d in
      if Z.testbit acc 7 && Z.testbit acc 4 && negb (Z.testbit acc 3) && Z.testbit acc 1 &&
         ((acc `div` 32) `mod` 4 =? 0)
      then modify (set sel) else fault
  | None => fault
  end.

(** ** boot.asm *)

Section boot.
Context `{StartImage, Processor}.

(** [hlt] ends the run. *)
Definition halt {A} : M start A := λ s, Panic [EvInstr Hlt] "boot_error" s.

(** A character in the corner of the screen, white on red. *)
Definition boot_error {A} : M start A :=
  modify (λ s, s <| s_ram := st8 (s_ram s) 0xB8000 (u8 (eax s)) |>) ;;
  modify (λ s, s <| s_ram := st8 (s_ram s) 0xB8001 0x4F |>) ;;
  halt.

Definition set_al (v : Z) : M start unit := set_eax (λ s, eax s - u8 (eax s) + v).

Definition check_cpuid : M start unit :=
  pushfd ;;
  v ← pop32 ; set_eax (λ _, v) ;;
  set_ecx eax ;;
  set_eax (λ s, Z.lxor (eax s) (Z.shiftl 1 21)) ;;
  v ← gets eax ; push32 v ;;
  popfd ;;
  pushfd ;;
  v ← pop32 ; set_eax (λ _, v) ;;
  v ← gets ecx ; push32 v ;;
  popfd ;;
  set_eax (λ s, Z.lxor (eax s) (ecx s)) ;;
  v ← gets eax ;
  if v =? 0 then set_al 0x30 ;; boot_error else mret tt.

Definition no_long_mode : M start unit := set_al 0x31 ;; boot_error.
Definition check_long_mode : M start unit :=
  set_eax (λ _, 0x80000000) ;;
  do_cpuid ;;
  v ← gets eax ;
  if v <? 0x80000001 then no_long_mode else
  set_eax (λ _, 0x80000001) ;;
  do_cpuid ;;
  v ← gets edx ;
  if Z.land v (Z.shiftl 1 29) =? 0 then no_long_mode else mret tt.

(** The loop over the page table. *)
Fixpoint map_pt (fuel : nat) : M start unit :=
  match fuel with
  | O => no_fuel
  | S fuel =>
      set_eax (λ _, 0x1000) ;;
      mul_ecx ;;
      set_eax (λ s, Z.lor (eax s) 0x3) ;;
      store32 (λ s, pt_table + ecx s * 8) ;;
      set_ecx (λ s, u32 (ecx s + 1)) ;;
      n ← gets ecx ;
      if s32 n <? 512 then map_pt fuel else mret tt
  end.

Definition setup_paging : M start unit :=
  set_eax (λ _, pdp_table) ;;
  set_eax (λ s, Z.lor (eax s) 0x3) ;;
  store32 (λ _, pml4_table) ;;
  set_eax (λ _, pd_table) ;;
  set_eax (λ s, Z.lor (eax s) 0x3) ;;
  store32 (λ _, pdp_table) ;;
  set_eax (λ _, pt_table) ;;
  set_eax (λ s, Z.lor (eax s) 0x3) ;;
  store32 (λ _, pd_table) ;;
  set_ecx (λ _, 0) ;;
  map_pt 512 ;;
  set_eax (λ _, pml4_table) ;;
  modify (λ s, s <| cr3 := eax s |>) ;;
  set_eax cr4 ;;
  set_eax (λ s, Z.lor (eax s) (Z.shiftl 1 5)) ;;
  modify (λ s, s <| cr4 := eax s |>).

Definition load_gdt : M start unit :=
  modify (λ s, s <| gdtr := (ld16 (s_ram s) gdt64_ptr, ld32 (s_ram s) (gdt64_ptr + 2)) |>).

(** 64-bit code: the selectors, a fresh stack, and the call of [kernel_main].
    The run ends there; the arguments are in edi and esi, whose upper halves are
    clear. *)
Definition long_mode_start : M start unit :=
  set_eax (λ s, eax s - u16 (eax s) + 0x10) ;;
  load_sel (λ v s, s <| selectors := setseg DS v (selectors s) |>) ;;
  load_sel (λ v s, s <| selectors := setseg ES v (selectors s) |>) ;;
  load_sel (λ v s, s <| selectors := setseg FS v (selectors s) |>) ;;
  load_sel (λ v s, s <| selectors := setseg GS v (selectors s) |>) ;;
  load_sel (λ v s, s <| stack_sel := v |>) ;;
  modify (λ s, s <| esp := stack_top |>) ;;
  modify (λ s, s <| esp := esp s - 8 |> <| s_ram := st64 (s_ram s) (esp s - 8) (ret_of 5) |>).

(** EFER.LME, then paging; [long_mode_start] is in the code segment of gdt64. *)
Definition enable_long_mode : M start unit :=
  set_ecx (λ _, MSR_EFER) ;;
  rdmsr ;;
  set_eax (λ s, Z.lor (eax s) (Z.shiftl 1 8)) ;;
  wrmsr ;;
  set_eax cr0 ;;
  set_eax (λ s, Z.lor (eax s) (Z.lor (Z.shiftl 1 31) (Z.shiftl 1 0))) ;;
  mov_cr0 ;;
  jmp_far 0x08.

Definition _start : M start unit :=
  modify (λ s, s <| edi := eax s |>) ;;
  modify (λ s, s <| esi := ebx s |>) ;;
  modify (λ s, s <| esp := stack_top |>) ;;
  call32 (ret_of 1) check_cpuid ;;
  call32 (ret_of 2) check_long_mode ;;
  call32 (ret_of 3) setup_paging ;;
  call32 (ret_of 4) load_gdt ;;
  enable_long_mode ;;
  long_mode_start.
End boot.

(** ** The checks of the processor *)

(** Evaluate a run, leaving arithmetic and memory accesses alone. *)
Ltac exec :=
  cbv -[st64 st32 st8 ld32 ld16 u8 u16 u32 s32 Z.land Z.lor Z.lxor Z.lnot Z.shiftl Z.testbit Z.eqb Z.ltb Z.leb
        Z.add Z.sub Z.mul Z.div Z.modulo Z.pow popf_mask cpuid ret_of stack_top gdt64_ptr pml4_table pdp_table pd_table pt_table
        gdt64 seg_access seg_flags EFER_LMA].

(** The flags that [pushfd] shows. *)
Definition shown (f : Z) : Prop := Z.land f 0x00FCFFFF = f.

Lemma shown_bit f i : shown f → Z.testbit f i = true → Z.testbit 0x00FCFFFF i = true.
Proof. unfold shown. intros Hf. rewrite <-Hf, Z.land_spec. by intros [_ ?]%andb_prop. Qed.

Lemma shown_u32 f : shown f → is_u32 f.
Proof. unfold shown. intros <-. unfold is_u32. rewrite Z.land_comm. 
  pose proof (land_below 0x00FCFFFF f 32 ltac:(lia)). lia. Qed.

Lemma lxor_u32 x y : is_u32 x → is_u32 y → is_u32 (Z.lxor x y).
Proof.
  unfold is_u32. intros Hx Hy. split; [by apply Z.lxor_nonneg; lia|].
  destruct (decide (Z.lxor x y = 0)) as [->|Hn]; [lia|].
  assert (0 ≤ Z.lxor x y) by (apply Z.lxor_nonneg; lia).
  apply Z.log2_lt_pow2; [lia|]. pose proof (Z.log2_lxor x y ltac:(lia) ltac:(lia)).
  assert (∀ z, 0 ≤ z < 2 ^ 32 → Z.log2 z < 32) as Hl.
  { intros z Hz. destruct (decide (z = 0)) as [->|]; [done|]. apply Z.log2_lt_pow2; lia. }
  pose proof (Hl x Hx). pose proof (Hl y Hy). lia.
Qed.

Section flags.
Context (f mask : Z) (Hf : shown f) (Hmask : shown mask).
Let t : Z := Z.land mask (Z.shiftl 1 21).

Lemma toggle_flags : Z.lor (Z.land f (Z.lnot mask)) (Z.land (Z.lxor f (Z.shiftl 1 21)) mask) = Z.lxor f t.
Proof using.
  apply Z.bits_inj'. intros i Hi. unfold t. rewrite Z.lor_spec, !Z.land_spec, !Z.lxor_spec, Z.land_spec, Z.lnot_spec by done.
  by destruct (Z.testbit f i), (Z.testbit mask i), (Z.testbit _ i).
Qed.

Lemma toggle_shown : shown (Z.lxor f t).
Proof using Hf Hmask.
  unfold shown. apply Z.bits_inj'. intros i Hi. unfold t. rewrite Z.land_spec, !Z.lxor_spec, Z.land_spec.
  pose proof (shown_bit f i Hf) as H1. pose proof (shown_bit mask i Hmask) as H2.
  destruct (Z.testbit f i), (Z.testbit mask i); rewrite ?H1, ?H2 by done; by rewrite ?andb_true_r.
Qed.

Lemma restore_flags : Z.lor (Z.land (Z.lxor f t) (Z.lnot mask)) (Z.land f mask) = f.
Proof using.
  apply Z.bits_inj'. intros i Hi. unfold t. rewrite Z.lor_spec, !Z.land_spec, !Z.lxor_spec, Z.land_spec, Z.lnot_spec by done.
  by destruct (Z.testbit f i), (Z.testbit mask i), (Z.testbit (Z.shiftl 1 21) i).
Qed.

Lemma toggled_bit : (Z.lxor (Z.lxor f t) f =? 0) = negb (Z.testbit mask 21).
Proof using.
  rewrite (Z.lxor_comm f), Z.lxor_assoc, Z.lxor_nilpotent, Z.lxor_0_r. unfold t.
  change (Z.shiftl 1 21) with (2 ^ 21). by rewrite land_pow2_eqb.
Qed.
End flags.

(** A routine that changes only scratch registers and the stack below [sp]. *)
Record scratch (n : Z) (s s' : start) : Prop := {
  sc_edi : edi s' = edi s;
  sc_esi : esi s' = esi s;
  sc_esp : esp s' = esp s;
  sc_flags : eflags s' = eflags s;
  sc_ctl : cr0 s' = cr0 s ∧ cr3 s' = cr3 s ∧ cr4 s' = cr4 s ∧ msr_efer s' = msr_efer s ∧ gdtr s' = gdtr s;
  sc_sels : code_sel s' = code_sel s ∧ stack_sel s' = stack_sel s ∧ selectors s' = selectors s;
  sc_ram a : a < esp s - n ∨ esp s ≤ a → ld8 (s_ram s') a = ld8 (s_ram s) a;
  sc_wf : mem_wf (s_ram s) → mem_wf (s_ram s');
}.

Section checks.
Context `{StartImage, Processor}.

Lemma u32_esp e k : k ≤ e < 2 ^ 32 → 0 ≤ k → u32 (e - k) = e - k.
Proof. intros. apply u32_id. unfold is_u32. lia. Qed.

Lemma u8_set_al x v : is_u8 v → u8 (u8 (x - u8 x + v)) = v.
Proof.
  intros Hv. rewrite (u8_id (u8 _)) by apply u8_range. unfold u8, is_u8 in *.
  rewrite <-(Z.mod_small v (2 ^ 8) Hv) at 2. pose proof (Z.div_mod x (2 ^ 8) ltac:(done)).
  replace (x - x `mod` 2 ^ 8 + v) with (v + (x `div` 2 ^ 8) * 2 ^ 8) by lia. by apply Z.mod_add.
Qed.

Lemma check_cpuid_ok s :
  shown (eflags s) → shown popf_mask → 4 ≤ esp s < 2 ^ 32 →
  if Z.testbit popf_mask 21 then ∃ s', result check_cpuid s = Some (tt, s') ∧ scratch 4 s s'
  else ∃ s', check_cpuid s = Panic [EvInstr Hlt] "boot_error" s' ∧ ld8 (s_ram s') 0xB8000 = 0x30.
Proof.
  destruct s as [a b c d si di sp f c0 c3 c4 ef g cs ss sl m]. cbn [eflags esp]. intros Hf Hm Hsp.
  pose proof (shown_u32 f Hf) as Hfu. pose proof (toggle_shown f popf_mask Hf Hm) as Ht.
  assert (He : is_u32 (Z.lxor f (Z.shiftl 1 21))) by (by apply lxor_u32).
  pose proof (shown_u32 _ Ht) as Htu.
  assert (E1 : u32 (sp - 4) = sp - 4) by (by apply u32_esp).
  assert (E2 : u32 (sp - 4 + 4) = sp) by (rewrite Z.sub_add; apply u32_id; unfold is_u32; lia).
  pose proof (toggled_bit f popf_mask) as Hb.
  destruct (Z.testbit popf_mask 21).
  - eexists. split.
    + unfold result. exec. do 5 rewrite ?E2, ?E1. rewrite !Hf, !ld32_st32, !(u32_id f), (u32_id _ He), toggle_flags, Ht, (u32_id _ Htu), Hb by done.
      cbn [negb]. rewrite restore_flags. reflexivity.
    + split; cbn; try done; [|intros Hw; auto 10 with mem]. intros x Hx. by rewrite !ld8_st32_out by lia.
  - eexists. split.
    + exec. do 5 rewrite ?E2, ?E1. rewrite !Hf, !ld32_st32, !(u32_id f), (u32_id _ He), toggle_flags, Ht, (u32_id _ Htu), Hb by done.
      reflexivity.
    + cbn [s_ram]. by rewrite ld8_st8_ne, ld8_st8, u8_set_al by done.
Qed.

(** [cpuid] knows leaf 0x80000001, and bit 29 of edx there is set. *)
Definition has_long_mode : bool :=
  let '(top, _, _, _) := cpuid 0x80000000 in
  let '(_, _, _, features) := cpuid 0x80000001 in
  (0x80000001 <=? top) && Z.testbit features 29.

Lemma check_long_mode_ok s :
  if has_long_mode then ∃ s', result check_long_mode s = Some (tt, s') ∧ scratch 0 s s'
  else ∃ s', check_long_mode s = Panic [EvInstr Hlt] "boot_error" s' ∧ ld8 (s_ram s') 0xB8000 = 0x31.
Proof.
  destruct s as [a b c d si di sp f c0 c3 c4 ef g cs ss sl m]. unfold has_long_mode.
  destruct (cpuid 0x80000000) as [[[a1 b1] d1] e1] eqn:E1, (cpuid 0x80000001) as [[[a2 b2] d2] e2] eqn:E2.
  assert (Hl : (Z.land e2 (Z.shiftl 1 29) =? 0) = negb (Z.testbit e2 29)) by (by apply (land_pow2_eqb e2 29)).
  rewrite Z.leb_antisym. destruct (a1 <? 0x80000001) eqn:Ea; cbn [negb andb]; [|destruct (Z.testbit e2 29)].
  - eexists. split; [exec; rewrite E1, Ea; reflexivity|]. cbn [s_ram]. by rewrite ld8_st8_ne, ld8_st8, u8_set_al by done.
  - eexists. split; [unfold result; exec; rewrite E1, Ea, E2, Hl; reflexivity|]. by split.
  - eexists. split; [exec; rewrite E1, Ea, E2, Hl; reflexivity|].
    cbn [s_ram]. by rewrite ld8_st8_ne, ld8_st8, u8_set_al by done.
Qed.

(** A call: the return address is pushed below the stack pointer. *)
Definition called (ret : Z) (s : start) : start :=
  let sp := u32 (esp s - 4) in s <| esp := sp |> <| s_ram := st32 (s_ram s) sp ret |>.

Lemma call32_run ret f s s' :
  result f (called ret s) = Some (tt, s') →
  result (call32 ret f) s = Some (tt, s' <| esp := u32 (esp s' + 4) |>).
Proof. intros Hf. unfold call32, push32. run_simpl. unfold called in Hf. by rewrite Hf. Qed.

Lemma call32_scratch ret f s s' n :
  4 + n ≤ esp s < 2 ^ 32 → 0 ≤ n → result f (called ret s) = Some (tt, s') → scratch n (called ret s) s' →
  ∃ s2, result (call32 ret f) s = Some (tt, s2) ∧ scratch (n + 4) s s2.
Proof.
  intros Hsp Hn Hf Hs. eexists. split; [by apply call32_run|].
  destruct s as [a b c d si di sp fl c0 c3 c4 ef g cs ss sl m], s'.
  destruct Hs as [H1 H2 H3 H4 H5 H6 H7 H8]. cbn in *. rewrite u32_esp in * by lia.
  split; cbn; try done.
  - rewrite H3, Z.sub_add. apply u32_id. unfold is_u32. lia.
  - intros x Hx. rewrite H7 by lia. apply ld8_st32_out. lia.
  - intros Hw. apply H8. auto with mem.
Qed.
End checks.

(** ** The page tables *)

Section paging.
Context `{StartImage, Processor}.

(** The image fits in 32 bits, with section .data below section .bss. *)
Record image_ok : Prop := {
  im_data : 0 ≤ gdt64 ∧ gdt64_ptr + 10 ≤ stack_bottom;
  im_bss : pt_table + 4096 < 2 ^ 32;
}.

Lemma image_nonneg : image_ok → 0 ≤ stack_bottom.
Proof. intros [[? H1] _]. unfold gdt64_ptr, gdt64_end in H1. lia. Qed.

(** The bounds of the tables. *)
Lemma table_bounds : stack_top ≤ pml4_table < stack_top + 4096 ∧ pml4_table `mod` 4096 = 0.
Proof.
  unfold pml4_table. pose proof (Z.div_mod (stack_top + 4095) 4096). pose proof (Z.mod_pos_bound (stack_top + 4095) 4096).
  split; [lia|]. rewrite Z.mul_comm. by apply Z.mod_mul.
Qed.

(** [n] entries of the page table from number [i] on. *)
Fixpoint pt_entries (m : mem) (i : Z) (n : nat) : mem :=
  match n with
  | O => m
  | S n => pt_entries (st32 m (pt_table + i * 8) (Z.lor (4096 * i) 3)) (i + 1) n
  end.

Definition paging_ram (m : mem) : mem :=
  pt_entries (st32 (st32 (st32 m pml4_table (Z.lor pdp_table 3)) pdp_table (Z.lor pd_table 3))
    pd_table (Z.lor pt_table 3)) 0 512.

(** One round of the loop. *)
Definition entered (i : Z) (s : start) : start :=
  s <| eax := Z.lor (4096 * i) 3 |> <| edx := 0 |> <| ecx := i + 1 |>
    <| s_ram := st32 (s_ram s) (pt_table + i * 8) (Z.lor (4096 * i) 3) |>.

Lemma map_pt_step n i s :
  image_ok → 0 ≤ stack_bottom → ecx s = i → 0 ≤ i < 512 →
  map_pt (S n) s = if i + 1 <? 512 then map_pt n (entered i s) else Done [] tt (entered i s).
Proof.
  intros Hi Hsb Hc H0i. pose proof (im_bss Hi) as Hb. pose proof table_bounds as [Ht _].
  destruct s as [a b c d si di sp f c0 c3 c4 ef g cs ss sl m]; cbn [ecx] in Hc; subst c.
  assert (E1 : u32 (4096 * i) = 4096 * i) by (apply u32_id; unfold is_u32; lia).
  assert (E2 : u32 ((4096 * i) `div` 2 ^ 32) = 0) by (rewrite Z.div_small; [done|lia]).
  assert (E3 : u32 (i + 1) = i + 1) by (apply u32_id; unfold is_u32; lia).
  assert (E4 : u32 (pt_table + i * 8) = pt_table + i * 8).
  { apply u32_id. unfold is_u32, stack_top, pt_table, pd_table, pdp_table in *. lia. }
  assert (E5 : s32 (i + 1) = i + 1) by (unfold s32; rewrite Z.mod_small; lia).
  cbn [map_pt]. with_strategy opaque [map_pt] exec. rewrite E1, E2, E3, E4, E5.
  destruct (i + 1 <? 512); [|done]. unfold entered. cbn. by destruct (map_pt n _).
Qed.

Lemma map_pt_run n i s :
  image_ok → 0 ≤ stack_bottom → ecx s = i → 0 ≤ i → i + Z.of_nat (S n) = 512 →
  map_pt (S n) s =
    Done [] tt (s <| eax := Z.lor (4096 * 511) 3 |> <| edx := 0 |> <| ecx := 512 |>
                <| s_ram := pt_entries (s_ram s) i (S n) |>).
Proof.
  intros Hi Hsb. revert i s. induction n as [|n IH]; intros i s Hc H0i Hn; rewrite (map_pt_step _ i) by (done || lia).
  - assert (i = 511) as -> by lia. by destruct s.
  - assert ((i + 1 <? 512) = true) as -> by lia. rewrite (IH (i + 1)) by (done || lia). by destruct s.
Qed.

Lemma setup_paging_run s :
  image_ok → 0 ≤ stack_bottom →
  result setup_paging s =
    Some (tt, s <| eax := Z.lor (cr4 s) (Z.shiftl 1 5) |> <| edx := 0 |> <| ecx := 512 |> <| cr3 := pml4_table |>
                <| cr4 := Z.lor (cr4 s) (Z.shiftl 1 5) |> <| s_ram := paging_ram (s_ram s) |>).
Proof.
  intros Hi Hsb. pose proof (im_bss Hi) as Hb. pose proof table_bounds as [Ht _].
  assert (E1 : u32 pml4_table = pml4_table ∧ u32 pdp_table = pdp_table ∧ u32 pd_table = pd_table).
  { unfold stack_top, pt_table, pd_table, pdp_table in *. split_and!; apply u32_id; unfold is_u32; lia. }
  destruct E1 as (E1 & E2 & E3).
  assert (Hrun : ∀ s, ecx s = 0 → map_pt 512 s = Done [] tt (s <| eax := Z.lor (4096 * 511) 3 |> <| edx := 0 |>
    <| ecx := 512 |> <| s_ram := pt_entries (s_ram s) 0 512 |>)) by (intros; by apply (map_pt_run 511 0)).
  destruct s as [a b c d si di sp f c0 c3 c4 ef g cs ss sl m].
  unfold setup_paging, paging_ram. revert Hrun. generalize 512%nat. intros n Hrun.
  unfold result. with_strategy opaque [map_pt] exec. rewrite Hrun by done.
  with_strategy opaque [pt_entries] exec. by rewrite E1, E2, E3.
Qed.

(** Reading the tables back. *)
Lemma pt_entries_out m i n a :
  (∀ j, i ≤ j < i + Z.of_nat n → a < pt_table + j * 8 ∨ pt_table + j * 8 + 4 ≤ a) →
  ld8 (pt_entries m i n) a = ld8 m a.
Proof.
  revert m i. induction n as [|n IH]; intros m i Ha; [done|]. cbn [pt_entries].
  rewrite IH by (intros; apply Ha; lia). apply ld8_st32_out. specialize (Ha i ltac:(lia)). lia.
Qed.

Lemma pt_entries_in m i n j :
  i ≤ j < i + Z.of_nat n → ld32 (pt_entries m i n) (pt_table + j * 8) = u32 (Z.lor (4096 * j) 3).
Proof.
  revert m i. induction n as [|n IH]; intros m i Hj; [lia|]. cbn [pt_entries].
  destruct (decide (j = i)) as [->|Hn].
  - rewrite <-(ld32_st32 m (pt_table + i * 8)). apply ld_le_ext. intros b Hb. apply pt_entries_out. intros; lia.
  - apply IH. lia.
Qed.

(** A 64-bit word from its halves. *)
Lemma ld64_halves m a : ld64 m a = ld32 m a + 2 ^ 32 * ld32 m (a + 4).
Proof.
  unfold ld64, ld32. cbn [ld_le]. replace (a + 4) with (a + 1 + 1 + 1 + 1) by lia. lia.
Qed.
Lemma ld32_zero m a : (∀ x, a ≤ x < a + 4 → ld8 m x = 0) → ld32 m a = 0.
Proof. intros Hz. unfold ld32. cbn [ld_le]. rewrite !Hz by lia. done. Qed.

Lemma single_entry m t e i :
  is_u32 e → (∀ x, t ≤ x < t + 4096 → ld8 m x = 0) → index i →
  ld64 (st32 m t e) (t + 8 * i) = if i =? 0 then e else 0.
Proof.
  intros He Hz Hi. unfold index in Hi. rewrite ld64_halves.
  rewrite (ld32_zero _ (t + 8 * i + 4)) by (intros x Hx; rewrite ld8_st32_out by lia; apply Hz; lia).
  destruct (Z.eqb_spec i 0) as [->|Hn].
  - by rewrite !Z.mul_0_r, !Z.add_0_r, ld32_st32, u32_id by done.
  - rewrite ld32_zero by (intros x Hx; rewrite ld8_st32_out by lia; apply Hz; lia). lia.
Qed.

(** The tables that boot.asm builds. *)
Record boot_tables (m : mem) : Prop := {
  bt_pml4 i : index i → ld64 m (pml4_table + 8 * i) = if i =? 0 then Z.lor pdp_table 3 else 0;
  bt_pdp i : index i → ld64 m (pdp_table + 8 * i) = if i =? 0 then Z.lor pd_table 3 else 0;
  bt_pd i : index i → ld64 m (pd_table + 8 * i) = if i =? 0 then Z.lor pt_table 3 else 0;
  bt_pt i : index i → ld64 m (pt_table + 8 * i) = Z.lor (4096 * i) 3;
}.

(** Section .bss is cleared by the loader. *)
Definition bss_clear (m : mem) : Prop := ∀ a, pml4_table ≤ a < pt_table + 4096 → ld8 m a = 0.

Lemma lor3_u32 x : 0 ≤ x < 2 ^ 32 → is_u32 (Z.lor x 3).
Proof.
  intros Hx. unfold is_u32. split; [apply Z.lor_nonneg; lia|].
  pose proof (Z.log2_lor x 3 ltac:(lia) ltac:(lia)) as Hl. apply Z.log2_lt_pow2.
  - assert (Z.lor x 3 ≠ 0) by (intros E; apply Z.lor_eq_0_iff in E; lia). pose proof (proj2 (Z.lor_nonneg x 3)). lia.
  - rewrite Hl. change (Z.log2 3) with 1. destruct (decide (x = 0)) as [->|]; [done|].
    pose proof (proj1 (Z.log2_lt_pow2 x 32 ltac:(lia))). lia.
Qed.

Lemma paging_ram_tables m : image_ok → 0 ≤ stack_bottom → bss_clear m → boot_tables (paging_ram m).
Proof.
  intros Hi Hsb Hz. pose proof (im_bss Hi) as Hb. pose proof table_bounds as [Ht _].
  unfold bss_clear, stack_top, pt_table, pd_table, pdp_table in *.
  unfold paging_ram. split; intros i Hix; unfold index in Hix.
  1-3: etransitivity; [apply ld_le_ext; intros x Hx; apply pt_entries_out; intros; unfold pt_table, pd_table, pdp_table in *; lia|].
  all: unfold pt_table, pd_table, pdp_table.
  - rewrite <-(single_entry m pml4_table) by (first [done|apply lor3_u32; lia|intros; apply Hz; lia]).
    apply ld_le_ext. intros x Hx. by rewrite !ld8_st32_out by lia.
  - etransitivity; [apply ld_le_ext; intros x Hx; by rewrite ld8_st32_out by lia|].
    apply single_entry; [apply lor3_u32; lia| |done]. intros x Hx. rewrite ld8_st32_out by lia. apply Hz. lia.
  - apply single_entry; [apply lor3_u32; lia| |done]. intros x Hx. rewrite !ld8_st32_out by lia. apply Hz. lia.
  - fold pdp_table. fold pd_table. fold pt_table. rewrite ld64_halves, (Z.mul_comm 8), pt_entries_in by lia.
    rewrite ld32_zero.
    + rewrite u32_id by (apply lor3_u32; lia). lia.
    + intros x Hx. rewrite pt_entries_out by (intros; lia).
      unfold pt_table, pd_table, pdp_table in *. rewrite !ld8_st32_out by lia. apply Hz. lia.
Qed.

Lemma mem_wf_paging_ram m : mem_wf m → mem_wf (paging_ram m).
Proof.
  intros Hm. assert (Hpt : ∀ n m i, mem_wf m → mem_wf (pt_entries m i n)).
  { clear. induction n as [|n IH]; intros m i Hm; [done|]. apply IH. auto with mem. }
  apply Hpt. auto with mem.
Qed.

Lemma boot_tables_agree m1 m2 :
  (∀ x, pml4_table ≤ x < pt_table + 4096 → ld8 m1 x = ld8 m2 x) → boot_tables m2 → boot_tables m1.
Proof.
  unfold pt_table, pd_table, pdp_table. intros Ha [T1 T2 T3 T4]. unfold pt_table, pd_table, pdp_table in *.
  split; intros i Hi; unfold index in Hi.
  - rewrite <-T1 by done. apply ld_le_ext. intros x Hx. apply Ha. lia.
  - rewrite <-T2 by done. apply ld_le_ext. intros x Hx. apply Ha. lia.
  - rewrite <-T3 by done. apply ld_le_ext. intros x Hx. apply Ha. unfold pdp_table, pd_table in Hx. lia.
  - rewrite <-T4 by done. apply ld_le_ext. intros x Hx. apply Ha. unfold pt_table, pdp_table, pd_table in Hx. lia.
Qed.

(** Nothing outside the tables is touched. *)
Lemma paging_ram_out m a : a < pml4_table ∨ pt_table + 4096 ≤ a → ld8 (paging_ram m) a = ld8 m a.
Proof.
  intros Ha. unfold paging_ram. unfold pt_table, pd_table, pdp_table in *.
  rewrite pt_entries_out by (intros; unfold pt_table, pd_table, pdp_table; lia). by rewrite !ld8_st32_out by lia.
Qed.
End paging.

(** ** Entering 64-bit mode *)

Section entry.
Context `{StartImage, Processor}.

Lemma gdt_byte m i : data_loaded m → (i < 24)%nat → ld8 m (gdt64 + Z.of_nat i) = gdt64_bytes !!! i.
Proof.
  intros [Hd _] Hi. symmetry. apply list_lookup_total_correct.
  rewrite <-Hd. by apply lookup_ld_bytes.
Qed.

(** The two segments as [jmp_far] and [load_sel] see them. *)
Lemma code_segment m : data_loaded m →
  seg_access m (gdt64 + 8) = 0x98 ∧ seg_flags m (gdt64 + 8) = 2.
Proof.
  intros Hd. unfold seg_access, seg_flags.
  pose proof (gdt_byte m 13 Hd ltac:(lia)) as E1. pose proof (gdt_byte m 14 Hd ltac:(lia)) as E2.
  change (Z.of_nat 13) with 13 in E1. change (Z.of_nat 14) with 14 in E2.
  replace (gdt64 + 8 + 5) with (gdt64 + 13) by lia. replace (gdt64 + 8 + 6) with (gdt64 + 14) by lia.
  rewrite E1, E2. by vm_compute.
Qed.
Lemma data_segment m : data_loaded m → seg_access m (gdt64 + 16) = 0x92.
Proof.
  intros Hd. unfold seg_access. pose proof (gdt_byte m 21 Hd ltac:(lia)) as E1.
  change (Z.of_nat 21) with 21 in E1. replace (gdt64 + 16 + 5) with (gdt64 + 21) by lia. rewrite E1. by vm_compute.
Qed.

Lemma set_lme e : is_u64 e →
  Z.lor (Z.shiftl (u32 (e `div` 2 ^ 32)) 32) (Z.lor (u32 e) (Z.shiftl 1 8)) = Z.lor e EFER_LME.
Proof.
  intros He. unfold is_u64 in He. rewrite Z.lor_assoc. f_equal.
  assert (u32 (e `div` 2 ^ 32) = Z.shiftr e 32) as ->.
  { rewrite Z.shiftr_div_pow2 by lia. apply u32_id. unfold is_u32. split; [by apply Z.div_pos; lia|].
    apply Z.div_lt_upper_bound; lia. }
  unfold u32. rewrite <-Z.land_ones by lia. apply Z.bits_inj'. intros i Hi.
  rewrite Z.lor_spec, Z.land_spec, Z.shiftl_spec by lia. destruct (decide (i < 32)) as [Hlt|Hge].
  - rewrite Z.ones_spec_low by lia. rewrite andb_true_r, (Z.testbit_neg_r _ (i - 32)) by lia. done.
  - rewrite Z.ones_spec_high by lia. rewrite andb_false_r, orb_false_r, Z.shiftr_spec by lia. f_equal. lia.
Qed.

Lemma enable_long_mode_run s :
  data_loaded (s_ram s) → gdtr s = (23, gdt64) → Z.testbit (cr4 s) CR4_PAE = true → is_u64 (msr_efer s) →
  result enable_long_mode s =
    let v := Z.lor (cr0 s) (Z.lor (Z.shiftl 1 31) (Z.shiftl 1 0)) in
    Some (tt, s <| ecx := MSR_EFER |> <| edx := u32 (msr_efer s `div` 2 ^ 32) |> <| eax := v |> <| cr0 := v |>
                <| msr_efer := Z.lor (Z.lor (msr_efer s) EFER_LME) EFER_LMA |> <| code_sel := 8 |>).
Proof.
  destruct s as [a b c d si di sp fl c0 c3 c4 ef g cs ss sl m]. cbn [s_ram gdtr cr4 msr_efer]. intros Hd -> Hpae He.
  destruct (code_segment m Hd) as [Ea Ef].
  set (v := Z.lor c0 (Z.lor (Z.shiftl 1 31) (Z.shiftl 1 0))). cbv zeta.
  assert (Hpg : Z.testbit v CR0_PG = true) by (unfold v; rewrite !Z.lor_spec; apply orb_true_r).
  assert (Hpe : Z.testbit v CR0_PE = true) by (unfold v; rewrite !Z.lor_spec; apply orb_true_r).
  assert (Hlme : Z.testbit (Z.lor ef EFER_LME) 8 = true) by (rewrite Z.lor_spec; apply orb_true_r).
  assert (Hlma : Z.testbit (Z.lor (Z.lor ef EFER_LME) EFER_LMA) 10 = true) by (rewrite (Z.lor_spec _ EFER_LMA); apply orb_true_r).
  unfold result. exec. rewrite !Z.eqb_refl, (set_lme ef He).
  change (Z.lor c0 _) with v. change 31 with CR0_PG. change (Z.testbit v 0) with (Z.testbit v CR0_PE).
  change 5 with CR4_PAE. rewrite Hpg, Hpe, Hlme, Hpae.
  change (8 * (8 `div` 8) + 7 <=? 23) with true. cbn [negb andb]. change (8 * (8 `div` 8)) with 8.
  rewrite Ea, Ef, Hlma. reflexivity.
Qed.

(** The data selector is accepted by all five segment registers. *)
Lemma load_sel_run set s :
  data_loaded (s_ram s) → gdtr s = (23, gdt64) → u16 (eax s) = 0x10 →
  load_sel set s = Done [] tt (set 0x10 s).
Proof.
  intros Hd Hg He. pose proof (data_segment _ Hd) as Ea. unfold load_sel, selected, mbind, M_bind, get.
  cbn [bind_run]. rewrite He, Hg.
  change (8 * (0x10 `div` 8)) with 16. cbn [fst snd]. change (16 + 7 <=? 23) with true. cbv beta iota zeta.
  rewrite Ea. reflexivity.
Qed.

Lemma long_mode_start_run s :
  data_loaded (s_ram s) → gdtr s = (23, gdt64) →
  result long_mode_start s =
    Some (tt, s <| eax := eax s - u16 (eax s) + 0x10 |> <| selectors := Segs 0x10 0x10 0x10 0x10 |>
                <| stack_sel := 0x10 |> <| esp := stack_top - 8 |>
                <| s_ram := st64 (s_ram s) (stack_top - 8) (ret_of 5) |>).
Proof.
  destruct s as [a b c d si di sp fl c0 c3 c4 ef g cs ss [] m]. cbn [s_ram gdtr]. intros Hd ->.
  assert (Ha : u16 (a - u16 a + 0x10) = 0x10).
  { unfold u16. pose proof (Z.div_mod a (2 ^ 16) ltac:(done)).
    replace (a - a `mod` 2 ^ 16 + 16) with (16 + (a `div` 2 ^ 16) * 2 ^ 16) by lia. by rewrite Z.mod_add. }
  unfold result. do 5 (with_strategy opaque [load_sel] exec; rewrite load_sel_run by done). exec. reflexivity.
Qed.

Lemma seq_run {A} (m : M start unit) (f : unit → M start A) s s' r :
  result m s = Some (tt, s') → result (f tt) s' = r → result (m ≫= f) s = r.
Proof. intros Hm Hr. by rewrite result_bind, Hm. Qed.

(** The state the boot loader enters [_start] in. *)
Record at_entry (s : start) : Prop := {
  en_flags : shown (eflags s);
  en_efer : is_u64 (msr_efer s);
  en_data : data_loaded (s_ram s);
  en_bss : bss_clear (s_ram s);
}.

Lemma data_loaded_agree m1 m2 :
  (∀ a, gdt64 ≤ a < gdt64_ptr + 6 → ld8 m1 a = ld8 m2 a) → data_loaded m2 → data_loaded m1.
Proof.
  unfold data_loaded, gdt64_ptr, gdt64_end. intros Ha (H1 & H2 & H3). split_and!.
  - etransitivity; [|exact H1]. apply ld_bytes_ext. intros x Hx. apply Ha. lia.
  - etransitivity; [|exact H2]. apply ld_le_ext. intros x Hx. apply Ha. lia.
  - etransitivity; [|exact H3]. apply ld_le_ext. intros x Hx. apply Ha. lia.
Qed.

(** What [kernel_main] is called in. *)
Record at_kernel_main (s s' : start) : Prop := {
  km_args : edi s' = eax s ∧ esi s' = ebx s;
  km_stack : esp s' = stack_top - 8 ∧ ld64 (s_ram s') (esp s') = ret_of 5;
  km_sels : code_sel s' = 8 ∧ stack_sel s' = 0x10 ∧ selectors s' = Segs 0x10 0x10 0x10 0x10;
  km_flags : eflags s' = eflags s;
  km_cr0 : cr0 s' = Z.lor (cr0 s) (Z.lor (2 ^ 31) (2 ^ 0));
  km_cr4 : cr4 s' = Z.lor (cr4 s) (2 ^ 5);
  km_efer : msr_efer s' = Z.lor (msr_efer s) (Z.lor EFER_LME EFER_LMA);
  km_cr3 : cr3 s' = pml4_table;
  km_tables : boot_tables (s_ram s');
  km_ram a : (a < stack_top - 8 ∨ stack_top ≤ a) → (a < pml4_table ∨ pt_table + 4096 ≤ a) →
    ld8 (s_ram s') a = ld8 (s_ram s) a;
  km_wf : mem_wf (s_ram s) → mem_wf (s_ram s');
}.

(** The run after the checks, from an explicit state. *)
Lemma after_checks a b c d si di f c0 c3 c4 ef g cs ss sl m :
  image_ok → 0 ≤ stack_bottom → data_loaded m → is_u64 ef →
  let m1 := paging_ram (st32 m (stack_top - 4) (ret_of 3)) in
  let m2 := st32 m1 (stack_top - 4) (ret_of 4) in
  let v := Z.lor c0 (Z.lor (Z.shiftl 1 31) (Z.shiftl 1 0)) in
  let s := Start a b c d si di stack_top f c0 c3 c4 ef g cs ss sl m in
  result (call32 (ret_of 3) setup_paging ;; call32 (ret_of 4) load_gdt ;; enable_long_mode ;; long_mode_start) s =
    Some (tt, Start (v - u16 v + 0x10) b MSR_EFER (u32 (ef `div` 2 ^ 32)) si di (stack_top - 8) f v pml4_table
      (Z.lor c4 (Z.shiftl 1 5)) (Z.lor (Z.lor ef EFER_LME) EFER_LMA) (23, gdt64) 8 0x10
      (Segs 0x10 0x10 0x10 0x10) (st64 m2 (stack_top - 8) (ret_of 5))).
Proof.
  intros Hi Hsb Hd He m1 m2 v s.
  pose proof (im_bss Hi) as Hb. pose proof (im_data Hi) as [Hg0 Hg]. pose proof table_bounds as [Ht _].
  assert (Hst : u32 (stack_top - 4) = stack_top - 4 ∧ u32 (stack_top - 4 + 4) = stack_top ∧ stack_top < 2 ^ 32).
  { unfold pt_table, pd_table, pdp_table, stack_top in *. rewrite Z.sub_add, !u32_id by (unfold is_u32; lia). lia. }
  destruct Hst as (E1 & E2 & Hst).
  assert (Hd1 : data_loaded m1).
  { eapply data_loaded_agree; [|exact Hd]. intros x Hx. unfold m1. unfold stack_top in *.
    rewrite paging_ram_out by lia. apply ld8_st32_out. lia. }
  assert (Hd2 : data_loaded m2).
  { eapply data_loaded_agree; [|exact Hd1]. intros x Hx. apply ld8_st32_out. unfold stack_top in *. lia. }
  assert (R1 : result (call32 (ret_of 3) setup_paging) s = Some (tt, Start (Z.lor c4 (Z.shiftl 1 5)) b 512 0 si di
    stack_top f c0 pml4_table (Z.lor c4 (Z.shiftl 1 5)) ef g cs ss sl m1)).
  { erewrite call32_run by (by apply setup_paging_run). unfold m1, s. clearbody v. clear -E1 E2. cbn -[paging_ram].
    by rewrite !E1, E2. }
  eapply seq_run; [exact R1|]. clear R1. set (c4' := Z.lor c4 (Z.shiftl 1 5)).
  assert (R2 : result (call32 (ret_of 4) load_gdt) (Start c4' b 512 0 si di stack_top f c0 pml4_table c4' ef g cs ss sl m1) =
    Some (tt, Start c4' b 512 0 si di stack_top f c0 pml4_table c4' ef (23, gdt64) cs ss sl m2)).
  { erewrite call32_run by reflexivity. destruct Hd2 as (_ & H2 & H3). unfold gdt64_end in H2.
    replace (gdt64 + 24 - gdt64 - 1) with 23 in H2 by lia. unfold m2 in *. clearbody v c4' m1. clear -E1 E2 H2 H3. cbn.
    by rewrite !E1, E2, H2, H3. }
  eapply seq_run; [exact R2|]. clear R2.
  assert (Hpae : Z.testbit c4' CR4_PAE = true) by (unfold c4'; rewrite Z.lor_spec; apply orb_true_r).
  eapply seq_run; [by apply enable_long_mode_run|]. rewrite long_mode_start_run by done.
  cbn [cr0 msr_efer]. fold v. clearbody v c4' m2. reflexivity.
Qed.

Lemma start_run s :
  image_ok → shown popf_mask → at_entry s → Z.testbit popf_mask 21 = true → has_long_mode = true →
  is_u64 (ret_of 5) → ∃ s', result _start s = Some (tt, s') ∧ at_kernel_main s s'.
Proof.
  intros Hi Hm [Hf He Hd Hz] Hcpuid Hlong Hret. pose proof (image_nonneg Hi) as Hsb.
  pose proof (im_bss Hi) as Hb. pose proof (im_data Hi) as [Hg0 Hg]. pose proof table_bounds as [Ht _].
  unfold gdt64_ptr, gdt64_end in Hg.
  assert (Hst : 32768 ≤ stack_top < 2 ^ 32 ∧ u32 (stack_top - 4) = stack_top - 4 ∧
    stack_top ≤ pml4_table ∧ pml4_table ≤ pt_table ∧ gdt64 + 34 ≤ stack_top - 32768).
  { unfold pt_table, pd_table, pdp_table, stack_top in *. rewrite u32_id by (unfold is_u32; lia). lia. }
  clear Ht. destruct Hst as (Hst & E1 & Ht1 & Ht2 & Ht3).
  set (s1 := s <| edi := eax s |> <| esi := ebx s |> <| esp := stack_top |>).
  assert (Hs1 : esp s1 = stack_top ∧ edi s1 = eax s ∧ esi s1 = ebx s ∧ eflags s1 = eflags s ∧ cr0 s1 = cr0 s ∧
    cr4 s1 = cr4 s ∧ msr_efer s1 = msr_efer s ∧ s_ram s1 = s_ram s) by (by destruct s).
  assert (Hrun : result _start s = result (call32 (ret_of 1) check_cpuid ;; call32 (ret_of 2) check_long_mode ;;
    call32 (ret_of 3) setup_paging ;; call32 (ret_of 4) load_gdt ;; enable_long_mode ;; long_mode_start) s1).
  { do 3 (eapply seq_run; [reflexivity|]). reflexivity. }
  rewrite Hrun. clear Hrun. clearbody s1. destruct Hs1 as (Hsp & Hdi & Hsi & Hfl & Hc0 & Hc4 & Hef & Hram).
  assert (Hcall : ∀ r s, esp s = stack_top → esp (called r s) = stack_top - 4 ∧ eflags (called r s) = eflags s).
  { intros r t Ht. destruct t. cbn in *. by rewrite Ht, E1. }
  destruct (Hcall (ret_of 1) s1 Hsp) as [Hsp1 Hfl1].
  pose proof (check_cpuid_ok (called (ret_of 1) s1)) as Hc. rewrite Hcpuid, Hsp1, Hfl1, Hfl in Hc.
  destruct (Hc Hf Hm ltac:(lia)) as (t1 & R1 & S1). clear Hc.
  destruct (call32_scratch (ret_of 1) check_cpuid s1 t1 4 ltac:(lia) ltac:(lia) R1 S1) as (s2 & R2 & S2).
  pose proof (check_long_mode_ok (called (ret_of 2) s2)) as Hc. rewrite Hlong in Hc. destruct Hc as (t2 & R3 & S3).
  assert (Hsp2 : esp s2 = stack_top) by (rewrite (sc_esp _ _ _ S2); exact Hsp).
  destruct (call32_scratch (ret_of 2) check_long_mode s2 t2 0 ltac:(lia) ltac:(lia) R3 S3) as (s3 & R4 & S4).
  clear R1 S1 R3 S3 t1 t2.
  assert (Hram3 : ∀ x, x < stack_top - 8 ∨ stack_top ≤ x → ld8 (s_ram s3) x = ld8 (s_ram s) x).
  { intros x Hx. rewrite (sc_ram _ _ _ S4), (sc_ram _ _ _ S2), Hram by lia. done. }
  assert (Hd3 : data_loaded (s_ram s3)).
  { eapply data_loaded_agree; [|exact Hd]. unfold gdt64_ptr, gdt64_end. intros x Hx. apply Hram3. lia. }
  destruct S2 as [G1 G2 G3 G4 (G5 & _ & G6 & G7 & _) _ _ G8], S4 as [K1 K2 K3 K4 (K5 & _ & K6 & K7 & _) _ _ K8].
  destruct s3 as [a b c d si di sp f c0 c3 c4 ef g cs ss sl m]. cbn in *.
  assert (sp = stack_top) as -> by congruence. assert (ef = msr_efer s) as -> by congruence.
  eexists. split.
  { eapply seq_run; [exact R2|]. eapply seq_run; [exact R4|]. apply after_checks; done. }
  set (m1 := paging_ram _). set (m2 := st32 m1 _ _).
  assert (Hout : ∀ x, x < stack_top - 8 ∨ stack_top ≤ x → ld8 (st64 m2 (stack_top - 8) (ret_of 5)) x = ld8 m1 x).
  { intros x Hx. rewrite ld8_st64_out by lia. apply ld8_st32_out. lia. }
  split; cbn [edi esi esp eflags cr0 cr3 cr4 msr_efer code_sel stack_sel selectors s_ram].
  - split; congruence.
  - split; [done|]. by apply ld64_st64.
  - done.
  - congruence.
  - f_equal. congruence.
  - f_equal. congruence.
  - by rewrite Z.lor_assoc.
  - done.
  - assert (Ht : boot_tables m1).
    { apply paging_ram_tables; [done..|]. intros x Hx. rewrite ld8_st32_out by lia. rewrite Hram3 by lia. by apply Hz. }
    eapply boot_tables_agree; [|exact Ht]. intros x Hx. apply Hout. lia.
  - intros x Hx Hy. rewrite Hout by done. unfold m1. rewrite paging_ram_out by done.
    rewrite ld8_st32_out by lia. by apply Hram3.
  - intros Hw. unfold m2, m1. apply mem_wf_st64, mem_wf_st32, mem_wf_paging_ram, mem_wf_st32, K8, G8. by rewrite Hram.
Qed.

(** Runs that stop inside a sequence or a call. *)
Lemma seq_panic {A} (m : M start unit) (f : unit → M start A) s l msg s' :
  m s = Panic l msg s' → (m ≫= f) s = Panic l msg s'.
Proof. intros Hm. unfold mbind, M_bind. by rewrite Hm. Qed.
Lemma seq_later {A} (m : M start unit) (f : unit → M start A) s s1 msg s' :
  result m s = Some (tt, s1) → (∃ l, f tt s1 = Panic l msg s') → ∃ l, (m ≫= f) s = Panic l msg s'.
Proof.
  unfold result, mbind, M_bind. intros Hm [l Hf]. destruct (m s); [|done..]. injection Hm as -> ->. cbn. rewrite Hf.
  by eexists.
Qed.
Lemma call32_panic ret f s l msg s' :
  f (called ret s) = Panic l msg s' → ∃ l, call32 ret f s = Panic l msg s'.
Proof.
  intros Hf. unfold call32, push32. eapply seq_later; [apply result_modify|]. eexists. by apply seq_panic.
Qed.

(** C25: [_start] on a processor with 64-bit mode calls [kernel_main] with the
    loader's magic number and boot information as arguments, in a code segment
    of ring 0, on a fresh stack, with paging on over the tables it has built;
    EFER.SCE and the interrupt flag are as the loader left them and no other
    memory has changed.  Without [cpuid] or without 64-bit mode it stops, with
    the digit of the missing feature on the screen. *)
Theorem start_spec s :
  image_ok → shown popf_mask → at_entry s → is_u64 (ret_of 5) →
  if Z.testbit popf_mask 21 && has_long_mode
  then ∃ s', result _start s = Some (tt, s') ∧ at_kernel_main s s'
  else ∃ l s', _start s = Panic l "boot_error" s' ∧
         ld8 (s_ram s') 0xB8000 = if Z.testbit popf_mask 21 then 0x31 else 0x30.
Proof.
  intros Hi Hm Hs Hret.
  destruct (Z.testbit popf_mask 21) eqn:Hc; [destruct has_long_mode eqn:Hl; [by apply start_run|]|]; cbn [andb].
  all: destruct Hs as [Hf _ _ _]; pose proof (image_nonneg Hi) as Hsb; pose proof (im_bss Hi) as Hb;
    pose proof table_bounds as [Ht _];
    assert (Hst : 32768 ≤ stack_top < 2 ^ 32 ∧ u32 (stack_top - 4) = stack_top - 4)
      by (unfold pt_table, pd_table, pdp_table, stack_top in *; rewrite u32_id by (unfold is_u32; lia); lia);
    clear Ht; destruct Hst as (Hst & E1);
    set (s1 := s <| edi := eax s |> <| esi := ebx s |> <| esp := stack_top |>);
    assert (Hs1 : esp (called (ret_of 1) s1) = stack_top - 4 ∧ eflags (called (ret_of 1) s1) = eflags s)
      by (destruct s; cbn; by rewrite E1);
    destruct Hs1 as [Hsp Hfl];
    pose proof (check_cpuid_ok (called (ret_of 1) s1)) as Hck; rewrite Hc, Hsp, Hfl in Hck;
    specialize (Hck Hf Hm ltac:(lia)).
  - destruct Hck as (t1 & R1 & _). pose proof (call32_run (ret_of 1) check_cpuid s1 t1 R1) as R2.
    set (s2 := t1 <| esp := u32 (esp t1 + 4) |>) in R2.
    pose proof (check_long_mode_ok (called (ret_of 2) s2)) as Hlm. rewrite Hl in Hlm. destruct Hlm as (t2 & R3 & Hv).
    destruct (call32_panic _ _ _ _ _ _ R3) as [l R4].
    assert (∃ l, _start s = Panic l "boot_error" t2) as [l' Hr]; [|by exists l', t2].
    do 3 (eapply seq_later; [reflexivity|]). eapply seq_later; [exact R2|]. exists l. by apply seq_panic.
  - destruct Hck as (t1 & R1 & Hv). destruct (call32_panic _ _ _ _ _ _ R1) as [l R2].
    assert (∃ l, _start s = Panic l "boot_error" t1) as [l' Hr]; [|by exists l', t1].
    do 3 (eapply seq_later; [reflexivity|]). exists l. by apply seq_panic.
Qed.
End entry.

(** ** What the tables translate *)

Section translation.
Context `{StartImage}.

Lemma idx_field v k : 0 ≤ k → Z.land (Z.shiftr v k) 0x1FF = (v `div` 2 ^ k) `mod` 512.
Proof. intros Hk. change 0x1FF with (Z.ones 9). by rewrite Z.land_ones, Z.shiftr_div_pow2 by lia. Qed.

Lemma idx_small v k n : 0 ≤ k → 0 ≤ v < 2 ^ (k + n) → 0 ≤ n ≤ 9 → Z.land (Z.shiftr v k) 0x1FF = v `div` 2 ^ k.
Proof.
  intros Hk Hv Hn. rewrite idx_field by done. apply Z.mod_small. split; [apply Z.div_pos; lia|].
  apply Z.div_lt_upper_bound; [lia|]. rewrite Z.pow_add_r in Hv by lia.
  pose proof (Z.pow_le_mono_r 2 n 9 ltac:(lia) ltac:(lia)). change (2 ^ 9) with 512 in *. nia.
Qed.

(** An entry of the loader's form. *)
Lemma entry_lor3 t : t `mod` 4096 = 0 → 0 ≤ t < 2 ^ 52 → present (Z.lor t 3) = true ∧ PTE_PHYS (Z.lor t 3) = t.
Proof.
  intros Ha Ht. split; [rewrite present_testbit, Z.lor_spec; apply orb_true_r|].
  rewrite PTE_PHYS_lor. rewrite (PTE_PHYS_low 3), Z.lor_0_r by done. apply PTE_PHYS_table.
  split; [done|]. split; [lia|]. pose proof (Z.div_mod t 4096). lia.
Qed.

Lemma boot_entries s :
  image_ok → boot_tables (v_mem s) →
  (∀ i, index i → tbl_get s pml4_table i = if i =? 0 then Z.lor pdp_table 3 else 0) ∧
  (∀ i, index i → tbl_get s pdp_table i = if i =? 0 then Z.lor pd_table 3 else 0) ∧
  (∀ i, index i → tbl_get s pd_table i = if i =? 0 then Z.lor pt_table 3 else 0) ∧
  (∀ i, index i → tbl_get s pt_table i = Z.lor (4096 * i) 3) ∧
  (∀ t, t = pdp_table ∨ t = pd_table ∨ t = pt_table → present (Z.lor t 3) = true ∧ PTE_PHYS (Z.lor t 3) = t).
Proof.
  intros Hi [T1 T2 T3 T4]. split_and!; try done.
  pose proof (im_bss Hi) as Hb. pose proof (image_nonneg Hi) as Hsb. pose proof table_bounds as [Ht Hal].
  unfold pt_table, pd_table, pdp_table, stack_top in *. intros t Ht'. apply entry_lor3; [|lia].
  pose proof (Z.div_mod pml4_table 4096). 
  destruct Ht' as [->|[->| ->]]; rewrite ?(Z.add_mod _ 4096), ?Hal by done; done.
Qed.

Lemma boot_resolve s v :
  image_ok → boot_tables (v_mem s) → 0 ≤ v < 2 ^ 48 →
  vmm_resolve s pml4_table v = if v <? 2 ^ 21 then v else 0.
Proof.
  intros Hi Hbt Hv. destruct (boot_entries s Hi Hbt) as (T1 & T2 & T3 & T4 & Hp).
  pose proof (Hp pdp_table ltac:(auto)) as [P1 A1]. pose proof (Hp pd_table ltac:(auto)) as [P2 A2].
  pose proof (Hp pt_table ltac:(auto)) as [P3 A3].
  assert (Hz : present 0 = false) by done.
  assert (Hq : ∀ k, 21 ≤ k → v `div` 2 ^ k = 0 ∧ v < 2 ^ k ∨ v `div` 2 ^ k ≠ 0 ∧ (v <? 2 ^ 21) = false).
  { intros k Hk. pose proof (Z.pow_le_mono_r 2 21 k ltac:(lia) Hk). destruct (decide (v < 2 ^ k)).
    - left. split; [apply Z.div_small; lia|done].
    - right. split; [|lia]. pose proof (Z.div_le_lower_bound v (2 ^ k) 1 ltac:(lia) ltac:(lia)). lia. }
  unfold vmm_resolve, PML4_IDX, PDP_IDX, PD_IDX, PT_IDX.
  rewrite T1, (idx_small v 39 9) by (lia || apply idx_range).
  destruct (Hq 39 ltac:(lia)) as [[-> Hlt]|[E ->]]; [|apply Z.eqb_neq in E as ->; by rewrite Hz].
  cbn [Z.eqb]. rewrite P1, A1, T2, (idx_small v 30 9) by (lia || apply idx_range). cbn [negb].
  destruct (Hq 30 ltac:(lia)) as [[-> Hlt2]|[E ->]]; [|apply Z.eqb_neq in E as ->; by rewrite Hz].
  cbn [Z.eqb]. rewrite P2, A2, T3, (idx_small v 21 9) by (lia || apply idx_range). cbn [negb].
  destruct (Hq 21 ltac:(lia)) as [[-> Hlt3]|[E ->]]; [|apply Z.eqb_neq in E as ->; by rewrite Hz].
  cbn [Z.eqb]. rewrite P3, A3, T4, (idx_small v 12 9) by (lia || apply idx_range). cbn [negb].
  change (2 ^ 12) with 4096.
  assert (Hpg : (4096 * (v `div` 4096)) `mod` 4096 = 0) by (rewrite Z.mul_comm; by apply Z.mod_mul).
  pose proof (Z.div_mod v 4096 ltac:(done)) as Hdm. pose proof (Z.mod_pos_bound v 4096 ltac:(done)).
  destruct (entry_lor3 _ Hpg) as [-> ->]; [lia|]. cbn [negb]. rewrite lor_offset by done.
  assert ((v <? 2 ^ 21) = true) as -> by lia. lia.
Qed.

Definition boot_own : gmap Z (list Z) :=
  <[pml4_table := []]> (<[pdp_table := [0]]> (<[pd_table := [0; 0]]> (<[pt_table := [0; 0; 0]]> ∅))).

Lemma boot_own_lookup t path :
  boot_own !! t = Some path ↔
  (t = pml4_table ∧ path = []) ∨ (t = pdp_table ∧ path = [0]) ∨ (t = pd_table ∧ path = [0; 0]) ∨
  (t = pt_table ∧ path = [0; 0; 0]).
Proof.
  unfold boot_own, pt_table, pd_table, pdp_table. rewrite !lookup_insert_Some, lookup_empty. split.
  - intros [[<- <-]|[_ [[<- <-]|[_ [[<- <-]|[_ [[<- <-]|[_ ?]]]]]]]]; naive_solver.
  - intros [[-> ->]|[[-> ->]|[[-> ->]|[-> ->]]]]; [left; done|right; split; [lia|]; left; done| |];
      repeat (right; split; [lia|]); left; done.
Qed.

(** The page allocator and the table pool at that time: they have nothing of
    the tables, and free frames hold no entries. *)
Record vmm_ready `{Link} (s : vmm) : Prop := {
  vr_pool : table_addr pt_pool ∧ table_addr (pt_pool + POOL_SIZE) ∧
    0 ≤ pt_pool_used s ≤ POOL_SIZE ∧ pt_pool_used s `mod` 4096 = 0;
  vr_apart : pt_pool + POOL_SIZE ≤ pml4_table ∨ pt_table + 4096 ≤ pt_pool;
  vr_frames : fa_inv (v_pmm s);
  vr_frame a : fa_frame (v_pmm s) a → table_addr a ∧ pt_table + 4096 ≤ a ∧ pt_pool + POOL_SIZE ≤ a;
  vr_clear a i : fa_frame (v_pmm s) a → ¬ fa_taken (v_pmm s) a → index i → present (tbl_get s a i) = false;
}.

Lemma boot_pt_wf `{Link} s :
  image_ok → boot_tables (v_mem s) → vmm_ready s → pt_wf s pml4_table boot_own.
Proof.
  intros Hi Hbt [Hpool Hap Hfa Hfr Hcl]. destruct (boot_entries s Hi Hbt) as (T1 & T2 & T3 & T4 & Hp).
  pose proof (Hp pdp_table ltac:(auto)) as [P1 A1]. pose proof (Hp pd_table ltac:(auto)) as [P2 A2].
  pose proof (Hp pt_table ltac:(auto)) as [P3 A3].
  pose proof (im_bss Hi) as Hb. pose proof (image_nonneg Hi) as Hsb. pose proof table_bounds as [Ht Hal].
  assert (H00 : index 0) by (unfold index; lia).
  assert (Hz : present 0 = false) by done.
  assert (Hrange : ∀ t π, boot_own !! t = Some π → pml4_table ≤ t ≤ pt_table ∧ t `mod` 4096 = 0).
  { intros t π. rewrite boot_own_lookup. pose proof (Z.div_mod pml4_table 4096).
    unfold pt_table, pd_table, pdp_table.
    intros [[-> _]|[[-> _]|[[-> _]|[-> _]]]]; rewrite ?(Z.add_mod _ 4096), ?Hal by done; (split; [lia|done]). }
  split; try done.
  - apply boot_own_lookup. auto.
  - intros t π [Hr Hm]%Hrange. unfold stack_top in *. split; [done|lia].
  - intros t π i Hl Hlen Hix Hpr. apply boot_own_lookup. apply boot_own_lookup in Hl.
    destruct Hl as [[-> ->]|[[-> ->]|[[-> ->]|[-> ->]]]]; cbn [length] in Hlen; [..|lia].
    + rewrite T1 in * by done. destruct (Z.eqb_spec i 0) as [->|]; [rewrite A1; auto|by rewrite Hz in Hpr].
    + rewrite T2 in * by done. destruct (Z.eqb_spec i 0) as [->|]; [rewrite A2; auto|by rewrite Hz in Hpr].
    + rewrite T3 in * by done. destruct (Z.eqb_spec i 0) as [->|]; [rewrite A3; auto|by rewrite Hz in Hpr].
  - intros t π Hl. apply boot_own_lookup in Hl.
    destruct Hl as [[-> ->]|[[-> ->]|[[-> ->]|[-> ->]]]]; cbn [walk length];
      rewrite ?T1 by done; cbn [Z.eqb]; rewrite ?P1, ?A1, ?T2 by done; cbn [Z.eqb];
      rewrite ?P2, ?A2, ?T3 by done; cbn [Z.eqb]; rewrite ?P3, ?A3;
      (split_and!; [done|by repeat constructor|lia]).
  - intros t π [Hr _]%Hrange [Hf|[Hf _]]; [|apply Hfr in Hf; lia].
    unfold POOL_SIZE, PAGE_SIZE in *. destruct Hpool as (_ & _ & Hu & _). lia.
  - intros a Ha%Hfr. split; [tauto|]. right. tauto.
Qed.
End translation.

Section composed.
Context `{StartImage, Processor, Link}.


End composed.

(** ** Witnesses *)

#[local] Instance demo_image : StartImage := {| stack_bottom := 0x130000; gdt64 := 0x12F000; ret_of n := 0x101000 + 16 * n |}.
#[local] Instance demo_processor : Processor := {|
  cpuid leaf := if leaf =? 0x80000000 then (0x80000008, 0, 0, 0) else (0, 0, 0, 2 ^ 29);
  popf_mask := 0x247FD5;
|}.
#[local] Existing Instance demo_link.

(** Memory with the image, and the state GRUB leaves. *)
Definition demo_image_ram : mem :=
  st_bytes demo_mem gdt64 (gdt64_bytes ++ le_bytes 2 23 ++ le_bytes 4 gdt64).
Definition demo_entry : start :=
  Start 0x36D76289 0x9000 0 0 0 0 0 0x2 0x11 0 0 0 (0, 0) 0x10 0x18 (Segs 0x18 0x18 0x18 0x18) demo_image_ram.

Lemma demo_image_ram_out a : a < 0x12F000 ∨ 0x12F01E ≤ a → ld8 demo_image_ram a = ld8 demo_mem a.
Proof.
  intros Ha. unfold demo_image_ram. apply ld8_st_bytes_out.
  assert (Hlen : Z.of_nat (length (gdt64_bytes ++ le_bytes 2 23 ++ le_bytes 4 gdt64)) = 30) by (by vm_compute).
  rewrite Hlen. change gdt64 with 0x12F000. lia.
Qed.
Lemma demo_mem_out a : 0x9048 ≤ a → ld8 demo_mem a = 0.
Proof.
  intros Ha. unfold demo_mem. rewrite ld8_st_bytes_out; [done|].
  assert (Hlen : Z.of_nat (length demo_info) = 72) by (by vm_compute). rewrite Hlen. lia.
Qed.

Lemma demo_image_ok : image_ok.
Proof. split; [split; by vm_compute|by vm_compute]. Qed.

Lemma demo_at_entry : at_entry demo_entry.
Proof.
  split; [by vm_compute|done| |].
  - split_and!; by vm_compute.
  - intros a Ha. cbn [demo_entry s_ram]. assert (pml4_table = 0x138000) as Hp by (by vm_compute). rewrite Hp in Ha.
    rewrite demo_image_ram_out by lia. apply demo_mem_out. lia.
Qed.

Lemma demo_shown : shown popf_mask.
Proof. by vm_compute. Qed.
Lemma demo_return_u64 : is_u64 (ret_of 5).
Proof. done. Qed.

Lemma start_spec_witness :
  ∃ s', result _start demo_entry = Some (tt, s') ∧ at_kernel_main demo_entry s'.
Proof. exact (start_spec demo_entry demo_image_ok demo_shown demo_at_entry demo_return_u64). Defined.

(** The page allocator with the four frames of file Vmm. *)
Lemma demo_vmm_ready s1 : at_kernel_main demo_entry s1 → vmm_ready (Vmm (s_ram s1) pmm_demo 0 0).
Proof.
  intros Hk. pose proof pmm_demo_frame as Hf. pose proof pmm_demo_inv as Hi.
  assert (Hp : pml4_table = 0x138000 ∧ pt_table = 0x13B000 ∧ stack_top = 0x138000) by (by vm_compute).
  destruct Hp as (Hp1 & Hp2 & Hp3). pose proof (km_ram _ _ Hk) as Hram. rewrite Hp1, Hp2, Hp3 in Hram.
  revert Hf Hi. generalize pmm_demo. intros p Hf Hi. split; cbn [v_mem v_pmm pt_pool_used].
  - by split_and!.
  - right. rewrite Hp2. done.
  - done.
  - intros a Ha%Hf. rewrite Hp2. unfold table_addr, pt_pool, demo_link, POOL_SIZE, PAGE_SIZE. lia.
  - intros a i Ha%Hf _ Hix. unfold index in Hix. unfold tbl_get. cbn [v_mem].
    assert (ld64 (s_ram s1) (a + 8 * i) = ld64 ∅ (a + 8 * i)) as ->; [|done].
    apply ld_le_ext. intros x Hx. rewrite Hram by lia. cbn [demo_entry s_ram].
    rewrite demo_image_ram_out by lia. apply demo_mem_out. lia.
Qed.


Lemma demo_entry_ready : boot_ready (s_ram demo_entry) (ebx demo_entry) demo_tags.
Proof.
  destruct demo_ready as [Hi Hw Ha Hm]. cbn [demo_entry s_ram ebx].
  assert (E1 : total_size demo_mem 0x9000 = 72) by (by vm_compute).
  assert (Hsame : same_file 0x9000 (total_size demo_mem 0x9000) demo_mem demo_image_ram).
  { intros a Hx. apply demo_image_ram_out. rewrite E1 in Hx. lia. }
  assert (E2 : total_size demo_image_ram 0x9000 = total_size demo_mem 0x9000).
  { apply (same_file_ld _ _ _ _ _ 4 Hsame); rewrite ?E1; lia. }
  split; [by eapply boot_info_same|by apply mem_wf_st_bytes|by rewrite E2|done].
Qed.

Lemma demo_info_apart a :
  ebx demo_entry ≤ a < ebx demo_entry + total_size (s_ram demo_entry) (ebx demo_entry) →
  (a < stack_top - 8 ∨ stack_top ≤ a) ∧ (a < pml4_table ∨ pt_table + 4096 ≤ a).
Proof.
  assert (E : total_size (s_ram demo_entry) (ebx demo_entry) = 72 ∧ ebx demo_entry = 0x9000 ∧
    pml4_table = 0x138000 ∧ stack_top = 0x138000) by (by vm_compute).
  destruct E as (-> & -> & -> & ->). lia.
Qed.

#[local] Existing Instance demo_boot_link.

