(* ===== verification/X86.v ===== *)
(** * X86: the inline assembly of include/arch/x86_64.h

    The functions through which the C code reaches the processor, instruction by
    instruction on the machine of file Cpu, extended by the registers that only
    these functions name.  The kernel's files use them through coarser
    operations: the interrupt flag is a boolean there (file Kernel), and the TLB
    sees events (file Tlb).  The theorems relate the two. *)

From S2P Require Import Prelude Effects Memory Types Interfaces Pmm Vmm Tlb Arch Kernel Trap Cpu Context Layout.

(** ** Registers *)

Record x86 := X86 {
  core : cpu;          (** general registers, RFLAGS, CR3, EFER, memory *)
  cr0 : Z;
  cr2 : Z;
  cr4 : Z;
  msrs : gmap Z Z;     (** the model-specific registers, but for EFER *)
  tsc : Z;             (** the time-stamp counter *)
}.
#[export] Instance eta_x86 : Eta x86 := λ x, X86 (core x) (cr0 x) (cr2 x) (cr4 x) (msrs x) (tsc x).

Definition in_core (f : cpu → cpu) : M x86 unit := modify (λ x, x <| core := f (core x) |>).
Definition rd (r : reg) : M x86 Z := gets (λ x, greg r (core x)).
Definition wr (r : reg) (v : Z) : M x86 unit := in_core (set_reg r v).

(** Which values of a control register or a model-specific register the
    processor takes, and what it stores; any other is a general protection
    fault. *)
Class Processor := {
  cr_write : Z → Z → option Z;
  msr_write : Z → Z → option Z;
}.

Definition gp {A} : M x86 A := λ x, Panic [] "#GP" x.
Definition privileged : M x86 unit := c ← gets (λ x, cpl (core x)) ; if c =? 0 then mret tt else gp.

(** *** RFLAGS *)

Definition RFLAGS_CF : Z := BIT 0.
Definition RFLAGS_PF : Z := BIT 2.
Definition RFLAGS_AF : Z := BIT 4.
Definition RFLAGS_ZF : Z := BIT 6.
Definition RFLAGS_SF : Z := BIT 7.
Definition RFLAGS_DF : Z := BIT 10.
Definition RFLAGS_OF : Z := BIT 11.
Definition RFLAGS_IOPL : Z := Z.lor (BIT 12) (BIT 13).

(** What [popfq] sets at privilege level 0: all but the reserved bits, RF, VM,
    VIF and VIP.  Bits 18 and 21 are AC and ID. *)
Definition popf_bits : Z :=
  foldr Z.lor 0 [RFLAGS_CF; RFLAGS_PF; RFLAGS_AF; RFLAGS_ZF; RFLAGS_SF; RFLAGS_TF; RFLAGS_IF; RFLAGS_DF; RFLAGS_OF;
                 RFLAGS_IOPL; RFLAGS_NT; BIT 18; BIT 21].

(** ** Instructions *)

Definition popq (r : reg) : M x86 unit := in_core (λ c, set_reg r (top c) (drop_word c)).
Definition pushq (r : reg) : M x86 unit := in_core (λ c, push (greg r c) c).
(** VM and RF are pushed as 0. *)
Definition pushfq : M x86 unit := in_core (λ c, push (Z.land (fl c) 0xFCFFFF) c).
Definition popfq : M x86 unit :=
  privileged ;;
  in_core (λ c, (drop_word c) <| fl :=
    Z.lor (Z.land (Z.land (fl c) (Z.lnot RFLAGS_RF)) (Z.lnot popf_bits)) (Z.land (top c) popf_bits) |>).

Definition get_msr (m : Z) (x : x86) : option Z := if m =? MSR_EFER then Some (efer (core x)) else msrs x !! m.
Definition set_msr (m v : Z) (x : x86) : x86 :=
  if m =? MSR_EFER then x <| core := (core x) <| efer := v |> |> else x <| msrs := <[m := v]> (msrs x) |>.

(** The 64-bit value in edx:eax. *)
Definition wrmsr_insn `{Processor} : M x86 unit :=
  privileged ;;
  c ← rd RCX ; a ← rd RAX ; d ← rd RDX ;
  match msr_write (u32 c) (2 ^ 32 * u32 d + u32 a) with
  | Some v => modify (set_msr (u32 c) v)
  | None => gp
  end.
Definition to_edx_eax (v : Z) : M x86 unit := wr RAX (u32 v) ;; wr RDX (u32 (Z.shiftr v 32)).
Definition rdmsr_insn : M x86 unit :=
  privileged ;;
  c ← rd RCX ;
  v ← gets (get_msr (u32 c)) ;
  match v with Some v => to_edx_eax v | None => gp end.

(** ** The functions

    An operand that the compiler may keep in any register is an argument [r];
    it is never the stack pointer. *)

Section functions.
Context `{Processor}.

Definition read_cr0 : M x86 Z := privileged ;; gets cr0.
Definition read_cr2 : M x86 Z := privileged ;; gets cr2.
Definition read_cr3 : M x86 Z := privileged ;; gets (λ x, page_root (core x)).
Definition read_cr4 : M x86 Z := privileged ;; gets cr4.

Definition write_cr (n v : Z) (f : Z → x86 → x86) : M x86 unit :=
  privileged ;;
  match cr_write n v with Some v => modify (f v) | None => gp end.
Definition write_cr0 (v : Z) : M x86 unit := write_cr 0 v (λ v x, x <| cr0 := v |>).
Definition write_cr3 (v : Z) : M x86 unit :=
  write_cr 3 v (λ v x, x <| core := (core x) <| page_root := v |> |>) ;;
  instruction (WriteCr3 v).
Definition write_cr4 (v : Z) : M x86 unit := write_cr 4 v (λ v x, x <| cr4 := v |>).

Definition rdmsr (msr : Z) : M x86 Z :=
  wr RCX (u32 msr) ;;
  rdmsr_insn ;;
  lo ← rd RAX ; hi ← rd RDX ;
  mret (Z.lor (u64 (Z.shiftl (u32 hi) 32)) (u32 lo)).
Definition wrmsr (msr val : Z) : M x86 unit :=
  wr RCX (u32 msr) ;;
  wr RAX (u32 val) ;;
  wr RDX (u32 (Z.shiftr val 32)) ;;
  wrmsr_insn.

Definition cli : M x86 unit :=
  privileged ;; instruction Cli ;; in_core (λ c, c <| fl := Z.land (fl c) (Z.lnot RFLAGS_IF) |>).
Definition sti : M x86 unit :=
  privileged ;; instruction Sti ;; in_core (λ c, c <| fl := Z.lor (fl c) RFLAGS_IF |>).
Definition hlt : M x86 unit := privileged ;; instruction Hlt.

Definition save_flags (r : reg) : M x86 Z := pushfq ;; popq r ;; rd r.
Definition restore_flags (r : reg) (f : Z) : M x86 unit := wr r f ;; pushq r ;; popfq.

Definition tlb_flush_all : M x86 unit := v ← read_cr3 ; write_cr3 v.
Definition tlb_flush (addr : Z) : M x86 unit := privileged ;; instruction (Invlpg addr).

(** The counter advances between two reads; by how much is not said. *)
Definition rdtsc_insn : M x86 unit := t ← gets tsc ; to_edx_eax t.
Definition rdtsc : M x86 Z :=
  rdtsc_insn ;;
  lo ← rd RAX ; hi ← rd RDX ;
  mret (Z.lor (u64 (Z.shiftl (u32 hi) 32)) (u32 lo)).

(** The instructions read the ten bytes of a [gdtr_t] or [idtr_t]. *)
Definition lgdt (p : Z) : M x86 unit :=
  privileged ;; m ← gets (λ x, ram (core x)) ; instruction (Lgdt (ld16 m p) (ld64 m (p + 2))).
Definition lidt (p : Z) : M x86 unit :=
  privileged ;; m ← gets (λ x, ram (core x)) ; instruction (Lidt (ld16 m p) (ld64 m (p + 2))).
Definition ltr (sel : Z) : M x86 unit := privileged ;; instruction (Ltr (u16 sel)).
End functions.

(** ** The stack of [save_flags] and [restore_flags] *)

(** Only register [r] and the eight bytes below the stack pointer are touched. *)
Record touches (r : reg) (x x' : x86) : Prop := {
  t_regs r' : r' ≠ r → greg r' (core x') = greg r' (core x);
  t_ram a : a < greg RSP (core x) - 8 ∨ greg RSP (core x) ≤ a → ld8 (ram (core x')) a = ld8 (ram (core x)) a;
  t_cpl : cpl (core x') = cpl (core x);
  t_cr3 : page_root (core x') = page_root (core x);
}.

Definition stack_ok (c : cpu) : Prop := 8 ≤ greg RSP c < 2 ^ 64.

Lemma top_push v c : is_u64 v → top (push v c) = v.
Proof.
  intros Hv. unfold top. assert (greg RSP (push v c) = u64 (greg RSP c - 8)) as -> by exact (getr_setr_eq RSP _ _).
  by apply ld64_st64.
Qed.

Lemma drop_push v c : stack_ok c → drop_word (push v c) = c <| ram := st64 (ram c) (greg RSP c - 8) v |>.
Proof.
  unfold stack_ok. intros Hs. unfold drop_word. rewrite greg_push_rsp by done.
  replace (greg RSP c - 8 + 8) with (greg RSP c) by lia. rewrite u64_id by (unfold is_u64; lia).
  unfold push. rewrite (u64_id (greg RSP c - 8)) by (unfold is_u64; lia).
  unfold set_reg, greg. destruct c as [g a f cs ss d l p e m]. cbn [gpr ram setter eta_expand eta_cpu].
  by rewrite setr_setr, setr_getr.
Qed.

Lemma shown_u64 f : is_u64 (Z.land f 0xFCFFFF).
Proof.
  assert (0 ≤ Z.land f 0xFCFFFF < 2 ^ 24); [|unfold is_u64; lia]. change 0xFCFFFF with (Z.land 0xFCFFFF (Z.ones 24)).
  rewrite Z.land_assoc, Z.land_ones by done. by apply Z.mod_pos_bound.
Qed.

(** The state after [save_flags]: the copy is in [r], and below the stack pointer. *)
Definition saved (r : reg) (x : x86) : x86 :=
  let c := core x in let f := Z.land (fl c) 0xFCFFFF in
  x <| core := set_reg r f (c <| ram := st64 (ram c) (greg RSP c - 8) f |>) |>.

Lemma save_flags_run r x :
  stack_ok (core x) → save_flags r x = Done [] (Z.land (fl (core x)) 0xFCFFFF) (saved r x).
Proof.
  intros Hs. destruct x as [c c0 c2 c4 ms t]. unfold save_flags, pushfq, popq, rd, in_core, mbind, M_bind, modify, gets.
  cbn [bind_run prepend core setter app eta_expand eta_x86].
  rewrite top_push, drop_push by (done || apply shown_u64).
  f_equal. exact (getr_setr_eq r _ _).
Qed.

(** The state after [restore_flags]. *)
Definition flags_set (f old : Z) : Z :=
  Z.lor (Z.land (Z.land old (Z.lnot RFLAGS_RF)) (Z.lnot popf_bits)) (Z.land f popf_bits).
Definition restored (r : reg) (f : Z) (x : x86) : x86 :=
  let c := set_reg r f (core x) in
  x <| core := c <| ram := st64 (ram c) (greg RSP c - 8) f |> <| fl := flags_set f (fl c) |> |>.

Lemma restore_flags_run r f x :
  r ≠ RSP → stack_ok (core x) → cpl (core x) = 0 → is_u64 f →
  restore_flags r f x = Done [] tt (restored r f x).
Proof.
  intros Hr Hs Hp Hf. destruct x as [c c0 c2 c4 ms t]. cbn [core] in *.
  unfold restore_flags, popfq, pushq, privileged, wr, in_core, mbind, M_bind, modify, gets.
  cbn [bind_run prepend core setter app eta_expand eta_x86].
  change (cpl (push _ _)) with (cpl c). rewrite Hp. cbn [Z.eqb mret M_ret bind_run prepend core setter app].
  assert (greg r (set_reg r f c) = f) as -> by exact (getr_setr_eq r _ _).
  rewrite top_push, drop_push.
  - reflexivity.
  - unfold stack_ok, greg, set_reg. cbn [gpr setter]. by rewrite getr_setr_ne.
  - done.
Qed.

Lemma flags_set_bit f old i : 0 ≤ i →
  Z.testbit (flags_set f old) i = if Z.testbit popf_bits i then Z.testbit f i else negb (bool_decide (i = 16)) && Z.testbit old i.
Proof.
  intros Hi. unfold flags_set. rewrite Z.lor_spec, !Z.land_spec, !Z.lnot_spec by done.
  assert (Z.testbit RFLAGS_RF i = bool_decide (i = 16)) as -> by (by apply BIT_bits).
  destruct (Z.testbit popf_bits i), (Z.testbit f i), (Z.testbit old i), (bool_decide (i = 16)); done.
Qed.

(** Every flag that [popfq] sets is among those that [pushfq] shows. *)
Lemma popf_shown : Z.land popf_bits 0xFCFFFF = popf_bits.
Proof. by vm_compute. Qed.

(** Flags saved and restored are as before, and RF is clear. *)
Lemma flags_set_saved f old i : 0 ≤ i → Z.testbit popf_bits i = true →
  Z.testbit (flags_set (Z.land f 0xFCFFFF) old) i = Z.testbit f i.
Proof.
  intros Hi Hp. rewrite flags_set_bit, Hp, Z.land_spec by done.
  rewrite <- popf_shown, Z.land_spec in Hp. apply andb_prop in Hp as [_ ->]. apply andb_true_r.
Qed.

Lemma restored_touches r f x : r ≠ RSP → stack_ok (core x) → touches r x (restored r f x).
Proof.
  intros Hr Hs. destruct x as [c c0 c2 c4 ms t]. unfold stack_ok in *. cbn [core] in *. split.
  - intros r' Hr'. exact (getr_setr_ne r r' _ _ (not_eq_sym Hr')).
  - intros a Ha. unfold restored. cbn [core setter eta_expand eta_x86].
    assert (greg RSP (set_reg r f c) = greg RSP c) as E by exact (getr_setr_ne r RSP _ _ Hr).
    cbn [ram setter]. rewrite E. cbn [core] in Ha. apply ld8_st64_out. lia.
  - done.
  - done.
Qed.

Lemma saved_touches r x : touches r x (saved r x).
Proof.
  destruct x as [c c0 c2 c4 ms t]. split.
  - intros r' Hr'. exact (getr_setr_ne r r' _ _ (not_eq_sym Hr')).
  - intros a Ha. cbn [core] in *. apply (ld8_st64_out (ram c) (greg RSP c - 8) (Z.land (fl c) 0xFCFFFF) a). lia.
  - done.
  - done.
Qed.

(** ** The interrupt flag of file Kernel

    There the flag is a boolean and so is what [save_flags] returns. *)

Definition irq_enabled (f : Z) : bool := TEST_BIT f 9.
Record flag_sim (x : x86) (s : kernel) : Prop := {
  fs_cpl : cpl (core x) = 0;
  fs_stack : stack_ok (core x);
  fs_if : irq_enabled (fl (core x)) = k_if s;
}.

Lemma irq_enabled_bit f : irq_enabled f = Z.testbit f 9.
Proof. by apply TEST_BIT_testbit. Qed.

Lemma cli_run x : cpl (core x) = 0 →
  cli x = Done [EvInstr Cli] tt (x <| core := (core x) <| fl := Z.land (fl (core x)) (Z.lnot RFLAGS_IF) |> |>).
Proof.
  intros Hp. unfold cli, privileged, mbind, M_bind, gets. cbn [bind_run prepend app]. by rewrite Hp.
Qed.
Lemma sti_run x : cpl (core x) = 0 →
  sti x = Done [EvInstr Sti] tt (x <| core := (core x) <| fl := Z.lor (fl (core x)) RFLAGS_IF |> |>).
Proof.
  intros Hp. unfold sti, privileged, mbind, M_bind, gets. cbn [bind_run prepend app]. by rewrite Hp.
Qed.

Lemma irq_enabled_cli f : irq_enabled (Z.land f (Z.lnot RFLAGS_IF)) = false.
Proof. rewrite irq_enabled_bit, Z.land_spec, Z.lnot_spec by done. apply andb_false_r. Qed.
Lemma irq_enabled_sti f : irq_enabled (Z.lor f RFLAGS_IF) = true.
Proof. rewrite irq_enabled_bit, Z.lor_spec. apply orb_true_r. Qed.
Lemma irq_enabled_saved f : irq_enabled (Z.land f 0xFCFFFF) = irq_enabled f.
Proof. rewrite !irq_enabled_bit, Z.land_spec. apply andb_true_r. Qed.
Lemma irq_enabled_set f old : irq_enabled (flags_set f old) = irq_enabled f.
Proof. rewrite !irq_enabled_bit, flags_set_bit by done. done. Qed.

(** C31: the interrupt flag as the kernel's files model it is what the inline
    assembly does to RFLAGS: [save_flags] returns a word whose bit 9 is the flag
    and changes nothing but a scratch register and the word below the stack
    pointer; [cli] and [sti] clear and set it; and [restore_flags], of any word,
    whatever its other bits, sets the flag to bit 9 of that word.  So the kernel
    functions may pass a boolean where the C code passes 64 bits. *)
Theorem irq_flag_refines r x s :
  r ≠ RSP → flag_sim x s →
  (∃ f b x', save_flags r x = Done [] f x' ∧ Kernel.save_flags s = Done [] b s ∧ is_u64 f ∧ irq_enabled f = b ∧
     flag_sim x' s ∧ touches r x x' ∧ fl (core x') = fl (core x)) ∧
  (∃ x' s', cli x = Done [EvInstr Cli] tt x' ∧ Kernel.cli s = Done [EvInstr Cli] tt s' ∧ flag_sim x' s') ∧
  (∃ x' s', sti x = Done [EvInstr Sti] tt x' ∧ Kernel.sti s = Done [EvInstr Sti] tt s' ∧ flag_sim x' s') ∧
  (∀ f, is_u64 f → ∃ x' s', restore_flags r f x = Done [] tt x' ∧
     Kernel.restore_flags (irq_enabled f) s = Done [] tt s' ∧ flag_sim x' s' ∧ touches r x x').
Proof.
  intros Hr [Hp Hs Hi]. assert (∀ v m, stack_ok ((set_reg r v (core x)) <| ram := m |>)) as Hk.
  { intros v m. unfold stack_ok.
    assert (greg RSP ((set_reg r v (core x)) <| ram := m |>) = greg RSP (core x)) as -> by exact (getr_setr_ne r RSP _ _ Hr).
    exact Hs. }
  split_and!.
  - eexists _, _, _. split; [by apply save_flags_run|]. split; [done|]. split; [apply shown_u64|].
    split; [by rewrite irq_enabled_saved|]. split; [|split; [apply saved_touches|done]].
    split; [exact Hp|apply Hk|exact Hi].
  - eexists _, _. split; [by apply cli_run|]. split; [done|]. split; [exact Hp|exact Hs|exact (irq_enabled_cli _)].
  - eexists _, _. split; [by apply sti_run|]. split; [done|]. split; [exact Hp|exact Hs|exact (irq_enabled_sti _)].
  - intros f Hf. eexists _, _. split; [by apply restore_flags_run|]. split; [done|].
    split; [|by apply restored_touches]. split; [exact Hp|apply Hk|exact (irq_enabled_set _ _)].
Qed.

(** ** Critical sections

    The bracket of ipc.c: [flags = save_flags(); cli(); ... restore_flags(flags);]. *)
Definition critical {A} (r r' : reg) (body : M x86 A) : M x86 A :=
  f ← save_flags r ; cli ;; a ← body ; restore_flags r' f ;; mret a.

(** Where the body starts. *)
Definition section_start (r : reg) (x : x86) : x86 :=
  let x := saved r x in x <| core := (core x) <| fl := Z.land (fl (core x)) (Z.lnot RFLAGS_IF) |> |>.

Lemma critical_run {A} r r' (body : M x86 A) x l a x2 :
  r' ≠ RSP → stack_ok (core x) → cpl (core x) = 0 →
  body (section_start r x) = Done l a x2 → cpl (core x2) = 0 → stack_ok (core x2) →
  critical r r' body x = Done (EvInstr Cli :: l) a (restored r' (Z.land (fl (core x)) 0xFCFFFF) x2).
Proof.
  intros Hr' Hs Hp Hb Hp2 Hs2. unfold critical, mbind, M_bind. rewrite save_flags_run by done. cbn [bind_run prepend].
  rewrite cli_run by exact Hp. cbn [bind_run prepend]. unfold section_start in Hb. cbv zeta in Hb. rewrite Hb.
  cbn [bind_run prepend]. rewrite restore_flags_run by (done || apply shown_u64).
  cbn [bind_run prepend mret M_ret app]. by rewrite !app_nil_r.
Qed.

(** A critical section runs with interrupts off and gives back the flags it
    was entered with: whatever the body does to them (another critical section,
    arithmetic, [sti]), every flag that software can set, the interrupt flag
    among them, is at the end as at the beginning; so sections nest, and one
    that is entered with interrupts off leaves them off. *)
Theorem critical_section {A} r r' (body : M x86 A) x l a x2 :
  r' ≠ RSP → stack_ok (core x) → cpl (core x) = 0 →
  body (section_start r x) = Done l a x2 → cpl (core x2) = 0 → stack_ok (core x2) →
  irq_enabled (fl (core (section_start r x))) = false ∧
  ∃ x', critical r r' body x = Done (EvInstr Cli :: l) a x' ∧
    irq_enabled (fl (core x')) = irq_enabled (fl (core x)) ∧
    ∀ i, 0 ≤ i → Z.testbit popf_bits i = true → Z.testbit (fl (core x')) i = Z.testbit (fl (core x)) i.
Proof.
  intros Hr' Hs Hp Hb Hp2 Hs2. split; [exact (irq_enabled_cli _)|].
  eexists. split; [by apply critical_run|]. split; [|intros i; exact (flags_set_saved _ _ i)].
  etransitivity; [exact (irq_enabled_set _ _)|apply irq_enabled_saved].
Qed.

(** ** 64-bit values in two halves *)

Lemma two_halves v : is_u64 v → Z.lor (u64 (Z.shiftl (u32 (Z.shiftr v 32)) 32)) (u32 v) = v.
Proof.
  unfold is_u64. intros Hv. apply Z.bits_inj'. intros i Hi. rewrite Z.lor_spec, testbit_u64, Z.shiftl_spec by done.
  unfold u32. destruct (Z.ltb_spec i 32).
  - rewrite (Z.testbit_neg_r _ (i - 32)) by lia. rewrite andb_false_r. by apply Z.mod_pow2_bits_low.
  - rewrite (Z.mod_pow2_bits_high v) by lia. rewrite orb_false_r.
    destruct (Z.ltb_spec i 64); [|by rewrite (testbit_above v 64) by (done || lia)].
    rewrite Z.mod_pow2_bits_low, Z.shiftr_spec by lia. by rewrite Z.sub_add.
Qed.
Lemma halves_sum v : is_u64 v → 2 ^ 32 * u32 (u32 (Z.shiftr v 32)) + u32 (u32 v) = v.
Proof.
  intros Hv. unfold is_u64, u32 in *. rewrite !Z.mod_mod, Z.shiftr_div_pow2 by lia.
  rewrite (Z.mod_small (v `div` 2 ^ 32)).
  - pose proof (Z.div_mod v (2 ^ 32)). lia.
  - split; [by apply Z.div_pos; lia|]. apply Z.div_lt_upper_bound; lia.
Qed.
Lemma u32_idem v : u32 (u32 v) = u32 v.
Proof. unfold u32. by rewrite Z.mod_mod. Qed.

(** ** Model-specific registers *)

Section msr.
Context `{Processor}.

Lemma wrmsr_run m v x : is_u64 v → cpl (core x) = 0 →
  ∃ g, let x1 := x <| core := (core x) <| gpr := g |> |> in
  wrmsr m v x = match msr_write (u32 m) v with
                | Some w => Done [] tt (set_msr (u32 m) w x1)
                | None => Panic [] "#GP" x1
                end.
Proof.
  intros Hv Hp. destruct x as [[g a f cs ss d lg pg e mm] c0 c2 c4 ms t]. unfold cpl in Hp. cbn [core sel_cs] in Hp.
  exists (setr RDX (u32 (Z.shiftr v 32)) (setr RAX (u32 v) (setr RCX (u32 m) g))).
  unfold wrmsr, wrmsr_insn, privileged, wr, rd, in_core, cpl, mbind, M_bind, modify, gets, greg, set_reg.
  cbn [bind_run prepend core setter app eta_expand eta_x86 eta_cpu sel_cs gpr]. rewrite Hp.
  cbn [Z.eqb mret M_ret bind_run prepend core setter app eta_expand eta_x86 eta_cpu sel_cs gpr].
  rewrite getr_setr_eq, !(getr_setr_ne RDX), getr_setr_eq, !(getr_setr_ne RAX), getr_setr_eq by done.
  rewrite u32_idem, halves_sum by done. by destruct (msr_write (u32 m) v).
Qed.

Lemma rdmsr_run m x : cpl (core x) = 0 →
  ∃ g, let x1 := x <| core := (core x) <| gpr := g |> |> in
  rdmsr m x = match get_msr (u32 m) x with
              | Some v => Done [] (Z.lor (u64 (Z.shiftl (u32 (Z.shiftr v 32)) 32)) (u32 v)) x1
              | None => Panic [] "#GP" x1
              end.
Proof.
  intros Hp. destruct x as [[g a f cs ss d lg pg e mm] c0 c2 c4 ms t]. unfold cpl in Hp. cbn [core sel_cs] in Hp.
  exists (match get_msr (u32 m) (X86 (Cpu g a f cs ss d lg pg e mm) c0 c2 c4 ms t) with
          | Some v => setr RDX (u32 (Z.shiftr v 32)) (setr RAX (u32 v) (setr RCX (u32 m) g))
          | None => setr RCX (u32 m) g end).
  unfold rdmsr, rdmsr_insn, to_edx_eax, privileged, wr, rd, in_core, cpl, mbind, M_bind, modify, gets, greg, set_reg.
  cbn [bind_run prepend core setter app eta_expand eta_x86 eta_cpu sel_cs gpr]. rewrite Hp.
  cbn [Z.eqb mret M_ret bind_run prepend core setter app eta_expand eta_x86 eta_cpu sel_cs gpr].
  rewrite getr_setr_eq, u32_idem.
  assert (∀ g', get_msr (u32 m) (X86 (Cpu g' a f cs ss d lg pg e mm) c0 c2 c4 ms t) =
    get_msr (u32 m) (X86 (Cpu g a f cs ss d lg pg e mm) c0 c2 c4 ms t)) as -> by done.
  destruct (get_msr _ _) as [v|]; [|done].
  cbn [bind_run prepend core setter app eta_expand eta_x86 eta_cpu gpr]. rewrite getr_setr_eq, (getr_setr_ne RDX), getr_setr_eq by done.
  by rewrite !u32_idem.
Qed.

Lemma get_set_msr m m' v x : get_msr m' (set_msr m v x) = if decide (m' = m) then Some v else get_msr m' x.
Proof.
  unfold get_msr, set_msr. destruct (Z.eqb_spec m MSR_EFER) as [->|Hm], (Z.eqb_spec m' MSR_EFER) as [->|Hm'];
    case_decide; subst; try done; cbn [msrs setter eta_expand eta_x86].
  - by rewrite lookup_insert_eq.
  - by rewrite lookup_insert_ne.
Qed.

(** [wrmsr] and [rdmsr] take a 64-bit value apart and put it together again:
    what the processor stores of a value that it accepts is what [rdmsr] of the
    same register returns, in all 64 bits, and no other register changes; a
    value or a register that the processor rejects is a fault in both. *)
Theorem msr_roundtrip m v x :
  is_u64 v → cpl (core x) = 0 →
  match msr_write (u32 m) v with
  | Some w => is_u64 w → ∃ x' x'', wrmsr m v x = Done [] tt x' ∧ rdmsr m x' = Done [] w x'' ∧
      ∀ m', u32 m' ≠ u32 m → get_msr (u32 m') x'' = get_msr (u32 m') x
  | None => ∃ x', wrmsr m v x = Panic [] "#GP" x'
  end.
Proof.
  intros Hv Hp. destruct (wrmsr_run m v x Hv Hp) as [g ->]. cbv zeta.
  destruct (msr_write (u32 m) v) as [w|]; [|by eexists]. intros Hw.
  set (x' := set_msr _ _ _).
  assert (cpl (core x') = 0) as Hp' by (unfold x', set_msr; by destruct (u32 m =? MSR_EFER)).
  destruct (rdmsr_run m x' Hp') as [g' Hr]. cbv zeta in Hr.
  assert (get_msr (u32 m) x' = Some w) as Hg by (unfold x'; by rewrite get_set_msr, decide_True).
  rewrite Hg in Hr.  rewrite two_halves in Hr by done. eexists _, _. split; [done|]. split; [exact Hr|].
  intros m' Hm. transitivity (get_msr (u32 m') x'); [done|]. unfold x'. by rewrite get_set_msr, decide_False.
Qed.

(** A register that does not exist faults on reading. *)
Lemma rdmsr_missing m x : cpl (core x) = 0 → get_msr (u32 m) x = None → ∃ x', rdmsr m x = Panic [] "#GP" x'.
Proof. intros Hp Hn. destruct (rdmsr_run m x Hp) as [g ->]. rewrite Hn. by eexists. Qed.
End msr.

(** ** CR3, the time-stamp counter and the table registers *)

(** [tlb_flush_all] reloads CR3 with its own value: the page tables stay the
    same and every remembered translation is gone, so that after it the
    processor agrees with the tables in memory whatever was done to them before,
    and from there through any sequence of updates. *)
Theorem tlb_flush_all_coherent `{Link, Processor} x tables own t :
  cpl (core x) = 0 → cr_write 3 (page_root (core x)) = Some (page_root (core x)) → pt_wf tables (page_root (core x)) own →
  ∃ l, tlb_flush_all x = Done l tt x ∧
  let c := cpu_events l (page_root (core x), t) in
  c = (page_root (core x), ∅) ∧
  ∀ m', rtc mmu_step (Mmu tables c.1 c.2 None) m' → due m' = None →
    ∀ v, entry_used m' v = leaf (Tlb.tables m') (root m') (path_of v).
Proof.
  intros Hp Hw Hwf. exists [EvInstr (WriteCr3 (page_root (core x)))]. split.
  - destruct x as [[g a f cs ss d lg pg e mm] c0 c2 c4 ms ts]. unfold cpl in Hp. cbn [core sel_cs page_root] in *.
    unfold tlb_flush_all, read_cr3, write_cr3, write_cr, privileged, cpl, mbind, M_bind, gets.
    cbn [bind_run prepend core app sel_cs]. rewrite Hp. cbn [Z.eqb mret M_ret bind_run prepend core app sel_cs page_root].
    rewrite Hp. cbn [Z.eqb mret M_ret bind_run prepend core app]. by rewrite Hw.
  - cbv zeta. split; [done|]. intros m' Hs Hd v.
    assert (mmu_ok (Mmu tables (page_root (core x)) ∅ None)) as Hok by (split; [by exists own|done]).
    apply entry_used_ok; [by eapply mmu_reachable_ok|]. by rewrite Hd.
Qed.

Lemma rdtsc_run x : is_u64 (tsc x) → ∃ x', rdtsc x = Done [] (tsc x) x'.
Proof.
  intros Ht. destruct x as [[g a f cs ss d lg pg e mm] c0 c2 c4 ms t]. cbn [tsc] in *.
  unfold rdtsc, rdtsc_insn, to_edx_eax, wr, rd, in_core, mbind, M_bind, modify, gets, greg, set_reg.
  cbn [bind_run prepend core setter app eta_expand eta_x86 eta_cpu gpr tsc].
  rewrite getr_setr_eq, (getr_setr_ne RDX), getr_setr_eq by done. rewrite !u32_idem, two_halves by done. by eexists.
Qed.

(** The operand of [lgdt] and [lidt] is the structure that the C code fills in. *)
Lemma lgdt_operand x p : cpl (core x) = 0 →
  let m := ram (core x) in
  lgdt p x = Done [EvInstr (Lgdt (ld_field m p gdtr_t "limit") (ld_field m p gdtr_t "base"))] tt x ∧
  lidt p x = Done [EvInstr (Lidt (ld_field m p gdtr_t "limit") (ld_field m p gdtr_t "base"))] tt x.
Proof.
  intros Hp m. assert (ld_field m p gdtr_t "limit" = ld16 m p) as ->.
  { transitivity (ld_le m (p + 0) 2); [reflexivity|]. by rewrite Z.add_0_r. }
  assert (ld_field m p gdtr_t "base" = ld64 m (p + 2)) as -> by done.
  unfold lgdt, lidt, privileged, mbind, M_bind, gets. cbn [bind_run prepend app]. by rewrite Hp.
Qed.

(** ** Selectors and vectors

    The two headers name segments and interrupt vectors; here is what the tables
    that gdt.c and idt.c build have behind those numbers. *)

Module Selectors.
(** include/kernel.h *)
Definition GDT_NULL : Z := 0x00.
Definition GDT_KERNEL_DATA : Z := 0x10.
Definition GDT_USER_CODE32 : Z := 0x18.
Definition GDT_USER_DATA : Z := 0x20.
Definition GDT_USER_CODE64 : Z := 0x28.
Definition GDT_TSS : Z := 0x30.
Definition SEL_USER_CODE : Z := Z.lor GDT_USER_CODE64 3.
Definition SEL_USER_DATA : Z := Z.lor GDT_USER_DATA 3.
End Selectors.

Module OldSelectors.
(** include/arch/x86_64.h *)
Definition GDT_USER_CODE : Z := 0x1B.
Definition GDT_USER_DATA : Z := 0x23.
Definition GDT_TSS : Z := 0x28.
End OldSelectors.

Module Vectors.
Definition IDT_DIVIDE_ERROR : Z := 0.
Definition IDT_DEBUG : Z := 1.
Definition IDT_NMI : Z := 2.
Definition IDT_BREAKPOINT : Z := 3.
Definition IDT_OVERFLOW : Z := 4.
Definition IDT_BOUND : Z := 5.
Definition IDT_INVALID_OPCODE : Z := 6.
Definition IDT_DEVICE_NA : Z := 7.
Definition IDT_DOUBLE_FAULT : Z := 8.
Definition IDT_INVALID_TSS : Z := 10.
Definition IDT_SEGMENT_NP : Z := 11.
Definition IDT_STACK_FAULT : Z := 12.
Definition IDT_GPF : Z := 13.
Definition IDT_FPU_ERROR : Z := 16.
Definition IDT_ALIGNMENT : Z := 17.
Definition IDT_MACHINE_CHECK : Z := 18.
Definition IDT_SIMD_ERROR : Z := 19.
Definition IDT_SYSCALL : Z := 0x80.
Definition IDT_TIMER : Z := IDT_IRQ_BASE + 0.
Definition IDT_KEYBOARD : Z := IDT_IRQ_BASE + 1.
End Vectors.

(** Code or data, 64-bit or not, and the privilege level of a present segment. *)
Definition segment `{Link} (m : mem) (sel : Z) : option (bool * bool * Z) :=
  if desc_present m sel then Some (desc_code m sel, desc_long m sel, desc_dpl m sel) else None.

(** The names of kernel.h are those of the segments, and a user selector asks
    for the level its segment has; of the names of x86_64.h two are wrong: the
    user code segment is a 32-bit one, and the task-state segment is 64-bit user
    code. *)
Lemma selectors_name_segments `{Link} m : flat_gdt m →
  (null_sel Selectors.GDT_NULL = true ∧
   segment m GDT_KERNEL_CODE = Some (true, true, 0) ∧ segment m Selectors.GDT_KERNEL_DATA = Some (false, false, 0) ∧
   segment m Selectors.GDT_USER_CODE32 = Some (true, false, 3) ∧ segment m Selectors.GDT_USER_DATA = Some (false, false, 3) ∧
   segment m Selectors.GDT_USER_CODE64 = Some (true, true, 3) ∧
   segment m Selectors.SEL_USER_CODE = Some (true, true, Selectors.SEL_USER_CODE `mod` 4) ∧
   segment m Selectors.SEL_USER_DATA = Some (false, false, Selectors.SEL_USER_DATA `mod` 4)) ∧
  segment m OldSelectors.GDT_USER_DATA = Some (false, false, 3) ∧
  segment m OldSelectors.GDT_USER_CODE = Some (true, false, 3) ∧
  segment m OldSelectors.GDT_TSS = Some (true, true, 3).
Proof.
  intros Hm.
  assert (∀ i base limit access flags sel, gdt_spec !! i = Some (base, limit, access, flags) → sel `div` 8 = Z.of_nat i →
    segment m sel = if Z.testbit access 7 then Some (Z.testbit access 3, Z.testbit flags 1, (access `div` 32) `mod` 4) else None)
    as Hs.
  { intros i base limit access flags sel Hi Hd. destruct (Hm i base limit access flags Hi) as [Ha Hf].
    unfold segment, desc_present, desc_code, desc_long, desc_dpl, desc. by rewrite Hd, Ha, Hf. }
  pose proof (λ sel, Hs 1%nat _ _ _ _ sel eq_refl) as H1. pose proof (λ sel, Hs 2%nat _ _ _ _ sel eq_refl) as H2.
  pose proof (λ sel, Hs 3%nat _ _ _ _ sel eq_refl) as H3. pose proof (λ sel, Hs 4%nat _ _ _ _ sel eq_refl) as H4.
  pose proof (λ sel, Hs 5%nat _ _ _ _ sel eq_refl) as H5.
  split_and!; [done|exact (H1 GDT_KERNEL_CODE eq_refl)|exact (H2 Selectors.GDT_KERNEL_DATA eq_refl)|exact (H3 Selectors.GDT_USER_CODE32 eq_refl)|
    exact (H4 Selectors.GDT_USER_DATA eq_refl)|exact (H5 Selectors.GDT_USER_CODE64 eq_refl)|
    exact (H5 Selectors.SEL_USER_CODE eq_refl)|exact (H4 Selectors.SEL_USER_DATA eq_refl)|
    exact (H4 OldSelectors.GDT_USER_DATA eq_refl)|exact (H3 OldSelectors.GDT_USER_CODE eq_refl)|
    exact (H5 OldSelectors.GDT_TSS eq_refl)].
Qed.

(** What a panic calls an exception is what its vector is. *)
Lemma vectors_named :
  (λ v, exception_names !! Z.to_nat v) <$>
    [Vectors.IDT_DIVIDE_ERROR; Vectors.IDT_DEBUG; Vectors.IDT_NMI; Vectors.IDT_BREAKPOINT; Vectors.IDT_OVERFLOW;
     Vectors.IDT_BOUND; Vectors.IDT_INVALID_OPCODE; Vectors.IDT_DEVICE_NA; Vectors.IDT_DOUBLE_FAULT;
     Vectors.IDT_INVALID_TSS; Vectors.IDT_SEGMENT_NP; Vectors.IDT_STACK_FAULT; Vectors.IDT_GPF; IDT_PAGE_FAULT;
     Vectors.IDT_FPU_ERROR; Vectors.IDT_ALIGNMENT; Vectors.IDT_MACHINE_CHECK; Vectors.IDT_SIMD_ERROR] =
  Some <$>
    ["Divide Error"; "Debug"; "NMI"; "Breakpoint"; "Overflow"; "Bound Range"; "Invalid Opcode"; "Device Not Available";
     "Double Fault"; "Invalid TSS"; "Segment Not Present"; "Stack Fault"; "General Protection"; "Page Fault"; "FPU Error";
     "Alignment Check"; "Machine Check"; "SIMD Error"].
Proof. reflexivity. Qed.

(** ** Page-table entries *)

Definition PTE_WRITETHROUGH : Z := BIT 3.
Definition PTE_NOCACHE : Z := BIT 4.
Definition PTE_ACCESSED : Z := BIT 5.
Definition PTE_DIRTY : Z := BIT 6.
Definition PTE_HUGE : Z := BIT 7.
Definition PTE_GLOBAL : Z := BIT 8.
Definition PTE_NX : Z := BIT 63.
Definition pte_flags : list Z :=
  [PTE_PRESENT; PTE_WRITABLE; PTE_USER; PTE_WRITETHROUGH; PTE_NOCACHE; PTE_ACCESSED; PTE_DIRTY; PTE_HUGE; PTE_GLOBAL; PTE_NX].

(** No flag lies in the address field, so any of them can be passed to [vmm_map]:
    the entry gives back the frame, and the flags with the present bit. *)
Lemma page_entry_fields phys fs :
  Forall (λ f, f ∈ pte_flags) fs →
  let e := page_entry phys (foldr Z.lor 0 fs) in
  PTE_PHYS e = Z.land phys PTE_ADDR_MASK ∧
  Z.land e (Z.lnot PTE_ADDR_MASK) = Z.lor (foldr Z.lor 0 fs) PTE_PRESENT.
Proof.
  intros Hfs. assert (Forall (λ f, Z.land f PTE_ADDR_MASK = 0) pte_flags) as Hall by (apply (bool_decide_unpack _); by vm_compute).
  assert (Z.land (foldr Z.lor 0 fs) PTE_ADDR_MASK = 0) as Hd.
  { induction Hfs as [|f fs Hf Hfs IH]; [done|]. cbn [foldr]. rewrite Forall_forall in Hall.
    by rewrite Z.land_lor_distr_l, IH, Hall. }
  set (flags := foldr Z.lor 0 fs) in *. clearbody flags.
  assert (∀ i, 0 ≤ i → Z.testbit flags i && Z.testbit PTE_ADDR_MASK i = false) as Hb.
  { intros i Hi. by rewrite <- Z.land_spec, Hd, Z.testbit_0_l. }
  assert (∀ i, 0 ≤ i → Z.testbit PTE_PRESENT i && Z.testbit PTE_ADDR_MASK i = false) as Hp.
  { intros i Hi. rewrite <- Z.land_spec. assert (Z.land PTE_PRESENT PTE_ADDR_MASK = 0) as -> by done. apply Z.testbit_0_l. }
  cbv zeta. unfold page_entry, PTE_PHYS.
  split; apply Z.bits_inj'; intros i Hi; specialize (Hb i Hi); specialize (Hp i Hi);
    rewrite !Z.land_spec, !Z.lor_spec, ?Z.lnot_spec, !Z.land_spec by done;
    destruct (Z.testbit flags i), (Z.testbit PTE_ADDR_MASK i), (Z.testbit PTE_PRESENT i), (Z.testbit phys i); done.
Qed.

(** ** Witnesses *)

Definition regs_demo : regs := Regs 1 2 3 4 5 6 7 0x9000 9 10 11 12 13 14 15 16.
(** Interrupts on, carry set. *)
Definition x86_demo : x86 :=
  X86 (Cpu regs_demo 0x100000 0x203 0x08 0x10 (Segs 0x10 0x10 0x10 0x10) true demo_root 0x500 ∅) 0x80000011 0 0x20
    {[0xC0000100 := 0]} 77.
(** A processor that takes any value of the register it has. *)
Definition demo_processor : Processor := {|
  cr_write _ v := Some v;
  msr_write m v := if m =? 0xC0000100 then Some v else None;
|}.

Lemma irq_flag_refines_witness :
  let s := (kernel_zero vmm_demo) <| k_if := true |> in
  flag_sim x86_demo s ∧ ∃ f b x', save_flags RAX x86_demo = Done [] f x' ∧ Kernel.save_flags s = Done [] b s ∧
    irq_enabled f = b ∧ ∃ x'' s'', restore_flags RAX 0x203 x86_demo = Done [] tt x'' ∧
    Kernel.restore_flags true s = Done [] tt s'' ∧ flag_sim x'' s''.
Proof.
  cbv zeta. set (s := _ <| k_if := true |>).
  assert (flag_sim x86_demo s) as Hsim by (split; [done|split; by vm_compute|by vm_compute]).
  split; [exact Hsim|].
  destruct (irq_flag_refines RAX x86_demo s ltac:(done) Hsim) as ((f & b & x' & H1 & H2 & _ & H3 & _) & _ & _ & H4).
  exists f, b, x'. split; [exact H1|]. split; [exact H2|]. split; [exact H3|].
  destruct (H4 0x203 ltac:(split; by vm_compute)) as (x'' & s'' & H5 & H6 & H7 & _).
  exists x'', s''. split; [exact H5|]. split; [exact H6|exact H7].
Defined.

(** A section inside a section. *)
Lemma critical_section_witness :
  ∃ x', critical RAX RCX (critical RDX RSI sti) x86_demo =
      Done (EvInstr Cli :: [EvInstr Cli; EvInstr Sti]) tt x' ∧ irq_enabled (fl (core x')) = true.
Proof.
  assert (∃ x2, critical RDX RSI sti (section_start RAX x86_demo) = Done [EvInstr Cli; EvInstr Sti] tt x2 ∧
    cpl (core x2) = 0 ∧ stack_ok (core x2)) as (x2 & Hb & Hp & Hs).
  { eexists. split; [eapply critical_run; [done|split; by vm_compute|reflexivity|by apply sti_run|reflexivity|split; by vm_compute]|].
    split; [reflexivity|split; by vm_compute]. }
  destruct (critical_section RAX RCX (critical RDX RSI sti) x86_demo _ _ x2 ltac:(done)
    ltac:(split; by vm_compute) ltac:(done) Hb Hp Hs) as (_ & x' & H1 & H2 & _).
  exists x'. split; [exact H1|]. rewrite H2. by vm_compute.
Defined.

Lemma msr_roundtrip_witness :
  ∃ x' x'', wrmsr (H:=demo_processor) 0xC0000100 0x123456789ABCDEF0 x86_demo = Done [] tt x' ∧
    rdmsr 0xC0000100 x' = Done [] 0x123456789ABCDEF0 x'' ∧ get_msr MSR_EFER x'' = Some 0x500.
Proof.
  destruct (msr_roundtrip (H:=demo_processor) 0xC0000100 0x123456789ABCDEF0 x86_demo ltac:(split; by vm_compute) eq_refl
    ltac:(split; by vm_compute)) as (x' & x'' & H1 & H2 & H3).
  exists x', x''. split; [exact H1|]. split; [exact H2|]. exact (H3 MSR_EFER ltac:(by vm_compute)).
Defined.

Lemma tlb_flush_all_coherent_witness :
  ∃ l, tlb_flush_all (H:=demo_processor) x86_demo = Done l tt x86_demo ∧
  cpu_events l (demo_root, stale) = (demo_root, ∅).
Proof.
  destruct (tlb_flush_all_coherent (H:=demo_link) (H0:=demo_processor) x86_demo vmm_demo _ stale eq_refl eq_refl vmm_demo_wf)
    as (l & H1 & H2 & _).
  exists l. split; [exact H1|exact H2].
Defined.
